(** * cdok: Calcudoku solver and generator -- shallow embedding

    The C sources (cdok.h, cdok.c, solver.c, generator.c, parser.c,
    printer.c and read_puzzle of main.c) are embedded as
    Rocq functions over [Z].  Conventions:

    - C [int] values are mathematical integers ([Z]).  Signed overflow is
      undefined in C, so the model describes the executions in which it
      does not occur.
    - [uint8_t], [uint16_t] ([cdok_set_t]) and [unsigned int] stores are
      written with their wrap-around ([cdok_set_cast], [uint8_cast],
      [uint_cast]).
    - Arrays are lists; [rd] reads an index and [wr] writes one.  A write
      outside the list leaves it unchanged and a read outside returns 0
      (C has undefined behaviour there).
    - Shifts are [Z.shiftl] and [Z.shiftr]; C leaves a shift by a
      negative amount, or by the width of the type and above, undefined.
      The source's [/] and [%] are [Z.quot] and [Z.rem]; C leaves a
      division by 0 undefined.  Where C leaves an operation undefined
      the model still has a value, which need not be the program's:
      hypotheses such as [targets_fit] name the inputs on which the
      shifts of [CDOK_SET_SINGLE] stay below 32, the divisors differ
      from 0 and the products stay inside [int].
    - [for] loops over an index range are folds over [range]; the other
      loops and the recursive functions take a fuel argument.  Where the
      fuel can run out the result is an [option] and [None] says so;
      the properties part shows that the fuel granted is enough.
    - [random()] is an oracle [nat -> nat] together with the number of
      draws made so far, threaded through the generator. *)

From Stdlib Require Import ZArith List Lia Bool Relations Sorted
  Permutation.
Import ListNotations.
Open Scope Z_scope.

(** ** Arrays *)

Definition rd (l : list Z) (i : Z) : Z := nth (Z.to_nat i) l 0.

Fixpoint upd {A : Type} (l : list A) (n : nat) (v : A) : list A :=
  match l, n with
  | [], _ => []
  | _ :: t, O => v :: t
  | h :: t, S k => h :: upd t k v
  end.

Definition wr (l : list Z) (i : Z) (v : Z) : list Z :=
  if i <? 0 then l else upd l (Z.to_nat i) v.

(** [range lo hi] is the index sequence of [for (i = lo; i < hi; i++)]. *)
Definition range (lo hi : Z) : list Z :=
  map (fun k => lo + Z.of_nat k) (seq 0 (Z.to_nat (hi - lo))).

(** ** cdok.h *)

Definition CDOK_SIZE : Z := 16.
Definition CDOK_GROUPS : Z := 52.
Definition CDOK_CELLS : Z := 256.
Definition CDOK_GROUP_SIZE : Z := 8.
Definition CDOK_GROUP_NONE : Z := 255.

Definition CDOK_POS (x y : Z) : Z := Z.lor (Z.shiftl y 4) x.
Definition CDOK_POS_X (c : Z) : Z := Z.land c 15.
Definition CDOK_POS_Y (c : Z) : Z := Z.shiftr c 4.

(** [cdok_gtype_t]: the enumerators are character codes, and a zeroed
    puzzle holds the value 0 in this field. *)
Definition cdok_gtype_t : Type := Z.
Definition CDOK_SUM : cdok_gtype_t := 43.
Definition CDOK_DIFFERENCE : cdok_gtype_t := 45.
Definition CDOK_PRODUCT : cdok_gtype_t := 42.
Definition CDOK_RATIO : cdok_gtype_t := 47.

Record cdok_group : Type := mk_group {
  g_type : cdok_gtype_t;
  g_target : Z;
  g_size : Z;
  g_members : list Z
}.

Record cdok_puzzle : Type := mk_puzzle {
  p_size : Z;
  p_groups : list cdok_group;
  p_values : list Z;
  p_group_map : list Z
}.

(** [puz->groups[i]]; the all-zero group stands for an index outside the
    array, which the code never uses. *)
Definition zero_group : cdok_group := mk_group 0 0 0 (repeat 0 8).

Definition grp_at (puz : cdok_puzzle) (i : Z) : cdok_group :=
  nth (Z.to_nat i) (p_groups puz) zero_group.

Definition set_grp (puz : cdok_puzzle) (i : Z) (g : cdok_group) : cdok_puzzle :=
  mk_puzzle (p_size puz) (upd (p_groups puz) (Z.to_nat i) g)
            (p_values puz) (p_group_map puz).

(** Conversions to the unsigned types. *)
Definition cdok_set_cast (x : Z) : Z := Z.land x 65535.
Definition uint8_cast (x : Z) : Z := Z.land x 255.
Definition uint_cast (x : Z) : Z := x mod 4294967296.
Definition int_of_uint (x : Z) : Z :=
  if x <? 2147483648 then x else x - 4294967296.

Definition CDOK_SET_SINGLE (c : Z) : Z := Z.shiftl 1 (c - 1).
Definition CDOK_SET_ONES (s : Z) : Z := Z.shiftl 1 s - 1.
Definition CDOK_SET_RANGE (min max : Z) : Z :=
  Z.shiftl (CDOK_SET_ONES (max - min + 1)) (min - 1).

(** Value [v] is in the set [s]: bit [v - 1] is set. *)
Definition cdok_set_mem (v s : Z) : bool := Z.testbit s (v - 1).

(** ** solver.c: group analysis *)

Definition addends_for (target n max : Z) : Z :=
  if (target <? 1) || (n <? 1) then 0
  else if n =? 1 then
    if (1 <=? target) && (target <=? max)
    then cdok_set_cast (CDOK_SET_SINGLE target)
    else 0
  else
    let a_min := target - max * (n - 1) in
    let a_min := if a_min <? 1 then 1 else a_min in
    let a_max := target - (n - 1) in
    let a_max := if a_max >? max then max else a_max in
    if a_min >? a_max then 0
    else cdok_set_cast (CDOK_SET_RANGE a_min a_max).

(** The loop [for (i = 1; i * i < target && i <= max; i++)].  The counter
    starts at 1 and stays at most [max], so the loop takes at most [max]
    turns; [fuel] counts them. *)
Fixpoint factors_loop (fuel : nat) (target max i out : Z) : Z :=
  match fuel with
  | O => out
  | S f =>
    if (i * i <? target) && (i <=? max) then
      let out :=
        if Z.rem target i =? 0 then
          let j := Z.quot target i in
          let out := cdok_set_cast (Z.lor out (CDOK_SET_SINGLE i)) in
          if j <=? max then cdok_set_cast (Z.lor out (CDOK_SET_SINGLE j))
          else out
        else out in
      factors_loop f target max (i + 1) out
    else out
  end.

Definition factors_for (target n max : Z) : Z :=
  if (target <? 1) || (n <? 1) then 0
  else if n =? 1 then
    if (1 <=? target) || (target <=? max)
    then cdok_set_cast (CDOK_SET_SINGLE target)
    else 0
  else factors_loop (Z.to_nat max) target max 1 0.

(** [members] carries the array and its count [nm] together. *)
Definition sum_candidates (target size : Z) (members : list Z) (max : Z) : Z :=
  let nm := Z.of_nat (length members) in
  let partial_sum := fold_left (fun s m => s + m) members 0 in
  addends_for (target - partial_sum) (size - nm) max.

Definition difference_candidates (target size : Z) (members : list Z)
    (max : Z) : Z :=
  let nm := Z.of_nat (length members) in
  let '(max_m, partial_sum) :=
    fold_left (fun '(mm, ps) m => ((if m >? mm then m else mm), ps + m))
              members (-1, 0) in
  let out := 0 in
  let out :=
    if 1 <=? nm
    then Z.lor out (addends_for (max_m * 2 - partial_sum - target)
                                (size - nm) max)
    else out in
  if nm + 1 =? size then
    let sum := target + partial_sum in
    if sum <=? max then cdok_set_cast (Z.lor out (CDOK_SET_SINGLE sum))
    else out
  else
    let min_sum := target + partial_sum + (size - nm - 1) in
    fold_left
      (fun out i =>
         let terms_for_sum :=
           addends_for (i - partial_sum - target) (size - nm - 1) max in
         if terms_for_sum =? 0 then out
         else cdok_set_cast
                (Z.lor out (Z.lor terms_for_sum (CDOK_SET_SINGLE i))))
      (range min_sum (max + 1)) out.

Definition product_candidates (target size : Z) (members : list Z)
    (max : Z) : Z :=
  let nm := Z.of_nat (length members) in
  let partial_product := fold_left (fun p m => p * m) members 1 in
  if Z.rem target partial_product =? 0
  then factors_for (Z.quot target partial_product) (size - nm) max
  else 0.

(** The loop [for (i = 1; i * min_product <= max; i++)].  For
    [min_product >= 1] it takes at most [max] turns, which is the fuel
    [ratio_candidates] grants.  For [min_product <= 0] (a ratio group
    with a target below 1) the C loop can only end by overflowing [i],
    which is undefined; the model stops after [max] turns there. *)
Fixpoint ratio_loop (fuel : nat) (size_left min_product max i out : Z) : Z :=
  match fuel with
  | O => out
  | S f =>
    if i * min_product <=? max then
      let terms_for_product := factors_for i size_left max in
      let out :=
        if terms_for_product =? 0 then out
        else cdok_set_cast
               (Z.lor out (Z.lor terms_for_product
                                 (CDOK_SET_SINGLE (i * min_product)))) in
      ratio_loop f size_left min_product max (i + 1) out
    else out
  end.

Definition ratio_candidates (target size : Z) (members : list Z)
    (max : Z) : Z :=
  let nm := Z.of_nat (length members) in
  let '(partial_product, max_m) :=
    fold_left (fun '(pp, mm) m => (pp * m, (if m >? mm then m else mm)))
              members (1, -1) in
  let out := 0 in
  let out :=
    if (1 <=? nm) &&
       (Z.rem (max_m * max_m) (partial_product * target) =? 0)
    then Z.lor out (factors_for (Z.quot (max_m * max_m)
                                        (partial_product * target))
                                (size - nm) max)
    else out in
  if nm + 1 =? size then
    let product := partial_product * target in
    if product <=? max then cdok_set_cast (Z.lor out (CDOK_SET_SINGLE product))
    else out
  else
    let min_product := partial_product * target in
    ratio_loop (Z.to_nat max) (size - nm - 1) min_product max 1 out.

(** The values of the group's filled cells, in member order. *)
Definition group_known (g : cdok_group) (values : list Z) : list Z :=
  filter (fun v => negb (v =? 0))
         (map (fun i => rd values (rd (g_members g) i)) (range 0 (g_size g))).

Definition group_candidates (g : cdok_group) (values : list Z) (max : Z) : Z :=
  let members := group_known g values in
  if g_type g =? CDOK_SUM then
    sum_candidates (g_target g) (g_size g) members max
  else if g_type g =? CDOK_DIFFERENCE then
    difference_candidates (g_target g) (g_size g) members max
  else if g_type g =? CDOK_PRODUCT then
    product_candidates (g_target g) (g_size g) members max
  else if g_type g =? CDOK_RATIO then
    ratio_candidates (g_target g) (g_size g) members max
  else 0.

(** ** solver.c: row/column analysis *)

Definition build_rc_candidates (values : list Z) (max : Z) : list Z :=
  let '(rows, cols) :=
    fold_left
      (fun '(rows, cols) i =>
         let v := rd values i in
         if v =? 0 then (rows, cols)
         else
           let s := cdok_set_cast (CDOK_SET_SINGLE v) in
           (wr rows (CDOK_POS_Y i) (Z.lor (rd rows (CDOK_POS_Y i)) s),
            wr cols (CDOK_POS_X i) (Z.lor (rd cols (CDOK_POS_X i)) s)))
      (range 0 CDOK_CELLS)
      (repeat 0 (Z.to_nat CDOK_SIZE), repeat 0 (Z.to_nat CDOK_SIZE)) in
  map (fun i =>
         cdok_set_cast
           (Z.lxor (CDOK_SET_ONES max)
                   (Z.lor (rd rows (CDOK_POS_Y i)) (rd cols (CDOK_POS_X i)))))
      (range 0 CDOK_CELLS).

(** [while (s) { s &= (s - 1); count++; }] on a 16-bit set: every turn
    clears the lowest set bit, so 16 turns are enough. *)
Fixpoint count_bits_loop (fuel : nat) (s count : Z) : Z * Z :=
  match fuel with
  | O => (s, count)
  | S f =>
    if s =? 0 then (s, count)
    else count_bits_loop f (cdok_set_cast (Z.land s (s - 1))) (count + 1)
  end.

Definition count_bits (s : Z) : Z := snd (count_bits_loop 16 s 0).

Definition constrain_by_groups (puz : cdok_puzzle) (values candidates : list Z)
    : list Z :=
  fold_left
    (fun candidates i =>
       let g := grp_at puz i in
       if g_size g =? 0 then candidates
       else
         let c := group_candidates g values (p_size puz) in
         fold_left
           (fun candidates j =>
              let m := rd (g_members g) j in
              wr candidates m (Z.land (rd candidates m) c))
           (range 0 (g_size g)) candidates)
    (range 0 CDOK_GROUPS) candidates.

(** Returns -1 when the grid has no empty cell. *)
Definition search_least_free (values candidates : list Z) (max : Z) : Z :=
  fst (fold_left
         (fun st y =>
            fold_left
              (fun '(best, best_count) x =>
                 let c := CDOK_POS x y in
                 if rd values c =? 0 then
                   let count := count_bits (rd candidates c) in
                   if (best <? 0) || (count <? best_count)
                   then (c, count)
                   else (best, best_count)
                 else (best, best_count))
              (range 0 max) st)
         (range 0 max) (-1, 0)).

(** ** solver.c: solver *)

(** [None] stands for the return value -1; otherwise the cell and the
    set stored through [cand_out]. *)
Definition find_candidates (puz : cdok_puzzle) (values : list Z)
    : option (Z * Z) :=
  let candidates := build_rc_candidates values (p_size puz) in
  let candidates := constrain_by_groups puz values candidates in
  let c := search_least_free values candidates (p_size puz) in
  if c <? 0 then None else Some (c, rd candidates c).

(** [ctx_solution] is [None] for a NULL pointer, else the buffer's
    content.  The puzzle pointer is the argument [puz] of the functions
    below. *)
Record solver_context : Type := mk_ctx {
  ctx_solution : option (list Z);
  ctx_values : list Z;
  ctx_count : Z;
  ctx_branch_diff : Z
}.

Definition ctx_set_value (ctx : solver_context) (cell v : Z) : solver_context :=
  mk_ctx (ctx_solution ctx) (wr (ctx_values ctx) cell v)
         (ctx_count ctx) (ctx_branch_diff ctx).

(** The branch taken when the grid is full. *)
Definition solve_record (ctx : solver_context) (branch_diff : Z)
    : solver_context :=
  let ctx :=
    if ctx_count ctx =? 0 then
      mk_ctx (match ctx_solution ctx with
              | Some _ => Some (ctx_values ctx)
              | None => None
              end)
             (ctx_values ctx) (ctx_count ctx) (uint_cast branch_diff)
    else ctx in
  mk_ctx (ctx_solution ctx) (ctx_values ctx)
         (uint_cast (ctx_count ctx + 1)) (ctx_branch_diff ctx).

(** The loop [for (i = 1; i <= ctx->puzzle->size; i++)] of
    [solve_recurse]; [rec] is the recursive call [solve_recurse(ctx, diff)]
    and [vs] the values of [i] still to come. *)
Fixpoint solve_loop (rec : solver_context -> option solver_context)
    (cell candidates : Z) (vs : list Z) (ctx : solver_context)
    : option solver_context :=
  match vs with
  | [] => Some ctx
  | i :: rest =>
    if Z.land candidates (CDOK_SET_SINGLE i) =? 0
    then solve_loop rec cell candidates rest ctx
    else
      match rec (ctx_set_value ctx cell i) with
      | None => None
      | Some ctx =>
        let ctx := ctx_set_value ctx cell 0 in
        if 2 <=? ctx_count ctx then Some ctx
        else solve_loop rec cell candidates rest ctx
      end
  end.

(** The recursion depth is the fuel; [None] means it ran out. *)
Fixpoint solve_recurse (fuel : nat) (puz : cdok_puzzle)
    (ctx : solver_context) (branch_diff : Z) : option solver_context :=
  match fuel with
  | O => None
  | S f =>
    match find_candidates puz (ctx_values ctx) with
    | None => Some (solve_record ctx branch_diff)
    | Some (cell, candidates) =>
      if candidates =? 0 then Some ctx
      else
        let diff := count_bits candidates - 1 in
        let diff := branch_diff + diff * diff in
        solve_loop (fun ctx => solve_recurse f puz ctx diff)
                   cell candidates (range 1 (p_size puz + 1)) ctx
    end
  end.

(** [while (m < puz->size * puz->size) m *= 10;] *)
Fixpoint pow10_loop (fuel : nat) (m bound : Z) : Z :=
  match fuel with
  | O => m
  | S f => if m <? bound then pow10_loop f (m * 10) bound else m
  end.

Definition count_empty (puz : cdok_puzzle) : Z :=
  fold_left
    (fun e y =>
       fold_left
         (fun e x =>
            if rd (p_values puz) (CDOK_POS x y) =? 0 then e + 1 else e)
         (range 0 (p_size puz)) e)
    (range 0 (p_size puz)) 0.

(** [solution] and [diff] are the two output parameters: [None] for a
    NULL pointer, [Some old] for a buffer holding [old].  The result is
    the return value and the final content of both.  The outer [option]
    is [None] only if the recursion ran out of fuel.  The source leaves
    [ctx.branch_diff] uninitialised and reads it only after a solution
    has set it; the model starts it at 0. *)
Definition cdok_solve (puz : cdok_puzzle) (solution : option (list Z))
    (diff : option Z) : option (Z * option (list Z) * option Z) :=
  let ctx := mk_ctx solution (p_values puz) 0 0 in
  match solve_recurse (S (Z.to_nat CDOK_CELLS)) puz ctx 0 with
  | None => None
  | Some ctx =>
    if ctx_count ctx =? 0 then Some (-1, ctx_solution ctx, diff)
    else
      let diff :=
        match diff with
        | None => None
        | Some _ =>
          let m := pow10_loop 10 1 (uint_cast (p_size puz * p_size puz)) in
          let e := count_empty puz in
          Some (int_of_uint (uint_cast (ctx_branch_diff ctx * m + e)))
        end in
      Some (if 1 <? ctx_count ctx then 1 else 0, ctx_solution ctx, diff)
  end.

(** ** cdok.c *)

Definition obind {A B : Type} (o : option A) (f : A -> option B) : option B :=
  match o with
  | Some a => f a
  | None => None
  end.

Notation "'do' x <- e ; k" := (obind e (fun x => k))
  (at level 10, x pattern, e at level 100, k at level 200).

Definition cdok_init_puzzle (size : Z) : cdok_puzzle :=
  mk_puzzle (uint_cast size)
            (repeat (mk_group 0 (-1) 0 (repeat 0 8)) (Z.to_nat CDOK_GROUPS))
            (repeat 0 (Z.to_nat CDOK_CELLS))
            (repeat CDOK_GROUP_NONE (Z.to_nat CDOK_CELLS)).

(** [while (start_x > 0 && map[CDOK_POS(start_x - 1, y)] == src) start_x--;] *)
Fixpoint scan_left (fuel : nat) (map : list Z) (src y start_x : Z) : Z :=
  match fuel with
  | O => start_x
  | S f =>
    if (0 <? start_x) && (rd map (CDOK_POS (start_x - 1) y) =? src)
    then scan_left f map src y (start_x - 1)
    else start_x
  end.

(** [while (end_x + 1 < CDOK_SIZE && map[CDOK_POS(end_x + 1, y)] == src) end_x++;] *)
Fixpoint scan_right (fuel : nat) (map : list Z) (src y end_x : Z) : Z :=
  match fuel with
  | O => end_x
  | S f =>
    if (end_x + 1 <? CDOK_SIZE) && (rd map (CDOK_POS (end_x + 1) y) =? src)
    then scan_right f map src y (end_x + 1)
    else end_x
  end.

(** The result is the map after the call; the fuel bounds the recursion
    depth and [None] means it ran out. *)
Fixpoint cdok_flood_fill (fuel : nat) (map : list Z) (src x y : Z)
    : option (list Z) :=
  match fuel with
  | O => None
  | S f =>
    if negb (rd map (CDOK_POS x y) =? src) then Some map
    else
      let start_x := scan_left (Z.to_nat CDOK_SIZE) map src y x in
      let end_x := scan_right (Z.to_nat CDOK_SIZE) map src y x in
      let span := range start_x (end_x + 1) in
      let map :=
        fold_left (fun m i => wr m (CDOK_POS i y) CDOK_GROUP_NONE) span map in
      do map <- (if 0 <? y
              then fold_left
                     (fun om i => do m <- om; cdok_flood_fill f m src i (y - 1))
                     span (Some map)
              else Some map);
      (if y + 1 <? CDOK_SIZE
       then fold_left
              (fun om i => do m <- om; cdok_flood_fill f m src i (y + 1))
              span (Some map)
       else Some map)
  end.

(** ** generator.c: basic group operations *)

Definition rand_source : Type := nat -> nat.

(** [random()]: the next draw of the oracle. *)
Definition random (rnd : rand_source) (k : nat) : Z * nat :=
  (Z.of_nat (rnd k), S k).

Definition group_alloc (puz : cdok_puzzle) : Z :=
  match find (fun i => g_size (grp_at puz i) =? 0) (range 0 CDOK_GROUPS) with
  | Some i => i
  | None => CDOK_GROUP_NONE
  end.

Definition group_destroy (puz : cdok_puzzle) (grp : Z) (solution : list Z)
    : cdok_puzzle :=
  let g := grp_at puz grp in
  let '(values, group_map) :=
    fold_left
      (fun '(values, group_map) i =>
         let c := rd (g_members g) i in
         (wr values c (rd solution c), wr group_map c CDOK_GROUP_NONE))
      (range 0 (g_size g)) (p_values puz, p_group_map puz) in
  mk_puzzle (p_size puz)
            (upd (p_groups puz) (Z.to_nat grp)
                 (mk_group (g_type g) (g_target g) 0 (g_members g)))
            values group_map.

Definition group_remove (puz : cdok_puzzle) (grp victim : Z)
    (solution : list Z) : cdok_puzzle :=
  let g := grp_at puz grp in
  match find (fun i => rd (g_members g) i =? victim) (range 0 (g_size g)) with
  | None => puz
  | Some i =>
    let c := rd (g_members g) i in
    let members := wr (g_members g) i (rd (g_members g) (g_size g - 1)) in
    mk_puzzle (p_size puz)
              (upd (p_groups puz) (Z.to_nat grp)
                   (mk_group (g_type g) (g_target g)
                             (uint_cast (g_size g - 1)) members))
              (wr (p_values puz) c (rd solution c))
              (wr (p_group_map puz) c CDOK_GROUP_NONE)
  end.

Definition group_add (puz : cdok_puzzle) (grp c : Z) : cdok_puzzle :=
  let g := grp_at puz grp in
  if negb (rd (p_group_map puz) c =? CDOK_GROUP_NONE) then puz
  else if g_size g >=? CDOK_GROUP_SIZE then puz
  else
    mk_puzzle (p_size puz)
              (upd (p_groups puz) (Z.to_nat grp)
                   (mk_group (g_type g) (g_target g) (g_size g + 1)
                             (wr (g_members g) (g_size g) c)))
              (wr (p_values puz) c 0)
              (wr (p_group_map puz) c (uint8_cast grp)).

Definition CDOK_FLAGS_NONE : Z := 0.
Definition CDOK_FLAGS_TWO_CELL : Z := 1.

Definition set_target (puz : cdok_puzzle) (grp t : Z) : cdok_puzzle :=
  let g := grp_at puz grp in
  set_grp puz grp (mk_group (g_type g) t (g_size g) (g_members g)).

Definition set_type (puz : cdok_puzzle) (grp : Z) (t : cdok_gtype_t)
    : cdok_puzzle :=
  let g := grp_at puz grp in
  set_grp puz grp (mk_group t (g_target g) (g_size g) (g_members g)).

(** The result is the return value (0 or -1) and the puzzle. *)
Definition group_update_target (puz : cdok_puzzle) (grp : Z)
    (solution : list Z) (f : Z) : Z * cdok_puzzle :=
  let g := grp_at puz grp in
  if g_size g =? 0 then (0, puz)
  else if ((g_type g =? CDOK_DIFFERENCE) || (g_type g =? CDOK_RATIO)) &&
          (g_size g >? 2) && negb (Z.land f CDOK_FLAGS_TWO_CELL =? 0)
  then (-1, puz)
  else
    let '(max, sum, product) :=
      fold_left
        (fun '(max, sum, product) i =>
           let v := rd solution (rd (g_members g) i) in
           ((if v >? max then v else max), sum + v, product * v))
        (range 0 (g_size g)) (-1, 0, 1) in
    if g_type g =? CDOK_SUM then (0, set_target puz grp sum)
    else if g_type g =? CDOK_DIFFERENCE then
      if (max <? 0) || (max * 2 <? sum) then (-1, puz)
      else (0, set_target puz grp (max * 2 - sum))
    else if g_type g =? CDOK_PRODUCT then (0, set_target puz grp product)
    else if g_type g =? CDOK_RATIO then
      if negb (Z.rem (max * max) product =? 0) then (-1, puz)
      else (0, set_target puz grp (Z.quot (max * max) product))
    else (0, puz).

(** ** generator.c: mutations *)

(** [CDOK_POS(random() % size, random() % size)]: C leaves the order of
    the two calls open; the model takes them in the order in which they
    stand in the expanded macro, the row first. *)
Definition choose_cell (size : Z) (rnd : rand_source) (k : nat) : Z * nat :=
  let '(ry, k) := random rnd k in
  let '(rx, k) := random rnd k in
  (CDOK_POS (Z.rem rx size) (Z.rem ry size), k).

Definition choose_neighbour (size c : Z) (rnd : rand_source) (k : nat)
    : Z * nat :=
  let x := CDOK_POS_X c in
  let y := CDOK_POS_Y c in
  let xn := x + 1 in
  let yn := y + 1 in
  let '(xn, k) :=
    if xn >=? size then (x - 1, k)
    else if x =? 0 then (xn, k)
    else let '(r, k) := random rnd k in
         if Z.land r 1 =? 0 then (xn, k) else (x - 1, k) in
  let '(yn, k) :=
    if yn >=? size then (y - 1, k)
    else if y =? 0 then (yn, k)
    else let '(r, k) := random rnd k in
         if Z.land r 1 =? 0 then (yn, k) else (y - 1, k) in
  let '(r, k) := random rnd k in
  if Z.land r 1 =? 0 then (CDOK_POS x yn, k) else (CDOK_POS xn y, k).

(** One turn of the loop of [cut_islands] over the members: the state is
    the value grid, the group map, the member array and [len]. *)
Definition cut_step (map_copy solution : list Z)
    (st : list Z * list Z * list Z * Z) (i : Z)
    : list Z * list Z * list Z * Z :=
  let '(values, group_map, members, len) := st in
  let c := rd members i in
  if negb (rd map_copy c =? CDOK_GROUP_NONE)
  then (wr values c (rd solution c),
        wr group_map c CDOK_GROUP_NONE, members, len)
  else (values, group_map, wr members len c, len + 1).

Definition cut_islands (puz : cdok_puzzle) (grp : Z) (solution : list Z)
    : option cdok_puzzle :=
  let g := grp_at puz grp in
  let start := rd (g_members g) 0 in
  if g_size g =? 0 then Some puz
  else
    do map_copy <- cdok_flood_fill (S (Z.to_nat CDOK_CELLS)) (p_group_map puz)
                                (uint8_cast grp)
                                (CDOK_POS_X start) (CDOK_POS_Y start);
    let '(values, group_map, members, len) :=
      fold_left (cut_step map_copy solution) (range 0 (g_size g))
                (p_values puz, p_group_map puz, g_members g, 0) in
    let puz :=
      mk_puzzle (p_size puz)
                (upd (p_groups puz) (Z.to_nat grp)
                     (mk_group (g_type g) (g_target g) len members))
                values group_map in
    Some (if len <? 2 then group_destroy puz grp solution else puz).

(** The second loop of [mut_alter_type]: adopt the first type whose
    target can be built. *)
Fixpoint alter_try (puz : cdok_puzzle) (grp : Z) (solution : list Z)
    (f : Z) (types : list cdok_gtype_t) : cdok_puzzle :=
  match types with
  | [] => puz
  | t :: rest =>
    let '(r, puz) := group_update_target (set_type puz grp t) grp solution f in
    if r =? 0 then puz else alter_try puz grp solution f rest
  end.

Definition mut_alter_type (puz : cdok_puzzle) (grp : Z) (solution : list Z)
    (f : Z) (rnd : rand_source) (k : nat) : cdok_puzzle * nat :=
  let types := [CDOK_SUM; CDOK_DIFFERENCE; CDOK_PRODUCT; CDOK_RATIO] in
  let '(types, k) :=
    fold_left
      (fun '(types, k) i =>
         let '(r, k) := random rnd k in
         let j := Z.rem r (i + 1) in
         let tmp := rd types i in
         (wr (wr types i (rd types j)) j tmp, k))
      [3; 2; 1] (types, k) in
  (alter_try puz grp solution f types, k).

Definition mut_remove_cell (puz : cdok_puzzle) (c : Z) (solution : list Z)
    (f : Z) (rnd : rand_source) (k : nat) : option (cdok_puzzle * nat) :=
  let grp := rd (p_group_map puz) c in
  if grp =? CDOK_GROUP_NONE then Some (puz, k)
  else if g_size (grp_at puz grp) <=? 2
  then Some (group_destroy puz grp solution, k)
  else
    let puz := group_remove puz grp c solution in
    do puz <- cut_islands puz grp solution;
    let '(r, puz) := group_update_target puz grp solution f in
    if r <? 0 then Some (mut_alter_type puz grp solution f rnd k)
    else Some (puz, k).

Definition mut_join_cells (puz : cdok_puzzle) (c n : Z) (solution : list Z)
    (f : Z) (rnd : rand_source) (k : nat) : option (cdok_puzzle * nat) :=
  let ngrp := rd (p_group_map puz) n in
  let cgrp := rd (p_group_map puz) c in
  if negb (cgrp =? CDOK_GROUP_NONE) && (ngrp =? cgrp) then Some (puz, k)
  else
    do (puz, k) <- (if negb (cgrp =? CDOK_GROUP_NONE)
                  then mut_remove_cell puz c solution f rnd k
                  else Some (puz, k));
    if negb (ngrp =? CDOK_GROUP_NONE) then
      let puz := group_add puz ngrp c in
      let '(r, puz) := group_update_target puz ngrp solution f in
      if r <? 0 then Some (mut_alter_type puz ngrp solution f rnd k)
      else Some (puz, k)
    else
      let g := group_alloc puz in
      if g =? CDOK_GROUP_NONE then Some (puz, k)
      else
        let puz := group_add puz g c in
        let puz := group_add puz g n in
        Some (mut_alter_type puz g solution f rnd k).

(** ** generator.c: puzzle generator *)

Definition normalize_group (g : cdok_group) : cdok_group :=
  if g_size g =? 0 then g
  else
    let min :=
      fold_left
        (fun min j =>
           if rd (g_members g) j <? rd (g_members g) min then j else min)
        (range 1 (g_size g)) 0 in
    let j := rd (g_members g) min in
    let members := wr (g_members g) min (rd (g_members g) 0) in
    mk_group (g_type g) (g_target g) (g_size g) (wr members 0 j).

Definition normalize_labels (puz : cdok_puzzle) : cdok_puzzle :=
  fold_left (fun puz i => set_grp puz i (normalize_group (grp_at puz i)))
            (range 0 CDOK_GROUPS) puz.

(** The state of the loop in [harden]: the caller's puzzle, the working
    copy, the best score and the number of draws made. *)
Definition harden_state : Type := (cdok_puzzle * cdok_puzzle * Z * nat)%type.

(** One turn of the loop in [harden]. *)
Definition harden_step (solution : list Z) (fl limit : Z) (rnd : rand_source)
    (st : harden_state) : option harden_state :=
  let '(puz, work, best_score, k) := st in
  let '(c, k) := choose_cell (int_of_uint (p_size puz)) rnd k in
  let '(cn, k) := choose_neighbour (int_of_uint (p_size puz)) c rnd k in
  do (work, k) <- mut_join_cells work c cn solution fl rnd k;
  do (r, _, score) <- cdok_solve work None (Some 0);
  let score := match score with Some s => s | None => 0 end in
  if (r =? 0) && (score >? best_score) &&
     ((limit <=? 0) || (score <=? limit))
  then Some (work, work, score, k)
  else Some (puz, work, best_score, k).

Fixpoint harden_loop (n : nat) (solution : list Z) (fl limit : Z)
    (rnd : rand_source) (st : harden_state) : option harden_state :=
  match n with
  | O => Some st
  | S m =>
    do st <- harden_step solution fl limit rnd st;
    harden_loop m solution fl limit rnd st
  end.

(** The result is the caller's puzzle afterwards, the returned score and
    the number of draws made. *)
Definition harden (puz : cdok_puzzle) (solution : list Z) (best_score_in : Z)
    (fl limit : Z) (rnd : rand_source) (k : nat)
    : option (cdok_puzzle * Z * nat) :=
  do (puz, _, best_score, k) <-
    harden_loop 10 solution fl limit rnd (puz, puz, best_score_in, k);
  Some (puz, best_score, k).

(** The loop of [cdok_generate], [n] turns left. *)
Fixpoint generate_loop (n : nat) (solution : list Z) (fl limit target : Z)
    (rnd : rand_source) (puz : cdok_puzzle) (best_score : Z) (k : nat)
    : option (cdok_puzzle * Z * nat) :=
  match n with
  | O => Some (puz, best_score, k)
  | S m =>
    if (target >? 0) && (best_score >=? target)
    then Some (puz, best_score, k)
    else
      do (puz, best_score, k) <- harden puz solution best_score fl limit rnd k;
      generate_loop m solution fl limit target rnd puz best_score k
  end.

(** [puz] is the content of the caller's structure on entry; the result
    is the return value, its content on return and the number of draws
    made. *)
Definition cdok_generate (puz : cdok_puzzle) (solution : list Z) (size : Z)
    (fl iterations limit target : Z) (rnd : rand_source) (k : nat)
    : option (Z * cdok_puzzle * nat) :=
  if size <? 2 then Some (0, puz, k)
  else
    let puz := cdok_init_puzzle size in
    let puz :=
      mk_puzzle (p_size puz) (p_groups puz) solution (p_group_map puz) in
    do (puz, best_score, k) <-
      generate_loop (Z.to_nat iterations) solution fl limit target rnd
                    puz 0 k;
    Some (best_score, normalize_labels puz, k).

(** ** cdok.c: group names *)

(** The parameter is a [uint8_t]: the argument is converted on entry. *)
Definition cdok_char_to_group (ch : Z) : Z :=
  let ch := uint8_cast ch in
  if (65 <=? ch) && (ch <=? 90) then uint8_cast (ch - 65)
  else if (97 <=? ch) && (ch <=? 122) then uint8_cast (ch - 97 + 26)
  else CDOK_GROUP_NONE.

Definition cdok_group_to_char (g : Z) : Z :=
  let g := uint8_cast g in
  if g <? 26 then uint8_cast (g + 65) else uint8_cast (g - 26 + 97).

(** ** generator.c: grid generation *)

(** [values] is the caller's array on entry; the result is the array
    afterwards and the number of draws made. *)
Definition gen_permutation (size : Z) (values : list Z) (rnd : rand_source)
    (k : nat) : list Z * nat :=
  let values :=
    fold_left (fun values i => wr values i (uint8_cast (i + 1)))
              (range 0 size) values in
  fold_left
    (fun '(values, k) i =>
       let '(r, k) := random rnd k in
       let src := Z.rem r (i + 1) in
       let tmp := rd values i in
       (wr (wr values i (rd values src)) src (uint8_cast tmp), k))
    (rev (range 1 size)) (values, k).

Record fill_context : Type := mk_fill {
  f_size : Z;
  f_grid : list Z;
  f_rows_used : list Z;
  f_cols_used : list Z
}.

(** [ctx->rows_used[y] |= mask; ctx->cols_used[x] |= mask; ctx->grid[c] = v;] *)
Definition fill_take (ctx : fill_context) (x y c v mask : Z) : fill_context :=
  mk_fill (f_size ctx)
          (wr (f_grid ctx) c (uint8_cast v))
          (wr (f_rows_used ctx) y (Z.lor (rd (f_rows_used ctx) y) mask))
          (wr (f_cols_used ctx) x (Z.lor (rd (f_cols_used ctx) x) mask)).

(** [ctx->rows_used[y] &= ~mask; ctx->cols_used[x] &= ~mask;] *)
Definition fill_undo (ctx : fill_context) (x y mask : Z) : fill_context :=
  mk_fill (f_size ctx)
          (f_grid ctx)
          (wr (f_rows_used ctx) y
              (cdok_set_cast (Z.land (rd (f_rows_used ctx) y) (Z.lnot mask))))
          (wr (f_cols_used ctx) x
              (cdok_set_cast (Z.land (rd (f_cols_used ctx) x) (Z.lnot mask)))).

(** The loop [for (i = 0; i < ctx->size; i++)] of [fill_grid]; [rec] is
    the recursive call [fill_grid(ctx, x + 1, y)] and [vs] the indices
    still to come.  The result is the return value, the context and the
    number of draws. *)
Fixpoint fill_loop
    (rec : fill_context -> nat -> option (Z * fill_context * nat))
    (used c x y : Z) (choices : list Z) (vs : list Z)
    (ctx : fill_context) (k : nat) : option (Z * fill_context * nat) :=
  match vs with
  | [] => Some (-1, ctx, k)
  | i :: rest =>
    let v := rd choices i in
    let mask := cdok_set_cast (CDOK_SET_SINGLE v) in
    if negb (Z.land used mask =? 0)
    then fill_loop rec used c x y choices rest ctx k
    else
      do (r, ctx, k) <- rec (fill_take ctx x y c v mask) k;
      if r =? 0 then Some (0, ctx, k)
      else fill_loop rec used c x y choices rest (fill_undo ctx x y mask) k
  end.

(** The recursion depth is the fuel; [None] means it ran out.  The local
    array [choices] is not initialised by the source; [gen_permutation]
    writes the entries that are read. *)
Fixpoint fill_grid (fuel : nat) (ctx : fill_context) (x y : Z)
    (rnd : rand_source) (k : nat) : option (Z * fill_context * nat) :=
  match fuel with
  | O => None
  | S f =>
    let '(x, y) := if x >=? f_size ctx then (0, y + 1) else (x, y) in
    if y >=? f_size ctx then Some (0, ctx, k)
    else
      let '(choices, k) :=
        gen_permutation (f_size ctx) (repeat 0 (Z.to_nat CDOK_SIZE)) rnd k in
      let used := Z.lor (rd (f_rows_used ctx) y) (rd (f_cols_used ctx) x) in
      let c := CDOK_POS x y in
      fill_loop (fun ctx k => fill_grid f ctx (x + 1) y rnd k)
                used c x y choices (range 0 (f_size ctx)) ctx k
  end.

(** The result is the return value of [fill_grid] (the source calls
    [abort()] when it is negative), the grid and the number of draws. *)
Definition cdok_generate_grid (size : Z) (rnd : rand_source) (k : nat)
    : option (Z * list Z * nat) :=
  let values := repeat 0 (Z.to_nat CDOK_CELLS) in
  let '(top_row, k) :=
    gen_permutation size (repeat 0 (Z.to_nat CDOK_SIZE)) rnd k in
  let '(values, cols_used) :=
    fold_left
      (fun '(values, cols_used) i =>
         (wr values (CDOK_POS i 0) (rd top_row i),
          wr cols_used i (cdok_set_cast (CDOK_SET_SINGLE (rd top_row i)))))
      (range 0 size) (values, repeat 0 (Z.to_nat CDOK_SIZE)) in
  let ctx := mk_fill size values (repeat 0 (Z.to_nat CDOK_SIZE)) cols_used in
  do (r, ctx, k) <- fill_grid (S (Z.to_nat CDOK_CELLS)) ctx 0 1 rnd k;
  Some (r, f_grid ctx, k).

(** ** parser.c *)

(** The text is a list of character codes.  [isspace] and [isdigit] are
    those of the C locale, the only one the program runs in. *)
Definition isspace (ch : Z) : bool :=
  (ch =? 32) || ((9 <=? ch) && (ch <=? 13)).

Definition isdigit (ch : Z) : bool := (48 <=? ch) && (ch <=? 57).

(** [struct cdok_parser]. *)
Record cdok_parser : Type := mk_parser {
  ps_eof : Z;
  ps_x : Z;
  ps_y : Z;
  ps_max_x : Z;
  ps_value : Z;
  ps_group_name : Z;
  ps_group_type : cdok_gtype_t
}.

(** The result is the puzzle with every cell of a group mapped to the
    group. *)
Definition build_group_map (puz : cdok_puzzle) : cdok_puzzle :=
  let group_map := repeat CDOK_GROUP_NONE (Z.to_nat CDOK_CELLS) in
  let group_map :=
    fold_left
      (fun group_map i =>
         let g := grp_at puz i in
         fold_left
           (fun group_map j => wr group_map (rd (g_members g) j) (uint8_cast i))
           (range 0 (g_size g)) group_map)
      (range 0 CDOK_GROUPS) group_map in
  mk_puzzle (p_size puz) (p_groups puz) (p_values puz) group_map.

(** The return value; [None] only if a flood fill ran out of fuel. *)
Definition validate_group_map (puz : cdok_puzzle) : option Z :=
  do map <-
    fold_left
      (fun om i =>
         do map <- om;
         let g := grp_at puz i in
         let start := rd (g_members g) 0 in
         if negb (g_size g =? 0)
         then cdok_flood_fill (S (Z.to_nat CDOK_CELLS)) map (uint8_cast i)
                              (CDOK_POS_X start) (CDOK_POS_Y start)
         else Some map)
      (range 0 CDOK_GROUPS) (Some (p_group_map puz));
  match find (fun i => negb (rd map i =? CDOK_GROUP_NONE))
             (range 0 CDOK_CELLS) with
  | Some _ => Some (-1)
  | None => Some 0
  end.

(** The checks that [validate_groups] makes of a group in use, in the
    order of the source. *)
Definition group_fault (g : cdok_group) : bool :=
  if g_size g =? 0 then false
  else if g_type g =? 0 then true
  else if g_target g <? 0 then true
  else if g_size g <? 2 then true
  else ((g_type g =? CDOK_RATIO) || (g_type g =? CDOK_PRODUCT)) &&
       (g_target g =? 0).

Definition validate_groups (puz : cdok_puzzle) : Z :=
  match find (fun i => group_fault (grp_at puz i)) (range 0 CDOK_GROUPS) with
  | Some _ => -1
  | None => 0
  end.

(** The result is the parser and the puzzle it clears. *)
Definition cdok_parser_init : cdok_parser * cdok_puzzle :=
  (mk_parser 0 0 0 0 (-1) CDOK_GROUP_NONE 0, cdok_init_puzzle 0).

(** The assignments that end a cell. *)
Definition next_cell (p : cdok_parser) : cdok_parser :=
  mk_parser (ps_eof p) (uint_cast (ps_x p + 1)) (ps_y p) (ps_max_x p)
            (-1) CDOK_GROUP_NONE 0.

(** The result is the return value, the parser and the puzzle; on an
    error they are as the function leaves them. *)
Definition parser_end_cell (p : cdok_parser) (puz : cdok_puzzle)
    : Z * cdok_parser * cdok_puzzle :=
  if (ps_value p <? 0) && (ps_group_name p =? CDOK_GROUP_NONE)
  then (0, p, puz)
  else if (ps_x p >=? CDOK_SIZE) || (ps_y p >=? CDOK_SIZE)
  then (-1, p, puz)
  else if negb (ps_group_name p =? CDOK_GROUP_NONE) then
    let name := ps_group_name p in
    let g := grp_at puz name in
    if g_size g >=? CDOK_GROUP_SIZE then (-1, p, puz)
    else
      let g := mk_group (g_type g) (g_target g) (uint_cast (g_size g + 1))
                        (wr (g_members g) (g_size g)
                            (CDOK_POS (ps_x p) (ps_y p))) in
      if (ps_value p >=? 0) && (g_target g >=? 0) &&
         negb (ps_value p =? g_target g)
      then (-1, p, set_grp puz name g)
      else
        let g := if ps_value p >=? 0
                 then mk_group (g_type g) (ps_value p) (g_size g) (g_members g)
                 else g in
        if negb (ps_group_type p =? 0) && negb (g_type g =? 0) &&
           negb (g_type g =? ps_group_type p)
        then (-1, p, set_grp puz name g)
        else
          let g := if negb (ps_group_type p =? 0)
                   then mk_group (ps_group_type p) (g_target g) (g_size g)
                                 (g_members g)
                   else g in
          (0, next_cell p, set_grp puz name g)
  else
    (0, next_cell p,
     mk_puzzle (p_size puz) (p_groups puz)
               (wr (p_values puz) (CDOK_POS (ps_x p) (ps_y p))
                   (uint8_cast (ps_value p)))
               (p_group_map puz)).

(** The loop of [cdok_parser_push] over the characters of [text]. *)
Fixpoint push_loop (text : list Z) (p : cdok_parser) (puz : cdok_puzzle)
    : Z * cdok_parser * cdok_puzzle :=
  match text with
  | [] => (0, p, puz)
  | ch :: rest =>
    if ch =? 10 then
      let '(r, p, puz) := parser_end_cell p puz in
      if r <? 0 then (-1, p, puz)
      else if ps_x p =? 0 then
        (0, mk_parser 1 (ps_x p) (ps_y p) (ps_max_x p) (ps_value p)
                      (ps_group_name p) (ps_group_type p), puz)
      else
        let next p :=
          mk_parser (ps_eof p) 0 (uint_cast (ps_y p + 1)) (ps_max_x p)
                    (ps_value p) (ps_group_name p) (ps_group_type p) in
        if ps_y p =? 0 then
          push_loop rest (next p)
                    (mk_puzzle (ps_x p) (p_groups puz) (p_values puz)
                               (p_group_map puz))
        else if negb (ps_x p =? p_size puz) then (-1, p, puz)
        else push_loop rest (next p) puz
    else if isspace ch then
      let '(r, p, puz) := parser_end_cell p puz in
      if r <? 0 then (-1, p, puz) else push_loop rest p puz
    else if isdigit ch then
      let value := if ps_value p <? 0 then 0 else ps_value p in
      push_loop rest
                (mk_parser (ps_eof p) (ps_x p) (ps_y p) (ps_max_x p)
                           (value * 10 + ch - 48) (ps_group_name p)
                           (ps_group_type p)) puz
    else if (ch =? 43) || (ch =? 45) || (ch =? 42) || (ch =? 47) then
      push_loop rest
                (mk_parser (ps_eof p) (ps_x p) (ps_y p) (ps_max_x p)
                           (ps_value p) (ps_group_name p) ch) puz
    else
      let g := cdok_char_to_group ch in
      if negb (g =? CDOK_GROUP_NONE) then
        push_loop rest
                  (mk_parser (ps_eof p) (ps_x p) (ps_y p) (ps_max_x p)
                             (ps_value p) g (ps_group_type p)) puz
      else push_loop rest p puz
  end.

Definition cdok_parser_push (p : cdok_parser) (puz : cdok_puzzle)
    (text : list Z) : Z * cdok_parser * cdok_puzzle :=
  if negb (ps_eof p =? 0) then (0, p, puz) else push_loop text p puz.

(** [None] only if a flood fill ran out of fuel. *)
Definition cdok_parser_end (p : cdok_parser) (puz : cdok_puzzle)
    : option (Z * cdok_parser * cdok_puzzle) :=
  let '(r, p, puz) := parser_end_cell p puz in
  if r <? 0 then Some (-1, p, puz)
  else if p_size puz =? 0 then Some (-1, p, puz)
  else if ps_y p <? p_size puz then Some (-1, p, puz)
  else if validate_groups puz <? 0 then Some (-1, p, puz)
  else
    let puz := build_group_map puz in
    do r <- validate_group_map puz;
    Some (r, p, puz).
(** ** main.c: reading a puzzle *)

(** The loop of [read_puzzle] over the results of the successive calls of
    [fread]; a result of length 0 ends it. *)
Fixpoint read_loop (reads : list (list Z)) (p : cdok_parser)
    (puz : cdok_puzzle) : Z * cdok_parser * cdok_puzzle :=
  match reads with
  | [] => (0, p, puz)
  | buf :: rest =>
    if Z.of_nat (length buf) >? 0 then
      let '(r, p, puz) := cdok_parser_push p puz buf in
      if r <? 0 then (-1, p, puz) else read_loop rest p puz
    else (0, p, puz)
  end.

(** [read_puzzle] on a stream that opens and reads without error:
    [reads] are the buffers that [fread] delivers.  The result is the
    return value and the puzzle. *)
Definition read_puzzle (reads : list (list Z)) : option (Z * cdok_puzzle) :=
  let '(p, puz) := cdok_parser_init in
  let '(r, p, puz) := read_loop reads p puz in
  if r <? 0 then Some (-1, puz)
  else
    do (r, _, puz) <- cdok_parser_end p puz;
    Some (r, puz).

(** ** printer.c: the text form *)

(** [fprintf(out, "%d", v)] for an [int] [v]: the decimal digits, at most
    ten of them, after a minus sign if [v] is negative. *)
Fixpoint print_digits (fuel : nat) (v : Z) : list Z :=
  match fuel with
  | O => []
  | S f =>
    (if v / 10 =? 0 then [] else print_digits f (v / 10)) ++ [48 + v mod 10]
  end.

Definition print_int (v : Z) : list Z :=
  if v <? 0 then 45 :: print_digits 10 (- v) else print_digits 10 v.

(** What the body of the inner loop of [cdok_print_puzzle] writes for the
    cell [c], after the tab. *)
Definition print_cell (puz : cdok_puzzle) (values : list Z) (c : Z)
    : list Z :=
  if negb (rd values c =? 0) then print_int (rd values c)
  else if negb (rd (p_group_map puz) c =? CDOK_GROUP_NONE) then
    let g := grp_at puz (rd (p_group_map puz) c) in
    [cdok_group_to_char (rd (p_group_map puz) c)] ++
    (if rd (g_members g) 0 =? c
     then uint8_cast (g_type g) :: print_int (g_target g)
     else [])
  else [].

(** The result is the text written to [out]. *)
Definition cdok_print_puzzle (puz : cdok_puzzle) (values : list Z)
    : list Z :=
  fold_left
    (fun out y =>
       fold_left
         (fun out x =>
            out ++ (if negb (x =? 0) then [9] else []) ++
            print_cell puz values (CDOK_POS x y))
         (range 0 (p_size puz)) out ++ [10])
    (range 0 (p_size puz)) [].

(** ** printer.c: characters *)




(** * Reference notions *)

(** ** The search tree of the solver

    [search_leaves] lists, from left to right, the complete grids at the
    leaves of the tree that [solve_recurse] walks, each with the
    [branch_diff] argument of the call that reaches it.  It differs from
    [solve_recurse] in one point only: it does not stop at the second
    leaf. *)
Definition collect_leaves (candidates : Z)
    (sub : Z -> option (list (list Z * Z))) (vs : list Z)
    : option (list (list Z * Z)) :=
  fold_right
    (fun i acc =>
       if Z.land candidates (CDOK_SET_SINGLE i) =? 0 then acc
       else
         do here <- sub i;
         do rest <- acc;
         Some (here ++ rest))
    (Some []) vs.

Fixpoint search_leaves (fuel : nat) (puz : cdok_puzzle) (values : list Z)
    (branch_diff : Z) : option (list (list Z * Z)) :=
  match fuel with
  | O => None
  | S f =>
    match find_candidates puz values with
    | None => Some [(values, branch_diff)]
    | Some (cell, candidates) =>
      if candidates =? 0 then Some []
      else
        let diff := count_bits candidates - 1 in
        let diff := branch_diff + diff * diff in
        collect_leaves candidates
                       (fun i => search_leaves f puz (wr values cell i) diff)
                       (range 1 (p_size puz + 1))
    end
  end.

(** A path of the search from the grid [values] down to a full grid:
    the list holds, for every step, the number of candidates of the cell
    chosen at that step. *)
Inductive search_path (puz : cdok_puzzle)
    : list Z -> list Z -> list Z -> Prop :=
| path_done : forall values,
    find_candidates puz values = None ->
    search_path puz values [] values
| path_step : forall values cell candidates i bs final,
    find_candidates puz values = Some (cell, candidates) ->
    candidates <> 0 ->
    1 <= i <= p_size puz ->
    Z.land candidates (CDOK_SET_SINGLE i) <> 0 ->
    search_path puz (wr values cell i) bs final ->
    search_path puz values (count_bits candidates :: bs) final.

(** The branch difficulty of a path: the sum of [(B - 1)^2] over its
    steps. *)
Definition path_difficulty (bs : list Z) : Z :=
  fold_right (fun b acc => (b - 1) * (b - 1) + acc) 0 bs.

(** The number of empty cells of a grid inside the [n] by [n] square. *)
Definition empty_cells (values : list Z) (n : Z) : Z :=
  Z.of_nat
    (length
       (filter (fun c => rd values c =? 0)
               (flat_map (fun y => map (fun x => CDOK_POS x y) (range 0 n))
                         (range 0 n)))).

(** The effect on the solver context of visiting the leaves [leaves] in
    turn, for a context that has counted at most two solutions. *)
Definition record_leaves (ctx : solver_context)
    (leaves : list (list Z * Z)) : solver_context :=
  match leaves with
  | [] => ctx
  | (v, d) :: _ =>
    mk_ctx (if ctx_count ctx =? 0
            then match ctx_solution ctx with
                 | Some _ => Some v
                 | None => None
                 end
            else ctx_solution ctx)
           (ctx_values ctx)
           (Z.min 2 (ctx_count ctx + Z.of_nat (length leaves)))
           (if ctx_count ctx =? 0 then uint_cast d else ctx_branch_diff ctx)
  end.

(** The number of empty entries of a grid. *)
Fixpoint zeros (l : list Z) : nat :=
  match l with
  | [] => O
  | h :: t => if h =? 0 then S (zeros t) else zeros t
  end.

(** What the solver needs of its input: the dimension fits the grid
    array, and the grid array has its [CDOK_CELLS] entries. *)
Definition solver_ok (puz : cdok_puzzle) : Prop :=
  0 <= p_size puz <= CDOK_SIZE /\
  length (p_values puz) = Z.to_nat CDOK_CELLS.

(** The recursion depth granted to the solver by [cdok_solve]. *)
Definition solver_fuel : nat := S (Z.to_nat CDOK_CELLS).

(** [m] is the smallest power of 10 that is at least [bound]. *)
Definition smallest_pow10_ge (m bound : Z) : Prop :=
  (exists k, 0 <= k /\ m = 10 ^ k) /\
  bound <= m /\
  forall j, 0 <= j -> bound <= 10 ^ j -> m <= 10 ^ j.

(** ** Group geometry *)

(** The cells of a group: the first [g_size] entries of its member
    array. *)
Definition live_members (g : cdok_group) : list Z :=
  map (rd (g_members g)) (range 0 (g_size g)).

(** Two cells are neighbours: same row and columns one apart, or same
    column and rows one apart. *)
Definition adjacent (a b : Z) : Prop :=
  (CDOK_POS_Y a = CDOK_POS_Y b /\
   (CDOK_POS_X a = CDOK_POS_X b + 1 \/ CDOK_POS_X b = CDOK_POS_X a + 1)) \/
  (CDOK_POS_X a = CDOK_POS_X b /\
   (CDOK_POS_Y a = CDOK_POS_Y b + 1 \/ CDOK_POS_Y b = CDOK_POS_Y a + 1)).

(** [b] can be reached from [a] by steps between neighbours that stay
    inside [cells]. *)
Definition linked (cells : Z -> Prop) : Z -> Z -> Prop :=
  clos_refl_trans Z (fun p q => cells p /\ cells q /\ adjacent p q).

(** A list of cells is one 4-connected region. *)
Definition connected (cells : list Z) : Prop :=
  forall a b, In a cells -> In b cells -> linked (fun c => In c cells) a b.

(** The cell-to-group map and the member lists are mutual inverses, and
    the arrays have their sizes. *)
Definition map_ok (puz : cdok_puzzle) : Prop :=
  length (p_groups puz) = Z.to_nat CDOK_GROUPS /\
  length (p_group_map puz) = Z.to_nat CDOK_CELLS /\
  (forall i, 0 <= i < CDOK_GROUPS ->
     0 <= g_size (grp_at puz i) <= CDOK_GROUP_SIZE /\
     length (g_members (grp_at puz i)) = Z.to_nat CDOK_GROUP_SIZE /\
     NoDup (live_members (grp_at puz i)) /\
     forall c, In c (live_members (grp_at puz i)) ->
               0 <= c < CDOK_CELLS /\ rd (p_group_map puz) c = i) /\
  (forall c, 0 <= c < CDOK_CELLS ->
     rd (p_group_map puz) c <> CDOK_GROUP_NONE ->
     0 <= rd (p_group_map puz) c < CDOK_GROUPS /\
     In c (live_members (grp_at puz (rd (p_group_map puz) c)))).

(** A group in use has at least two cells and is one region. *)
Definition shape_ok (puz : cdok_puzzle) (i : Z) : Prop :=
  g_size (grp_at puz i) <> 0 ->
  2 <= g_size (grp_at puz i) /\ connected (live_members (grp_at puz i)).

Definition cage_invariants (puz : cdok_puzzle) : Prop :=
  map_ok puz /\ forall i, 0 <= i < CDOK_GROUPS -> shape_ok puz i.

(** The cell lies inside the puzzle's square. *)
Definition cell_in_grid (puz : cdok_puzzle) (c : Z) : Prop :=
  exists x y, 0 <= x < p_size puz /\ 0 <= y < p_size puz /\ c = CDOK_POS x y.

(** [puz'] arises from [puz] by taking cells out of group [grp]: the
    other groups are as they were, the cells that left the group are in
    no group any more, and the map is unchanged elsewhere. *)
Definition shrinks (puz puz' : cdok_puzzle) (grp : Z) : Prop :=
  length (p_groups puz') = length (p_groups puz) /\
  length (p_group_map puz') = length (p_group_map puz) /\
  (forall i, 0 <= i < CDOK_GROUPS -> i <> grp ->
             grp_at puz' i = grp_at puz i) /\
  0 <= g_size (grp_at puz' grp) <= CDOK_GROUP_SIZE /\
  length (g_members (grp_at puz' grp)) = Z.to_nat CDOK_GROUP_SIZE /\
  NoDup (live_members (grp_at puz' grp)) /\
  (forall c, In c (live_members (grp_at puz' grp)) ->
             In c (live_members (grp_at puz grp))) /\
  (forall c, 0 <= c < CDOK_CELLS ->
             In c (live_members (grp_at puz grp)) ->
             ~ In c (live_members (grp_at puz' grp)) ->
             rd (p_group_map puz') c = CDOK_GROUP_NONE) /\
  (forall c, 0 <= c < CDOK_CELLS ->
             ~ In c (live_members (grp_at puz grp)) \/
             In c (live_members (grp_at puz' grp)) ->
             rd (p_group_map puz') c = rd (p_group_map puz) c).

(** [puz'] differs from [puz] at most in the type and target of groups. *)
Definition retyped (puz puz' : cdok_puzzle) : Prop :=
  p_group_map puz' = p_group_map puz /\
  length (p_groups puz') = length (p_groups puz) /\
  forall i, g_size (grp_at puz' i) = g_size (grp_at puz i) /\
            g_members (grp_at puz' i) = g_members (grp_at puz i).

(** Decidable form of [adjacent] for cells of the grid array. *)
Definition adjacentb (a b : Z) : bool :=
  ((CDOK_POS_Y a =? CDOK_POS_Y b) &&
   ((CDOK_POS_X a =? CDOK_POS_X b + 1) || (CDOK_POS_X b =? CDOK_POS_X a + 1))) ||
  ((CDOK_POS_X a =? CDOK_POS_X b) &&
   ((CDOK_POS_Y a =? CDOK_POS_Y b + 1) || (CDOK_POS_Y b =? CDOK_POS_Y a + 1))).

Definition join_okb (cn : Z * Z) : bool :=
  let '(c, n) := cn in
  (0 <=? c) && (c <? CDOK_CELLS) && (0 <=? n) && (n <? CDOK_CELLS) &&
  adjacentb c n.

(** A run of [mut_join_cells] over a list of pairs [(c, n)]. *)
Fixpoint join_all (puz : cdok_puzzle) (l : list (Z * Z)) (solution : list Z)
    (f : Z) (rnd : rand_source) (k : nat) : option (cdok_puzzle * nat) :=
  match l with
  | [] => Some (puz, k)
  | (c, n) :: rest =>
    do (puz, k) <- mut_join_cells puz c n solution f rnd k;
    join_all puz rest solution f rnd k
  end.

(** What the group invariants depend on. *)
Definition shape_of (puz : cdok_puzzle) : list Z * list Z * list (list Z) :=
  (p_group_map puz, map g_size (p_groups puz), map g_members (p_groups puz)).

(** ** Latin squares *)

(** Every value from 1 to [n] occurs in every row and in every column of
    the top left [n] by [n] square of [grid]. *)
Definition latin (n : Z) (grid : list Z) : bool :=
  forallb
    (fun i =>
       forallb
         (fun v =>
            existsb (fun x => rd grid (CDOK_POS x i) =? v) (range 0 n) &&
            existsb (fun y => rd grid (CDOK_POS i y) =? v) (range 0 n))
         (range 1 (n + 1)))
    (range 0 n).

(** ** Bit counting *)

(** The bits of [s] below [j] are clear. *)
Definition low_clear (j s : Z) : Prop :=
  forall i, 0 <= i < j -> Z.testbit s i = false.

(** ** Flood fill *)

(** The cells that were [src] in [m] and are cleared in [m']. *)
Definition filled (src : Z) (m m' : list Z) (p : Z) : Prop :=
  0 <= p < CDOK_CELLS /\ rd m p = src /\ rd m' p = CDOK_GROUP_NONE.

(** [m'] arises from [m] by clearing [src] cells, and every cleared cell
    is linked to [start] through cleared cells. *)
Definition fill_ok (src : Z) (m m' : list Z) (start : Z) : Prop :=
  length m' = Z.to_nat CDOK_CELLS /\
  (forall c, 0 <= c < CDOK_CELLS ->
     rd m' c = rd m c \/ (rd m c = src /\ rd m' c = CDOK_GROUP_NONE)) /\
  (forall c, filled src m m' c -> linked (filled src m m') start c).

(** The loop invariant of the two [for] loops that recurse into the
    neighbouring rows: [m0] is the map on entry, the span from [sx] to
    [ex] on row [y] has been cleared. *)
Definition row_inv (src : Z) (m0 : list Z) (x y sx ex : Z) (m : list Z) : Prop :=
  fill_ok src m0 m (CDOK_POS x y) /\
  forall i, sx <= i <= ex -> filled src m0 m (CDOK_POS i y).

(** The number of cells of the map that still carry [src]: it bounds the
    depth of the recursion of [cdok_flood_fill]. *)
Definition count_src (src : Z) (m : list Z) : nat :=
  length (filter (fun v => v =? src) m).

(** ** Hardening *)

(** What a run of hardening turns, started with the caller's puzzle [puz]
    and best score [b], may leave in the caller's puzzle: either nothing
    was committed, or the puzzle is a working copy that [cdok_solve]
    classified as uniquely solvable with a score above [b] that respects
    the limit. *)
Definition committed (limit : Z) (puz : cdok_puzzle) (b : Z)
    (puz' : cdok_puzzle) (b' : Z) : Prop :=
  (puz' = puz /\ b' = b) \/
  ((exists s, cdok_solve puz' None (Some 0) = Some (0, s, Some b')) /\
   b < b' /\ (limit <= 0 \/ b' <= limit)).

(** [puz'] has the dimension of [puz] and a value grid of the same
    length. *)
Definition same_frame (puz puz' : cdok_puzzle) : Prop :=
  p_size puz' = p_size puz /\ length (p_values puz') = length (p_values puz).

(** What the generator maintains of the puzzle it works on: the group
    invariants, a dimension from 2 to [CDOK_SIZE], and a value grid with
    its [CDOK_CELLS] entries. *)
Definition generator_ok (puz : cdok_puzzle) : Prop :=
  cage_invariants puz /\ 2 <= p_size puz <= CDOK_SIZE /\
  length (p_values puz) = Z.to_nat CDOK_CELLS.

(** ** Grid filling: what the search maintains *)

(** Cell (x', y') comes before cell (x, y) in the order in which
    [fill_grid] visits the cells. *)
Definition before (x' y' x y : Z) : Prop := y' < y \/ (y' = y /\ x' < x).

Definition set16 (s : Z) : Prop := 0 <= s < 65536.

(** On entry to [fill_grid(ctx, x, y)]: the cells before (x, y) hold
    values from 1 to the size, pairwise distinct within every row and
    every column, and [rows_used] (from row 1 on) and [cols_used] are the
    sets of the values placed in the row and in the column so far. *)
Definition fill_inv (ctx : fill_context) (x y : Z) : Prop :=
  let n := f_size ctx in
  let grid := f_grid ctx in
  length grid = Z.to_nat CDOK_CELLS /\
  length (f_rows_used ctx) = Z.to_nat CDOK_SIZE /\
  length (f_cols_used ctx) = Z.to_nat CDOK_SIZE /\
  Forall set16 (f_rows_used ctx) /\
  Forall set16 (f_cols_used ctx) /\
  (forall x' y', 0 <= x' < n -> 0 <= y' < n -> before x' y' x y ->
     1 <= rd grid (CDOK_POS x' y') <= n) /\
  (forall r v, 1 <= r < n -> 1 <= v <= n ->
     (Z.testbit (rd (f_rows_used ctx) r) (v - 1) = true <->
      exists x', 0 <= x' < n /\ before x' r x y /\
                 rd grid (CDOK_POS x' r) = v)) /\
  (forall c v, 0 <= c < n -> 1 <= v <= n ->
     (Z.testbit (rd (f_cols_used ctx) c) (v - 1) = true <->
      exists y', 0 <= y' < n /\ before c y' x y /\
                 rd grid (CDOK_POS c y') = v)) /\
  (forall r x1 x2, 0 <= r < n -> 0 <= x1 < n -> 0 <= x2 < n ->
     before x1 r x y -> before x2 r x y ->
     rd grid (CDOK_POS x1 r) = rd grid (CDOK_POS x2 r) -> x1 = x2) /\
  (forall c y1 y2, 0 <= c < n -> 0 <= y1 < n -> 0 <= y2 < n ->
     before c y1 x y -> before c y2 x y ->
     rd grid (CDOK_POS c y1) = rd grid (CDOK_POS c y2) -> y1 = y2).

(** A call at (x, y) leaves alone the cells before (x, y) and the cells
    outside the square. *)
Definition fill_frame (ctx ctx' : fill_context) (x y : Z) : Prop :=
  f_size ctx' = f_size ctx /\
  length (f_grid ctx') = length (f_grid ctx) /\
  forall x' y', 0 <= x' < 16 -> 0 <= y' < 16 ->
    before x' y' x y \/ f_size ctx <= x' \/ f_size ctx <= y' ->
    rd (f_grid ctx') (CDOK_POS x' y') = rd (f_grid ctx) (CDOK_POS x' y').

(** What [fill_grid(ctx, x, y)] returns: 0 with the square filled, or -1
    with the two arrays of sets as they were on entry. *)
Definition fill_post (ctx : fill_context) (x y r : Z) (ctx' : fill_context)
    : Prop :=
  fill_frame ctx ctx' x y /\
  (r = 0 \/ r = -1) /\
  (r = 0 -> fill_inv ctx' 0 (f_size ctx)) /\
  (r <> 0 -> f_rows_used ctx' = f_rows_used ctx /\
             f_cols_used ctx' = f_cols_used ctx).

(** ** Cages and the grids that satisfy them *)

(** The values that [grid] holds in the cells of the group, in member
    order. *)
Definition cage_values (g : cdok_group) (grid : list Z) : list Z :=
  map (rd grid) (live_members g).

Definition values_sum (l : list Z) : Z := fold_right Z.add 0 l.
Definition values_product (l : list Z) : Z := fold_right Z.mul 1 l.
(** The largest element, -1 for the empty list. *)
Definition values_max (l : list Z) : Z := fold_right Z.max (-1) l.

Definition valid_type (t : cdok_gtype_t) : Prop :=
  t = CDOK_SUM \/ t = CDOK_DIFFERENCE \/ t = CDOK_PRODUCT \/ t = CDOK_RATIO.

(** [grid] satisfies the clue of the group: the values add up to the
    target; or the largest less all the others is the target; or they
    multiply to the target; or the largest is the target times the
    product of the others. *)
Definition cage_holds (g : cdok_group) (grid : list Z) : Prop :=
  let vs := cage_values g grid in
  (g_type g = CDOK_SUM /\ values_sum vs = g_target g) \/
  (g_type g = CDOK_DIFFERENCE /\
   values_max vs - (values_sum vs - values_max vs) = g_target g) \/
  (g_type g = CDOK_PRODUCT /\ values_product vs = g_target g) \/
  (g_type g = CDOK_RATIO /\
   values_max vs * values_max vs = g_target g * values_product vs).

(** Under [CDOK_FLAGS_TWO_CELL] a difference or ratio group has at most
    two cells. *)
Definition two_cell_ok (f : Z) (g : cdok_group) : Prop :=
  Z.land f CDOK_FLAGS_TWO_CELL <> 0 ->
  g_type g = CDOK_DIFFERENCE \/ g_type g = CDOK_RATIO -> g_size g <= 2.

Definition cage_ok (f : Z) (g : cdok_group) (solution : list Z) : Prop :=
  cage_holds g solution /\ two_cell_ok f g.

(** Every group in use other than [except] has a clue that [solution]
    satisfies. *)
Definition cages_ok (f : Z) (puz : cdok_puzzle) (solution : list Z)
    (except : Z) : Prop :=
  forall i, 0 <= i < CDOK_GROUPS -> i <> except ->
            g_size (grp_at puz i) <> 0 ->
            cage_ok f (grp_at puz i) solution.

(** The value grid shows of [solution] exactly the cells that the map
    puts in no group; the cells of groups are blank. *)
Definition givens (values group_map solution : list Z) : Prop :=
  length values = Z.to_nat CDOK_CELLS /\
  length group_map = Z.to_nat CDOK_CELLS /\
  forall c, 0 <= c < CDOK_CELLS ->
    rd values c =
    if rd group_map c =? CDOK_GROUP_NONE then rd solution c else 0.

Definition givens_ok (puz : cdok_puzzle) (solution : list Z) : Prop :=
  givens (p_values puz) (p_group_map puz) solution.

(** What the generator maintains in addition to [generator_ok]. *)
Definition generated (f : Z) (puz : cdok_puzzle) (solution : list Z) : Prop :=
  generator_ok puz /\ givens_ok puz solution /\
  cages_ok f puz solution (-1).

(** [puz'] differs from [puz] at most in the type and the target of group
    [grp]. *)
Definition retargeted (puz puz' : cdok_puzzle) (grp : Z) : Prop :=
  p_size puz' = p_size puz /\
  p_values puz' = p_values puz /\
  p_group_map puz' = p_group_map puz /\
  length (p_groups puz') = length (p_groups puz) /\
  (forall i, 0 <= i -> i <> grp -> grp_at puz' i = grp_at puz i) /\
  g_size (grp_at puz' grp) = g_size (grp_at puz grp) /\
  g_members (grp_at puz' grp) = g_members (grp_at puz grp).

(** ** Puzzles and their solutions *)

(** The cells of the [n] by [n] square, row by row. *)
Definition square_cells (n : Z) : list Z :=
  flat_map (fun y => map (fun x => CDOK_POS x y) (range 0 n)) (range 0 n).

(** [grid] solves [puz]: it is a Latin square of the puzzle's dimension,
    it agrees with the givens, and every group in use has its clue
    satisfied. *)
Definition solution_of (puz : cdok_puzzle) (grid : list Z) : Prop :=
  latin (p_size puz) grid = true /\
  (forall c, In c (square_cells (p_size puz)) ->
             rd (p_values puz) c <> 0 -> rd grid c = rd (p_values puz) c) /\
  (forall i, 0 <= i < CDOK_GROUPS -> g_size (grp_at puz i) <> 0 ->
             cage_holds (grp_at puz i) grid).

(** No value from 1 up occurs twice in a row or twice in a column of the
    [n] by [n] square of [grid]. *)
Definition no_clash (n : Z) (grid : list Z) : Prop :=
  forall x y x' y', 0 <= x < n -> 0 <= y < n -> 0 <= x' < n -> 0 <= y' < n ->
    rd grid (CDOK_POS x y) <> 0 ->
    rd grid (CDOK_POS x y) = rd grid (CDOK_POS x' y') ->
    x = x' \/ y = y' -> x = x' /\ y = y'.

(** What the solver's answer rests on: the dimension and the grid array
    fit, the givens lie in the range of values and do not clash, and every
    group in use has from 2 to [CDOK_GROUP_SIZE] distinct cells, all
    blank and inside the square, and a target that is not negative. *)
Definition well_posed (puz : cdok_puzzle) : Prop :=
  1 <= p_size puz <= CDOK_SIZE /\
  length (p_values puz) = Z.to_nat CDOK_CELLS /\
  (forall c, In c (square_cells (p_size puz)) ->
             0 <= rd (p_values puz) c <= p_size puz) /\
  no_clash (p_size puz) (p_values puz) /\
  forall i, 0 <= i < CDOK_GROUPS -> g_size (grp_at puz i) <> 0 ->
    2 <= g_size (grp_at puz i) <= CDOK_GROUP_SIZE /\
    NoDup (live_members (grp_at puz i)) /\
    0 <= g_target (grp_at puz i) /\
    forall c, In c (live_members (grp_at puz i)) ->
              In c (square_cells (p_size puz)) /\ rd (p_values puz) c = 0.

(** Executable forms. *)
Definition no_clashb (n : Z) (grid : list Z) : bool :=
  forallb
    (fun y =>
       forallb
         (fun x =>
            let v := rd grid (CDOK_POS x y) in
            (v =? 0) ||
            (forallb (fun x' => (x' =? x) || negb (rd grid (CDOK_POS x' y) =? v))
                     (range 0 n) &&
             forallb (fun y' => (y' =? y) || negb (rd grid (CDOK_POS x y') =? v))
                     (range 0 n)))
         (range 0 n))
    (range 0 n).

Fixpoint distinctb (l : list Z) : bool :=
  match l with
  | [] => true
  | h :: t => negb (existsb (Z.eqb h) t) && distinctb t
  end.

Definition well_posedb (puz : cdok_puzzle) : bool :=
  let n := p_size puz in
  (1 <=? n) && (n <=? CDOK_SIZE) &&
  (Z.of_nat (length (p_values puz)) =? CDOK_CELLS) &&
  forallb (fun c => (0 <=? rd (p_values puz) c) && (rd (p_values puz) c <=? n))
          (square_cells n) &&
  no_clashb n (p_values puz) &&
  forallb
    (fun i =>
       let g := grp_at puz i in
       (g_size g =? 0) ||
       ((2 <=? g_size g) && (g_size g <=? CDOK_GROUP_SIZE) &&
        distinctb (live_members g) && (0 <=? g_target g) &&
        forallb (fun c => existsb (Z.eqb c) (square_cells n) &&
                          (rd (p_values puz) c =? 0))
                (live_members g)))
    (range 0 CDOK_GROUPS).

(** ** Sets of values *)

(** The number of members of a set of values. *)
Definition set_size (s : Z) : Z :=
  Z.of_nat (length (filter (fun v => cdok_set_mem v s)
                           (range 1 (CDOK_SIZE + 1)))).

(** ** The cell that the solver takes next *)

(** [c] is the first of the empty cells of [cells] among those whose
    candidate set is least by [count]. *)
Definition first_least (count : Z -> Z) (values candidates : list Z)
    (cells : list Z) (c : Z) : Prop :=
  exists before after,
    filter (fun c => rd values c =? 0) cells = before ++ c :: after /\
    (forall c', In c' before ->
                count (rd candidates c) < count (rd candidates c')) /\
    (forall c', In c' after ->
                count (rd candidates c) <= count (rd candidates c')).

(** [c] is the first of the empty cells of the square, row by row, among
    those with the fewest candidates: the candidate sets are compared by
    the number of values from 1 to 16 that they hold. *)
Definition most_constrained (values candidates : list Z) (cells : list Z)
    (c : Z) : Prop :=
  first_least set_size values candidates cells c.

(** The state [(best, best_count)] of the scan in [search_least_free]
    after the cells [seen]; the scan compares by [count_bits]. *)
Definition scanned (values candidates : list Z) (seen : list Z)
    (st : Z * Z) : Prop :=
  (filter (fun c => rd values c =? 0) seen = [] /\ st = (-1, 0)) \/
  (0 <= fst st /\ snd st = count_bits (rd candidates (fst st)) /\
   first_least count_bits values candidates seen (fst st)).

(** ** Targets that the solver's arithmetic can take *)

(** The targets with which the arithmetic of the group analysis stays
    inside [int], its divisors differ from 0 and the shifts of
    [CDOK_SET_SINGLE] stay below 32: a product target is from 1 to 32; a
    ratio target is at least 1 and, multiplied by 16 for every cell of the
    group, below 2^31; a sum or difference target is below 2^30. *)
Definition targets_fit (puz : cdok_puzzle) : Prop :=
  forall i, 0 <= i < CDOK_GROUPS -> g_size (grp_at puz i) <> 0 ->
    (g_type (grp_at puz i) = CDOK_PRODUCT ->
     1 <= g_target (grp_at puz i) <= 32) /\
    (g_type (grp_at puz i) = CDOK_RATIO ->
     1 <= g_target (grp_at puz i) /\
     g_target (grp_at puz i) * 16 ^ g_size (grp_at puz i) < 2 ^ 31) /\
    (g_type (grp_at puz i) = CDOK_SUM \/
     g_type (grp_at puz i) = CDOK_DIFFERENCE ->
     g_target (grp_at puz i) < 2 ^ 30).

Definition targets_fitb (puz : cdok_puzzle) : bool :=
  forallb
    (fun i =>
       let g := grp_at puz i in
       (g_size g =? 0) ||
       (if g_type g =? CDOK_PRODUCT
        then (1 <=? g_target g) && (g_target g <=? 32)
        else if g_type g =? CDOK_RATIO
        then (1 <=? g_target g) &&
             (g_target g * 16 ^ g_size g <? 2 ^ 31)
        else if (g_type g =? CDOK_SUM) || (g_type g =? CDOK_DIFFERENCE)
        then g_target g <? 2 ^ 30
        else true))
    (range 0 CDOK_GROUPS).

(** ** Partial grids of the search *)

(** What holds of every grid that the search reaches from a well-posed
    puzzle: the values lie in range and do not clash, the givens are in
    place, and every group whose cells are all filled has its clue
    satisfied. *)
Definition consistent (puz : cdok_puzzle) (values : list Z) : Prop :=
  length values = Z.to_nat CDOK_CELLS /\
  (forall c, In c (square_cells (p_size puz)) ->
             0 <= rd values c <= p_size puz) /\
  no_clash (p_size puz) values /\
  (forall c, In c (square_cells (p_size puz)) ->
             rd (p_values puz) c <> 0 -> rd values c = rd (p_values puz) c) /\
  forall i, 0 <= i < CDOK_GROUPS -> g_size (grp_at puz i) <> 0 ->
    (forall c, In c (live_members (grp_at puz i)) -> rd values c <> 0) ->
    cage_holds (grp_at puz i) values.

(** ** What the parser has read *)

(** [c] is a cell that the parser has passed. *)
Definition cell_before (p : cdok_parser) (c : Z) : Prop :=
  exists x y, 0 <= x < 16 /\ 0 <= y < 16 /\ c = CDOK_POS x y /\
              before x y (ps_x p) (ps_y p).

(** What holds of the parser and the puzzle while a text is read: the
    position stays inside the grid array, the groups hold distinct cells
    that the parser has passed, no cell is in two groups, a group's type
    is one of the four once set, and the cells of groups and the cells
    not yet passed are blank. *)
Definition parsing (p : cdok_parser) (puz : cdok_puzzle) : Prop :=
  0 <= ps_x p <= 16 /\ 0 <= ps_y p <= 16 /\
  (0 < ps_x p -> ps_y p < 16) /\
  (ps_group_name p = CDOK_GROUP_NONE \/ 0 <= ps_group_name p < CDOK_GROUPS) /\
  (ps_group_type p = 0 \/ valid_type (ps_group_type p)) /\
  0 <= p_size puz <= 16 /\ (0 < ps_y p -> 1 <= p_size puz) /\
  length (p_groups puz) = Z.to_nat CDOK_GROUPS /\
  length (p_values puz) = Z.to_nat CDOK_CELLS /\
  (forall c, 0 <= c < CDOK_CELLS -> ~ cell_before p c ->
             rd (p_values puz) c = 0) /\
  (forall i, 0 <= i < CDOK_GROUPS ->
     0 <= g_size (grp_at puz i) <= CDOK_GROUP_SIZE /\
     length (g_members (grp_at puz i)) = Z.to_nat CDOK_GROUP_SIZE /\
     (g_type (grp_at puz i) = 0 \/ valid_type (g_type (grp_at puz i))) /\
     NoDup (live_members (grp_at puz i)) /\
     forall c, In c (live_members (grp_at puz i)) ->
               cell_before p c /\ rd (p_values puz) c = 0) /\
  (forall i j c, 0 <= i < CDOK_GROUPS -> 0 <= j < CDOK_GROUPS -> i <> j ->
     In c (live_members (grp_at puz i)) ->
     ~ In c (live_members (grp_at puz j))).

(** What [validate_groups] and the parser ensure of the clues: every group
    in use has one of the four types, a target that is not negative, and
    not 0 for a product or a ratio, and its cells are blank. *)
Definition clues_ok (puz : cdok_puzzle) : Prop :=
  forall i, 0 <= i < CDOK_GROUPS -> g_size (grp_at puz i) <> 0 ->
    valid_type (g_type (grp_at puz i)) /\
    0 <= g_target (grp_at puz i) /\
    (g_type (grp_at puz i) = CDOK_RATIO \/
     g_type (grp_at puz i) = CDOK_PRODUCT -> g_target (grp_at puz i) <> 0) /\
    forall c, In c (live_members (grp_at puz i)) -> rd (p_values puz) c = 0.

(** The state of the copy of the map after the flood fills of the groups
    below [k]: cells are as they were or cleared, the cells of the groups
    from [k] on are as they were, and a cleared cell of a group is linked
    to the group's first member inside the group. *)
Definition fills_done (puz : cdok_puzzle) (k : Z) (m : list Z) : Prop :=
  length m = Z.to_nat CDOK_CELLS /\
  (forall c, 0 <= c < CDOK_CELLS ->
     rd m c = rd (p_group_map puz) c \/ rd m c = CDOK_GROUP_NONE) /\
  (forall c, 0 <= c < CDOK_CELLS -> k <= rd (p_group_map puz) c ->
     rd m c = rd (p_group_map puz) c) /\
  (forall i c, 0 <= i < k -> g_size (grp_at puz i) <> 0 ->
     0 <= c < CDOK_CELLS -> rd (p_group_map puz) c = i ->
     rd m c = CDOK_GROUP_NONE ->
     linked (fun d => In d (live_members (grp_at puz i)))
            (rd (g_members (grp_at puz i)) 0) c).

(** ** Flood fill: the whole region is cleared *)

(** [m'] arises from [m] by clearing [src] cells. *)
Definition fill_step (src : Z) (m m' : list Z) : Prop :=
  length m' = Z.to_nat CDOK_CELLS /\
  forall c, 0 <= c < CDOK_CELLS ->
    rd m' c = rd m c \/ (rd m c = src /\ rd m' c = CDOK_GROUP_NONE).

(** No [src] cell is left beside a cell that was cleared, the cleared
    cells in [skip] apart. *)
Definition fill_closed (src : Z) (skip : Z -> Prop) (m m' : list Z) : Prop :=
  forall p q, filled src m m' p -> ~ skip p -> adjacent p q ->
              0 <= q < CDOK_CELLS -> rd m q = src ->
              rd m' q = CDOK_GROUP_NONE.

(** The cells of the map that carry [src]. *)
Definition src_cells (src : Z) (m : list Z) (c : Z) : Prop :=
  0 <= c < CDOK_CELLS /\ rd m c = src.

(** ** Printing a puzzle and reading it back *)

(** The parser between two cells, at column [x] of row [y]. *)
Definition clean_parser (x y : Z) : cdok_parser :=
  mk_parser 0 x y 0 (-1) CDOK_GROUP_NONE 0.

(** The parser when it has read the text of the cell at column [x] of row
    [y] of the printed puzzle. *)
Definition cell_parser (puz : cdok_puzzle) (x y : Z) : cdok_parser :=
  let c := CDOK_POS x y in
  if negb (rd (p_values puz) c =? 0)
  then mk_parser 0 x y 0 (rd (p_values puz) c) CDOK_GROUP_NONE 0
  else
    let i := rd (p_group_map puz) c in
    let g := grp_at puz i in
    if rd (g_members g) 0 =? c
    then mk_parser 0 x y 0 (g_target g) i (g_type g)
    else mk_parser 0 x y 0 (-1) i 0.

(** The cells of the [n] by [n] square before column [x] of row [y], in
    reading order. *)
Definition cells_upto (n x y : Z) : list Z :=
  flat_map (fun y' => map (fun x' => CDOK_POS x' y') (range 0 n)) (range 0 y)
  ++ map (fun x' => CDOK_POS x' y) (range 0 x).

(** [cur] is what the parser has rebuilt of [puz] when it has ended the
    cells [done]: their given values, and of every group the members among
    them, in the order of [done], with the type and the target once the
    first member of the group in [puz] is among them. *)
Definition restored (puz : cdok_puzzle) (done : list Z) (cur : cdok_puzzle)
    : Prop :=
  NoDup done /\ (forall c, In c done -> 0 <= c < CDOK_CELLS) /\
  length (p_groups cur) = Z.to_nat CDOK_GROUPS /\
  length (p_values cur) = Z.to_nat CDOK_CELLS /\
  (forall c, 0 <= c < CDOK_CELLS ->
     (In c done -> rd (p_values cur) c = rd (p_values puz) c) /\
     (~ In c done -> rd (p_values cur) c = 0)) /\
  forall i, 0 <= i < CDOK_GROUPS ->
    length (g_members (grp_at cur i)) = Z.to_nat CDOK_GROUP_SIZE /\
    0 <= g_size (grp_at cur i) /\
    live_members (grp_at cur i) =
    filter (fun c => rd (p_group_map puz) c =? i) done /\
    (g_size (grp_at puz i) <> 0 /\ In (rd (g_members (grp_at puz i)) 0) done ->
     g_type (grp_at cur i) = g_type (grp_at puz i) /\
     g_target (grp_at cur i) = g_target (grp_at puz i)) /\
    (~ (g_size (grp_at puz i) <> 0 /\
        In (rd (g_members (grp_at puz i)) 0) done) ->
     g_type (grp_at cur i) = 0 /\ g_target (grp_at cur i) = -1).

(** The puzzles that [cdok_print_puzzle] is for: a well-formed puzzle of
    size 1 to 16 whose groups lie in the square and have targets that an
    [int] holds, with given values that a [uint8_t] holds, in which every
    cell of the square holds a given value or belongs to a group. *)
Definition printable (puz : cdok_puzzle) : Prop :=
  1 <= p_size puz <= CDOK_SIZE /\
  length (p_values puz) = Z.to_nat CDOK_CELLS /\
  cage_invariants puz /\ clues_ok puz /\
  (forall i, 0 <= i < CDOK_GROUPS -> g_size (grp_at puz i) <> 0 ->
     g_target (grp_at puz i) < 2 ^ 31) /\
  (forall i c, 0 <= i < CDOK_GROUPS -> In c (live_members (grp_at puz i)) ->
     In c (square_cells (p_size puz))) /\
  (forall c, In c (square_cells (p_size puz)) ->
     0 <= rd (p_values puz) c < 256 /\
     (rd (p_values puz) c <> 0 \/
      rd (p_group_map puz) c <> CDOK_GROUP_NONE)).

(** [puz'] is [puz] up to the order of the members of the groups, the
    given values outside the square, which are 0 in [puz'], and the types
    and targets of the groups not in use. *)
Definition same_puzzle (puz puz' : cdok_puzzle) : Prop :=
  p_size puz' = p_size puz /\
  length (p_values puz') = Z.to_nat CDOK_CELLS /\
  (forall c, 0 <= c < CDOK_CELLS ->
     (In c (square_cells (p_size puz)) ->
      rd (p_values puz') c = rd (p_values puz) c) /\
     (~ In c (square_cells (p_size puz)) -> rd (p_values puz') c = 0)) /\
  p_group_map puz' = p_group_map puz /\
  forall i, 0 <= i < CDOK_GROUPS ->
    g_size (grp_at puz' i) = g_size (grp_at puz i) /\
    Permutation (live_members (grp_at puz' i)) (live_members (grp_at puz i)) /\
    (g_size (grp_at puz i) <> 0 ->
     g_type (grp_at puz' i) = g_type (grp_at puz i) /\
     g_target (grp_at puz' i) = g_target (grp_at puz i)).

(** [printable], by computation. *)
Definition valid_typeb (t : cdok_gtype_t) : bool :=
  (t =? CDOK_SUM) || (t =? CDOK_DIFFERENCE) || (t =? CDOK_PRODUCT) ||
  (t =? CDOK_RATIO).

Definition printableb (puz : cdok_puzzle) : bool :=
  let n := p_size puz in
  (1 <=? n) && (n <=? CDOK_SIZE) &&
  (Z.of_nat (length (p_values puz)) =? CDOK_CELLS) &&
  (Z.of_nat (length (p_groups puz)) =? CDOK_GROUPS) &&
  (Z.of_nat (length (p_group_map puz)) =? CDOK_CELLS) &&
  forallb
    (fun i =>
       let g := grp_at puz i in
       (0 <=? g_size g) && (g_size g <=? CDOK_GROUP_SIZE) &&
       (Z.of_nat (length (g_members g)) =? CDOK_GROUP_SIZE) &&
       distinctb (live_members g) &&
       forallb (fun c => (0 <=? c) && (c <? CDOK_CELLS) &&
                         (rd (p_group_map puz) c =? i) &&
                         (rd (p_values puz) c =? 0) &&
                         existsb (Z.eqb c) (square_cells n))
               (live_members g) &&
       ((g_size g =? 0) ||
        ((2 <=? g_size g) && valid_typeb (g_type g) &&
         (0 <=? g_target g) && (g_target g <? 2 ^ 31) &&
         negb (((g_type g =? CDOK_RATIO) || (g_type g =? CDOK_PRODUCT)) &&
               (g_target g =? 0)))))
    (range 0 CDOK_GROUPS) &&
  forallb
    (fun c =>
       (rd (p_group_map puz) c =? CDOK_GROUP_NONE) ||
       ((0 <=? rd (p_group_map puz) c) &&
        (rd (p_group_map puz) c <? CDOK_GROUPS) &&
        existsb (Z.eqb c) (live_members (grp_at puz (rd (p_group_map puz) c)))))
    (range 0 CDOK_CELLS) &&
  forallb
    (fun c =>
       (0 <=? rd (p_values puz) c) && (rd (p_values puz) c <? 256) &&
       (negb (rd (p_values puz) c =? 0) ||
        negb (rd (p_group_map puz) c =? CDOK_GROUP_NONE)))
    (square_cells n) &&
  match validate_group_map puz with
  | Some 0 => true
  | _ => false
  end.

(** ** UTF-8 *)


(** * Examples *)

(** A grid from its rows, the rest of the 16 by 16 array being 0. *)
Definition grid_of_rows (rows : list (list Z)) : list Z :=
  map (fun c => nth (Z.to_nat (CDOK_POS_X c))
                    (nth (Z.to_nat (CDOK_POS_Y c)) rows []) 0)
      (range 0 CDOK_CELLS).

Definition no_groups : list cdok_group :=
  repeat (mk_group 0 (-1) 0 (repeat 0 8)) (Z.to_nat CDOK_GROUPS).

Definition no_group_map : list Z :=
  repeat CDOK_GROUP_NONE (Z.to_nat CDOK_CELLS).

(** A 2 by 2 puzzle whose four cells form one sum group with target 6:
    both Latin squares of side 2 solve it. *)
Definition puzzle_two_solutions : cdok_puzzle :=
  mk_puzzle 2
            (upd no_groups 0 (mk_group CDOK_SUM 6 4 [0; 1; 16; 17; 0; 0; 0; 0]))
            (grid_of_rows [[0; 0]; [0; 0]])
            (wr (wr (wr (wr no_group_map 0 0) 1 0) 16 0) 17 0).

(** A 2 by 2 puzzle with one difference group of target 0 on the top
    row: no Latin square solves it. *)
Definition puzzle_no_solution : cdok_puzzle :=
  mk_puzzle 2
            (upd no_groups 0
                 (mk_group CDOK_DIFFERENCE 0 2 [0; 1; 0; 0; 0; 0; 0; 0]))
            (grid_of_rows [[0; 0]; [1; 2]])
            (wr (wr no_group_map 0 0) 1 0).

(** Every group slot of the puzzle is in use. *)
Definition all_groups_live (puz : cdok_puzzle) : Prop :=
  forall i, 0 <= i < CDOK_GROUPS -> g_size (grp_at puz i) <> 0.

(** The cyclic Latin square of side 16: cell (x, y) holds
    [(x + y) mod 16 + 1]. *)
Definition cyclic_solution : list Z :=
  map (fun c => (CDOK_POS_X c + CDOK_POS_Y c) mod 16 + 1) (range 0 CDOK_CELLS).

(** The group of a cell in [full_puzzle]: rows 0 to 5 are cut into
    horizontal pairs (groups 0 to 47), row 6 starts with three pairs
    (groups 48 to 50) followed by one triple (group 51); every other cell
    is a given. *)
Definition full_group_of (c : Z) : Z :=
  let x := CDOK_POS_X c in
  let y := CDOK_POS_Y c in
  if y <? 6 then 8 * y + x / 2
  else if y =? 6 then
    if x <? 6 then 48 + x / 2
    else if x <? 9 then 51
    else CDOK_GROUP_NONE
  else CDOK_GROUP_NONE.

Definition full_group (i : Z) : cdok_group :=
  let cells := filter (fun c => full_group_of c =? i) (range 0 CDOK_CELLS) in
  mk_group CDOK_SUM
           (fold_left (fun s c => s + rd cyclic_solution c) cells 0)
           (Z.of_nat (length cells))
           (cells ++ repeat 0 (8 - length cells)).

(** A 16 by 16 puzzle with all 52 groups in use, each a sum group with
    the target its cells have in [cyclic_solution]. *)
Definition full_puzzle : cdok_puzzle :=
  mk_puzzle 16
            (map full_group (range 0 CDOK_GROUPS))
            (map (fun c => if full_group_of c =? CDOK_GROUP_NONE
                           then rd cyclic_solution c else 0)
                 (range 0 CDOK_CELLS))
            (map full_group_of (range 0 CDOK_CELLS)).

(** The joins that build the groups of [full_puzzle] slot by slot. *)
Definition full_joins : list (Z * Z) :=
  map (fun i => let y := i / 8 in
                let x := 2 * (i mod 8) in
                (CDOK_POS x y, CDOK_POS (x + 1) y))
      (range 0 CDOK_GROUPS) ++
  [(CDOK_POS 8 6, CDOK_POS 7 6)].

(** A Latin square of side 3 and a run of [random()] under which
    [cdok_generate] builds from it a puzzle with a second solution. *)
Definition seed_grid : list Z := grid_of_rows [[3; 2; 1]; [2; 1; 3]; [1; 3; 2]].

Definition other_grid : list Z := grid_of_rows [[2; 1; 3]; [3; 2; 1]; [1; 3; 2]].

Definition seed_draws : rand_source :=
  fun k =>
    nth k ([0; 0; 1; 3; 0; 1] ++ [1; 0; 1; 0] ++ [1; 1; 1; 1; 1] ++
           [0; 2; 0; 3; 0; 1] ++
           [0; 0; 1; 0; 0; 1; 0; 0; 1; 0; 0; 1; 0; 0; 1; 0; 0; 1])%nat 0%nat.

(** [full_puzzle] after cell (8, 6) has left the triple of group 51. *)
Definition full_puzzle_cut : cdok_puzzle :=
  mk_puzzle 16
            (upd (p_groups full_puzzle) 51
                 (mk_group CDOK_SUM 27 2 [102; 103; 104; 0; 0; 0; 0; 0]))
            (wr (p_values full_puzzle) (CDOK_POS 8 6) 15)
            (wr (p_group_map full_puzzle) (CDOK_POS 8 6) CDOK_GROUP_NONE).

(** The puzzle built from [seed_grid] under [seed_draws]: the top left
    2 by 2 block is a product group with target 12, the two cells to its
    right a product group with target 3, the bottom row is given. *)
Definition seed_puzzle : cdok_puzzle :=
  mk_puzzle 3
            (upd (upd no_groups 0
                      (mk_group CDOK_PRODUCT 12 4 [0; 1; 16; 17; 0; 0; 0; 0]))
                 1 (mk_group CDOK_PRODUCT 3 2 [2; 18; 0; 0; 0; 0; 0; 0]))
            (grid_of_rows [[0; 0; 0]; [0; 0; 0]; [1; 3; 2]])
            (wr (wr (wr (wr (wr (wr no_group_map 0 0) 1 0) 16 0) 17 0) 2 1)
                18 1).

(** The puzzle from which [cdok_generate] starts for [seed_grid]: no
    groups, every cell given. *)
Definition seed_start : cdok_puzzle :=
  mk_puzzle 3 (p_groups (cdok_init_puzzle 3)) seed_grid
            (p_group_map (cdok_init_puzzle 3)).

(** * Properties *)

(** ** Arrays and index ranges *)

Lemma upd_length {A : Type} (l : list A) (n : nat) (v : A) :
  length (upd l n v) = length l.
Proof.
  revert n; induction l as [|h t IH]; intros [|n]; simpl; auto.
Qed.

Lemma nth_upd_same {A : Type} (l : list A) (n : nat) (v d : A) :
  (n < length l)%nat -> nth n (upd l n v) d = v.
Proof.
  revert n; induction l as [|h t IH]; intros [|n]; simpl; intros H;
    try lia; auto.
  apply IH; lia.
Qed.

Lemma nth_upd_other {A : Type} (l : list A) (n m : nat) (v d : A) :
  n <> m -> nth m (upd l n v) d = nth m l d.
Proof.
  revert n m; induction l as [|h t IH]; intros [|n] [|m]; simpl; intros H;
    try congruence; auto.
Qed.

Lemma upd_same_value {A : Type} (l : list A) (n : nat) (d : A) :
  upd l n (nth n l d) = l.
Proof.
  revert n; induction l as [|h t IH]; intros [|n]; simpl; auto.
  f_equal; apply IH.
Qed.

Lemma wr_length (l : list Z) (i v : Z) : length (wr l i v) = length l.
Proof.
  unfold wr; destruct (i <? 0); auto using upd_length.
Qed.

Lemma rd_wr_same (l : list Z) (i v : Z) :
  0 <= i < Z.of_nat (length l) -> rd (wr l i v) i = v.
Proof.
  intros H; unfold rd, wr.
  destruct (Z.ltb_spec i 0); [lia|].
  apply nth_upd_same; lia.
Qed.

Lemma rd_wr_other (l : list Z) (i j v : Z) :
  0 <= j -> i <> j -> rd (wr l i v) j = rd l j.
Proof.
  intros Hj H; unfold rd, wr.
  destruct (Z.ltb_spec i 0); auto.
  apply nth_upd_other; lia.
Qed.

Lemma rd_wr (l : list Z) (i j v : Z) :
  0 <= i < Z.of_nat (length l) -> 0 <= j ->
  rd (wr l i v) j = if i =? j then v else rd l j.
Proof.
  intros Hi Hj; destruct (Z.eqb_spec i j) as [->|Hne].
  - apply rd_wr_same; auto.
  - apply rd_wr_other; auto.
Qed.

Lemma wr_same_value (l : list Z) (i : Z) : wr l i (rd l i) = l.
Proof.
  unfold wr, rd; destruct (i <? 0); auto using upd_same_value.
Qed.

Lemma range_nil (lo hi : Z) : hi <= lo -> range lo hi = [].
Proof.
  intros H; unfold range.
  replace (Z.to_nat (hi - lo)) with 0%nat by lia; reflexivity.
Qed.

Lemma range_cons (lo hi : Z) :
  lo < hi -> range lo hi = lo :: range (lo + 1) hi.
Proof.
  intros H; unfold range.
  replace (Z.to_nat (hi - lo)) with (S (Z.to_nat (hi - (lo + 1)))) by lia.
  simpl; f_equal; [lia|].
  rewrite <- seq_shift, map_map.
  apply map_ext; intros; lia.
Qed.

Lemma range_snoc (lo hi : Z) :
  lo <= hi -> range lo (hi + 1) = range lo hi ++ [hi].
Proof.
  intros H; unfold range.
  replace (Z.to_nat (hi + 1 - lo)) with (Z.to_nat (hi - lo) + 1)%nat by lia.
  rewrite seq_app, map_app; simpl.
  do 2 f_equal; lia.
Qed.

Lemma in_range (lo hi i : Z) : In i (range lo hi) <-> lo <= i < hi.
Proof.
  unfold range; rewrite in_map_iff; split.
  - intros (k & <- & Hk); apply in_seq in Hk; lia.
  - intros H; exists (Z.to_nat (i - lo)); split; [lia|].
    apply in_seq; lia.
Qed.

Lemma range_length (lo hi : Z) : length (range lo hi) = Z.to_nat (hi - lo).
Proof.
  unfold range; rewrite length_map, length_seq; reflexivity.
Qed.

(** ** Value sets *)

Lemma set_single_pow2 (c : Z) : 1 <= c -> CDOK_SET_SINGLE c = 2 ^ (c - 1).
Proof.
  intros H; unfold CDOK_SET_SINGLE.
  rewrite Z.shiftl_1_l; reflexivity.
Qed.

Lemma set_ones_ones (s : Z) : CDOK_SET_ONES s = Z.ones s.
Proof.
  unfold CDOK_SET_ONES, Z.ones; lia.
Qed.

Lemma testbit_set_cast (x i : Z) :
  0 <= i -> Z.testbit (cdok_set_cast x) i = Z.testbit x i && (i <? 16).
Proof.
  intros Hi; unfold cdok_set_cast.
  change 65535 with (Z.ones 16).
  rewrite Z.land_spec, Z.testbit_ones_nonneg by lia; reflexivity.
Qed.

Lemma set_cast_range (x : Z) : 0 <= cdok_set_cast x < 65536.
Proof.
  unfold cdok_set_cast; change 65535 with (Z.ones 16).
  rewrite Z.land_ones by lia.
  apply Z.mod_pos_bound; lia.
Qed.

Lemma set_cast_small (x : Z) : 0 <= x < 65536 -> cdok_set_cast x = x.
Proof.
  intros H; unfold cdok_set_cast; change 65535 with (Z.ones 16).
  rewrite Z.land_ones by lia.
  apply Z.mod_small; lia.
Qed.

Lemma testbit_set_single (c i : Z) :
  1 <= c -> Z.testbit (CDOK_SET_SINGLE c) i = (c - 1 =? i).
Proof.
  intros H; rewrite set_single_pow2 by auto.
  apply Z.pow2_bits_eqb; lia.
Qed.

Lemma testbit_set_range (lo hi i : Z) :
  1 <= lo -> lo <= hi -> 0 <= i ->
  Z.testbit (CDOK_SET_RANGE lo hi) i = (lo - 1 <=? i) && (i <? hi).
Proof.
  intros Hlo Hhi Hi; unfold CDOK_SET_RANGE.
  rewrite set_ones_ones, Z.shiftl_spec, Z.testbit_ones by lia.
  destruct (Z.leb_spec 0 (i - (lo - 1))), (Z.leb_spec (lo - 1) i),
    (Z.ltb_spec (i - (lo - 1)) (hi - lo + 1)), (Z.ltb_spec i hi);
    simpl; auto; lia.
Qed.

Lemma set_single_small (c : Z) :
  1 <= c <= 16 -> cdok_set_cast (CDOK_SET_SINGLE c) = CDOK_SET_SINGLE c.
Proof.
  intros H; apply set_cast_small.
  rewrite set_single_pow2 by lia; split; [apply Z.pow_nonneg; lia|].
  change 65536 with (2 ^ 16); apply Z.pow_lt_mono_r; lia.
Qed.

Lemma set_range_small (lo hi : Z) :
  1 <= lo -> lo <= hi -> hi <= 16 ->
  cdok_set_cast (CDOK_SET_RANGE lo hi) = CDOK_SET_RANGE lo hi.
Proof.
  intros Hlo Hhi H16; apply Z.bits_inj'; intros i Hi.
  rewrite testbit_set_cast, testbit_set_range by lia.
  destruct (Z.ltb_spec i 16), (Z.ltb_spec i hi); try lia;
    rewrite ?andb_true_r, ?andb_false_r; auto.
Qed.

Lemma set_range_single (c : Z) :
  1 <= c -> CDOK_SET_RANGE c c = CDOK_SET_SINGLE c.
Proof.
  intros H; apply Z.bits_inj'; intros i Hi.
  rewrite testbit_set_range, testbit_set_single by lia.
  destruct (Z.leb_spec (c - 1) i), (Z.ltb_spec i c), (Z.eqb_spec (c - 1) i);
    simpl; auto; lia.
Qed.

Lemma fold_add_sum (l : list Z) (a : Z) :
  fold_left (fun s m => s + m) l a = a + fold_right Z.add 0 l.
Proof.
  revert a; induction l as [|h t IH]; intros a; simpl; [lia|].
  rewrite IH; lia.
Qed.

(** ** Sum groups *)

Section Addends.

Variables target n max : Z.
Hypothesis Hmax : 1 <= max <= 16.
Hypothesis Hn : 1 <= n \/ 2 <= max.

Let lo := Z.max 1 (target - max * (n - 1)).
Let hi := Z.min max (target - (n - 1)).

Lemma addends_for_range :
  addends_for target n max =
  if lo <=? hi then CDOK_SET_RANGE lo hi else 0.
Proof.
  unfold addends_for; subst lo hi.
  destruct (Z.ltb_spec target 1); simpl.
  { destruct (Z.leb_spec (Z.max 1 (target - max * (n - 1)))
                         (Z.min max (target - (n - 1)))); auto; nia. }
  destruct (Z.ltb_spec n 1); simpl.
  { destruct (Z.leb_spec (Z.max 1 (target - max * (n - 1)))
                         (Z.min max (target - (n - 1)))); auto; nia. }
  destruct (Z.eqb_spec n 1) as [->|Hn1].
  - replace (target - max * (1 - 1)) with target by lia.
    replace (target - (1 - 1)) with target by lia.
    destruct (Z.leb_spec 1 target); [|lia].
    destruct (Z.leb_spec target max); simpl.
    + rewrite Z.max_r, Z.min_r, Z.leb_refl by lia.
      rewrite set_range_single, set_single_small by lia; reflexivity.
    + destruct (Z.leb_spec (Z.max 1 target) (Z.min max target)); auto; lia.
  - destruct (Z.ltb_spec (target - max * (n - 1)) 1);
      destruct (Z.gtb_spec (target - (n - 1)) max);
      rewrite ?Z.max_l, ?Z.max_r, ?Z.min_l, ?Z.min_r by lia;
      match goal with
      | |- context [?a >? ?b] =>
        destruct (Z.gtb_spec a b), (Z.leb_spec a b); try lia; auto;
          apply set_range_small; lia
      end.
Qed.

Lemma addends_for_mem (v : Z) :
  cdok_set_mem v (addends_for target n max) = true <-> lo <= v <= hi.
Proof.
  rewrite addends_for_range; unfold cdok_set_mem.
  assert (Hlo : 1 <= lo) by (subst lo; lia).
  destruct (Z.leb_spec lo hi).
  - destruct (Z.ltb_spec (v - 1) 0).
    + rewrite Z.testbit_neg_r by lia; split; [discriminate|lia].
    + rewrite testbit_set_range by lia.
      rewrite andb_true_iff, Z.leb_le, Z.ltb_lt; lia.
  - rewrite Z.testbit_0_l; split; [discriminate|lia].
Qed.

End Addends.

(** C7.  For a sum group with target [target], [size] cells and known
    values [members] on a grid of width [max]: with [t'] the target less
    the known values and [n] the number of cells left, the candidate set
    is the range from [max(1, t' - max * (n - 1))] to
    [min(max, t' - (n - 1))], it is empty when that range is, and for one
    cell left it is the singleton of [t'] when [1 <= t' <= max] and empty
    otherwise.  This is the set that [group_candidates] returns for such
    a group. *)
Theorem sum_candidates_range (target size : Z) (members : list Z) (max : Z) :
  1 <= max <= 16 ->
  Z.of_nat (length members) < size \/ 2 <= max ->
  let t' := target - fold_right Z.add 0 members in
  let n := size - Z.of_nat (length members) in
  let lo := Z.max 1 (t' - max * (n - 1)) in
  let hi := Z.min max (t' - (n - 1)) in
  let out := sum_candidates target size members max in
  (forall v, cdok_set_mem v out = true <-> lo <= v <= hi) /\
  (lo <= hi -> out = CDOK_SET_RANGE lo hi) /\
  (hi < lo -> out = 0) /\
  (n = 1 ->
   out = if (1 <=? t') && (t' <=? max) then CDOK_SET_SINGLE t' else 0) /\
  (forall g values,
     g_type g = CDOK_SUM -> g_target g = target -> g_size g = size ->
     group_known g values = members ->
     group_candidates g values max = out).
Proof.
  intros Hmax Hn t' n lo hi out.
  assert (Hgrp : forall g values,
             g_type g = CDOK_SUM -> g_target g = target -> g_size g = size ->
             group_known g values = members ->
             group_candidates g values max = out).
  { intros g values Ht Hta Hsz Hk; unfold group_candidates.
    rewrite Ht, Hta, Hsz, Hk; reflexivity. }
  assert (Hout : out = addends_for t' n max).
  { subst out t' n; unfold sum_candidates.
    rewrite fold_add_sum; f_equal; lia. }
  assert (Hn' : 1 <= n \/ 2 <= max) by (subst n; lia).
  rewrite Hout; repeat split.
  - apply addends_for_mem; auto.
  - apply addends_for_mem; auto.
  - apply addends_for_mem; auto.
  - intros H; rewrite addends_for_range by auto.
    fold lo hi; destruct (Z.leb_spec lo hi); auto; lia.
  - intros H; rewrite addends_for_range by auto.
    fold lo hi; destruct (Z.leb_spec lo hi); auto; lia.
  - intros H1; unfold addends_for; rewrite H1; simpl.
    destruct (Z.ltb_spec t' 1), (Z.leb_spec 1 t'); try lia; simpl; auto.
    destruct (Z.leb_spec t' max); auto.
    apply set_single_small; lia.
  - rewrite <- Hout; exact Hgrp.
Qed.

(** A sum group of three cells with target 6 on a 4x4 grid, one cell
    known to hold 1: the two cells left take values from 1 to 4. *)
Lemma sum_candidates_range_witness :
  1 <= 4 <= 16 /\
  (Z.of_nat (length [1]) < 3 \/ 2 <= 4) /\
  (forall v, cdok_set_mem v (sum_candidates 6 3 [1] 4) = true <->
             Z.max 1 (6 - 1 - 4 * (3 - 1 - 1)) <= v <=
             Z.min 4 (6 - 1 - (3 - 1 - 1))).
Proof.
  split; [lia|]; split; [left; simpl; lia|].
  apply (sum_candidates_range 6 3 [1] 4); [lia|left; simpl; lia].
Defined.

(** ** Product groups: the single-factor case *)

Lemma factors_for_one_left (target max : Z) :
  1 <= target ->
  factors_for target 1 max = cdok_set_cast (CDOK_SET_SINGLE target).
Proof.
  intros H; unfold factors_for.
  destruct (Z.ltb_spec target 1); [lia|]; simpl.
  destruct (Z.leb_spec 1 target); [|lia]; reflexivity.
Qed.

(** C6 (the code departs from it).  With one factor left, target 5 and
    largest value 4, [factors_for] returns the set holding 5 (bit 4), not
    the empty set: the guard is the disjunction
    [target >= 1 || target <= max], which holds for every target that
    reaches it, so that the result is the singleton of the target
    whatever [max] is.  [addends_for], with the conjunction, returns the
    empty set on the same input. *)
Theorem factors_for_one_left_above_max :
  factors_for 5 1 4 = CDOK_SET_SINGLE 5 /\
  factors_for 5 1 4 <> 0 /\
  cdok_set_mem 5 (factors_for 5 1 4) = true /\
  addends_for 5 1 4 = 0 /\
  (forall target max,
     1 <= target ->
     factors_for target 1 max = cdok_set_cast (CDOK_SET_SINGLE target)).
Proof.
  split; [reflexivity|].
  split; [vm_compute; discriminate|].
  split; [reflexivity|].
  split; [reflexivity|exact factors_for_one_left].
Qed.

(** ** The hardening loop *)

Lemma committed_trans (limit : Z) (p1 p2 p3 : cdok_puzzle) (b1 b2 b3 : Z) :
  b1 <= b2 -> committed limit p1 b1 p2 b2 -> committed limit p2 b2 p3 b3 ->
  committed limit p1 b1 p3 b3.
Proof.
  intros Hle [[-> ->]|(Hs & Hlt & Hlim)] [[-> ->]|(Hs' & Hlt' & Hlim')].
  - left; auto.
  - right; repeat split; auto.
  - right; repeat split; auto.
  - right; repeat split; auto; lia.
Qed.

Lemma harden_step_committed (solution : list Z) (fl limit : Z)
    (rnd : rand_source) (puz work : cdok_puzzle) (b : Z) (k : nat)
    (puz' work' : cdok_puzzle) (b' : Z) (k' : nat) :
  harden_step solution fl limit rnd (puz, work, b, k) =
    Some (puz', work', b', k') ->
  b <= b' /\ committed limit puz b puz' b'.
Proof.
  unfold harden_step.
  destruct (choose_cell (int_of_uint (p_size puz)) rnd k) as [c k1].
  destruct (choose_neighbour (int_of_uint (p_size puz)) c rnd k1) as [cn k2].
  destruct (mut_join_cells work c cn solution fl rnd k2) as [[w k3]|];
    simpl; [|discriminate].
  destruct (cdok_solve w None (Some 0)) as [[[r s] d]|] eqn:Hsolve;
    simpl; [|discriminate].
  destruct (Z.eqb_spec r 0) as [->|Hr]; simpl.
  2:{ intros E; inversion E; subst; split; [lia|left; auto]. }
  destruct d as [d|].
  - destruct (Z.gtb_spec d b) as [Hgt|Hgt]; simpl.
    2:{ intros E; inversion E; subst; split; [lia|left; auto]. }
    destruct (Z.leb_spec limit 0) as [Hl|Hl]; simpl.
    { intros E; inversion E; subst; split; [lia|right].
      repeat split; eauto; lia. }
    destruct (Z.leb_spec d limit) as [Hd|Hd]; simpl.
    { intros E; inversion E; subst; split; [lia|right].
      repeat split; eauto; lia. }
    intros E; inversion E; subst; split; [lia|left; auto].
  - exfalso; revert Hsolve; unfold cdok_solve.
    destruct (solve_recurse _ _ _ _) as [ctx|]; [|discriminate].
    destruct (ctx_count ctx =? 0); intros E; inversion E.
Qed.

Lemma harden_loop_committed (solution : list Z) (fl limit : Z)
    (rnd : rand_source) (n : nat) :
  forall puz work b k puz' work' b' k',
    harden_loop n solution fl limit rnd (puz, work, b, k) =
      Some (puz', work', b', k') ->
    b <= b' /\ committed limit puz b puz' b'.
Proof.
  induction n as [|n IH]; cbn [harden_loop];
    intros puz work b k puz' work' b' k' H.
  - inversion H; subst; split; [lia|left; auto].
  - destruct (harden_step solution fl limit rnd (puz, work, b, k))
      as [[[[p1 w1] b1] k1]|] eqn:Hstep; cbn [obind] in H; [|discriminate].
    apply harden_step_committed in Hstep as [Hle1 Hc1].
    apply IH in H as [Hle2 Hc2].
    split; [lia|]; eapply committed_trans; eauto.
Qed.

(** ** Sizes below two *)

(** C9.  For [size < 2], [cdok_generate] returns 0, leaves the caller's
    puzzle as it was on entry and draws no random number. *)
Theorem cdok_generate_small (puz : cdok_puzzle) (solution : list Z)
    (size fl iterations limit target : Z) (rnd : rand_source) (k : nat) :
  size < 2 ->
  cdok_generate puz solution size fl iterations limit target rnd k =
    Some (0, puz, k).
Proof.
  intros H; unfold cdok_generate.
  destruct (Z.ltb_spec size 2); [reflexivity|lia].
Qed.

Lemma cdok_generate_small_witness :
  1 < 2 /\
  cdok_generate (mk_puzzle 7 [] [1; 2] [3]) [1] 1 0 20 0 0 (fun _ => 5%nat) 0 =
    Some (0, mk_puzzle 7 [] [1; 2] [3], 0%nat).
Proof.
  split; [lia|].
  apply (cdok_generate_small (mk_puzzle 7 [] [1; 2] [3]) [1] 1 0 20 0 0
                             (fun _ => 5%nat) 0%nat); lia.
Defined.

(** ** Cell positions *)

Lemma testbit_small (x n i : Z) :
  0 <= x < 2 ^ n -> n <= i -> Z.testbit x i = false.
Proof.
  intros Hx Hi.
  destruct (Z.eq_dec x 0) as [->|Hx0]; [apply Z.bits_0|].
  apply Z.bits_above_log2; [lia|].
  apply Z.lt_le_trans with n; [apply Z.log2_lt_pow2; lia|lia].
Qed.

Lemma land_shiftl_small (x y : Z) :
  0 <= x < 16 -> Z.land (Z.shiftl y 4) x = 0.
Proof.
  intros Hx; apply Z.bits_inj'; intros i Hi.
  rewrite Z.land_spec, Z.bits_0.
  destruct (Z.ltb_spec i 4).
  - rewrite Z.shiftl_spec_low by lia; reflexivity.
  - rewrite (testbit_small x 4 i), andb_false_r by (simpl; lia); reflexivity.
Qed.

Lemma CDOK_POS_add (x y : Z) :
  0 <= x < 16 -> 0 <= y -> CDOK_POS x y = 16 * y + x.
Proof.
  intros Hx Hy; unfold CDOK_POS.
  rewrite <- Z.lxor_lor by (apply land_shiftl_small; auto).
  rewrite <- Z.add_nocarry_lxor by (apply land_shiftl_small; auto).
  rewrite Z.shiftl_mul_pow2 by lia.
  change (2 ^ 4) with 16; lia.
Qed.

Lemma CDOK_POS_X_POS (x y : Z) :
  0 <= x < 16 -> 0 <= y -> CDOK_POS_X (CDOK_POS x y) = x.
Proof.
  intros Hx Hy; rewrite CDOK_POS_add by auto.
  unfold CDOK_POS_X; change 15 with (Z.ones 4).
  rewrite Z.land_ones by lia; change (2 ^ 4) with 16.
  rewrite Z.add_comm, Z.mul_comm, Z.mod_add by lia.
  apply Z.mod_small; lia.
Qed.

Lemma CDOK_POS_Y_POS (x y : Z) :
  0 <= x < 16 -> 0 <= y -> CDOK_POS_Y (CDOK_POS x y) = y.
Proof.
  intros Hx Hy; rewrite CDOK_POS_add by auto.
  unfold CDOK_POS_Y; rewrite Z.shiftr_div_pow2 by lia.
  change (2 ^ 4) with 16.
  rewrite Z.add_comm, Z.mul_comm, Z.div_add by lia.
  rewrite Z.div_small by lia; lia.
Qed.

Lemma CDOK_POS_XY (c : Z) :
  0 <= c -> CDOK_POS (CDOK_POS_X c) (CDOK_POS_Y c) = c.
Proof.
  intros Hc; unfold CDOK_POS_X, CDOK_POS_Y.
  change 15 with (Z.ones 4); rewrite Z.land_ones by lia.
  rewrite Z.shiftr_div_pow2 by lia; change (2 ^ 4) with 16.
  rewrite CDOK_POS_add.
  - pose proof (Z.div_mod c 16); lia.
  - apply Z.mod_pos_bound; lia.
  - apply Z.div_pos; lia.
Qed.

Lemma CDOK_POS_X_range (c : Z) : 0 <= CDOK_POS_X c < 16.
Proof.
  unfold CDOK_POS_X; change 15 with (Z.ones 4).
  rewrite Z.land_ones by lia; apply Z.mod_pos_bound; simpl; lia.
Qed.

Lemma CDOK_POS_Y_range (c : Z) : 0 <= c < 256 -> 0 <= CDOK_POS_Y c < 16.
Proof.
  intros H; unfold CDOK_POS_Y; rewrite Z.shiftr_div_pow2 by lia.
  change (2 ^ 4) with 16; split.
  - apply Z.div_pos; lia.
  - apply Z.div_lt_upper_bound; lia.
Qed.

Lemma CDOK_POS_range (x y : Z) :
  0 <= x < 16 -> 0 <= y < 16 -> 0 <= CDOK_POS x y < 256.
Proof.
  intros Hx Hy; rewrite CDOK_POS_add by lia; lia.
Qed.

(** ** Loop invariants *)

Lemma fold_left_inv {A B : Type} (P : A -> Prop) (f : A -> B -> A)
    (l : list B) (a : A) :
  P a -> (forall a b, In b l -> P a -> P (f a b)) -> P (fold_left f l a).
Proof.
  revert a; induction l as [|h t IH]; simpl; intros a Ha Hstep; auto.
Qed.

(** ** The cell chosen by the solver *)

Lemma search_least_free_cell (values candidates : list Z) (max : Z) :
  let c := search_least_free values candidates max in
  c = -1 \/
  exists x y, 0 <= x < max /\ 0 <= y < max /\ c = CDOK_POS x y /\
              rd values c = 0.
Proof.
  unfold search_least_free.
  set (P := fun st : Z * Z =>
              fst st = -1 \/
              exists x y, 0 <= x < max /\ 0 <= y < max /\
                          fst st = CDOK_POS x y /\ rd values (fst st) = 0).
  change (P (fold_left
               (fun st y =>
                  fold_left
                    (fun '(best, best_count) x =>
                       let c := CDOK_POS x y in
                       if rd values c =? 0 then
                         let count := count_bits (rd candidates c) in
                         if (best <? 0) || (count <? best_count)
                         then (c, count)
                         else (best, best_count)
                       else (best, best_count))
                    (range 0 max) st)
               (range 0 max) (-1, 0))).
  apply fold_left_inv; [left; reflexivity|].
  intros st y Hy Hst; apply in_range in Hy.
  apply fold_left_inv; auto.
  intros [best bc] x Hx Hb; apply in_range in Hx; cbv zeta.
  destruct (Z.eqb_spec (rd values (CDOK_POS x y)) 0) as [Hz|Hz]; auto.
  destruct ((best <? 0) || (count_bits (rd candidates (CDOK_POS x y)) <? bc));
    auto.
  right; exists x, y; simpl; auto.
Qed.

Lemma find_candidates_cell (puz : cdok_puzzle) (values : list Z)
    (cell candidates : Z) :
  find_candidates puz values = Some (cell, candidates) ->
  rd values cell = 0 /\
  exists x y, 0 <= x < p_size puz /\ 0 <= y < p_size puz /\
              cell = CDOK_POS x y.
Proof.
  unfold find_candidates.
  set (cs := constrain_by_groups puz values
               (build_rc_candidates values (p_size puz))).
  pose proof (search_least_free_cell values cs (p_size puz)) as H.
  cbv zeta in H.
  destruct (Z.ltb_spec (search_least_free values cs (p_size puz)) 0) as [Hlt|Hge];
    [discriminate|].
  intros E; inversion E; subst; clear E.
  destruct H as [H|(x & y & Hx & Hy & Hc & Hz)]; [lia|].
  split; auto; exists x, y; auto.
Qed.

Lemma find_candidates_range (puz : cdok_puzzle) (values : list Z)
    (cell candidates : Z) :
  p_size puz <= CDOK_SIZE ->
  find_candidates puz values = Some (cell, candidates) ->
  0 <= cell < CDOK_CELLS.
Proof.
  intros Hs H; apply find_candidates_cell in H as (_ & x & y & Hx & Hy & ->).
  unfold CDOK_SIZE, CDOK_CELLS in *; apply CDOK_POS_range; lia.
Qed.

(** ** The number of empty cells decreases along the search *)

Lemma zeros_le_length (l : list Z) : (zeros l <= length l)%nat.
Proof.
  induction l as [|h t IH]; simpl; [lia|].
  destruct (h =? 0); lia.
Qed.

Lemma zeros_upd (l : list Z) (n : nat) (v : Z) :
  (n < length l)%nat -> nth n l 0 = 0 -> v <> 0 ->
  S (zeros (upd l n v)) = zeros l.
Proof.
  revert n; induction l as [|h t IH]; intros [|n]; simpl; intros Hn Hz Hv;
    try lia.
  - subst h; simpl.
    destruct (Z.eqb_spec v 0); [lia|reflexivity].
  - destruct (h =? 0); rewrite <- (IH n) by (auto; lia); reflexivity.
Qed.

Lemma zeros_wr (l : list Z) (c v : Z) :
  0 <= c < Z.of_nat (length l) -> rd l c = 0 -> v <> 0 ->
  S (zeros (wr l c v)) = zeros l.
Proof.
  intros Hc Hz Hv; unfold wr, rd in *.
  destruct (Z.ltb_spec c 0); [lia|].
  apply zeros_upd; auto; lia.
Qed.

Lemma upd_upd {A : Type} (l : list A) (n : nat) (a b : A) :
  upd (upd l n a) n b = upd l n b.
Proof.
  revert n; induction l as [|h t IH]; intros [|n]; simpl; auto.
  f_equal; apply IH.
Qed.

Lemma wr_wr (l : list Z) (c a b : Z) : wr (wr l c a) c b = wr l c b.
Proof.
  unfold wr; destruct (c <? 0); auto using upd_upd.
Qed.

Lemma wr_restore (l : list Z) (c a : Z) :
  rd l c = 0 -> wr (wr l c a) c 0 = l.
Proof.
  intros H; rewrite wr_wr, <- H; apply wr_same_value.
Qed.

(** ** The search visits its leaves in order and stops at the second *)

Lemma collect_leaves_some (candidates : Z)
    (sub : Z -> option (list (list Z * Z))) (vs : list Z) :
  (forall i, In i vs -> exists L, sub i = Some L) ->
  exists L, collect_leaves candidates sub vs = Some L.
Proof.
  induction vs as [|i vs IH]; simpl; intros H; [eauto|].
  destruct IH as [L HL]; [intros; apply H; auto|].
  fold (collect_leaves candidates sub vs); rewrite HL.
  destruct (Z.land candidates (CDOK_SET_SINGLE i) =? 0); [eauto|].
  destruct (H i) as [Li Hi]; auto.
  rewrite Hi; simpl; eauto.
Qed.

Lemma search_leaves_total (puz : cdok_puzzle) :
  p_size puz <= CDOK_SIZE ->
  forall fuel values bd,
    length values = Z.to_nat CDOK_CELLS -> (zeros values < fuel)%nat ->
    exists L, search_leaves fuel puz values bd = Some L.
Proof.
  intros Hs; induction fuel as [|f IH]; intros v bd Hlen Hz; [lia|].
  cbn [search_leaves].
  destruct (find_candidates puz v) as [[cell cands]|] eqn:Hfc; [|eauto].
  destruct (cands =? 0); [eauto|].
  pose proof (find_candidates_range _ _ _ _ Hs Hfc) as Hr.
  apply find_candidates_cell in Hfc as [Hz0 _].
  apply collect_leaves_some; intros i Hi; apply in_range in Hi.
  apply IH; [rewrite wr_length; auto|].
  pose proof (zeros_wr v cell i) as Hw.
  unfold CDOK_CELLS in *; lia.
Qed.

Lemma record_leaves_app (ctx : solver_context) (L1 L2 : list (list Z * Z)) :
  0 <= ctx_count ctx ->
  record_leaves (record_leaves ctx L1) L2 = record_leaves ctx (L1 ++ L2).
Proof.
  intros Hc; destruct L1 as [|[v1 d1] t1]; [reflexivity|].
  destruct L2 as [|[v2 d2] t2]; [rewrite app_nil_r; reflexivity|].
  cbn [record_leaves app ctx_count ctx_solution ctx_values ctx_branch_diff].
  assert (Hne : Z.min 2 (ctx_count ctx + Z.of_nat (length ((v1, d1) :: t1)))
                <> 0) by (simpl length; lia).
  apply Z.eqb_neq in Hne; rewrite Hne.
  f_equal; simpl length; rewrite ?length_app; simpl length; lia.
Qed.

Lemma record_leaves_set_value (ctx : solver_context) (cell i : Z)
    (L : list (list Z * Z)) :
  rd (ctx_values ctx) cell = 0 ->
  ctx_set_value (record_leaves (ctx_set_value ctx cell i) L) cell 0 =
  record_leaves ctx L.
Proof.
  intros Hz; destruct L as [|[v d] t]; unfold ctx_set_value;
    cbn [record_leaves ctx_count ctx_solution ctx_values ctx_branch_diff];
    rewrite wr_restore by auto; destruct ctx; reflexivity.
Qed.

Lemma solve_record_leaf (ctx : solver_context) (bd : Z) :
  0 <= ctx_count ctx <= 1 ->
  solve_record ctx bd = record_leaves ctx [(ctx_values ctx, bd)].
Proof.
  intros Hc; unfold solve_record, record_leaves.
  destruct (Z.eqb_spec (ctx_count ctx) 0) as [H0|H0];
    cbn [ctx_count ctx_solution ctx_values ctx_branch_diff];
    f_equal; unfold uint_cast; simpl length;
    rewrite Z.mod_small by lia; lia.
Qed.

Lemma record_leaves_values (ctx : solver_context) (L : list (list Z * Z)) :
  ctx_values (record_leaves ctx L) = ctx_values ctx.
Proof.
  destruct L as [|[v d] t]; reflexivity.
Qed.

Lemma solve_loop_leaves (rec : solver_context -> option solver_context)
    (sub : Z -> option (list (list Z * Z))) (values : list Z)
    (cell candidates : Z) :
  rd values cell = 0 ->
  (forall ctx i L, 0 <= ctx_count ctx <= 1 -> ctx_values ctx = values ->
                   sub i = Some L ->
                   rec (ctx_set_value ctx cell i) =
                   Some (record_leaves (ctx_set_value ctx cell i) L)) ->
  forall vs ctx L,
    0 <= ctx_count ctx <= 1 ->
    ctx_values ctx = values ->
    collect_leaves candidates sub vs = Some L ->
    solve_loop rec cell candidates vs ctx = Some (record_leaves ctx L).
Proof.
  intros Hz Hrec; induction vs as [|i vs IH]; intros ctx L Hc Hv HL.
  - inversion HL; reflexivity.
  - simpl in HL; fold (collect_leaves candidates sub vs) in HL.
    cbn [solve_loop].
    destruct (Z.land candidates (CDOK_SET_SINGLE i) =? 0); [auto|].
    destruct (sub i) as [here|] eqn:Hsub; [|discriminate].
    destruct (collect_leaves candidates sub vs) as [rest|] eqn:Hrest;
      [|discriminate].
    inversion HL; subst L; clear HL.
    rewrite (Hrec ctx i here) by auto.
    rewrite record_leaves_set_value by (rewrite Hv; auto).
    destruct (Z.leb_spec 2 (ctx_count (record_leaves ctx here))) as [H2|H2].
    + f_equal; destruct here as [|[v d] t]; [simpl in H2; lia|].
      cbn [record_leaves app]; f_equal.
      cbn [record_leaves ctx_count] in H2.
      simpl length in *; rewrite ?length_app; simpl length; lia.
    + rewrite (IH (record_leaves ctx here) rest); auto.
      * f_equal; apply record_leaves_app; lia.
      * destruct here as [|[v d] t]; simpl in *; lia.
      * rewrite record_leaves_values; auto.
Qed.

Lemma solve_recurse_leaves (puz : cdok_puzzle) :
  forall fuel ctx bd L,
    0 <= ctx_count ctx <= 1 ->
    search_leaves fuel puz (ctx_values ctx) bd = Some L ->
    solve_recurse fuel puz ctx bd = Some (record_leaves ctx L).
Proof.
  induction fuel as [|f IH]; intros ctx bd L Hc HL; [discriminate|].
  cbn [search_leaves] in HL; cbn [solve_recurse].
  destruct (find_candidates puz (ctx_values ctx)) as [[cell cands]|] eqn:Hfc.
  - destruct (cands =? 0); [inversion HL; reflexivity|].
    apply find_candidates_cell in Hfc as [Hz _].
    eapply solve_loop_leaves with (values := ctx_values ctx); eauto.
    intros ctx' i L' Hc' Hv' Hsub; apply IH; auto.
    unfold ctx_set_value; cbn [ctx_values]; rewrite Hv'; exact Hsub.
  - inversion HL; subst; f_equal; apply solve_record_leaf; auto.
Qed.

(** ** Paths and leaves *)

Lemma collect_leaves_in (candidates : Z)
    (sub : Z -> option (list (list Z * Z))) (vs : list Z)
    (L : list (list Z * Z)) (x : list Z * Z) :
  collect_leaves candidates sub vs = Some L ->
  In x L ->
  exists i Li, In i vs /\ Z.land candidates (CDOK_SET_SINGLE i) <> 0 /\
               sub i = Some Li /\ In x Li.
Proof.
  revert L; induction vs as [|i vs IH]; simpl; intros L HL Hx.
  - inversion HL; subst; destruct Hx.
  - fold (collect_leaves candidates sub vs) in HL.
    destruct (Z.eqb_spec (Z.land candidates (CDOK_SET_SINGLE i)) 0) as [Hb|Hb].
    + destruct (IH L HL Hx) as (j & Lj & Hj & Hbj & Hsj & Hxj).
      exists j, Lj; auto.
    + destruct (sub i) as [here|] eqn:Hsub; [|discriminate].
      destruct (collect_leaves candidates sub vs) as [rest|]; [|discriminate].
      inversion HL; subst; apply in_app_or in Hx as [Hx|Hx].
      * exists i, here; auto.
      * destruct (IH rest eq_refl Hx) as (j & Lj & Hj & Hbj & Hsj & Hxj).
        exists j, Lj; auto.
Qed.

Lemma collect_leaves_sub (candidates : Z)
    (sub : Z -> option (list (list Z * Z))) (vs : list Z)
    (L : list (list Z * Z)) (i : Z) :
  collect_leaves candidates sub vs = Some L ->
  In i vs -> Z.land candidates (CDOK_SET_SINGLE i) <> 0 ->
  exists Li, sub i = Some Li /\ forall x, In x Li -> In x L.
Proof.
  revert L; induction vs as [|j vs IH]; simpl; intros L HL Hi Hb; [tauto|].
  fold (collect_leaves candidates sub vs) in HL.
  destruct (Z.eqb_spec (Z.land candidates (CDOK_SET_SINGLE j)) 0) as [Hbj|Hbj].
  - destruct Hi as [->|Hi]; [contradiction|]; auto.
  - destruct (sub j) as [here|] eqn:Hsub; [|discriminate].
    destruct (collect_leaves candidates sub vs) as [rest|]; [|discriminate].
    inversion HL; subst; destruct Hi as [->|Hi].
    + exists here; split; auto; intros; apply in_or_app; auto.
    + destruct (IH rest eq_refl Hi Hb) as (Li & Hs & Hin).
      exists Li; split; auto; intros; apply in_or_app; auto.
Qed.

Lemma search_leaves_paths (puz : cdok_puzzle) :
  forall fuel values bd L,
    search_leaves fuel puz values bd = Some L ->
    forall leaf d, In (leaf, d) L ->
    exists bs, search_path puz values bs leaf /\ d = bd + path_difficulty bs.
Proof.
  induction fuel as [|f IH]; intros v bd L HL leaf d Hin; [discriminate|].
  cbn [search_leaves] in HL.
  destruct (find_candidates puz v) as [[cell cands]|] eqn:Hfc.
  - destruct (Z.eqb_spec cands 0) as [Hc|Hc];
      [inversion HL; subst; destruct Hin|].
    destruct (collect_leaves_in _ _ _ _ _ HL Hin)
      as (i & Li & Hi & Hb & Hs & Hx).
    apply in_range in Hi.
    destruct (IH _ _ _ Hs _ _ Hx) as (bs & Hp & Hd).
    exists (count_bits cands :: bs); split.
    + eapply path_step; eauto; lia.
    + subst d; simpl; lia.
  - inversion HL; subst; destruct Hin as [E|[]]; inversion E; subst.
    exists []; split; [constructor; auto|simpl; lia].
Qed.

Lemma search_path_leaves (puz : cdok_puzzle) (values bs leaf : list Z) :
  search_path puz values bs leaf ->
  forall fuel bd L,
    search_leaves fuel puz values bd = Some L ->
    In (leaf, bd + path_difficulty bs) L.
Proof.
  induction 1 as [v Hfc|v cell cands i bs final Hfc Hc Hi Hb Hp IH];
    intros [|f] bd L HL; try discriminate; cbn [search_leaves] in HL;
    rewrite Hfc in HL.
  - inversion HL; simpl; left; f_equal; lia.
  - destruct (Z.eqb_spec cands 0); [contradiction|].
    destruct (collect_leaves_sub _ _ _ _ i HL) as (Li & Hs & Hin); auto.
    { apply in_range; lia. }
    apply Hin; apply IH in Hs.
    replace (bd + path_difficulty (count_bits cands :: bs))
      with (bd + (count_bits cands - 1) * (count_bits cands - 1) +
            path_difficulty bs) by (simpl; lia).
    exact Hs.
Qed.

Lemma count_bits_loop_bound (fuel : nat) (s c : Z) :
  c <= snd (count_bits_loop fuel s c) <= c + Z.of_nat fuel.
Proof.
  revert s c; induction fuel as [|f IH]; intros s c;
    cbn [count_bits_loop]; [simpl; lia|].
  destruct (s =? 0); [simpl; lia|].
  specialize (IH (cdok_set_cast (Z.land s (s - 1))) (c + 1)); lia.
Qed.

Lemma count_bits_range (s : Z) : 0 <= count_bits s <= 16.
Proof.
  unfold count_bits; pose proof (count_bits_loop_bound 16 s 0); lia.
Qed.

(** ** The loops end by their conditions *)

Lemma factors_loop_fuel (target max : Z) (fuel extra : nat) :
  forall i out,
    max - i < Z.of_nat fuel ->
    factors_loop (fuel + extra) target max i out =
    factors_loop fuel target max i out.
Proof.
  induction fuel as [|f IH]; intros i out Hi.
  - destruct extra as [|e]; cbn [Nat.add factors_loop]; auto.
    destruct (Z.leb_spec i max); [lia|].
    rewrite andb_false_r; reflexivity.
  - cbn [Nat.add factors_loop].
    destruct ((i * i <? target) && (i <=? max)); auto.
    apply IH; lia.
Qed.

Lemma ratio_loop_fuel (size_left min_product max : Z) (fuel extra : nat) :
  1 <= min_product ->
  forall i out,
    1 <= i -> max - i < Z.of_nat fuel ->
    ratio_loop (fuel + extra) size_left min_product max i out =
    ratio_loop fuel size_left min_product max i out.
Proof.
  intros Hm; induction fuel as [|f IH]; intros i out H1 Hi.
  - destruct extra as [|e]; cbn [Nat.add ratio_loop]; auto.
    destruct (Z.leb_spec (i * min_product) max); [nia|reflexivity].
  - cbn [Nat.add ratio_loop].
    destruct (i * min_product <=? max); auto.
    apply IH; lia.
Qed.

Lemma low_clear_step (j s : Z) :
  0 <= j -> low_clear j s ->
  low_clear (j + 1) (cdok_set_cast (Z.land s (s - 1))).
Proof.
  intros Hj Hlow i Hi.
  rewrite testbit_set_cast, Z.land_spec by lia.
  destruct (Z.eq_dec i j) as [->|Hne];
    [|rewrite (Hlow i) by lia; reflexivity].
  destruct (Z.testbit s j) eqn:Hs; [|reflexivity].
  assert (Hmod : s mod 2 ^ j = 0).
  { apply Z.bits_inj'; intros n Hn; rewrite Z.bits_0.
    destruct (Z.ltb_spec n j).
    - rewrite Z.mod_pow2_bits_low by lia; apply Hlow; lia.
    - apply Z.mod_pow2_bits_high; lia. }
  apply Z.testbit_true in Hs; [|lia].
  assert (Hp : 0 < 2 ^ j) by (apply Z.pow_pos_nonneg; lia).
  assert (Hdiv : (s - 1) / 2 ^ j = s / 2 ^ j - 1).
  { symmetry; apply Z.div_unique with (r := 2 ^ j - 1); [lia|].
    pose proof (Z.div_mod s (2 ^ j)); lia. }
  assert (Hpred : Z.testbit (s - 1) j = false).
  { apply Z.testbit_false; [lia|]; rewrite Hdiv.
    pose proof (Z.div_mod (s / 2 ^ j) 2).
    pose proof (Z.div_mod (s / 2 ^ j - 1) 2).
    pose proof (Z.mod_pos_bound (s / 2 ^ j - 1) 2); lia. }
  rewrite Hpred; reflexivity.
Qed.

Lemma count_bits_loop_exit (fuel : nat) :
  forall j s c,
    0 <= j -> Z.of_nat fuel + j = 16 -> 0 <= s < 65536 -> low_clear j s ->
    fst (count_bits_loop fuel s c) = 0.
Proof.
  induction fuel as [|f IH]; intros j s c Hj Hf Hs Hlow; cbn [count_bits_loop].
  - cbn [fst]; apply Z.bits_inj'; intros n Hn; rewrite Z.bits_0.
    destruct (Z.ltb_spec n 16); [apply Hlow; lia|].
    apply (testbit_small s 16); simpl; lia.
  - destruct (Z.eqb_spec s 0) as [E|E]; [exact E|].
    apply (IH (j + 1)); try lia.
    + apply set_cast_range.
    + apply low_clear_step; auto.
Qed.

(** [count_bits] leaves its loop with an empty set. *)
Lemma count_bits_exit (s : Z) :
  0 <= s < 65536 -> fst (count_bits_loop 16 s 0) = 0.
Proof.
  intros Hs; apply (count_bits_loop_exit 16 0); try lia.
  intros i Hi; lia.
Qed.

(** The candidate sets of the solver are 16-bit sets. *)
Lemma Forall_wr (P : Z -> Prop) (l : list Z) (i v : Z) :
  Forall P l -> P v -> Forall P (wr l i v).
Proof.
  intros Hl Hv; unfold wr; destruct (i <? 0); auto.
  generalize (Z.to_nat i); clear i.
  induction Hl as [|h t Hh Ht IH]; intros [|n]; simpl; auto.
Qed.

Lemma rd_Forall (P : Z -> Prop) (l : list Z) (i : Z) :
  P 0 -> Forall P l -> P (rd l i).
Proof.
  intros H0 Hl; unfold rd.
  destruct (nth_in_or_default (Z.to_nat i) l 0) as [Hin| ->]; auto.
  rewrite Forall_forall in Hl; auto.
Qed.

Lemma find_candidates_sets (puz : cdok_puzzle) (values : list Z) :
  Forall (fun s => 0 <= s < 65536)
         (constrain_by_groups puz values
            (build_rc_candidates values (p_size puz))).
Proof.
  set (P := fun s => 0 <= s < 65536).
  assert (Hland : forall a c, P a -> P (Z.land a c)).
  { intros a c Ha; unfold P in *.
    rewrite <- (set_cast_small a Ha); unfold cdok_set_cast.
    rewrite <- Z.land_assoc, (Z.land_comm 65535 c), Z.land_assoc.
    apply set_cast_range. }
  unfold constrain_by_groups.
  apply fold_left_inv.
  - unfold build_rc_candidates.
    destruct (fold_left _ _ _) as [rows cols].
    apply Forall_forall; intros s Hs.
    apply in_map_iff in Hs as (i & <- & _); apply set_cast_range.
  - intros cs i _ Hcs.
    destruct (g_size (grp_at puz i) =? 0); auto.
    apply fold_left_inv; auto.
    intros cs' j _ Hcs'.
    apply Forall_wr; auto.
    apply Hland, rd_Forall; auto; unfold P; lia.
Qed.

Lemma find_candidates_count_exit (puz : cdok_puzzle) (values : list Z) (c : Z) :
  fst (count_bits_loop 16
         (rd (constrain_by_groups puz values
                (build_rc_candidates values (p_size puz))) c) 0) = 0.
Proof.
  apply count_bits_exit.
  apply (rd_Forall (fun s => 0 <= s < 65536)); [lia|].
  apply find_candidates_sets.
Qed.

(** The turns granted to the loops of [factors_for] and
    [ratio_candidates] are never used up. *)
Lemma factors_for_fuel (target max : Z) (extra : nat) :
  factors_loop (Z.to_nat max + extra) target max 1 0 =
  factors_loop (Z.to_nat max) target max 1 0.
Proof.
  apply factors_loop_fuel; lia.
Qed.

Lemma ratio_candidates_fuel (size_left min_product max out : Z)
    (extra : nat) :
  1 <= min_product ->
  ratio_loop (Z.to_nat max + extra) size_left min_product max 1 out =
  ratio_loop (Z.to_nat max) size_left min_product max 1 out.
Proof.
  intros Hm; apply ratio_loop_fuel; lia.
Qed.

Lemma path_difficulty_bound (puz : cdok_puzzle) (values bs leaf : list Z) :
  p_size puz <= CDOK_SIZE ->
  search_path puz values bs leaf ->
  length values = Z.to_nat CDOK_CELLS ->
  0 <= path_difficulty bs <= 225 * Z.of_nat (zeros values).
Proof.
  intros Hs; induction 1 as [v Hfc|v cell cands i bs final Hfc Hc Hi Hb Hp IH];
    intros Hlen; [unfold path_difficulty; cbn [fold_right]; lia|].
  pose proof (find_candidates_range _ _ _ _ Hs Hfc) as Hr.
  apply find_candidates_cell in Hfc as [Hz _].
  pose proof (zeros_wr v cell i) as Hw.
  rewrite wr_length in IH; specialize (IH Hlen).
  pose proof (count_bits_range cands).
  unfold CDOK_CELLS in *; cbn [path_difficulty fold_right].
  fold (path_difficulty bs); nia.
Qed.

(** ** The scale and the count of empty cells *)

Lemma pow10_scale (n : Z) :
  0 <= n <= 16 ->
  smallest_pow10_ge (pow10_loop 10 1 (uint_cast (n * n))) (n * n) /\
  1 <= pow10_loop 10 1 (uint_cast (n * n)) <= 1000 /\
  (n = 6 -> pow10_loop 10 1 (uint_cast (n * n)) = 100).
Proof.
  intros Hn.
  assert (Hpow : forall k j, 0 <= k <= 3 -> 0 <= j ->
                   (k = 0 \/ 10 ^ (k - 1) < n * n) -> n * n <= 10 ^ j ->
                   10 ^ k <= 10 ^ j).
  { intros k j Hk Hj Hlow Hup.
    destruct (Z.le_gt_cases k j); [apply Z.pow_le_mono_r; lia|].
    destruct Hlow as [->|Hlow]; [lia|].
    assert (10 ^ j <= 10 ^ (k - 1)) by (apply Z.pow_le_mono_r; lia).
    lia. }
  assert (Hcases : n = 0 \/ n = 1 \/ 2 <= n <= 3 \/ 4 <= n <= 10 \/
                   11 <= n <= 16) by lia.
  assert (Hsmall : uint_cast (n * n) = n * n)
    by (unfold uint_cast; apply Z.mod_small; nia).
  rewrite Hsmall.
  assert (Hval : pow10_loop 10 1 (n * n) =
                 if n * n <=? 1 then 1 else if n * n <=? 10 then 10
                 else if n * n <=? 100 then 100 else 1000).
  { cbn [pow10_loop].
    repeat match goal with
           | |- context [?a <? ?b] => destruct (Z.ltb_spec a b)
           | |- context [?a <=? ?b] => destruct (Z.leb_spec a b)
           end; try reflexivity; try nia. }
  rewrite Hval.
  destruct (Z.leb_spec (n * n) 1); [|destruct (Z.leb_spec (n * n) 10);
    [|destruct (Z.leb_spec (n * n) 100)]].
  - split; [split; [exists 0; split; [lia|reflexivity]|split; [lia|]]|nia].
    intros j Hj Hb; apply (Hpow 0 j); auto; lia.
  - split; [split; [exists 1; split; [lia|reflexivity]|split; [lia|]]|nia].
    intros j Hj Hb; apply (Hpow 1 j); auto; try lia;
      try (right; simpl; lia).
  - split; [split; [exists 2; split; [lia|reflexivity]|split; [lia|]]|nia].
    intros j Hj Hb; apply (Hpow 2 j); auto; try lia;
      try (right; simpl; lia).
  - split; [split; [exists 3; split; [lia|reflexivity]|split; [nia|]]|nia].
    intros j Hj Hb; apply (Hpow 3 j); auto; try lia;
      try (right; simpl; lia).
Qed.

Lemma fold_count (A : Type) (p : A -> bool) (l : list A) (e : Z) :
  fold_left (fun e x => if p x then e + 1 else e) l e =
  e + Z.of_nat (length (filter p l)).
Proof.
  revert e; induction l as [|h t IH]; intros e; simpl; [lia|].
  rewrite IH; destruct (p h); simpl length; lia.
Qed.

Lemma count_empty_cells (puz : cdok_puzzle) :
  count_empty puz = empty_cells (p_values puz) (p_size puz).
Proof.
  unfold count_empty, empty_cells.
  set (v := p_values puz); set (n := p_size puz).
  assert (H : forall ys e,
             fold_left
               (fun e y =>
                  fold_left
                    (fun e x => if rd v (CDOK_POS x y) =? 0 then e + 1 else e)
                    (range 0 n) e) ys e =
             e + Z.of_nat
                   (length
                      (filter (fun c => rd v c =? 0)
                              (flat_map
                                 (fun y => map (fun x => CDOK_POS x y)
                                               (range 0 n)) ys)))).
  { induction ys as [|y ys IH]; intros e; simpl; [lia|].
    rewrite IH, filter_app, length_app.
    rewrite (fold_count Z (fun x => rd v (CDOK_POS x y) =? 0)).
    assert (Hm : forall l,
               length (filter (fun x => rd v (CDOK_POS x y) =? 0) l) =
               length (filter (fun c => rd v c =? 0)
                              (map (fun x => CDOK_POS x y) l))).
    { induction l as [|a l IHl]; simpl; auto.
      destruct (rd v (CDOK_POS a y) =? 0); simpl; rewrite IHl; auto. }
    rewrite Hm; lia. }
  rewrite H; lia.
Qed.

Lemma flat_map_length_const {A B : Type} (f : A -> list B) (l : list A)
    (k : nat) :
  (forall a, length (f a) = k) -> length (flat_map f l) = (length l * k)%nat.
Proof.
  intros H; induction l as [|a l IH]; simpl; auto.
  rewrite length_app, H, IH; reflexivity.
Qed.

Lemma empty_cells_bound (values : list Z) (n : Z) :
  0 <= n -> 0 <= empty_cells values n <= n * n.
Proof.
  intros Hn; unfold empty_cells; split; [lia|].
  set (cells := flat_map (fun y => map (fun x => CDOK_POS x y) (range 0 n))
                         (range 0 n)).
  assert (Hlen : length cells = (Z.to_nat n * Z.to_nat n)%nat).
  { subst cells; rewrite (flat_map_length_const _ _ (Z.to_nat n)).
    - rewrite range_length; f_equal; lia.
    - intros a; rewrite length_map, range_length; f_equal; lia. }
  pose proof (filter_length_le (fun c => rd values c =? 0) cells); nia.
Qed.

(** ** What [cdok_solve] returns, in terms of the leaves of the search *)

Lemma cdok_solve_leaves (puz : cdok_puzzle) (solution : option (list Z))
    (diff : option Z) :
  solver_ok puz ->
  exists L,
    search_leaves solver_fuel puz (p_values puz) 0 = Some L /\
    cdok_solve puz solution diff =
    Some match L with
         | [] => (-1, solution, diff)
         | (first, b) :: rest =>
           (match rest with [] => 0 | _ :: _ => 1 end,
            match solution with Some _ => Some first | None => None end,
            match diff with
            | Some _ =>
              Some (b * pow10_loop 10 1 (uint_cast (p_size puz * p_size puz)) +
                    empty_cells (p_values puz) (p_size puz))
            | None => None
            end)
         end.
Proof.
  intros [Hs Hlen].
  destruct (search_leaves_total puz (proj2 Hs) solver_fuel (p_values puz) 0)
    as [L HL]; auto.
  { pose proof (zeros_le_length (p_values puz)).
    unfold solver_fuel; lia. }
  exists L; split; auto.
  unfold cdok_solve; fold solver_fuel.
  rewrite (solve_recurse_leaves puz solver_fuel _ 0 L)
    by (cbn [ctx_count ctx_values]; auto; lia).
  destruct L as [|[first b] rest]; [reflexivity|].
  cbn [record_leaves ctx_count ctx_solution ctx_values ctx_branch_diff].
  change (0 =? 0) with true; cbv iota.
  assert (Hcount : Z.min 2 (0 + Z.of_nat (length ((first, b) :: rest))) =
                   match rest with [] => 1 | _ :: _ => 2 end).
  { destruct rest; simpl length; lia. }
  rewrite Hcount.
  replace (match rest with [] => 1 | _ :: _ => 2 end =? 0) with false
    by (destruct rest; reflexivity).
  f_equal; f_equal; [f_equal; destruct rest; reflexivity|].
  destruct diff as [d0|]; [|reflexivity].
  f_equal; rewrite count_empty_cells.
  destruct (search_leaves_paths puz _ _ _ _ HL first b) as (bs & Hp & Hb);
    [left; reflexivity|].
  pose proof (path_difficulty_bound puz _ _ _ (proj2 Hs) Hp Hlen) as Hbd.
  pose proof (zeros_le_length (p_values puz)) as Hz.
  pose proof (pow10_scale (p_size puz) Hs) as (_ & HM & _).
  pose proof (empty_cells_bound (p_values puz) (p_size puz) (proj1 Hs)) as HE.
  unfold CDOK_SIZE, CDOK_CELLS in *.
  set (M := pow10_loop 10 1 (uint_cast (p_size puz * p_size puz))) in *.
  set (E := empty_cells (p_values puz) (p_size puz)) in *.
  assert (Hb0 : 0 <= b <= 57600) by lia.
  assert (Hub : uint_cast b = b) by (unfold uint_cast; apply Z.mod_small; lia).
  rewrite Hub.
  assert (Ht : 0 <= b * M + E < 2147483648) by nia.
  unfold uint_cast, int_of_uint; rewrite Z.mod_small by lia.
  destruct (Z.ltb_spec (b * M + E) 2147483648); lia.
Qed.

(** ** Leaves come in ascending order of the value tried first *)

Lemma search_path_extends (puz : cdok_puzzle) (values bs leaf : list Z) :
  search_path puz values bs leaf ->
  forall c, 0 <= c -> rd values c <> 0 -> rd leaf c = rd values c.
Proof.
  induction 1 as [v Hfc|v cell cands i bs final Hfc Hc Hi Hb Hp IH];
    intros c Hc0 Hnz; auto.
  apply find_candidates_cell in Hfc as [Hz _].
  assert (Hne : cell <> c) by congruence.
  rewrite IH, rd_wr_other; auto.
  rewrite rd_wr_other; auto.
Qed.

Lemma sorted_app_le (l1 l2 : list Z) :
  StronglySorted Z.le l1 -> StronglySorted Z.le l2 ->
  (forall a b, In a l1 -> In b l2 -> a <= b) ->
  StronglySorted Z.le (l1 ++ l2).
Proof.
  intros H1 H2 H; induction l1 as [|a l1 IH]; simpl; auto.
  inversion H1; subst; constructor.
  - apply IH; auto; intros; apply H; simpl; auto.
  - apply Forall_app; split; auto.
    apply Forall_forall; intros b Hb; apply H; simpl; auto.
Qed.

Lemma sorted_const (k : Z) (l : list Z) :
  (forall a, In a l -> a = k) -> StronglySorted Z.le l.
Proof.
  induction l as [|a l IH]; intros H; constructor.
  - apply IH; intros; apply H; simpl; auto.
  - apply Forall_forall; intros b Hb.
    rewrite (H a), (H b); simpl; auto; lia.
Qed.

Lemma range_sorted (lo hi : Z) : StronglySorted Z.lt (range lo hi).
Proof.
  destruct (Z.le_gt_cases hi lo) as [H|H];
    [rewrite range_nil by auto; constructor|].
  remember (Z.to_nat (hi - lo)) as n eqn:Hn.
  revert lo H Hn; induction n as [|n IH]; intros lo H Hn; [lia|].
  rewrite range_cons by lia; constructor.
  - destruct (Z.eq_dec (lo + 1) hi) as [E|E];
      [rewrite range_nil by lia; constructor|apply IH; lia].
  - apply Forall_forall; intros b Hb; apply in_range in Hb; lia.
Qed.

Lemma collect_leaves_sorted (candidates : Z)
    (sub : Z -> option (list (list Z * Z))) (key : list Z * Z -> Z)
    (vs : list Z) :
  (forall i Li x, In i vs -> sub i = Some Li -> In x Li -> key x = i) ->
  StronglySorted Z.lt vs ->
  forall L, collect_leaves candidates sub vs = Some L ->
            StronglySorted Z.le (map key L).
Proof.
  induction vs as [|i vs IH]; intros Hkey Hs L HL; simpl in HL.
  - inversion HL; constructor.
  - fold (collect_leaves candidates sub vs) in HL.
    inversion Hs as [|? ? Hs' Hall]; subst.
    assert (Hkey' : forall j Lj x, In j vs -> sub j = Some Lj -> In x Lj ->
                                   key x = j)
      by (intros j Lj x Hj; apply Hkey; simpl; auto).
    destruct (Z.land candidates (CDOK_SET_SINGLE i) =? 0); [auto|].
    destruct (sub i) as [here|] eqn:Hsub; [|discriminate].
    destruct (collect_leaves candidates sub vs) as [rest|] eqn:Hrest;
      [|discriminate].
    inversion HL; subst; rewrite map_app; apply sorted_app_le; auto.
    + apply (sorted_const i); intros a Ha.
      apply in_map_iff in Ha as (x & <- & Hx).
      apply (Hkey i here); simpl; auto.
    + intros a b Ha Hb.
      apply in_map_iff in Ha as (x & <- & Hx).
      apply in_map_iff in Hb as (y & <- & Hy).
      rewrite (Hkey i here x) by (simpl; auto).
      destruct (collect_leaves_in _ _ _ _ _ Hrest Hy)
        as (j & Lj & Hj & _ & Hsj & Hyj).
      rewrite (Hkey' j Lj y) by auto.
      rewrite Forall_forall in Hall; specialize (Hall j Hj); lia.
Qed.

Lemma search_leaves_ascending (puz : cdok_puzzle) (fuel : nat)
    (values : list Z) (bd : Z) (L : list (list Z * Z)) (cell candidates : Z) :
  p_size puz <= CDOK_SIZE ->
  length values = Z.to_nat CDOK_CELLS ->
  search_leaves fuel puz values bd = Some L ->
  find_candidates puz values = Some (cell, candidates) ->
  StronglySorted Z.le (map (fun l => rd (fst l) cell) L).
Proof.
  intros Hs Hlen HL Hfc; destruct fuel as [|f]; [discriminate|].
  cbn [search_leaves] in HL; rewrite Hfc in HL.
  destruct (candidates =? 0); [inversion HL; constructor|].
  pose proof (find_candidates_range _ _ _ _ Hs Hfc) as Hr.
  eapply collect_leaves_sorted; [|apply range_sorted|exact HL].
  intros i Li [leaf d] Hi Hsub Hx; apply in_range in Hi; simpl.
  destruct (search_leaves_paths puz _ _ _ _ Hsub leaf d Hx) as (bs & Hp & _).
  unfold CDOK_CELLS in *.
  rewrite (search_path_extends _ _ _ _ Hp) by
    (try lia; rewrite rd_wr_same by lia; lia).
  apply rd_wr_same; lia.
Qed.

(** ** The solver's classification *)

(** C1.  [cdok_solve] returns -1 exactly when the search reaches no full
    grid, 0 exactly when it reaches one and 1 exactly when it reaches two
    or more, and the solution counter stops at two.  At every node of the
    search, the root included, the leaves below it come in ascending
    order of the value tried at the cell chosen there, and
    [solve_recurse] visits them in this order until the counter is 2. *)
Theorem cdok_solve_classification (puz : cdok_puzzle)
    (solution : option (list Z)) (diff : option Z) :
  solver_ok puz ->
  exists leaves ctx r sol d,
    search_leaves solver_fuel puz (p_values puz) 0 = Some leaves /\
    solve_recurse solver_fuel puz (mk_ctx solution (p_values puz) 0 0) 0 =
      Some ctx /\
    ctx_count ctx = Z.min 2 (Z.of_nat (length leaves)) /\
    cdok_solve puz solution diff = Some (r, sol, d) /\
    (r = -1 <-> leaves = []) /\
    (r = 0 <-> length leaves = 1%nat) /\
    (r = 1 <-> (2 <= length leaves)%nat) /\
    (forall fuel values bd below cell candidates,
       length values = Z.to_nat CDOK_CELLS ->
       search_leaves fuel puz values bd = Some below ->
       find_candidates puz values = Some (cell, candidates) ->
       StronglySorted Z.le (map (fun l => rd (fst l) cell) below)) /\
    (forall fuel c bd below,
       0 <= ctx_count c <= 1 ->
       search_leaves fuel puz (ctx_values c) bd = Some below ->
       solve_recurse fuel puz c bd = Some (record_leaves c below)).
Proof.
  intros Hok.
  destruct (cdok_solve_leaves puz solution diff Hok) as (L & HL & Hsolve).
  pose proof (solve_recurse_leaves puz) as Hnode.
  exists L, (record_leaves (mk_ctx solution (p_values puz) 0 0) L).
  assert (Hrec : solve_recurse solver_fuel puz
                   (mk_ctx solution (p_values puz) 0 0) 0 =
                 Some (record_leaves (mk_ctx solution (p_values puz) 0 0) L))
    by (apply solve_recurse_leaves; cbn [ctx_count ctx_values]; auto; lia).
  assert (Hasc : forall fuel values bd below cell candidates,
             length values = Z.to_nat CDOK_CELLS ->
             search_leaves fuel puz values bd = Some below ->
             find_candidates puz values = Some (cell, candidates) ->
             StronglySorted Z.le (map (fun l => rd (fst l) cell) below)).
  { intros fuel values bd below cell cands Hlen Hb Hfc; destruct Hok as [Hs _].
    eapply search_leaves_ascending; eauto; lia. }
  destruct L as [|[first b] [|second rest]]; rewrite Hsolve.
  - exists (-1), solution, diff; repeat split; auto; try discriminate;
      simpl; lia.
  - eexists 0, _, _; repeat split; auto; try discriminate; simpl; lia.
  - eexists 1, _, _; repeat split; auto; try discriminate;
      simpl length; try lia.
Qed.

Lemma cdok_solve_classification_witness :
  solver_ok puzzle_two_solutions /\
  exists r sol d,
    cdok_solve puzzle_two_solutions None None = Some (r, sol, d) /\
    (r = 1 \/ r = 0 \/ r = -1).
Proof.
  assert (Hok : solver_ok puzzle_two_solutions)
    by (split; [unfold CDOK_SIZE; simpl; lia|reflexivity]).
  split; [exact Hok|].
  destruct (cdok_solve_classification puzzle_two_solutions None None Hok)
    as (leaves & ctx & r & sol & d & _ & _ & _ & Hs & Hm & Hz & Hp & _).
  exists r, sol, d; split; [exact Hs|].
  destruct leaves as [|l1 [|l2 rest]].
  - right; right; apply Hm; reflexivity.
  - right; left; apply Hz; reflexivity.
  - left; apply Hp; simpl; lia.
Defined.

(** ** The difficulty score *)

Lemma path_difficulty_forced (bs : list Z) :
  Forall (fun b => b = 1) bs -> path_difficulty bs = 0.
Proof.
  induction 1 as [|b bs Hb _ IH]; [reflexivity|].
  subst b; unfold path_difficulty in *; simpl; lia.
Qed.

(** ** The output parameters *)

(** C10.  When [cdok_solve] returns -1 the solution buffer and the
    difficulty are as they were on entry; when it returns 1 the solution
    buffer holds the first full grid that the search reached and the
    difficulty is computed from the branch difficulty of that grid. *)
Theorem cdok_solve_outputs (puz : cdok_puzzle)
    (solution : option (list Z)) (diff : option Z) :
  solver_ok puz ->
  exists leaves r sol d,
    search_leaves solver_fuel puz (p_values puz) 0 = Some leaves /\
    cdok_solve puz solution diff = Some (r, sol, d) /\
    (r = -1 -> sol = solution /\ d = diff) /\
    (r = 1 ->
     exists first bs rest M,
       leaves = (first, path_difficulty bs) :: rest /\
       search_path puz (p_values puz) bs first /\
       smallest_pow10_ge M (p_size puz * p_size puz) /\
       sol = match solution with Some _ => Some first | None => None end /\
       d = match diff with
           | Some _ =>
             Some (path_difficulty bs * M +
                   empty_cells (p_values puz) (p_size puz))
           | None => None
           end).
Proof.
  intros Hok.
  destruct (cdok_solve_leaves puz solution diff Hok) as (L & HL & Hsolve).
  exists L; rewrite Hsolve.
  destruct L as [|[first b] rest].
  - exists (-1), solution, diff; repeat split; auto; lia.
  - eexists _, _, _; split; [exact HL|split; [reflexivity|split]].
    + destruct rest; intros; lia.
    + intros _.
      destruct (search_leaves_paths puz _ _ _ _ HL first b)
        as (bs & Hp & Hb); [left; reflexivity|].
      destruct Hok as [Hs Hlen].
      pose proof (pow10_scale (p_size puz) Hs) as (HM & _ & _).
      exists first, bs, rest,
        (pow10_loop 10 1 (uint_cast (p_size puz * p_size puz))).
      replace (path_difficulty bs) with b by lia.
      repeat split; auto; apply HM.
Qed.

Lemma cdok_solve_outputs_witness :
  solver_ok puzzle_no_solution /\
  exists r sol d,
    cdok_solve puzzle_no_solution (Some [7]) (Some 9) = Some (r, sol, d) /\
    (r = -1 -> sol = Some [7] /\ d = Some 9).
Proof.
  assert (Hok : solver_ok puzzle_no_solution)
    by (split; [unfold CDOK_SIZE; simpl; lia|reflexivity]).
  split; [exact Hok|].
  destruct (cdok_solve_outputs puzzle_no_solution (Some [7]) (Some 9) Hok)
    as (leaves & r & sol & d & _ & Hs & Hm & _).
  exists r, sol, d; split; [exact Hs|exact Hm].
Defined.

(** ** A generated puzzle that solves to another grid *)

(** C2 (the code departs from it).  From the Latin square [seed_grid] and
    the draws [seed_draws], one hardening iteration returns the puzzle
    [seed_puzzle] with difficulty 16; [cdok_solve] classifies it as
    uniquely solvable, yet the solution it produces is [other_grid].  The
    solver never reaches the seed: with product 4 left for three cells it
    offers only the value 1, because the factor loop of [factors_for]
    stops before [i * i = target]. *)
Theorem cdok_generate_other_solution :
  latin 3 seed_grid = true /\
  cdok_generate (cdok_init_puzzle 0) seed_grid 3 CDOK_FLAGS_NONE 1 0 0
                seed_draws 0 = Some (16, seed_puzzle, 39%nat) /\
  cdok_solve seed_puzzle (Some (repeat 0 256)) (Some 0) =
    Some (0, Some other_grid, Some 16) /\
  other_grid <> seed_grid /\
  factors_for 4 3 3 = CDOK_SET_SINGLE 1 /\
  cdok_set_mem 2 (factors_for 4 3 3) = false.
Proof.
  split; [vm_compute; reflexivity|].
  split; [vm_compute; reflexivity|].
  split; [vm_compute; reflexivity|].
  split; [|split; vm_compute; reflexivity].
  intros E.
  assert (H : rd other_grid 0 = rd seed_grid 0) by (rewrite E; reflexivity).
  vm_compute in H; discriminate.
Qed.

(** ** Regions *)

Lemma adjacent_sym (a b : Z) : adjacent a b -> adjacent b a.
Proof.
  unfold adjacent; intros [[Hy Hx]|[Hx Hy]]; [left|right]; split; lia.
Qed.

Lemma adjacent_neq (a b : Z) : adjacent a b -> a <> b.
Proof.
  unfold adjacent; intros H E; subst; lia.
Qed.

Lemma linked_refl (cells : Z -> Prop) (a : Z) : linked cells a a.
Proof.
  apply rt_refl.
Qed.

Lemma linked_trans (cells : Z -> Prop) (a b c : Z) :
  linked cells a b -> linked cells b c -> linked cells a c.
Proof.
  intros; eapply rt_trans; eauto.
Qed.

Lemma linked_step (cells : Z -> Prop) (a b : Z) :
  cells a -> cells b -> adjacent a b -> linked cells a b.
Proof.
  intros; apply rt_step; auto.
Qed.

Lemma linked_mono (cells cells' : Z -> Prop) (a b : Z) :
  (forall c, cells c -> cells' c) -> linked cells a b -> linked cells' a b.
Proof.
  intros Hsub; induction 1 as [p q (Hp & Hq & Ha)| |p q r _ IH1 _ IH2].
  - apply linked_step; auto.
  - apply linked_refl.
  - eapply linked_trans; eauto.
Qed.

Lemma linked_sym (cells : Z -> Prop) (a b : Z) :
  linked cells a b -> linked cells b a.
Proof.
  induction 1 as [p q (Hp & Hq & Ha)| |p q r _ IH1 _ IH2].
  - apply linked_step; auto using adjacent_sym.
  - apply linked_refl.
  - eapply linked_trans; eauto.
Qed.

Lemma linked_start (cells : Z -> Prop) (a b : Z) :
  linked cells a b -> a = b \/ cells a.
Proof.
  induction 1 as [p q (Hp & Hq & Ha)| |p q r _ IH1 _ IH2]; auto.
  destruct IH1 as [->|]; auto.
Qed.

(** ** Flood fill: the scans and the cleared span *)

Lemma scan_left_spec (fuel : nat) (map : list Z) (src y x : Z) :
  scan_left fuel map src y x <= x /\
  (0 <= x -> 0 <= scan_left fuel map src y x) /\
  forall i, scan_left fuel map src y x <= i < x ->
            rd map (CDOK_POS i y) = src.
Proof.
  revert x; induction fuel as [|f IH]; intros x; cbn [scan_left];
    [repeat split; lia|].
  destruct (Z.ltb_spec 0 x) as [Hx|Hx]; cbn [andb]; [|repeat split; lia].
  destruct (Z.eqb_spec (rd map (CDOK_POS (x - 1) y)) src) as [E|E];
    [|repeat split; lia].
  destruct (IH (x - 1)) as (H1 & H2 & H3); repeat split; try lia.
  intros i Hi; destruct (Z.eq_dec i (x - 1)) as [->|Hne]; auto.
  apply H3; lia.
Qed.

Lemma scan_right_spec (fuel : nat) (map : list Z) (src y x : Z) :
  x <= scan_right fuel map src y x /\
  (x < CDOK_SIZE -> scan_right fuel map src y x < CDOK_SIZE) /\
  forall i, x < i <= scan_right fuel map src y x ->
            rd map (CDOK_POS i y) = src.
Proof.
  revert x; induction fuel as [|f IH]; intros x; cbn [scan_right];
    [repeat split; lia|].
  destruct (Z.ltb_spec (x + 1) CDOK_SIZE) as [Hx|Hx]; cbn [andb];
    [|repeat split; lia].
  destruct (Z.eqb_spec (rd map (CDOK_POS (x + 1) y)) src) as [E|E];
    [|repeat split; lia].
  destruct (IH (x + 1)) as (H1 & H2 & H3); repeat split; try lia.
  intros i Hi; destruct (Z.eq_dec i (x + 1)) as [->|Hne]; auto.
  apply H3; lia.
Qed.

(** The scans end because their loop condition fails, not for want of
    fuel. *)
Lemma scan_left_exit (fuel : nat) (map : list Z) (src y x : Z) :
  x < Z.of_nat fuel ->
  scan_left fuel map src y x <= 0 \/
  rd map (CDOK_POS (scan_left fuel map src y x - 1) y) <> src.
Proof.
  revert x; induction fuel as [|f IH]; intros x Hx; cbn [scan_left]; [lia|].
  destruct (Z.ltb_spec 0 x) as [H0|H0]; cbn [andb]; [|lia].
  destruct (Z.eqb_spec (rd map (CDOK_POS (x - 1) y)) src) as [E|E]; auto.
  apply IH; lia.
Qed.

Lemma scan_right_exit (fuel : nat) (map : list Z) (src y x : Z) :
  CDOK_SIZE - 1 - x < Z.of_nat fuel ->
  CDOK_SIZE <= scan_right fuel map src y x + 1 \/
  rd map (CDOK_POS (scan_right fuel map src y x + 1) y) <> src.
Proof.
  revert x; induction fuel as [|f IH]; intros x Hx; cbn [scan_right]; [lia|].
  destruct (Z.ltb_spec (x + 1) CDOK_SIZE) as [H0|H0]; cbn [andb]; [|lia].
  destruct (Z.eqb_spec (rd map (CDOK_POS (x + 1) y)) src) as [E|E]; auto.
  apply IH; lia.
Qed.

Lemma CDOK_POS_inj (x y x' y' : Z) :
  0 <= x < 16 -> 0 <= y -> 0 <= x' < 16 -> 0 <= y' ->
  CDOK_POS x y = CDOK_POS x' y' -> x = x' /\ y = y'.
Proof.
  intros Hx Hy Hx' Hy' E; rewrite !CDOK_POS_add in E by auto; lia.
Qed.

Lemma clear_span (y : Z) (span : list Z) (map : list Z) :
  0 <= y < 16 ->
  (forall i, In i span -> 0 <= i < 16) ->
  length map = Z.to_nat CDOK_CELLS ->
  let map' :=
    fold_left (fun m i => wr m (CDOK_POS i y) CDOK_GROUP_NONE) span map in
  length map' = Z.to_nat CDOK_CELLS /\
  (forall i, In i span -> rd map' (CDOK_POS i y) = CDOK_GROUP_NONE) /\
  (forall c, 0 <= c -> (forall i, In i span -> c <> CDOK_POS i y) ->
             rd map' c = rd map c).
Proof.
  intros Hy; revert map; induction span as [|j span IH]; intros map Hs Hlen;
    cbn [fold_left]; [repeat split; auto; intros i []|].
  destruct (IH (wr map (CDOK_POS j y) CDOK_GROUP_NONE)) as (H1 & H2 & H3);
    [intros; apply Hs; simpl; auto|rewrite wr_length; auto|].
  assert (Hj : 0 <= CDOK_POS j y < 256)
    by (apply CDOK_POS_range; auto; apply Hs; simpl; auto).
  repeat split; auto.
  - intros i [->|Hi]; auto.
    destruct (in_dec Z.eq_dec i span) as [Hin|Hout]; auto.
    rewrite H3; [apply rd_wr_same; unfold CDOK_CELLS in *; lia|lia|].
    intros i' Hi' E.
    apply CDOK_POS_inj in E as [-> _]; auto; try lia; apply Hs; simpl; auto.
  - intros c Hc Hne; rewrite H3 by (auto; intros; apply Hne; simpl; auto).
    apply rd_wr_other; auto.
    intros E; apply (Hne j); simpl; auto.
Qed.

(** ** Flood fill: what is cleared is one region around the start *)

Section FloodFill.

Variable src : Z.
Hypothesis Hsrc : src <> CDOK_GROUP_NONE.

Lemma fill_ok_refl (m : list Z) (start : Z) :
  length m = Z.to_nat CDOK_CELLS -> fill_ok src m m start.
Proof.
  intros Hlen; repeat split; auto.
  intros c (_ & H1 & H2); congruence.
Qed.

Lemma fill_ok_step (m0 m m1 : list Z) (s t p : Z) :
  fill_ok src m0 m s -> fill_ok src m m1 t ->
  filled src m0 m p -> adjacent p t ->
  fill_ok src m0 m1 s /\ forall c, filled src m0 m c -> filled src m0 m1 c.
Proof.
  intros (Hlen & Hpt & Hlink) (Hlen1 & Hpt1 & Hlink1) Hp Hadj.
  assert (Hkeep : forall c, filled src m0 m c -> filled src m0 m1 c).
  { intros c (Hc & Hc0 & Hcm); split; [exact Hc|split; [exact Hc0|]].
    destruct (Hpt1 c Hc) as [E|[E _]]; congruence. }
  assert (Hnew : forall c, filled src m m1 c -> filled src m0 m1 c).
  { intros c (Hc & Hcm & Hc1); split; [exact Hc|split; [|exact Hc1]].
    destruct (Hpt c Hc) as [E|[E E']]; congruence. }
  split; [|exact Hkeep].
  split; [exact Hlen1|split].
  - intros c Hc; destruct (Hpt1 c Hc) as [E|[E E']].
    + rewrite E; apply Hpt; auto.
    + right; split; auto.
      destruct (Hpt c Hc) as [E0|[_ E0]]; congruence.
  - intros c (Hc & Hc0 & Hc1).
    destruct (Z.eq_dec (rd m c) CDOK_GROUP_NONE) as [E|E].
    + apply linked_mono with (cells := filled src m0 m); auto.
      apply Hlink; split; [exact Hc|split; auto].
    + assert (Hcm : rd m c = src)
        by (destruct (Hpt c Hc) as [E0|[_ E0]]; congruence).
      assert (Hfc : filled src m m1 c) by (split; [exact Hc|split; auto]).
      pose proof (Hlink1 c Hfc) as Htc.
      assert (Ht : filled src m m1 t)
        by (destruct (linked_start _ _ _ Htc) as [->|]; auto).
      eapply linked_trans;
        [apply linked_mono with (cells := filled src m0 m); eauto|].
      eapply linked_trans;
        [apply linked_step with (b := t); auto|
         apply linked_mono with (cells := filled src m m1); auto].
Qed.

Lemma fold_option_none {A B : Type} (g : A -> B -> option A) (l : list B) :
  fold_left (fun om i => do m <- om; g m i) l None = None.
Proof.
  induction l as [|h t IH]; simpl; auto.
Qed.

Lemma fill_row_inv (fill : list Z -> Z -> option (list Z))
    (m0 : list Z) (x y y' sx ex : Z) :
  0 <= sx -> ex < 16 -> 0 <= y < 16 -> 0 <= y' < 16 ->
  y' = y + 1 \/ y = y' + 1 ->
  (forall m i m', length m = Z.to_nat CDOK_CELLS -> 0 <= i < 16 ->
                  fill m i = Some m' -> fill_ok src m m' (CDOK_POS i y')) ->
  forall l m m',
    (forall i, In i l -> sx <= i <= ex) ->
    row_inv src m0 x y sx ex m ->
    fold_left (fun om i => do m <- om; fill m i) l (Some m) = Some m' ->
    row_inv src m0 x y sx ex m'.
Proof.
  intros Hsx Hex Hy Hy' Hyy Hfill.
  induction l as [|i l IH]; intros m m' Hl Hinv Hfold; cbn [fold_left] in Hfold.
  - inversion Hfold; subst; auto.
  - cbn [obind] in Hfold.
    destruct (fill m i) as [m1|] eqn:Hf;
      [|rewrite fold_option_none in Hfold; discriminate].
    apply (IH m1 m'); auto; [intros; apply Hl; simpl; auto|].
    destruct Hinv as [Hok Hspan].
    assert (Hi : sx <= i <= ex) by (apply Hl; simpl; auto).
    destruct (fill_ok_step m0 m m1 (CDOK_POS x y) (CDOK_POS i y')
                           (CDOK_POS i y)) as [Hok1 Hkeep]; auto.
    + apply Hfill; auto; [apply Hok|lia].
    + right; rewrite !CDOK_POS_X_POS, !CDOK_POS_Y_POS by lia; lia.
    + split; auto.
Qed.

Lemma span_linked (cells : Z -> Prop) (x y sx ex : Z) :
  0 <= sx -> sx <= x <= ex -> ex < 16 -> 0 <= y ->
  (forall i, sx <= i <= ex -> cells (CDOK_POS i y)) ->
  forall i, sx <= i <= ex -> linked cells (CDOK_POS x y) (CDOK_POS i y).
Proof.
  intros Hsx Hx Hex Hy Hcells.
  assert (Hnext : forall i, sx <= i -> i + 1 <= ex ->
                    linked cells (CDOK_POS i y) (CDOK_POS (i + 1) y)).
  { intros i H1 H2; apply linked_step; try (apply Hcells; lia).
    left; rewrite !CDOK_POS_X_POS, !CDOK_POS_Y_POS by lia; lia. }
  assert (Hright : forall n : nat, x + Z.of_nat n <= ex ->
                     linked cells (CDOK_POS x y) (CDOK_POS (x + Z.of_nat n) y)).
  { induction n as [|n IH]; intros Hn.
    - replace (x + Z.of_nat 0) with x by lia; apply linked_refl.
    - eapply linked_trans; [apply IH; lia|].
      replace (x + Z.of_nat (S n)) with (x + Z.of_nat n + 1) by lia.
      apply Hnext; lia. }
  assert (Hleft : forall n : nat, sx <= x - Z.of_nat n ->
                    linked cells (CDOK_POS x y) (CDOK_POS (x - Z.of_nat n) y)).
  { induction n as [|n IH]; intros Hn.
    - replace (x - Z.of_nat 0) with x by lia; apply linked_refl.
    - eapply linked_trans; [apply IH; lia|].
      apply linked_sym.
      replace (x - Z.of_nat n) with (x - Z.of_nat (S n) + 1) by lia.
      apply Hnext; lia. }
  intros i Hi; destruct (Z.le_gt_cases x i).
  - replace i with (x + Z.of_nat (Z.to_nat (i - x))) by lia.
    apply Hright; lia.
  - replace i with (x - Z.of_nat (Z.to_nat (x - i))) by lia.
    apply Hleft; lia.
Qed.

Lemma flood_fill_sound :
  forall fuel map x y map',
    length map = Z.to_nat CDOK_CELLS -> 0 <= x < 16 -> 0 <= y < 16 ->
    cdok_flood_fill fuel map src x y = Some map' ->
    fill_ok src map map' (CDOK_POS x y).
Proof.
  induction fuel as [|f IH]; intros map x y map' Hlen Hx Hy Hfill;
    [discriminate|].
  cbn [cdok_flood_fill] in Hfill.
  destruct (Z.eqb_spec (rd map (CDOK_POS x y)) src) as [Hstart|Hstart];
    cbn [negb] in Hfill;
    [|inversion Hfill; subst; apply fill_ok_refl; auto].
  set (sx := scan_left (Z.to_nat CDOK_SIZE) map src y x) in *.
  set (ex := scan_right (Z.to_nat CDOK_SIZE) map src y x) in *.
  destruct (scan_left_spec (Z.to_nat CDOK_SIZE) map src y x) as (Hl1 & Hl2 & Hl3).
  destruct (scan_right_spec (Z.to_nat CDOK_SIZE) map src y x)
    as (Hr1 & Hr2 & Hr3).
  fold sx in Hl1, Hl2, Hl3; fold ex in Hr1, Hr2, Hr3.
  unfold CDOK_SIZE in Hr2.
  specialize (Hl2 (proj1 Hx)); specialize (Hr2 (proj2 Hx)).
  destruct (clear_span y (range sx (ex + 1)) map Hy) as (Hc1 & Hc2 & Hc3); auto.
  { intros i Hi; apply in_range in Hi; lia. }
  set (m1 := fold_left (fun m i => wr m (CDOK_POS i y) CDOK_GROUP_NONE)
                       (range sx (ex + 1)) map) in *.
  assert (Hsrc_span : forall i, sx <= i <= ex -> rd map (CDOK_POS i y) = src).
  { intros i Hi; destruct (Z.lt_trichotomy i x) as [H|[->|H]]; auto;
      [apply Hl3|apply Hr3]; lia. }
  assert (Hfilled : forall i, sx <= i <= ex -> filled src map m1 (CDOK_POS i y)).
  { intros i Hi; repeat split; auto; try (apply CDOK_POS_range; lia).
    apply Hc2; apply in_range; lia. }
  assert (Hinv1 : row_inv src map x y sx ex m1).
  { split; auto; repeat split; auto.
    - intros c Hc.
      destruct (in_dec Z.eq_dec c (List.map (fun i => CDOK_POS i y)
                                       (range sx (ex + 1)))) as [Hin|Hout].
      + apply in_map_iff in Hin as (i & <- & Hi); apply in_range in Hi.
        right; split; [apply Hsrc_span|apply Hc2; apply in_range]; lia.
      + left; apply Hc3; [lia|].
        intros i Hi E; apply Hout; apply in_map_iff; eauto.
    - intros c (Hc & Hcs & Hcn).
      destruct (in_dec Z.eq_dec c (List.map (fun i => CDOK_POS i y)
                                       (range sx (ex + 1)))) as [Hin|Hout].
      + apply in_map_iff in Hin as (i & <- & Hi); apply in_range in Hi.
        apply span_linked with (sx := sx) (ex := ex); auto; lia.
      + rewrite Hc3 in Hcn; [congruence|lia|].
        intros i Hi E; apply Hout; apply in_map_iff; eauto. }
  assert (Hrow : forall y' m m',
             0 <= y' < 16 -> y' = y + 1 \/ y = y' + 1 ->
             row_inv src map x y sx ex m ->
             fold_left (fun om i => do m <- om; cdok_flood_fill f m src i y')
                       (range sx (ex + 1)) (Some m) = Some m' ->
             row_inv src map x y sx ex m').
  { intros y' m m' Hy' Hyy Hinv Hfold.
    eapply (fill_row_inv (fun m i => cdok_flood_fill f m src i y'));
      eauto; try lia.
    intros i Hi; apply in_range in Hi; lia. }
  cbn [obind] in Hfill.
  destruct (Z.ltb_spec 0 y) as [Hup|Hup].
  - destruct (fold_left _ (range sx (ex + 1)) (Some m1)) as [m2|] eqn:Hm2;
      [|discriminate].
    apply (Hrow (y - 1)) in Hm2; auto; try lia.
    cbn [obind] in Hfill.
    destruct (Z.ltb_spec (y + 1) CDOK_SIZE) as [Hdn|Hdn].
    + apply (Hrow (y + 1)) in Hfill; auto; try (unfold CDOK_SIZE in *; lia).
      apply Hfill.
    + inversion Hfill; subst; apply Hm2.
  - cbn [obind] in Hfill.
    destruct (Z.ltb_spec (y + 1) CDOK_SIZE) as [Hdn|Hdn].
    + apply (Hrow (y + 1)) in Hfill; auto; try (unfold CDOK_SIZE in *; lia).
      apply Hfill.
    + inversion Hfill; subst; apply Hinv1.
Qed.

(** *** Flood fill returns: the number of [src] cells bounds the depth *)

Lemma count_src_pointwise (m m' : list Z) :
  length m' = length m ->
  (forall k, (k < length m)%nat -> nth k m' 0 = src -> nth k m 0 = src) ->
  (count_src src m' <= count_src src m)%nat /\
  ((exists k, (k < length m)%nat /\ nth k m 0 = src /\ nth k m' 0 <> src) ->
   (count_src src m' < count_src src m)%nat).
Proof.
  unfold count_src; revert m'; induction m as [|a m IH]; intros [|a' m'] Hlen H;
    try discriminate; simpl.
  - split; [lia|intros (k & Hk & _); simpl in Hk; lia].
  - destruct (IH m') as [Hle Hlt].
    { simpl in Hlen; lia. }
    { intros k Hk; apply (H (S k)); simpl; lia. }
    pose proof (H 0%nat) as H0; simpl in H0.
    destruct (Z.eqb_spec a' src) as [Ea'|Ea'], (Z.eqb_spec a src) as [Ea|Ea];
      simpl; try (exfalso; apply Ea, H0; auto; lia).
    + split; [lia|].
      intros ([|k] & Hk & Hs & Hn); [simpl in Hn; congruence|].
      assert (Hex : exists k, (k < length m)%nat /\ nth k m 0 = src /\
                              nth k m' 0 <> src)
        by (exists k; simpl in *; repeat split; auto; lia).
      apply Hlt in Hex; lia.
    + split; lia.
    + split; [lia|].
      intros ([|k] & Hk & Hs & Hn); [simpl in Hs; congruence|].
      apply Hlt; exists k; simpl in *; repeat split; auto; lia.
Qed.

Lemma fill_ok_count (m m' : list Z) (start : Z) :
  length m = Z.to_nat CDOK_CELLS -> fill_ok src m m' start ->
  (count_src src m' <= count_src src m)%nat.
Proof.
  intros Hlen (Hlen' & Hpt & _).
  apply count_src_pointwise; [congruence|].
  intros k Hk Hs.
  destruct (Hpt (Z.of_nat k)) as [E|[E _]].
  - unfold CDOK_CELLS in *; lia.
  - unfold rd in E; rewrite Nat2Z.id in E; congruence.
  - unfold rd in E; rewrite Nat2Z.id in E; congruence.
Qed.

Lemma fill_row_total (fill : list Z -> Z -> option (list Z)) (f : nat)
    (y' : Z) :
  (forall m i, length m = Z.to_nat CDOK_CELLS -> 0 <= i < 16 ->
               (count_src src m < f)%nat -> exists m', fill m i = Some m') ->
  (forall m i m', length m = Z.to_nat CDOK_CELLS -> 0 <= i < 16 ->
                  fill m i = Some m' -> fill_ok src m m' (CDOK_POS i y')) ->
  forall l m,
    (forall i, In i l -> 0 <= i < 16) ->
    length m = Z.to_nat CDOK_CELLS -> (count_src src m < f)%nat ->
    exists m', fold_left (fun om i => do m <- om; fill m i) l (Some m) =
               Some m' /\
               length m' = Z.to_nat CDOK_CELLS /\
               (count_src src m' <= count_src src m)%nat.
Proof.
  intros Htotal Hsound; induction l as [|i l IH]; intros m Hl Hlen Hcount;
    cbn [fold_left obind]; [eauto|].
  destruct (Htotal m i) as [m1 Hm1]; auto; [apply Hl; simpl; auto|].
  rewrite Hm1.
  pose proof (Hsound m i m1 Hlen (Hl i (or_introl eq_refl)) Hm1) as Hok.
  pose proof (fill_ok_count _ _ _ Hlen Hok) as Hc1.
  destruct (IH m1) as (m' & Hfold & Hlen' & Hc');
    [intros; apply Hl; simpl; auto|apply Hok|lia|].
  exists m'; repeat split; auto; lia.
Qed.

Lemma flood_fill_total :
  forall fuel map x y,
    length map = Z.to_nat CDOK_CELLS -> 0 <= x < 16 -> 0 <= y < 16 ->
    (count_src src map < fuel)%nat ->
    exists map', cdok_flood_fill fuel map src x y = Some map'.
Proof.
  induction fuel as [|f IH]; intros map x y Hlen Hx Hy Hcount; [lia|].
  cbn [cdok_flood_fill].
  destruct (Z.eqb_spec (rd map (CDOK_POS x y)) src) as [Hstart|Hstart];
    cbn [negb]; [|eauto].
  set (sx := scan_left (Z.to_nat CDOK_SIZE) map src y x) in *.
  set (ex := scan_right (Z.to_nat CDOK_SIZE) map src y x) in *.
  destruct (scan_left_spec (Z.to_nat CDOK_SIZE) map src y x) as (Hl1 & Hl2 & _).
  destruct (scan_right_spec (Z.to_nat CDOK_SIZE) map src y x)
    as (Hr1 & Hr2 & _).
  fold sx in Hl1, Hl2; fold ex in Hr1, Hr2.
  unfold CDOK_SIZE in Hr2.
  specialize (Hl2 (proj1 Hx)); specialize (Hr2 (proj2 Hx)).
  destruct (clear_span y (range sx (ex + 1)) map Hy) as (Hc1 & Hc2 & Hc3); auto.
  { intros i Hi; apply in_range in Hi; lia. }
  set (m1 := fold_left (fun m i => wr m (CDOK_POS i y) CDOK_GROUP_NONE)
                       (range sx (ex + 1)) map) in *.
  assert (Hm1 : (count_src src m1 < count_src src map)%nat).
  { pose proof (CDOK_POS_range x y Hx Hy) as Hp.
    apply count_src_pointwise; [congruence| |].
    - intros k Hk Hs.
      destruct (in_dec Z.eq_dec (Z.of_nat k)
                       (List.map (fun i => CDOK_POS i y) (range sx (ex + 1))))
        as [Hin|Hout].
      + apply in_map_iff in Hin as (i & E & Hi).
        pose proof (Hc2 i Hi) as Hn; rewrite E in Hn.
        unfold rd in Hn; rewrite Nat2Z.id in Hn; congruence.
      + rewrite <- Hs; symmetry.
        specialize (Hc3 (Z.of_nat k)); unfold rd in Hc3.
        rewrite Nat2Z.id in Hc3; apply Hc3; [lia|].
        intros i Hi E; apply Hout; apply in_map_iff; eauto.
    - exists (Z.to_nat (CDOK_POS x y)); unfold CDOK_CELLS in *.
      split; [lia|split; [exact Hstart|]].
      pose proof (Hc2 x) as Hn; unfold rd in Hn; rewrite Hn; auto.
      apply in_range; lia. }
  assert (Hrow : forall y' m,
             0 <= y' < 16 ->
             length m = Z.to_nat CDOK_CELLS -> (count_src src m < f)%nat ->
             exists m',
               fold_left (fun om i => do m <- om; cdok_flood_fill f m src i y')
                         (range sx (ex + 1)) (Some m) = Some m' /\
               length m' = Z.to_nat CDOK_CELLS /\
               (count_src src m' <= count_src src m)%nat).
  { intros y' m Hy' Hlenm Hcm.
    apply (fill_row_total (fun m i => cdok_flood_fill f m src i y') f y');
      auto.
    - intros; eapply flood_fill_sound; eauto.
    - intros i Hi; apply in_range in Hi; lia. }
  cbn [obind].
  destruct (Z.ltb_spec 0 y) as [Hup|Hup].
  - destruct (Hrow (y - 1) m1) as (m2 & Hm2 & Hlen2 & Hc2'); auto; try lia.
    rewrite Hm2; cbn [obind].
    destruct (Z.ltb_spec (y + 1) CDOK_SIZE) as [Hdn|Hdn]; [|eauto].
    destruct (Hrow (y + 1) m2) as (m3 & Hm3 & _); auto;
      try (unfold CDOK_SIZE in *; lia).
    eauto.
  - cbn [obind].
    destruct (Z.ltb_spec (y + 1) CDOK_SIZE) as [Hdn|Hdn]; [|eauto].
    destruct (Hrow (y + 1) m1) as (m3 & Hm3 & _); auto;
      try (unfold CDOK_SIZE in *; lia).
    eauto.
Qed.

End FloodFill.

(** ** Groups as sets of cells *)

Lemma nth_upd {A : Type} (l : list A) (n k : nat) (v d : A) :
  nth k (upd l n v) d =
  if ((n =? k) && (n <? length l))%nat then v else nth k l d.
Proof.
  revert n k; induction l as [|h t IH]; intros n k.
  - change (n <? length (@nil A))%nat with (Nat.ltb n 0).
    replace (Nat.ltb n 0) with false by (symmetry; apply Nat.ltb_ge; lia).
    rewrite andb_false_r; destruct n; reflexivity.
  - destruct n as [|n], k as [|k]; simpl; auto.
Qed.

Lemma grp_at_upd (puz : cdok_puzzle) (s : Z) (v m : list Z) (grp i : Z)
    (g : cdok_group) :
  0 <= grp < Z.of_nat (length (p_groups puz)) -> 0 <= i ->
  grp_at (mk_puzzle s (upd (p_groups puz) (Z.to_nat grp) g) v m) i =
  if grp =? i then g else grp_at puz i.
Proof.
  intros Hg Hi; unfold grp_at; cbn [p_groups]; rewrite nth_upd.
  destruct (Nat.eqb_spec (Z.to_nat grp) (Z.to_nat i)) as [E|E],
           (Z.eqb_spec grp i) as [E'|E']; try lia; cbn [andb]; auto.
  destruct (Nat.ltb_spec (Z.to_nat grp) (length (p_groups puz))); auto; lia.
Qed.

Lemma in_live_members (g : cdok_group) (c : Z) :
  In c (live_members g) <->
  exists j, 0 <= j < g_size g /\ rd (g_members g) j = c.
Proof.
  unfold live_members; rewrite in_map_iff; split.
  - intros (j & E & Hj); apply in_range in Hj; eauto.
  - intros (j & Hj & E); exists j; split; auto; apply in_range; auto.
Qed.

Lemma live_members_nil (g : cdok_group) :
  g_size g <= 0 -> live_members g = [].
Proof.
  intros H; unfold live_members; rewrite range_nil by lia; reflexivity.
Qed.

Lemma NoDup_map_range (f : Z -> Z) (lo hi : Z) :
  NoDup (map f (range lo hi)) <->
  forall i j, lo <= i < hi -> lo <= j < hi -> f i = f j -> i = j.
Proof.
  remember (Z.to_nat (hi - lo)) as n eqn:Hn.
  revert lo Hn; induction n as [|n IH]; intros lo Hn.
  - rewrite range_nil by lia; split; [intros; lia|constructor].
  - rewrite range_cons by lia; cbn [map]; split.
    + intros Hnd i j Hi Hj E; inversion Hnd as [|? ? Hnotin Hrest]; subst.
      rewrite IH in Hrest by lia.
      destruct (Z.eq_dec i lo) as [->|Hi'], (Z.eq_dec j lo) as [->|Hj'];
        auto.
      * exfalso; apply Hnotin; rewrite E; apply in_map, in_range; lia.
      * exfalso; apply Hnotin; rewrite <- E; apply in_map, in_range; lia.
      * apply Hrest; auto; lia.
    + intros Hinj; constructor.
      * rewrite in_map_iff; intros (j & E & Hj); apply in_range in Hj.
        assert (j = lo) by (apply Hinj; auto; lia); lia.
      * apply IH; [lia|]; intros; apply Hinj; auto; lia.
Qed.

Lemma clear_cells (cells : list Z) (m : list Z) :
  (forall c, In c cells -> 0 <= c < Z.of_nat (length m)) ->
  let m' := fold_left (fun m c => wr m c CDOK_GROUP_NONE) cells m in
  length m' = length m /\
  (forall c, In c cells -> rd m' c = CDOK_GROUP_NONE) /\
  (forall c, 0 <= c -> ~ In c cells -> rd m' c = rd m c).
Proof.
  revert m; induction cells as [|a cells IH]; intros m Hc; cbn [fold_left].
  - repeat split; auto; intros c [].
  - destruct (IH (wr m a CDOK_GROUP_NONE)) as (H1 & H2 & H3).
    { intros c Hin; rewrite wr_length; apply Hc; simpl; auto. }
    rewrite wr_length in H1; repeat split; auto.
    + intros c [->|Hin]; auto.
      destruct (in_dec Z.eq_dec c cells) as [Hin|Hout]; auto.
      rewrite H3; auto; [apply rd_wr_same|]; apply Hc; simpl; auto.
    + intros c Hc0 Hout; rewrite H3; [|auto|intros Hin; apply Hout; simpl; auto].
      apply rd_wr_other; auto; intros ->; apply Hout; simpl; auto.
Qed.

Lemma uint8_cast_small (x : Z) : 0 <= x < 256 -> uint8_cast x = x.
Proof.
  intros H; unfold uint8_cast; change 255 with (Z.ones 8).
  rewrite Z.land_ones by lia; apply Z.mod_small; simpl; lia.
Qed.

Lemma uint_cast_small (x : Z) : 0 <= x < 4294967296 -> uint_cast x = x.
Proof.
  intros H; unfold uint_cast; apply Z.mod_small; lia.
Qed.

(** ** Taking cells out of a group keeps the map and the lists inverse *)

Lemma shrinks_map_ok (puz puz' : cdok_puzzle) (grp : Z) :
  map_ok puz -> 0 <= grp < CDOK_GROUPS -> shrinks puz puz' grp ->
  map_ok puz'.
Proof.
  intros (Hlg & Hlm & Hgrp & Hinv) Hg
         (Slg & Slm & Soth & Ssize & Smem & Snd & Ssub & Sout & Skeep).
  split; [congruence|split; [congruence|split]].
  - intros i Hi; destruct (Z.eq_dec i grp) as [->|Hne].
    + repeat split; auto; try lia;
        destruct (Hgrp grp Hg) as (_ & _ & _ & Hm);
        destruct (Hm c (Ssub c H)) as [Hc Hmap]; try lia.
      rewrite Skeep; auto.
    + rewrite Soth by auto.
      destruct (Hgrp i Hi) as (H1 & H2 & H3 & H4).
      repeat split; auto; try lia; try (apply H4; auto).
      destruct (H4 c H) as [Hc Hmap].
      rewrite Skeep; auto; left; intros Hin.
      destruct (Hgrp grp Hg) as (_ & _ & _ & Hm).
      destruct (Hm c Hin); congruence.
  - intros c Hc Hne.
    destruct (in_dec Z.eq_dec c (live_members (grp_at puz grp))) as [Hin|Hout].
    + destruct (in_dec Z.eq_dec c (live_members (grp_at puz' grp)))
        as [Hin'|Hout']; [|rewrite Sout in Hne; auto; contradiction].
      destruct (Hgrp grp Hg) as (_ & _ & _ & Hm).
      destruct (Hm c Hin) as [_ Hmap].
      rewrite Skeep by auto; rewrite Hmap; split; auto.
    + rewrite Skeep in * by auto.
      destruct (Hinv c Hc Hne) as [Hr Hin]; split; auto.
      rewrite Soth; auto; intros E; apply Hout; rewrite <- E; auto.
Qed.

Lemma shrinks_trans (p1 p2 p3 : cdok_puzzle) (grp : Z) :
  shrinks p1 p2 grp -> shrinks p2 p3 grp -> shrinks p1 p3 grp.
Proof.
  intros (Alg & Alm & Aoth & Asize & Amem & And & Asub & Aout & Akeep)
         (Blg & Blm & Both & Bsize & Bmem & Bnd & Bsub & Bout & Bkeep).
  split; [congruence|split; [congruence|split]].
  { intros i Hi Hne; rewrite Both, Aoth; auto. }
  repeat split; auto; try lia.
  - intros c Hc Hin Hout.
    destruct (in_dec Z.eq_dec c (live_members (grp_at p2 grp))) as [H2|H2].
    + apply Bout; auto.
    + rewrite Bkeep by auto; apply Aout; auto.
  - intros c Hc [Hout|Hin].
    + rewrite Bkeep, Akeep; auto.
    + rewrite Bkeep, Akeep; auto.
Qed.

Lemma shrinks_shape (puz puz' : cdok_puzzle) (grp i : Z) :
  shrinks puz puz' grp -> 0 <= i < CDOK_GROUPS -> i <> grp ->
  shape_ok puz i -> shape_ok puz' i.
Proof.
  intros (_ & _ & Soth & _) Hi Hne H; unfold shape_ok.
  rewrite (Soth i Hi Hne); exact H.
Qed.

Lemma retyped_refl (puz : cdok_puzzle) : retyped puz puz.
Proof.
  repeat split; auto.
Qed.

Lemma retyped_trans (p1 p2 p3 : cdok_puzzle) :
  retyped p1 p2 -> retyped p2 p3 -> retyped p1 p3.
Proof.
  intros (A1 & A2 & A3) (B1 & B2 & B3).
  split; [congruence|split; [congruence|]].
  intros i; destruct (A3 i), (B3 i); split; congruence.
Qed.

Lemma retyped_live (puz puz' : cdok_puzzle) (i : Z) :
  retyped puz puz' ->
  live_members (grp_at puz' i) = live_members (grp_at puz i).
Proof.
  intros (_ & _ & H); destruct (H i) as [Hs Hm].
  unfold live_members; rewrite Hs, Hm; reflexivity.
Qed.

Lemma retyped_invariants (puz puz' : cdok_puzzle) :
  retyped puz puz' -> cage_invariants puz -> cage_invariants puz'.
Proof.
  intros Hr [(Hlg & Hlm & Hgrp & Hinv) Hshape].
  pose proof Hr as (Rm & Rl & Rg).
  split; [split; [congruence|split; [congruence|split]]|].
  - intros i Hi; rewrite (retyped_live puz puz' i Hr), Rm.
    destruct (Rg i) as [-> ->]; apply Hgrp; auto.
  - intros c Hc; rewrite Rm, (retyped_live puz puz' _ Hr); apply Hinv; auto.
  - intros i Hi; unfold shape_ok.
    rewrite (retyped_live puz puz' i Hr); destruct (Rg i) as [-> _].
    apply Hshape; auto.
Qed.

(** ** The basic group operations *)

Lemma destroy_fold (f : Z -> Z) (solution : list Z) (l : list Z)
    (v m : list Z) :
  snd (fold_left
         (fun '(values, group_map) i =>
            (wr values (f i) (rd solution (f i)),
             wr group_map (f i) CDOK_GROUP_NONE))
         l (v, m)) =
  fold_left (fun m c => wr m c CDOK_GROUP_NONE) (map f l) m.
Proof.
  revert v m; induction l as [|i l IH]; intros v m; simpl; auto.
Qed.

Lemma group_destroy_shrinks (puz : cdok_puzzle) (grp : Z) (solution : list Z) :
  map_ok puz -> 0 <= grp < CDOK_GROUPS ->
  shrinks puz (group_destroy puz grp solution) grp /\
  g_size (grp_at (group_destroy puz grp solution) grp) = 0.
Proof.
  intros (Hlg & Hlm & Hgrp & Hinv) Hg; unfold group_destroy.
  destruct (Hgrp grp Hg) as (Hsize & Hmem & Hnd & Hcells).
  pose proof (destroy_fold (rd (g_members (grp_at puz grp))) solution
                (range 0 (g_size (grp_at puz grp)))
                (p_values puz) (p_group_map puz)) as Hsnd.
  fold (live_members (grp_at puz grp)) in Hsnd.
  destruct (fold_left _ (range 0 (g_size (grp_at puz grp)))
                      (p_values puz, p_group_map puz)) as [values gmap].
  cbn [snd] in Hsnd; subst gmap.
  destruct (clear_cells (live_members (grp_at puz grp)) (p_group_map puz))
    as (H1 & H2 & H3).
  { intros c Hc; destruct (Hcells c Hc); unfold CDOK_CELLS in *; lia. }
  assert (Hat : forall i, 0 <= i ->
            grp_at (mk_puzzle (p_size puz)
                      (upd (p_groups puz) (Z.to_nat grp)
                           (mk_group (g_type (grp_at puz grp))
                                     (g_target (grp_at puz grp)) 0
                                     (g_members (grp_at puz grp))))
                      values
                      (fold_left (fun m c => wr m c CDOK_GROUP_NONE)
                                 (live_members (grp_at puz grp))
                                 (p_group_map puz))) i =
            if grp =? i
            then mk_group (g_type (grp_at puz grp)) (g_target (grp_at puz grp))
                          0 (g_members (grp_at puz grp))
            else grp_at puz i).
  { intros i Hi; apply grp_at_upd; auto; unfold CDOK_GROUPS in *; lia. }
  split; [|rewrite Hat, Z.eqb_refl by lia; reflexivity].
  split; [cbn [p_groups]; apply upd_length|].
  split; [cbn [p_group_map]; auto|].
  split.
  { intros i Hi Hne; rewrite Hat by lia.
    destruct (Z.eqb_spec grp i); [congruence|reflexivity]. }
  rewrite Hat, Z.eqb_refl by lia; cbn [g_size g_members p_group_map].
  rewrite (live_members_nil (mk_group _ _ 0 _)) by (simpl; lia).
  unfold CDOK_GROUP_SIZE; repeat split; auto; try lia; try constructor.
  - intros c [].
  - intros c Hc [Hout|[]]; apply H3; auto; lia.
Qed.

Lemma group_remove_shrinks (puz : cdok_puzzle) (grp victim : Z)
    (solution : list Z) :
  map_ok puz -> 0 <= grp < CDOK_GROUPS ->
  In victim (live_members (grp_at puz grp)) ->
  let puz' := group_remove puz grp victim solution in
  shrinks puz puz' grp /\
  g_size (grp_at puz' grp) = g_size (grp_at puz grp) - 1 /\
  ~ In victim (live_members (grp_at puz' grp)) /\
  (forall c, In c (live_members (grp_at puz grp)) -> c <> victim ->
             In c (live_members (grp_at puz' grp))).
Proof.
  intros (Hlg & Hlm & Hgrp & Hinv) Hg Hin; unfold group_remove.
  destruct (Hgrp grp Hg) as (Hsize & Hmem & Hnd & Hcells).
  set (g := grp_at puz grp) in *.
  destruct (find (fun i => rd (g_members g) i =? victim)
                 (range 0 (g_size g))) as [i|] eqn:Hfind.
  2:{ apply in_live_members in Hin as (j & Hj & E).
      eapply find_none in Hfind; [|apply in_range; eauto].
      apply Z.eqb_neq in Hfind; contradiction. }
  apply find_some in Hfind as [Hi Hv].
  apply in_range in Hi; apply Z.eqb_eq in Hv.
  unfold CDOK_GROUP_SIZE, CDOK_GROUPS, CDOK_CELLS in *.
  rewrite uint_cast_small by lia.
  set (members' := wr (g_members g) i (rd (g_members g) (g_size g - 1))).
  set (g' := mk_group (g_type g) (g_target g) (g_size g - 1) members').
  rewrite Hv.
  set (puz' := mk_puzzle (p_size puz) (upd (p_groups puz) (Z.to_nat grp) g')
                         (wr (p_values puz) victim (rd solution victim))
                         (wr (p_group_map puz) victim CDOK_GROUP_NONE)).
  assert (Hat : forall j, 0 <= j ->
                  grp_at puz' j = if grp =? j then g' else grp_at puz j).
  { intros j Hj; apply grp_at_upd; auto; lia. }
  assert (Hrd : forall j, 0 <= j ->
                  rd members' j =
                  if i =? j then rd (g_members g) (g_size g - 1)
                  else rd (g_members g) j).
  { intros j Hj; apply rd_wr; lia. }
  unfold live_members in Hnd; rewrite NoDup_map_range in Hnd.
  assert (Hlive' : forall c, In c (live_members g') <->
                             In c (live_members g) /\ c <> victim).
  { intros c; rewrite !in_live_members; cbn [g_size g_members g'].
    split.
    - intros (j & Hj & E); rewrite Hrd in E by lia.
      destruct (Z.eqb_spec i j) as [->|Hne].
      + split; [exists (g_size g - 1); split; auto; lia|].
        intros ->; rewrite <- Hv in E; apply Hnd in E; lia.
      + split; [exists j; split; auto; lia|].
        intros ->; rewrite <- Hv in E; apply Hnd in E; lia.
    - intros [(j & Hj & E) Hne].
      destruct (Z.eq_dec j (g_size g - 1)) as [->|Hlast].
      + exists i; rewrite Hrd, Z.eqb_refl by lia; split; auto.
        assert (i <> g_size g - 1) by (intros ->; congruence); lia.
      + exists j; rewrite Hrd by lia.
        destruct (Z.eqb_spec i j) as [->|]; [congruence|split; auto; lia]. }
  assert (Hnd' : NoDup (live_members g')).
  { unfold live_members; rewrite NoDup_map_range; cbn [g_size g_members g'].
    intros a b Ha Hb E; rewrite !Hrd in E by lia.
    destruct (Z.eqb_spec i a) as [Hia|Hia], (Z.eqb_spec i b) as [Hib|Hib];
      try lia; apply Hnd in E; lia. }
  cbv zeta; rewrite (Hat grp), Z.eqb_refl by lia.
  split; [|split; [reflexivity|split; [rewrite Hlive'; tauto|]]].
  2:{ intros c Hc Hne; apply Hlive'; auto. }
  split; [cbn [p_groups puz']; apply upd_length|].
  split; [cbn [p_group_map puz']; apply wr_length|].
  split.
  { intros j Hj Hne; rewrite Hat by lia.
    destruct (Z.eqb_spec grp j); [congruence|reflexivity]. }
  rewrite (Hat grp), Z.eqb_refl by lia.
  cbn [g_size g_members g' p_group_map puz']; fold g.
  unfold CDOK_GROUP_SIZE, CDOK_GROUPS, CDOK_CELLS in *.
  split; [lia|split; [unfold members'; rewrite wr_length; auto|]].
  split; [exact Hnd'|split; [intros c Hc; apply Hlive' in Hc; tauto|]].
  split.
  - intros c Hc Hc1 Hc2.
    assert (c = victim) by (destruct (Z.eq_dec c victim); auto;
                            exfalso; apply Hc2, Hlive'; auto).
    subst c; apply rd_wr_same; lia.
  - intros c Hc Hor; apply rd_wr_other; [lia|].
    intros ->; destruct Hor as [H|H]; [contradiction|].
    apply Hlive' in H; tauto.
Qed.

(** ** Changing the type and target of a group *)

Lemma set_grp_retyped (puz : cdok_puzzle) (grp : Z) (g : cdok_group) :
  g_size g = g_size (grp_at puz grp) ->
  g_members g = g_members (grp_at puz grp) ->
  retyped puz (set_grp puz grp g).
Proof.
  intros Hs Hm; unfold set_grp.
  split; [reflexivity|split; [cbn [p_groups]; apply upd_length|]].
  intros i; unfold grp_at in *; cbn [p_groups]; rewrite nth_upd.
  destruct (Nat.eqb_spec (Z.to_nat grp) (Z.to_nat i)) as [E|E];
    cbn [andb]; auto.
  destruct (Z.to_nat grp <? length (p_groups puz))%nat; auto.
  rewrite <- E; auto.
Qed.

Lemma group_update_target_retyped (puz : cdok_puzzle) (grp : Z)
    (solution : list Z) (f : Z) :
  retyped puz (snd (group_update_target puz grp solution f)).
Proof.
  unfold group_update_target.
  assert (Hset : forall t, retyped puz (set_target puz grp t))
    by (intros t; apply set_grp_retyped; reflexivity).
  destruct (g_size (grp_at puz grp) =? 0); [apply retyped_refl|].
  destruct (_ && _ && _); [apply retyped_refl|].
  destruct (fold_left _ _ _) as [[mx sum] product].
  repeat match goal with
         | |- context [if ?b then _ else _] => destruct b
         end; cbn [snd]; auto using retyped_refl.
Qed.

Lemma alter_try_retyped (solution : list Z) (f grp : Z)
    (types : list cdok_gtype_t) :
  forall puz, retyped puz (alter_try puz grp solution f types).
Proof.
  induction types as [|t types IH]; intros puz; cbn [alter_try];
    [apply retyped_refl|].
  pose proof (group_update_target_retyped (set_type puz grp t) grp solution f)
    as Hu.
  destruct (group_update_target (set_type puz grp t) grp solution f)
    as [r puz1]; cbn [snd] in Hu.
  assert (Ht : retyped puz puz1).
  { eapply retyped_trans; [|exact Hu].
    apply set_grp_retyped; reflexivity. }
  destruct (r =? 0); auto.
  eapply retyped_trans; [exact Ht|apply IH].
Qed.

Lemma mut_alter_type_retyped (puz : cdok_puzzle) (grp : Z)
    (solution : list Z) (f : Z) (rnd : rand_source) (k : nat) :
  retyped puz (fst (mut_alter_type puz grp solution f rnd k)).
Proof.
  unfold mut_alter_type.
  destruct (fold_left _ _ _) as [types k']; cbn [fst].
  apply alter_try_retyped.
Qed.

(** The step that follows every change of a group's cells: recompute
    the target, and pick another type if that fails. *)
Lemma retarget_retyped (puz : cdok_puzzle) (grp : Z) (solution : list Z)
    (f : Z) (rnd : rand_source) (k : nat) :
  exists puz' k',
    (let '(r, puz1) := group_update_target puz grp solution f in
     if r <? 0 then Some (mut_alter_type puz1 grp solution f rnd k)
     else Some (puz1, k)) = Some (puz', k') /\
    retyped puz puz'.
Proof.
  pose proof (group_update_target_retyped puz grp solution f) as Hu.
  destruct (group_update_target puz grp solution f) as [r puz1].
  cbn [snd] in Hu; destruct (r <? 0).
  - pose proof (mut_alter_type_retyped puz1 grp solution f rnd k) as Ha.
    destruct (mut_alter_type puz1 grp solution f rnd k) as [puz2 k2].
    exists puz2, k2; split; auto; eapply retyped_trans; eauto.
  - exists puz1, k; auto.
Qed.

(** ** Adding a cell to a group *)

Lemma group_add_ok (puz : cdok_puzzle) (grp c : Z) :
  map_ok puz -> 0 <= grp < CDOK_GROUPS -> 0 <= c < CDOK_CELLS ->
  rd (p_group_map puz) c = CDOK_GROUP_NONE ->
  g_size (grp_at puz grp) < CDOK_GROUP_SIZE ->
  let puz' := group_add puz grp c in
  map_ok puz' /\
  (forall i, 0 <= i -> i <> grp -> grp_at puz' i = grp_at puz i) /\
  g_size (grp_at puz' grp) = g_size (grp_at puz grp) + 1 /\
  (forall x, In x (live_members (grp_at puz' grp)) <->
             In x (live_members (grp_at puz grp)) \/ x = c) /\
  rd (p_group_map puz') c = grp /\
  (forall x, 0 <= x -> x <> c ->
             rd (p_group_map puz') x = rd (p_group_map puz) x).
Proof.
  intros (Hlg & Hlm & Hgrp & Hinv) Hg Hc Hfree Hroom; unfold group_add.
  rewrite Hfree, Z.eqb_refl; cbn [negb].
  destruct (Z.geb_spec (g_size (grp_at puz grp)) CDOK_GROUP_SIZE) as [H|_];
    [lia|].
  destruct (Hgrp grp Hg) as (Hsize & Hmem & Hnd & Hcells).
  set (g := grp_at puz grp) in *.
  unfold CDOK_GROUP_SIZE, CDOK_GROUPS, CDOK_CELLS, CDOK_GROUP_NONE in *.
  rewrite uint8_cast_small by lia.
  set (members' := wr (g_members g) (g_size g) c).
  set (g' := mk_group (g_type g) (g_target g) (g_size g + 1) members').
  set (puz' := mk_puzzle (p_size puz) (upd (p_groups puz) (Z.to_nat grp) g')
                         (wr (p_values puz) c 0) (wr (p_group_map puz) c grp)).
  assert (Hat : forall j, 0 <= j ->
                  grp_at puz' j = if grp =? j then g' else grp_at puz j).
  { intros j Hj; apply grp_at_upd; auto; lia. }
  assert (Hrd : forall j, 0 <= j ->
                  rd members' j = if g_size g =? j then c
                                  else rd (g_members g) j).
  { intros j Hj; apply rd_wr; lia. }
  assert (Hnotin : ~ In c (live_members g)).
  { intros Hin; destruct (Hcells c Hin) as [_ E]; lia. }
  assert (Hlive' : forall x, In x (live_members g') <->
                             In x (live_members g) \/ x = c).
  { intros x; rewrite !in_live_members; cbn [g_size g_members g']; split.
    - intros (j & Hj & E); rewrite Hrd in E by lia.
      destruct (Z.eqb_spec (g_size g) j); [auto|].
      left; exists j; split; auto; lia.
    - intros [(j & Hj & E)| ->].
      + exists j; rewrite Hrd by lia.
        destruct (Z.eqb_spec (g_size g) j); [lia|split; auto; lia].
      + exists (g_size g); rewrite Hrd, Z.eqb_refl by lia; split; auto; lia. }
  assert (Hmap : forall x, 0 <= x ->
                   rd (p_group_map puz') x =
                   if c =? x then grp else rd (p_group_map puz) x).
  { intros x Hx; apply rd_wr; lia. }
  assert (Hnd' : NoDup (live_members g')).
  { unfold live_members in *; rewrite NoDup_map_range in *.
    cbn [g_size g_members g'].
    intros a b Ha Hb E; rewrite !Hrd in E by lia.
    destruct (Z.eqb_spec (g_size g) a) as [Ea|Ea],
             (Z.eqb_spec (g_size g) b) as [Eb|Eb]; try lia.
    - exfalso; apply Hnotin; apply in_map_iff; exists b; split; auto.
      apply in_range; lia.
    - exfalso; apply Hnotin; apply in_map_iff; exists a; split; auto.
      apply in_range; lia.
    - apply Hnd; auto; lia. }
  cbv zeta; rewrite (Hat grp), Z.eqb_refl by lia.
  unfold map_ok, CDOK_GROUP_SIZE, CDOK_GROUPS, CDOK_CELLS, CDOK_GROUP_NONE in *.
  split; [|split; [|split; [reflexivity|split; [exact Hlive'|split]]]].
  - split; [cbn [p_groups puz']; rewrite upd_length; auto|].
    split; [cbn [p_group_map puz']; rewrite wr_length; auto|split].
    + intros i Hi; rewrite Hat by lia.
      destruct (Z.eqb_spec grp i) as [<-|Hne].
      * cbn [g_size g_members g'].
        split; [lia|split; [unfold members'; rewrite wr_length; auto|]].
        split; [exact Hnd'|].
        intros x Hx; apply Hlive' in Hx as [Hx| ->].
        -- destruct (Hcells x Hx) as [Hr Hm]; split; auto.
           rewrite Hmap by lia.
           destruct (Z.eqb_spec c x); [subst; contradiction|auto].
        -- split; auto; rewrite Hmap, Z.eqb_refl by lia; reflexivity.
      * destruct (Hgrp i Hi) as (H1 & H2 & H3 & H4).
        repeat split; auto; try lia; try (apply H4; auto).
        destruct (H4 c0 H) as [Hr Hm].
        rewrite Hmap by lia.
        destruct (Z.eqb_spec c c0); [subst; lia|auto].
    + intros x Hx; rewrite Hmap by lia.
      destruct (Z.eqb_spec c x) as [<-|Hne].
      * intros _; rewrite Hat, Z.eqb_refl by lia.
        split; [lia|apply Hlive'; auto].
      * intros Hn; destruct (Hinv x Hx Hn) as [Hr Hin]; split; auto.
        rewrite Hat by lia.
        destruct (Z.eqb_spec grp (rd (p_group_map puz) x)) as [E|E]; auto.
        apply Hlive'; left; unfold g; rewrite E; auto.
  - intros i Hi Hne; rewrite Hat by lia.
    destruct (Z.eqb_spec grp i); [congruence|reflexivity].
  - rewrite Hmap, Z.eqb_refl by lia; reflexivity.
  - intros x Hx Hne; rewrite Hmap by lia.
    destruct (Z.eqb_spec c x); [congruence|reflexivity].
Qed.

Lemma connected_add (l l' : list Z) (c n : Z) :
  connected l -> In n l -> adjacent c n ->
  (forall x, In x l' <-> In x l \/ x = c) ->
  connected l'.
Proof.
  intros Hcon Hn Hadj Hl'.
  assert (Hsub : forall a b, linked (fun x => In x l) a b ->
                             linked (fun x => In x l') a b).
  { intros a b; apply linked_mono; intros x Hx; apply Hl'; auto. }
  assert (Hcn : linked (fun x => In x l') c n).
  { apply linked_step; auto; apply Hl'; auto. }
  assert (Hto : forall a, In a l' -> linked (fun x => In x l') a n).
  { intros a Ha; apply Hl' in Ha as [Ha| ->]; auto. }
  intros a b Ha Hb; eapply linked_trans; [apply Hto; auto|].
  apply linked_sym; auto.
Qed.

Lemma connected_pair (l : list Z) (c n : Z) :
  adjacent c n -> (forall x, In x l <-> x = c \/ x = n) -> connected l.
Proof.
  intros Hadj Hl.
  assert (Hcn : linked (fun x => In x l) c n)
    by (apply linked_step; auto; apply Hl; auto).
  intros a b Ha Hb; apply Hl in Ha, Hb.
  destruct Ha as [->| ->], Hb as [->| ->];
    auto using linked_refl, linked_sym.
Qed.

(** ** Cutting islands *)

Lemma range_0_succ (n : nat) :
  range 0 (Z.of_nat (S n)) = range 0 (Z.of_nat n) ++ [Z.of_nat n].
Proof.
  replace (Z.of_nat (S n)) with (Z.of_nat n + 1) by lia.
  apply range_snoc; lia.
Qed.

Lemma cut_loop (map_copy solution mem0 v0 gm0 : list Z) (n : nat) :
  length mem0 = Z.to_nat CDOK_GROUP_SIZE ->
  Z.of_nat n <= CDOK_GROUP_SIZE ->
  let keep := fun c => rd map_copy c =? CDOK_GROUP_NONE in
  let live := map (rd mem0) (range 0 (Z.of_nat n)) in
  exists vals gm mem len,
    fold_left (cut_step map_copy solution) (range 0 (Z.of_nat n))
              (v0, gm0, mem0, 0) = (vals, gm, mem, len) /\
    length mem = Z.to_nat CDOK_GROUP_SIZE /\
    0 <= len <= Z.of_nat n /\
    map (rd mem) (range 0 len) = filter keep live /\
    (forall j, Z.of_nat n <= j -> rd mem j = rd mem0 j) /\
    gm = fold_left (fun m c => wr m c CDOK_GROUP_NONE)
                   (filter (fun c => negb (keep c)) live) gm0.
Proof.
  intros Hlen Hn keep; unfold CDOK_GROUP_SIZE in *.
  induction n as [|n IH]; cbv zeta.
  - exists v0, gm0, mem0, 0; repeat split; auto; lia.
  - destruct IH as (vals & gm & mem & len & Hfold & Hmlen & Hlen' & Hkept
                      & Htail & Hgm); [lia|].
    rewrite range_0_succ, fold_left_app, Hfold; cbn [fold_left cut_step].
    rewrite map_app, !filter_app; cbn [map filter].
    rewrite (Htail (Z.of_nat n)) by lia.
    fold (keep (rd mem0 (Z.of_nat n))).
    destruct (keep (rd mem0 (Z.of_nat n))) eqn:Hk; cbn [negb].
    + exists vals, gm, (wr mem len (rd mem0 (Z.of_nat n))), (len + 1).
      split; [reflexivity|].
      split; [rewrite wr_length; auto|].
      split; [lia|split; [|split]].
      * rewrite range_snoc, map_app by lia; cbn [map].
        rewrite rd_wr_same by lia; f_equal.
        rewrite <- Hkept; apply map_ext_in.
        intros j Hj; apply in_range in Hj; apply rd_wr_other; lia.
      * intros j Hj; rewrite rd_wr_other by lia; apply Htail; lia.
      * rewrite app_nil_r; exact Hgm.
    + exists (wr vals (rd mem0 (Z.of_nat n))
                 (rd solution (rd mem0 (Z.of_nat n)))),
             (wr gm (rd mem0 (Z.of_nat n)) CDOK_GROUP_NONE), mem, len.
      split; [reflexivity|].
      split; [auto|split; [lia|split; [|split]]].
      * rewrite app_nil_r; exact Hkept.
      * intros j Hj; apply Htail; lia.
      * rewrite fold_left_app, <- Hgm; reflexivity.
Qed.

Lemma shrinks_refl (puz : cdok_puzzle) (grp : Z) :
  map_ok puz -> 0 <= grp < CDOK_GROUPS -> shrinks puz puz grp.
Proof.
  intros (Hlg & Hlm & Hgrp & Hinv) Hg.
  destruct (Hgrp grp Hg) as (Hsize & Hmem & Hnd & Hcells).
  repeat split; auto; try lia.
  intros c _ Hin Hout; contradiction.
Qed.

Lemma cut_islands_ok (puz : cdok_puzzle) (grp : Z) (solution : list Z) :
  map_ok puz -> 0 <= grp < CDOK_GROUPS ->
  exists puz',
    cut_islands puz grp solution = Some puz' /\
    shrinks puz puz' grp /\ shape_ok puz' grp.
Proof.
  intros Hok Hg; pose proof Hok as (Hlg & Hlm & Hgrp & Hinv).
  destruct (Hgrp grp Hg) as (Hsize & Hmem & Hnd & Hcells).
  unfold cut_islands.
  destruct (Z.eqb_spec (g_size (grp_at puz grp)) 0) as [Hz|Hz].
  { exists puz; split; auto; split; [apply shrinks_refl; auto|].
    intros H; contradiction. }
  set (g := grp_at puz grp) in *.
  set (start := rd (g_members g) 0).
  assert (Hstart : In start (live_members g))
    by (apply in_live_members; exists 0; split; auto; lia).
  destruct (Hcells start Hstart) as [Hsr Hsm].
  unfold CDOK_GROUPS, CDOK_GROUP_SIZE, CDOK_CELLS in *.
  rewrite uint8_cast_small by lia.
  assert (Hne : grp <> CDOK_GROUP_NONE) by (unfold CDOK_GROUP_NONE; lia).
  pose proof (CDOK_POS_X_range start) as Hx.
  pose proof (CDOK_POS_Y_range start Hsr) as Hy.
  destruct (flood_fill_total grp Hne (S (Z.to_nat 256)) (p_group_map puz)
                             (CDOK_POS_X start) (CDOK_POS_Y start))
    as [map_copy Hfill]; auto.
  { unfold count_src.
    pose proof (filter_length_le (fun v => v =? grp) (p_group_map puz)); lia. }
  unfold CDOK_CELLS; rewrite Hfill; cbn [obind].
  apply flood_fill_sound in Hfill; auto.
  rewrite CDOK_POS_XY in Hfill by lia.
  destruct Hfill as (Hclen & Hcpt & Hclink).
  destruct (cut_loop map_copy solution (g_members g) (p_values puz)
                     (p_group_map puz) (Z.to_nat (g_size g)))
    as (vals & gm & mem & len & Hfold & Hmlen & Hlen & Hkept & _ & Hgm);
    auto; [unfold CDOK_GROUP_SIZE; lia|].
  rewrite Z2Nat.id in * by lia.
  fold (live_members g) in Hkept, Hgm.
  rewrite Hfold.
  set (keep := fun c => rd map_copy c =? CDOK_GROUP_NONE) in *.
  set (g2 := mk_group (g_type g) (g_target g) len mem).
  set (puz2 := mk_puzzle (p_size puz) (upd (p_groups puz) (Z.to_nat grp) g2)
                         vals gm).
  assert (Hat : forall j, 0 <= j ->
                  grp_at puz2 j = if grp =? j then g2 else grp_at puz j).
  { intros j Hj; apply grp_at_upd; auto; lia. }
  assert (Hlive2 : live_members (grp_at puz2 grp) = filter keep (live_members g)).
  { rewrite Hat, Z.eqb_refl by lia; exact Hkept. }
  destruct (clear_cells (filter (fun c => negb (keep c)) (live_members g))
                        (p_group_map puz)) as (Hg1 & Hg2 & Hg3).
  { intros c Hc; apply filter_In in Hc as [Hc _].
    destruct (Hcells c Hc); lia. }
  assert (Hgm' : gm = fold_left (fun m c => wr m c CDOK_GROUP_NONE)
                                (filter (fun c => negb (keep c))
                                        (live_members g))
                                (p_group_map puz)) by exact Hgm.
  rewrite <- Hgm' in Hg1, Hg2, Hg3.
  assert (Hshrink : shrinks puz puz2 grp).
  { split; [cbn [p_groups puz2]; apply upd_length|].
    split; [cbn [p_group_map puz2]; auto|split].
    { intros i Hi Hne'; rewrite Hat by lia.
      destruct (Z.eqb_spec grp i); [congruence|reflexivity]. }
    rewrite Hlive2; rewrite Hat, Z.eqb_refl by lia.
    cbn [g_size g_members g2 p_group_map puz2]; fold g.
    unfold CDOK_GROUP_SIZE, CDOK_CELLS.
    split; [lia|split; [auto|split; [apply NoDup_filter; auto|split]]].
    { intros c Hc; apply filter_In in Hc; tauto. }
    split.
    - intros c Hc Hin Hout; apply Hg2; apply filter_In; split; auto.
      destruct (keep c) eqn:Hk; auto.
      exfalso; apply Hout; apply filter_In; auto.
    - intros c Hc Hor; apply Hg3; [lia|].
      intros Hin; apply filter_In in Hin as [Hin Hk].
      destruct Hor as [Hout|Hin']; [contradiction|].
      apply filter_In in Hin' as [_ Hk']; rewrite Hk' in Hk; discriminate. }
  assert (Hcon : connected (filter keep (live_members g))).
  { assert (Hto : forall a, In a (filter keep (live_members g)) ->
                    linked (filled grp (p_group_map puz) map_copy) start a).
    { intros a Ha; apply filter_In in Ha as [Ha Hk].
      destruct (Hcells a Ha) as [Har Ham].
      apply Hclink; split; [unfold CDOK_CELLS; lia|].
      split; [exact Ham|apply Z.eqb_eq; exact Hk]. }
    intros a b Ha Hb.
    apply linked_mono with (cells := filled grp (p_group_map puz) map_copy).
    - intros p (Hp & Hps & Hpn); apply filter_In; split.
      + destruct (Hinv p Hp) as [_ Hin]; [congruence|].
        rewrite Hps in Hin; exact Hin.
      + apply Z.eqb_eq; exact Hpn.
    - eapply linked_trans; [apply linked_sym; apply Hto|apply Hto]; auto. }
  destruct (Z.ltb_spec len 2) as [Hsmall|Hbig].
  - pose proof (shrinks_map_ok puz puz2 grp Hok Hg Hshrink) as Hok2.
    destruct (group_destroy_shrinks puz2 grp solution Hok2 Hg) as [Hs3 Hz3].
    exists (group_destroy puz2 grp solution); split; auto.
    split; [eapply shrinks_trans; eauto|].
    intros H; contradiction.
  - exists puz2; split; auto; split; auto.
    intros _; rewrite Hlive2; rewrite Hat, Z.eqb_refl by lia.
    cbn [g_size g2]; split; auto.
Qed.

(** ** The mutations keep the group invariants *)

Lemma shrinks_invariants (puz puz' : cdok_puzzle) (grp : Z) :
  cage_invariants puz -> 0 <= grp < CDOK_GROUPS ->
  shrinks puz puz' grp -> shape_ok puz' grp ->
  cage_invariants puz' /\
  (forall x, 0 <= x < CDOK_CELLS -> rd (p_group_map puz) x <> grp ->
             rd (p_group_map puz') x = rd (p_group_map puz) x) /\
  (forall x, 0 <= x < CDOK_CELLS ->
             In x (live_members (grp_at puz grp)) ->
             ~ In x (live_members (grp_at puz' grp)) ->
             rd (p_group_map puz') x = CDOK_GROUP_NONE).
Proof.
  intros [Hok Hshape] Hg Hs Hsh.
  split; [split; [eapply shrinks_map_ok; eauto|]|split].
  - intros i Hi; destruct (Z.eq_dec i grp) as [->|Hne]; auto.
    eapply shrinks_shape; eauto.
  - intros x Hx Hne.
    destruct Hs as (_ & _ & _ & _ & _ & _ & _ & _ & Skeep).
    apply Skeep; auto; left; intros Hin.
    destruct Hok as (_ & _ & Hgrp & _).
    destruct (Hgrp grp Hg) as (_ & _ & _ & Hcells).
    destruct (Hcells x Hin); contradiction.
  - destruct Hs as (_ & _ & _ & _ & _ & _ & _ & Sout & _); exact Sout.
Qed.

Lemma mut_remove_cell_ok (puz : cdok_puzzle) (c : Z) (solution : list Z)
    (f : Z) (rnd : rand_source) (k : nat) :
  cage_invariants puz -> 0 <= c < CDOK_CELLS ->
  rd (p_group_map puz) c <> CDOK_GROUP_NONE ->
  exists puz1 k1,
    mut_remove_cell puz c solution f rnd k = Some (puz1, k1) /\
    cage_invariants puz1 /\
    rd (p_group_map puz1) c = CDOK_GROUP_NONE /\
    (forall x, 0 <= x < CDOK_CELLS ->
               rd (p_group_map puz) x <> rd (p_group_map puz) c ->
               rd (p_group_map puz1) x = rd (p_group_map puz) x).
Proof.
  intros Hinv Hc Hin; pose proof Hinv as [Hok Hshape].
  pose proof Hok as (_ & _ & Hgrp & Hback).
  destruct (Hback c Hc Hin) as [Hg Hmem].
  unfold mut_remove_cell.
  set (grp := rd (p_group_map puz) c) in *.
  destruct (Z.eqb_spec grp CDOK_GROUP_NONE) as [E|_]; [contradiction|].
  destruct (Z.leb_spec (g_size (grp_at puz grp)) 2) as [Hsmall|Hbig].
  - destruct (group_destroy_shrinks puz grp solution Hok Hg) as [Hs Hz].
    destruct (shrinks_invariants puz _ grp Hinv Hg Hs) as (H1 & H2 & H3).
    { intros H; contradiction. }
    exists (group_destroy puz grp solution), k.
    split; [reflexivity|split; [exact H1|split; [|exact H2]]].
    apply H3; auto; rewrite live_members_nil by lia; auto.
  - destruct (group_remove_shrinks puz grp c solution Hok Hg Hmem)
      as (HsA & HzA & HoutA & _).
    set (puzA := group_remove puz grp c solution) in *.
    pose proof (shrinks_map_ok puz puzA grp Hok Hg HsA) as HokA.
    destruct (cut_islands_ok puzA grp solution HokA Hg)
      as (puzB & Hcut & HsB & HshB).
    rewrite Hcut; cbn [obind].
    pose proof (shrinks_trans _ _ _ _ HsA HsB) as Hs.
    destruct (shrinks_invariants puz puzB grp Hinv Hg Hs HshB)
      as (H1 & H2 & H3).
    destruct (retarget_retyped puzB grp solution f rnd k)
      as (puz1 & k1 & Hre & Hty).
    exists puz1, k1; split; [exact Hre|].
    split; [eapply retyped_invariants; eauto|].
    destruct Hty as (-> & _); split; [|exact H2].
    apply H3; auto; intros HinB; apply HoutA.
    destruct HsB as (_ & _ & _ & _ & _ & _ & Ssub & _); auto.
Qed.

Lemma group_alloc_spec (puz : cdok_puzzle) :
  group_alloc puz = CDOK_GROUP_NONE \/
  (0 <= group_alloc puz < CDOK_GROUPS /\
   g_size (grp_at puz (group_alloc puz)) = 0).
Proof.
  unfold group_alloc.
  destruct (find _ _) as [i|] eqn:Hfind; [right|left; reflexivity].
  apply find_some in Hfind as [Hi Hz].
  apply in_range in Hi; apply Z.eqb_eq in Hz; auto.
Qed.

Lemma cell_in_grid_range (puz : cdok_puzzle) (c : Z) :
  p_size puz <= CDOK_SIZE -> cell_in_grid puz c -> 0 <= c < CDOK_CELLS.
Proof.
  intros Hs (x & y & Hx & Hy & ->).
  unfold CDOK_SIZE, CDOK_CELLS in *; apply CDOK_POS_range; lia.
Qed.

(** The second half of [mut_join_cells]: [c] is in no group and joins
    the group [ngrp] of [n], or a new group with [n]. *)
Lemma join_tail_ok (puz : cdok_puzzle) (c n ngrp : Z) (solution : list Z)
    (f : Z) (rnd : rand_source) (k : nat) :
  cage_invariants puz -> 0 <= c < CDOK_CELLS -> 0 <= n < CDOK_CELLS ->
  adjacent c n ->
  rd (p_group_map puz) c = CDOK_GROUP_NONE ->
  rd (p_group_map puz) n = ngrp ->
  exists puz' k',
    (if negb (ngrp =? CDOK_GROUP_NONE) then
       let puz := group_add puz ngrp c in
       let '(r, puz) := group_update_target puz ngrp solution f in
       if r <? 0 then Some (mut_alter_type puz ngrp solution f rnd k)
       else Some (puz, k)
     else
       let g := group_alloc puz in
       if g =? CDOK_GROUP_NONE then Some (puz, k)
       else
         let puz := group_add puz g c in
         let puz := group_add puz g n in
         Some (mut_alter_type puz g solution f rnd k)) = Some (puz', k') /\
    cage_invariants puz'.
Proof.
  intros Hinv Hc Hn Hadj Hfree Hngrp; pose proof Hinv as [Hok Hshape].
  pose proof Hok as (_ & _ & Hgrp & Hback).
  destruct (Z.eqb_spec ngrp CDOK_GROUP_NONE) as [Hnn|Hnn]; cbn [negb].
  - destruct (group_alloc_spec puz) as [Ha|[Ha Hz]].
    { rewrite Ha, Z.eqb_refl; eauto. }
    set (g := group_alloc puz) in *.
    destruct (Z.eqb_spec g CDOK_GROUP_NONE) as [E|_];
      [unfold CDOK_GROUPS, CDOK_GROUP_NONE in *; lia|].
    cbv zeta.
    destruct (group_add_ok puz g c Hok Ha Hc Hfree)
      as (HokC & HothC & HszC & HliveC & HmapC & HrestC);
      [unfold CDOK_GROUP_SIZE; lia|].
    set (puzC := group_add puz g c) in *.
    assert (Hcn : c <> n) by (apply adjacent_neq; auto).
    destruct (group_add_ok puzC g n HokC Ha Hn)
      as (HokD & HothD & HszD & HliveD & HmapD & HrestD);
      [rewrite HrestC by (auto; lia); congruence|unfold CDOK_GROUP_SIZE; lia|].
    set (puzD := group_add puzC g n) in *.
    pose proof (mut_alter_type_retyped puzD g solution f rnd k) as Hty.
    destruct (mut_alter_type puzD g solution f rnd k) as [puz' k'].
    cbn [fst] in Hty; exists puz', k'; split; auto.
    apply (retyped_invariants puzD); auto; split; auto.
    intros i Hi; destruct (Z.eq_dec i g) as [->|Hne].
    + intros _; split; [lia|].
      apply (connected_pair _ c n); auto.
      intros x; rewrite HliveD, HliveC, live_members_nil by lia.
      simpl; tauto.
    + unfold shape_ok; rewrite HothD, HothC by lia; apply Hshape; auto.
  - subst ngrp; destruct (Hback n Hn Hnn) as [Hg Hmem].
    set (ngrp := rd (p_group_map puz) n) in *.
    cbv zeta.
    assert (Hadd : cage_invariants (group_add puz ngrp c)).
    { destruct (Z.lt_ge_cases (g_size (grp_at puz ngrp)) CDOK_GROUP_SIZE)
        as [Hroom|Hfull].
      - destruct (group_add_ok puz ngrp c Hok Hg Hc Hfree Hroom)
          as (HokC & HothC & HszC & HliveC & HmapC & HrestC).
        split; auto.
        intros i Hi; destruct (Z.eq_dec i ngrp) as [->|Hne].
        + destruct (Hshape ngrp Hg) as [H2 Hcon].
          { intros Hz; rewrite live_members_nil in Hmem by lia.
            destruct Hmem. }
          intros _; split; [lia|].
          apply (connected_add (live_members (grp_at puz ngrp)) _ c n); auto.
        + unfold shape_ok; rewrite HothC by lia; apply Hshape; auto.
      - unfold group_add; rewrite Hfree, Z.eqb_refl; cbn [negb].
        destruct (Z.geb_spec (g_size (grp_at puz ngrp)) CDOK_GROUP_SIZE);
          [exact Hinv|lia]. }
    destruct (retarget_retyped (group_add puz ngrp c) ngrp solution f rnd k)
      as (puz' & k' & Hre & Hty).
    exists puz', k'; split; [exact Hre|].
    eapply retyped_invariants; eauto.
Qed.

(** Joining two neighbouring cells returns, and the group invariants
    hold afterwards. *)
Lemma mut_join_cells_ok (puz : cdok_puzzle) (c n : Z)
    (solution : list Z) (f : Z) (rnd : rand_source) (k : nat) :
  cage_invariants puz ->
  0 <= c < CDOK_CELLS -> 0 <= n < CDOK_CELLS -> adjacent c n ->
  exists puz' k',
    mut_join_cells puz c n solution f rnd k = Some (puz', k') /\
    cage_invariants puz'.
Proof.
  intros Hinv Hcg Hng Hadj.
  unfold mut_join_cells.
  destruct (Z.eqb_spec (rd (p_group_map puz) c) CDOK_GROUP_NONE) as [Hcf|Hcf];
    cbn [negb andb obind].
  - apply join_tail_ok; auto.
  - destruct (Z.eqb_spec (rd (p_group_map puz) n) (rd (p_group_map puz) c))
      as [Hsame|Hdiff]; [eauto|].
    destruct (mut_remove_cell_ok puz c solution f rnd k Hinv Hcg Hcf)
      as (puz1 & k1 & Hrm & Hinv1 & Hfree1 & Hkeep1).
    rewrite Hrm; cbn [obind].
    apply join_tail_ok; auto.
Qed.

(** C4.  If the group invariants hold (the cell-to-group map and the
    member lists are mutual inverses, every group in use has at least two
    cells and is one 4-connected region) and [c] and [n] are neighbouring
    cells of the grid, then [mut_join_cells] returns a puzzle in which
    the invariants hold again: every group in use has at least two cells
    and is 4-connected. *)
Theorem mut_join_cells_keeps_cages (puz : cdok_puzzle) (c n : Z)
    (solution : list Z) (f : Z) (rnd : rand_source) (k : nat) :
  cage_invariants puz ->
  p_size puz <= CDOK_SIZE ->
  cell_in_grid puz c -> cell_in_grid puz n -> adjacent c n ->
  exists puz' k',
    mut_join_cells puz c n solution f rnd k = Some (puz', k') /\
    cage_invariants puz' /\
    forall i, 0 <= i < CDOK_GROUPS -> g_size (grp_at puz' i) <> 0 ->
              2 <= g_size (grp_at puz' i) /\
              connected (live_members (grp_at puz' i)).
Proof.
  intros Hinv Hsize Hcg Hng Hadj.
  apply (cell_in_grid_range puz c Hsize) in Hcg.
  apply (cell_in_grid_range puz n Hsize) in Hng.
  destruct (mut_join_cells_ok puz c n solution f rnd k Hinv Hcg Hng Hadj)
    as (puz' & k' & Hj & Hinv').
  exists puz', k'; split; auto; split; auto.
  intros i Hi Hz; apply Hinv'; auto.
Qed.

(** ** The empty puzzle *)

Lemma rd_repeat (v : Z) (n : nat) (i : Z) :
  0 <= i < Z.of_nat n -> rd (repeat v n) i = v.
Proof.
  intros H; unfold rd; apply nth_repeat_lt; lia.
Qed.

Lemma init_invariants (size : Z) : cage_invariants (cdok_init_puzzle size).
Proof.
  assert (Hat : forall i, 0 <= i < CDOK_GROUPS ->
                  grp_at (cdok_init_puzzle size) i =
                  mk_group 0 (-1) 0 (repeat 0 8)).
  { intros i Hi; unfold grp_at, cdok_init_puzzle; cbn [p_groups].
    apply nth_repeat_lt; unfold CDOK_GROUPS in *; lia. }
  split; [split; [|split; [|split]]|].
  - apply repeat_length.
  - apply repeat_length.
  - intros i Hi; rewrite (Hat i Hi); cbn [g_size g_members].
    rewrite live_members_nil by (simpl; lia).
    unfold CDOK_GROUP_SIZE.
    split; [lia|split; [reflexivity|split; [constructor|intros c []]]].
  - intros c Hc Hne; exfalso; apply Hne.
    unfold cdok_init_puzzle; cbn [p_group_map].
    apply rd_repeat; unfold CDOK_CELLS in *; lia.
  - intros i Hi Hz; rewrite (Hat i Hi) in Hz; simpl in Hz; lia.
Qed.

Lemma mut_join_cells_keeps_cages_witness :
  cage_invariants (cdok_init_puzzle 3) /\
  p_size (cdok_init_puzzle 3) <= CDOK_SIZE /\
  cell_in_grid (cdok_init_puzzle 3) (CDOK_POS 0 0) /\
  cell_in_grid (cdok_init_puzzle 3) (CDOK_POS 1 0) /\
  adjacent (CDOK_POS 0 0) (CDOK_POS 1 0) /\
  exists puz' k',
    mut_join_cells (cdok_init_puzzle 3) (CDOK_POS 0 0) (CDOK_POS 1 0)
                   seed_grid CDOK_FLAGS_NONE seed_draws 0 = Some (puz', k') /\
    cage_invariants puz'.
Proof.
  assert (H1 : p_size (cdok_init_puzzle 3) <= CDOK_SIZE)
    by (vm_compute; discriminate).
  assert (H2 : cell_in_grid (cdok_init_puzzle 3) (CDOK_POS 0 0))
    by (exists 0, 0; vm_compute; intuition discriminate).
  assert (H3 : cell_in_grid (cdok_init_puzzle 3) (CDOK_POS 1 0))
    by (exists 1, 0; vm_compute; intuition discriminate).
  assert (H4 : adjacent (CDOK_POS 0 0) (CDOK_POS 1 0))
    by (left; vm_compute; auto).
  split; [apply init_invariants|].
  split; [exact H1|split; [exact H2|split; [exact H3|split; [exact H4|]]]].
  destruct (mut_join_cells_keeps_cages (cdok_init_puzzle 3) (CDOK_POS 0 0)
              (CDOK_POS 1 0) seed_grid CDOK_FLAGS_NONE seed_draws 0%nat
              (init_invariants 3) H1 H2 H3 H4)
    as (puz' & k' & Hj & Hinv & _).
  exists puz', k'; split; [exact Hj|exact Hinv].
Defined.

(** ** Joining cells when no group slot is free *)

Lemma group_alloc_full (puz : cdok_puzzle) :
  all_groups_live puz -> group_alloc puz = CDOK_GROUP_NONE.
Proof.
  intros Hlive; unfold group_alloc.
  destruct (find _ _) as [i|] eqn:Hfind; [|reflexivity].
  apply find_some in Hfind as [Hi Hz].
  apply in_range in Hi; apply Z.eqb_eq in Hz.
  destruct (Hlive i Hi Hz).
Qed.

(** C5, as amended.  With every group slot in use and [n] in no group:
    if [c] is in no group either, [mut_join_cells] leaves the puzzle as
    it is and draws no random number; if [c] is in a group, the result is
    that of [mut_remove_cell] on [c] whenever that removal frees no
    slot. *)
Theorem mut_join_cells_full (puz : cdok_puzzle) (c n : Z) (solution : list Z)
    (f : Z) (rnd : rand_source) (k : nat) :
  all_groups_live puz ->
  rd (p_group_map puz) n = CDOK_GROUP_NONE ->
  (rd (p_group_map puz) c = CDOK_GROUP_NONE ->
   mut_join_cells puz c n solution f rnd k = Some (puz, k)) /\
  (rd (p_group_map puz) c <> CDOK_GROUP_NONE ->
   forall puz1 k1,
     mut_remove_cell puz c solution f rnd k = Some (puz1, k1) ->
     all_groups_live puz1 ->
     mut_join_cells puz c n solution f rnd k = Some (puz1, k1)).
Proof.
  intros Hlive Hn; split.
  - intros Hc; unfold mut_join_cells.
    rewrite Hc, Hn; cbn [negb andb obind].
    rewrite Z.eqb_refl; cbn [negb andb obind].
    rewrite group_alloc_full, Z.eqb_refl by auto; reflexivity.
  - intros Hc puz1 k1 Hrm Hlive1; unfold mut_join_cells.
    rewrite Hn.
    destruct (Z.eqb_spec (rd (p_group_map puz) c) CDOK_GROUP_NONE) as [E|E];
      [contradiction|].
    destruct (Z.eqb_spec CDOK_GROUP_NONE (rd (p_group_map puz) c)) as [E'|E'];
      [congruence|].
    cbn [negb andb]; rewrite Hrm; cbn [obind].
    rewrite Z.eqb_refl; cbn [negb].
    rewrite group_alloc_full, Z.eqb_refl by auto; reflexivity.
Qed.

Lemma full_puzzle_live : all_groups_live full_puzzle.
Proof.
  intros i Hi Hz.
  assert (Hall : forallb (fun i => negb (g_size (grp_at full_puzzle i) =? 0))
                         (range 0 CDOK_GROUPS) = true) by (vm_compute; reflexivity).
  rewrite forallb_forall in Hall.
  specialize (Hall i (proj2 (in_range 0 CDOK_GROUPS i) Hi)).
  rewrite Hz in Hall; discriminate.
Qed.

Lemma mut_join_cells_full_witness :
  all_groups_live full_puzzle /\
  rd (p_group_map full_puzzle) (CDOK_POS 9 6) = CDOK_GROUP_NONE /\
  rd (p_group_map full_puzzle) (CDOK_POS 10 6) = CDOK_GROUP_NONE /\
  mut_join_cells full_puzzle (CDOK_POS 10 6) (CDOK_POS 9 6) cyclic_solution
                 CDOK_FLAGS_NONE (fun _ => 0%nat) 0 =
    Some (full_puzzle, 0%nat).
Proof.
  split; [exact full_puzzle_live|].
  split; [vm_compute; reflexivity|].
  split; [vm_compute; reflexivity|].
  apply (proj1 (mut_join_cells_full full_puzzle (CDOK_POS 10 6) (CDOK_POS 9 6)
                                    cyclic_solution CDOK_FLAGS_NONE
                                    (fun _ => 0%nat) 0%nat
                                    full_puzzle_live eq_refl)).
  vm_compute; reflexivity.
Defined.

(** [full_puzzle] arises from the empty puzzle by joins, up to the types
    and targets of its groups, so the group invariants hold in it. *)
Lemma adjacentb_sound (a b : Z) : adjacentb a b = true -> adjacent a b.
Proof.
  unfold adjacentb, adjacent; intros H.
  apply orb_true_iff in H as [H|H]; apply andb_true_iff in H as [H1 H2];
    apply orb_true_iff in H2; [left|right]; lia.
Qed.

Lemma join_all_invariants (solution : list Z) (f : Z) (rnd : rand_source)
    (l : list (Z * Z)) :
  forall puz k puz' k',
    cage_invariants puz -> forallb join_okb l = true ->
    join_all puz l solution f rnd k = Some (puz', k') ->
    cage_invariants puz'.
Proof.
  induction l as [|[c n] l IH]; intros puz k puz' k' Hinv Hok Hj;
    cbn [join_all forallb] in *.
  - inversion Hj; subst; exact Hinv.
  - apply andb_true_iff in Hok as [Hcn Hl]; unfold join_okb in Hcn.
    repeat (apply andb_true_iff in Hcn as [Hcn ?]).
    destruct (mut_join_cells_ok puz c n solution f rnd k)
      as (p1 & k1 & E & Hinv1); auto using adjacentb_sound; try lia.
    rewrite E in Hj; cbn [obind] in Hj; eauto.
Qed.

Lemma shape_retyped (puz puz' : cdok_puzzle) :
  shape_of puz = shape_of puz' -> retyped puz puz'.
Proof.
  unfold shape_of; intros E; inversion E as [[Hm Hs Hg]].
  split; [auto|split].
  - rewrite <- (length_map g_size (p_groups puz')), <- Hs.
    apply length_map.
  - intros i; unfold grp_at; split.
    + rewrite <- !(map_nth g_size); f_equal; auto.
    + rewrite <- !(map_nth g_members); f_equal; auto.
Qed.

Lemma option_map_some {A B : Type} (f : A -> B) (o : option A) (b : B) :
  option_map f o = Some b -> exists a, o = Some a /\ f a = b.
Proof.
  destruct o as [a|]; simpl; intros E; [|discriminate].
  exists a; split; congruence.
Qed.

Lemma full_puzzle_invariants : cage_invariants full_puzzle.
Proof.
  assert (E : option_map (fun r => shape_of (fst r))
                (join_all (cdok_init_puzzle 16) full_joins cyclic_solution
                          CDOK_FLAGS_NONE (fun _ => 0%nat) 0) =
              Some (shape_of full_puzzle)) by (vm_compute; reflexivity).
  apply option_map_some in E as ([P k] & HP & Hshape).
  apply (retyped_invariants P); [apply shape_retyped; exact Hshape|].
  eapply join_all_invariants; [apply init_invariants| |exact HP].
  vm_compute; reflexivity.
Qed.

(** C5, as stated, fails.  [full_puzzle] satisfies the group invariants,
    all its 52 slots are in use, cell (9, 6) is in no group and its left
    neighbour (8, 6) ends the triple of group 51.  Joining (8, 6) to
    (9, 6) takes (8, 6) out of group 51, restores its given 15 and
    creates no group: the puzzle has changed. *)
Lemma mut_join_cells_full_changes :
  cage_invariants full_puzzle /\
  all_groups_live full_puzzle /\
  adjacent (CDOK_POS 8 6) (CDOK_POS 9 6) /\
  rd (p_group_map full_puzzle) (CDOK_POS 9 6) = CDOK_GROUP_NONE /\
  rd (p_group_map full_puzzle) (CDOK_POS 8 6) = 51 /\
  mut_join_cells full_puzzle (CDOK_POS 8 6) (CDOK_POS 9 6) cyclic_solution
                 CDOK_FLAGS_NONE (fun _ => 0%nat) 0 =
    Some (full_puzzle_cut, 0%nat) /\
  full_puzzle_cut <> full_puzzle /\
  g_size (grp_at full_puzzle 51) = 3 /\
  g_size (grp_at full_puzzle_cut 51) = 2 /\
  rd (p_values full_puzzle) (CDOK_POS 8 6) = 0 /\
  rd (p_values full_puzzle_cut) (CDOK_POS 8 6) = 15.
Proof.
  split; [exact full_puzzle_invariants|].
  split; [exact full_puzzle_live|].
  split; [apply adjacentb_sound; vm_compute; reflexivity|].
  split; [vm_compute; reflexivity|].
  split; [vm_compute; reflexivity|].
  split; [vm_compute; reflexivity|].
  split; [|repeat (split; [vm_compute; reflexivity|]); vm_compute; reflexivity].
  intros E.
  assert (H : g_size (grp_at full_puzzle_cut 51) =
              g_size (grp_at full_puzzle 51)) by (rewrite E; reflexivity).
  vm_compute in H; discriminate.
Qed.

(** ** The mutations keep the dimension and the grid length *)

Lemma same_frame_refl (puz : cdok_puzzle) : same_frame puz puz.
Proof. split; reflexivity. Qed.

Lemma same_frame_trans (p1 p2 p3 : cdok_puzzle) :
  same_frame p1 p2 -> same_frame p2 p3 -> same_frame p1 p3.
Proof. intros [H1 H2] [H3 H4]; split; congruence. Qed.

Lemma group_destroy_frame (puz : cdok_puzzle) (grp : Z) (solution : list Z) :
  same_frame puz (group_destroy puz grp solution).
Proof.
  unfold group_destroy.
  assert (H : forall l v m,
             length (fst (fold_left
               (fun '(values, group_map) i =>
                  let c := rd (g_members (grp_at puz grp)) i in
                  (wr values c (rd solution c),
                   wr group_map c CDOK_GROUP_NONE)) l (v, m))) = length v).
  { induction l as [|i l IH]; intros v m; simpl; auto.
    rewrite IH; apply wr_length. }
  specialize (H (range 0 (g_size (grp_at puz grp))) (p_values puz)
                (p_group_map puz)).
  destruct (fold_left _ _ _) as [values gm]; split; [reflexivity|exact H].
Qed.

Lemma group_remove_frame (puz : cdok_puzzle) (grp victim : Z)
    (solution : list Z) :
  same_frame puz (group_remove puz grp victim solution).
Proof.
  unfold group_remove; destruct (find _ _); [|apply same_frame_refl].
  split; [reflexivity|apply wr_length].
Qed.

Lemma group_add_frame (puz : cdok_puzzle) (grp c : Z) :
  same_frame puz (group_add puz grp c).
Proof.
  unfold group_add.
  destruct (negb _); [apply same_frame_refl|].
  destruct (_ >=? _); [apply same_frame_refl|].
  split; [reflexivity|apply wr_length].
Qed.

Lemma group_update_target_frame (puz : cdok_puzzle) (grp : Z)
    (solution : list Z) (f : Z) :
  same_frame puz (snd (group_update_target puz grp solution f)).
Proof.
  unfold group_update_target.
  destruct (g_size (grp_at puz grp) =? 0); [apply same_frame_refl|].
  destruct (_ && _ && _); [apply same_frame_refl|].
  destruct (fold_left _ _ _) as [[mx sum] product].
  repeat match goal with
         | |- context [if ?b then _ else _] => destruct b
         end; cbn [snd]; auto using same_frame_refl; split; reflexivity.
Qed.

Lemma alter_try_frame (solution : list Z) (f grp : Z)
    (types : list cdok_gtype_t) :
  forall puz, same_frame puz (alter_try puz grp solution f types).
Proof.
  induction types as [|t types IH]; intros puz; cbn [alter_try];
    [apply same_frame_refl|].
  pose proof (group_update_target_frame (set_type puz grp t) grp solution f)
    as Hu.
  destruct (group_update_target (set_type puz grp t) grp solution f)
    as [r puz1]; cbn [snd] in Hu.
  assert (Ht : same_frame puz puz1).
  { eapply same_frame_trans; [|exact Hu]. split; reflexivity. }
  destruct (r =? 0); auto.
  eapply same_frame_trans; [exact Ht|apply IH].
Qed.

Lemma mut_alter_type_frame (puz : cdok_puzzle) (grp : Z)
    (solution : list Z) (f : Z) (rnd : rand_source) (k : nat) :
  same_frame puz (fst (mut_alter_type puz grp solution f rnd k)).
Proof.
  unfold mut_alter_type.
  destruct (fold_left _ _ _) as [types k']; cbn [fst].
  apply alter_try_frame.
Qed.

Lemma retarget_frame (puz : cdok_puzzle) (grp : Z) (solution : list Z)
    (f : Z) (rnd : rand_source) (k : nat) (puz' : cdok_puzzle) (k' : nat) :
  (let '(r, puz1) := group_update_target puz grp solution f in
   if r <? 0 then Some (mut_alter_type puz1 grp solution f rnd k)
   else Some (puz1, k)) = Some (puz', k') ->
  same_frame puz puz'.
Proof.
  pose proof (group_update_target_frame puz grp solution f) as Hu.
  destruct (group_update_target puz grp solution f) as [r puz1].
  cbn [snd] in Hu; destruct (r <? 0).
  - pose proof (mut_alter_type_frame puz1 grp solution f rnd k) as Ha.
    destruct (mut_alter_type puz1 grp solution f rnd k) as [p2 k2].
    cbn [fst] in Ha; intros E; inversion E; subst.
    eapply same_frame_trans; eauto.
  - intros E; inversion E; subst; auto.
Qed.

Lemma cut_islands_frame (puz : cdok_puzzle) (grp : Z) (solution : list Z)
    (puz' : cdok_puzzle) :
  cut_islands puz grp solution = Some puz' -> same_frame puz puz'.
Proof.
  unfold cut_islands.
  destruct (g_size (grp_at puz grp) =? 0).
  { intros E; inversion E; apply same_frame_refl. }
  destruct (cdok_flood_fill _ _ _ _ _) as [mc|]; cbn [obind]; [|discriminate].
  assert (H : forall l v gm mem len,
             length (fst (fst (fst (fold_left (cut_step mc solution) l
                                              (v, gm, mem, len))))) =
             length v).
  { induction l as [|i l IH]; intros v gm mem len; simpl; auto.
    destruct (negb _); rewrite IH; auto using wr_length. }
  specialize (H (range 0 (g_size (grp_at puz grp))) (p_values puz)
                (p_group_map puz) (g_members (grp_at puz grp)) 0).
  destruct (fold_left _ _ _) as [[[values gm] mem] len]; cbn [fst] in H.
  intros E; inversion E; subst.
  assert (Hf : same_frame puz
            (mk_puzzle (p_size puz)
               (upd (p_groups puz) (Z.to_nat grp)
                  (mk_group (g_type (grp_at puz grp))
                            (g_target (grp_at puz grp)) len mem))
               values gm)) by (split; [reflexivity|exact H]).
  destruct (len <? 2); auto.
  eapply same_frame_trans; [exact Hf|apply group_destroy_frame].
Qed.

Lemma mut_remove_cell_frame (puz : cdok_puzzle) (c : Z) (solution : list Z)
    (f : Z) (rnd : rand_source) (k : nat) (puz' : cdok_puzzle) (k' : nat) :
  mut_remove_cell puz c solution f rnd k = Some (puz', k') ->
  same_frame puz puz'.
Proof.
  unfold mut_remove_cell.
  destruct (_ =? CDOK_GROUP_NONE).
  { intros E; inversion E; apply same_frame_refl. }
  destruct (_ <=? 2).
  { intros E; inversion E; apply group_destroy_frame. }
  destruct (cut_islands _ _ _) as [p1|] eqn:Hcut; cbn [obind]; [|discriminate].
  intros E; apply retarget_frame in E.
  apply cut_islands_frame in Hcut.
  eapply same_frame_trans; [apply group_remove_frame|].
  eapply same_frame_trans; eauto.
Qed.

Lemma mut_join_cells_frame (puz : cdok_puzzle) (c n : Z) (solution : list Z)
    (f : Z) (rnd : rand_source) (k : nat) (puz' : cdok_puzzle) (k' : nat) :
  mut_join_cells puz c n solution f rnd k = Some (puz', k') ->
  same_frame puz puz'.
Proof.
  unfold mut_join_cells.
  destruct (negb _ && _).
  { intros E; inversion E; apply same_frame_refl. }
  assert (Hpre : forall p1 k1,
             (if negb (rd (p_group_map puz) c =? CDOK_GROUP_NONE)
              then mut_remove_cell puz c solution f rnd k
              else Some (puz, k)) = Some (p1, k1) -> same_frame puz p1).
  { intros p1 k1; destruct (negb _).
    - apply mut_remove_cell_frame.
    - intros E; inversion E; apply same_frame_refl. }
  destruct (if negb (rd (p_group_map puz) c =? CDOK_GROUP_NONE)
            then _ else _) as [[p1 k1]|]; cbn [obind]; [|discriminate].
  specialize (Hpre p1 k1 eq_refl).
  destruct (negb (rd (p_group_map puz) n =? CDOK_GROUP_NONE)).
  - intros E; apply retarget_frame in E.
    eapply same_frame_trans; [exact Hpre|].
    eapply same_frame_trans; [apply group_add_frame|exact E].
  - destruct (group_alloc p1 =? CDOK_GROUP_NONE).
    { intros E; inversion E; subst; auto. }
    pose proof (mut_alter_type_frame
                  (group_add (group_add p1 (group_alloc p1) c)
                             (group_alloc p1) n)
                  (group_alloc p1) solution f rnd k1) as Ha.
    destruct (mut_alter_type _ _ _ _ _ _) as [p2 k2].
    cbn [fst] in Ha; intros E; inversion E; subst.
    eapply same_frame_trans; [exact Hpre|].
    eapply same_frame_trans; [apply group_add_frame|].
    eapply same_frame_trans; [apply group_add_frame|exact Ha].
Qed.

(** ** Random cells and their neighbours *)

Lemma int_of_uint_small (x : Z) : 0 <= x < 2147483648 -> int_of_uint x = x.
Proof.
  intros H; unfold int_of_uint; destruct (Z.ltb_spec x 2147483648); lia.
Qed.

Lemma choose_cell_range (size : Z) (rnd : rand_source) (k : nat) :
  2 <= size ->
  exists x y, 0 <= x < size /\ 0 <= y < size /\
              fst (choose_cell size rnd k) = CDOK_POS x y.
Proof.
  intros Hs; unfold choose_cell, random; cbn [fst].
  exists (Z.rem (Z.of_nat (rnd (S k))) size), (Z.rem (Z.of_nat (rnd k)) size).
  split; [apply Z.rem_bound_pos; lia|].
  split; [apply Z.rem_bound_pos; lia|reflexivity].
Qed.

Lemma choose_neighbour_adjacent (size x y : Z) (rnd : rand_source) (k : nat) :
  2 <= size <= CDOK_SIZE -> 0 <= x < size -> 0 <= y < size ->
  let n := fst (choose_neighbour size (CDOK_POS x y) rnd k) in
  (exists x' y', 0 <= x' < size /\ 0 <= y' < size /\ n = CDOK_POS x' y') /\
  adjacent (CDOK_POS x y) n.
Proof.
  unfold CDOK_SIZE; intros Hs Hx Hy; unfold choose_neighbour, random.
  rewrite CDOK_POS_X_POS, CDOK_POS_Y_POS by lia.
  assert (Hadj : forall x' y',
             0 <= x' < size -> 0 <= y' < size ->
             (y' = y /\ (x = x' + 1 \/ x' = x + 1)) \/
             (x' = x /\ (y = y' + 1 \/ y' = y + 1)) ->
             (exists x'' y'', 0 <= x'' < size /\ 0 <= y'' < size /\
                              CDOK_POS x' y' = CDOK_POS x'' y'') /\
             adjacent (CDOK_POS x y) (CDOK_POS x' y')).
  { intros x' y' Hx' Hy' H; split; [exists x', y'; auto|].
    unfold adjacent; rewrite !CDOK_POS_X_POS, !CDOK_POS_Y_POS by lia; lia. }
  destruct (Z.geb_spec (x + 1) size) as [Hx1|Hx1];
    [|destruct (Z.eqb_spec x 0) as [Hx0|Hx0];
      [|destruct (Z.land (Z.of_nat (rnd k)) 1 =? 0)]];
    (destruct (Z.geb_spec (y + 1) size) as [Hy1|Hy1];
     [|destruct (Z.eqb_spec y 0) as [Hy0|Hy0];
       [|destruct (Z.land (Z.of_nat (rnd _)) 1 =? 0)]]);
    destruct (Z.land (Z.of_nat (rnd _)) 1 =? 0); cbn [fst];
    apply Hadj; lia.
Qed.

(** ** Hardening returns *)

Lemma cdok_solve_returns (puz : cdok_puzzle) :
  solver_ok puz ->
  exists r sol d, cdok_solve puz None (Some 0) = Some (r, sol, Some d).
Proof.
  intros Hok.
  destruct (cdok_solve_leaves puz None (Some 0) Hok) as (L & _ & ->).
  destruct L as [|[first b] rest]; eauto.
Qed.

Lemma generator_ok_solver (puz : cdok_puzzle) : generator_ok puz -> solver_ok puz.
Proof.
  intros (_ & Hs & Hl); split; [lia|exact Hl].
Qed.

Lemma harden_step_total (solution : list Z) (fl limit : Z)
    (rnd : rand_source) (puz work : cdok_puzzle) (b : Z) (k : nat) :
  generator_ok puz -> generator_ok work ->
  exists puz' work' b' k',
    harden_step solution fl limit rnd (puz, work, b, k) =
      Some (puz', work', b', k') /\
    generator_ok puz' /\ generator_ok work'.
Proof.
  intros Hp Hw; pose proof Hp as (_ & Hsize & _).
  pose proof Hw as (Hinv & Hwsize & Hwlen).
  unfold harden_step, CDOK_SIZE in *.
  rewrite int_of_uint_small by lia.
  destruct (choose_cell_range (p_size puz) rnd k) as (x & y & Hx & Hy & Hc);
    [lia|].
  destruct (choose_cell (p_size puz) rnd k) as [c k1]; cbn [fst] in Hc; subst c.
  destruct (choose_neighbour_adjacent (p_size puz) x y rnd k1)
    as ((x' & y' & Hx' & Hy' & Hn) & Hadj); auto.
  destruct (choose_neighbour (p_size puz) (CDOK_POS x y) rnd k1) as [cn k2].
  cbn [fst] in Hn, Hadj; subst cn.
  destruct (mut_join_cells_ok work (CDOK_POS x y) (CDOK_POS x' y') solution fl
                              rnd k2) as (w & k3 & Hj & Hinv'); auto.
  { apply CDOK_POS_range; lia. }
  { apply CDOK_POS_range; lia. }
  rewrite Hj; cbn [obind].
  apply mut_join_cells_frame in Hj as [Hfs Hfl].
  assert (Hw' : generator_ok w)
    by (split; [exact Hinv'|split; [rewrite Hfs; unfold CDOK_SIZE; lia
                                   |rewrite Hfl; exact Hwlen]]).
  destruct (cdok_solve_returns w (generator_ok_solver w Hw'))
    as (r & sol & d & Hsolve).
  rewrite Hsolve; cbn [obind].
  destruct (_ && _ && _); eauto 10.
Qed.

Lemma harden_loop_total (solution : list Z) (fl limit : Z)
    (rnd : rand_source) (n : nat) :
  forall puz work b k,
    generator_ok puz -> generator_ok work ->
    exists puz' work' b' k',
      harden_loop n solution fl limit rnd (puz, work, b, k) =
        Some (puz', work', b', k') /\
      generator_ok puz'.
Proof.
  induction n as [|n IH]; intros puz work b k Hp Hw; cbn [harden_loop].
  - eauto 10.
  - destruct (harden_step_total solution fl limit rnd puz work b k Hp Hw)
      as (p1 & w1 & b1 & k1 & -> & Hp1 & Hw1); cbn [obind].
    apply IH; auto.
Qed.

Lemma harden_total (solution : list Z) (fl limit : Z) (rnd : rand_source)
    (puz : cdok_puzzle) (b : Z) (k : nat) :
  generator_ok puz ->
  exists puz' s k',
    harden puz solution b fl limit rnd k = Some (puz', s, k') /\
    generator_ok puz'.
Proof.
  intros Hp; unfold harden.
  destruct (harden_loop_total solution fl limit rnd 10 puz puz b k Hp Hp)
    as (p1 & w1 & b1 & k1 & -> & Hp1); cbn [obind]; eauto 10.
Qed.

Lemma generate_loop_total (solution : list Z) (fl limit target : Z)
    (rnd : rand_source) (n : nat) :
  forall puz b k,
    generator_ok puz ->
    exists puz' s k',
      generate_loop n solution fl limit target rnd puz b k =
        Some (puz', s, k') /\
      generator_ok puz'.
Proof.
  induction n as [|n IH]; intros puz b k Hp; cbn [generate_loop].
  - eauto 10.
  - destruct (_ && _); [eauto 10|].
    destruct (harden_total solution fl limit rnd puz b k Hp)
      as (p1 & b1 & k1 & -> & Hp1); cbn [obind].
    apply IH; auto.
Qed.

Lemma cdok_generate_total (puz : cdok_puzzle) (solution : list Z)
    (size fl iterations limit target : Z) (rnd : rand_source) (k : nat) :
  size <= CDOK_SIZE -> length solution = Z.to_nat CDOK_CELLS ->
  exists s puz' k',
    cdok_generate puz solution size fl iterations limit target rnd k =
      Some (s, puz', k').
Proof.
  intros Hs Hl; unfold cdok_generate.
  destruct (Z.ltb_spec size 2) as [H2|H2]; [eauto|].
  set (p0 := mk_puzzle _ _ _ _).
  assert (H0 : generator_ok p0).
  { split; [exact (init_invariants size)|].
    split; [|exact Hl].
    unfold p0, cdok_init_puzzle, CDOK_SIZE in *; cbn [p_size].
    rewrite uint_cast_small by lia; lia. }
  destruct (generate_loop_total solution fl limit target rnd
              (Z.to_nat iterations) p0 0 k H0) as (p1 & s & k1 & -> & _).
  cbn [obind]; eauto.
Qed.

(** C8.  [harden] returns a score that is at least the incoming best
    score [b], and the caller's puzzle is either untouched (and the score
    is [b]) or a working copy that [cdok_solve] classified as uniquely
    solvable with the returned score [s], where [s > b] and
    ([limit <= 0] or [s <= limit]); so along the loop of [cdok_generate]
    the best score never decreases.  On a puzzle that satisfies the
    generator's invariants both [harden] and the loop of [cdok_generate]
    do return, with such a score. *)
Theorem harden_best_score_monotone (solution : list Z) (fl limit : Z)
    (rnd : rand_source) :
  (forall puz b k puz' s k',
     harden puz solution b fl limit rnd k = Some (puz', s, k') ->
     b <= s /\
     ((puz' = puz /\ s = b) \/
      ((exists sol, cdok_solve puz' None (Some 0) = Some (0, sol, Some s)) /\
       b < s /\ (limit <= 0 \/ s <= limit)))) /\
  (forall n target puz b k puz' s k',
     generate_loop n solution fl limit target rnd puz b k =
       Some (puz', s, k') ->
     b <= s) /\
  (forall puz b k,
     generator_ok puz ->
     exists puz' s k',
       harden puz solution b fl limit rnd k = Some (puz', s, k') /\
       b <= s /\ generator_ok puz') /\
  (forall n target puz b k,
     generator_ok puz ->
     exists puz' s k',
       generate_loop n solution fl limit target rnd puz b k =
         Some (puz', s, k') /\
       b <= s /\ generator_ok puz').
Proof.
  assert (Hharden : forall puz b k puz' s k',
             harden puz solution b fl limit rnd k = Some (puz', s, k') ->
             b <= s /\ committed limit puz b puz' s).
  { intros puz b k puz' s k'; unfold harden.
    destruct (harden_loop 10 solution fl limit rnd (puz, puz, b, k))
      as [[[[p1 w1] b1] k1]|] eqn:Hloop; simpl; [|discriminate].
    intros H; inversion H; subst.
    eapply harden_loop_committed; eauto. }
  assert (Hloop : forall n target puz b k puz' s k',
             generate_loop n solution fl limit target rnd puz b k =
               Some (puz', s, k') ->
             b <= s).
  { induction n as [|n IH]; cbn [generate_loop];
      intros target puz b k puz' s k' H.
    - inversion H; lia.
    - destruct ((target >? 0) && (b >=? target)).
      + inversion H; lia.
      + destruct (harden puz solution b fl limit rnd k)
          as [[[p1 b1] k1]|] eqn:Hh; cbn [obind] in H; [|discriminate].
        apply Hharden in Hh as [Hle _].
        apply IH in H; lia. }
  split; [exact Hharden|split; [exact Hloop|split]].
  - intros puz b k Hok.
    destruct (harden_total solution fl limit rnd puz b k Hok)
      as (puz' & s & k' & Hh & Hok').
    exists puz', s, k'; split; [exact Hh|split; [|exact Hok']].
    apply Hharden in Hh as [Hle _]; exact Hle.
  - intros n target puz b k Hok.
    destruct (generate_loop_total solution fl limit target rnd n puz b k Hok)
      as (puz' & s & k' & Hg & Hok').
    exists puz', s, k'; split; [exact Hg|split; [|exact Hok']].
    eapply Hloop; eauto.
Qed.

Lemma seed_start_ok : generator_ok seed_start.
Proof.
  split; [exact (init_invariants 3)|].
  split; [unfold CDOK_SIZE; simpl; lia|vm_compute; reflexivity].
Qed.

Lemma harden_best_score_monotone_witness :
  generator_ok seed_start /\
  exists puz' s k',
    harden seed_start seed_grid 0 CDOK_FLAGS_NONE 0 seed_draws 0 =
      Some (puz', s, k') /\
    0 <= s /\ generator_ok puz'.
Proof.
  split; [exact seed_start_ok|].
  exact (proj1 (proj2 (proj2 (harden_best_score_monotone
                                seed_grid CDOK_FLAGS_NONE 0 seed_draws)))
               seed_start 0 0%nat seed_start_ok).
Defined.

(** ** Group names *)


(** ** Random permutations *)

Lemma fold_wr_range (f : Z -> Z) (n : nat) (l : list Z) :
  Z.of_nat n <= Z.of_nat (length l) ->
  let l' := fold_left (fun l i => wr l i (f i)) (range 0 (Z.of_nat n)) l in
  length l' = length l /\
  forall j, 0 <= j ->
            rd l' j = if j <? Z.of_nat n then f j else rd l j.
Proof.
  induction n as [|n IH]; intros Hn; cbn zeta.
  - rewrite range_nil by lia; simpl; split; auto.
    intros j Hj; destruct (Z.ltb_spec j 0); auto; lia.
  - replace (Z.of_nat (S n)) with (Z.of_nat n + 1) in * by lia.
    rewrite range_snoc, fold_left_app by lia; cbn [fold_left].
    destruct IH as [Hlen Hrd]; [lia|].
    split; [rewrite wr_length; exact Hlen|].
    intros j Hj; rewrite rd_wr by (rewrite ?Hlen; lia).
    rewrite Hrd by lia.
    destruct (Z.eqb_spec (Z.of_nat n) j) as [E|E],
             (Z.ltb_spec j (Z.of_nat n)), (Z.ltb_spec j (Z.of_nat n + 1));
      try lia; auto; rewrite E; reflexivity.
Qed.

(** Every turn of the shuffle draws once. *)
Lemma shuffle_draws (rnd : rand_source) (l : list Z) :
  forall values k,
    snd (fold_left
           (fun '(values, k) i =>
              let '(r, k) := random rnd k in
              let src := Z.rem r (i + 1) in
              let tmp := rd values i in
              (wr (wr values i (rd values src)) src (uint8_cast tmp), k))
           l (values, k)) = (k + length l)%nat.
Proof.
  induction l as [|i l IH]; intros values k; cbn [fold_left length].
  - cbn [snd]; lia.
  - unfold random at 2; rewrite IH; lia.
Qed.

(** X2.  [gen_permutation] leaves in the first [size] entries of the
    array a permutation of the numbers from 1 to [size]; it leaves the
    other entries as they were and draws [size - 1] random numbers. *)
Theorem gen_permutation_permutes (size : Z) (values : list Z)
    (rnd : rand_source) (k : nat) :
  0 <= size <= CDOK_SIZE -> size <= Z.of_nat (length values) ->
  let out := fst (gen_permutation size values rnd k) in
  Permutation (map (rd out) (range 0 size)) (range 1 (size + 1)) /\
  (forall j, size <= j -> rd out j = rd values j) /\
  length out = length values /\
  snd (gen_permutation size values rnd k) = (k + Z.to_nat (size - 1))%nat.
Proof.
  intros Hs Hlen out; unfold CDOK_SIZE in Hs.
  unfold gen_permutation in *.
  assert (Hinit := fold_wr_range (fun i => uint8_cast (i + 1))
                                 (Z.to_nat size) values ltac:(lia)).
  cbn zeta in Hinit; rewrite Z2Nat.id in Hinit by lia.
  set (l1 := fold_left (fun values i => wr values i (uint8_cast (i + 1)))
                       (range 0 size) values) in *.
  destruct Hinit as [Hlen1 Hrd1].
  set (step := fun '(values, k) i =>
                 let '(r, k) := random rnd k in
                 let src := Z.rem r (i + 1) in
                 let tmp := rd values i in
                 (wr (wr values i (rd values src)) src (uint8_cast tmp), k)).
  set (I := fun st : list Z * nat =>
              length (fst st) = length values /\
              (forall j, 0 <= j < size -> 1 <= rd (fst st) j <= size) /\
              (forall a b, 0 <= a < size -> 0 <= b < size ->
                           rd (fst st) a = rd (fst st) b -> a = b) /\
              (forall j, size <= j -> rd (fst st) j = rd values j)).
  assert (HI : I (fold_left step (rev (range 1 size)) (l1, k))).
  { apply fold_left_inv.
    - unfold I; cbn [fst]; split; [exact Hlen1|split; [|split]].
      + intros j Hj; rewrite Hrd1 by lia.
        destruct (Z.ltb_spec j size); [|lia].
        rewrite uint8_cast_small by lia; lia.
      + intros a b Ha Hb; rewrite !Hrd1 by lia.
        destruct (Z.ltb_spec a size), (Z.ltb_spec b size); try lia.
        rewrite !uint8_cast_small by lia; lia.
      + intros j Hj; rewrite Hrd1 by lia.
        destruct (Z.ltb_spec j size); [lia|reflexivity].
    - intros [l k0] i Hi (Hl & Hr & Hinj & Hrest).
      apply in_rev, in_range in Hi; cbn [fst] in *.
      unfold I, step, random; cbn [fst].
      set (src := Z.rem (Z.of_nat (rnd k0)) (i + 1)).
      assert (Hsrc : 0 <= src < i + 1)
        by (apply Z.rem_bound_pos; lia).
      rewrite (uint8_cast_small (rd l i)) by (specialize (Hr i); lia).
      assert (Hsw : forall j, 0 <= j ->
                rd (wr (wr l i (rd l src)) src (rd l i)) j =
                if src =? j then rd l i
                else if i =? j then rd l src else rd l j).
      { intros j Hj; rewrite rd_wr by (rewrite ?wr_length; lia).
        destruct (src =? j); auto.
        apply rd_wr; lia. }
      split; [rewrite !wr_length; exact Hl|split; [|split]].
      + intros j Hj; rewrite Hsw by lia.
        destruct (src =? j); [apply Hr; lia|].
        destruct (i =? j); apply Hr; lia.
      + intros a b Ha Hb; rewrite !Hsw by lia.
        destruct (Z.eqb_spec src a), (Z.eqb_spec src b),
                 (Z.eqb_spec i a), (Z.eqb_spec i b);
          intros E; try lia; apply Hinj in E; lia.
      + intros j Hj; rewrite Hsw by lia.
        destruct (Z.eqb_spec src j); [lia|].
        destruct (Z.eqb_spec i j); [lia|auto]. }
  fold step in out |- *.
  destruct HI as (Hl & Hr & Hinj & Hrest); fold out in Hl, Hr, Hinj, Hrest.
  split; [|split; [exact Hrest|split; [exact Hl|]]].
  - apply NoDup_Permutation_bis.
    + apply NoDup_map_range; exact Hinj.
    + rewrite length_map, !range_length; lia.
    + intros v Hv; apply in_map_iff in Hv as (j & <- & Hj).
      apply in_range in Hj; apply in_range.
      specialize (Hr j Hj); lia.
  - unfold step; rewrite shuffle_draws, length_rev, range_length; lia.
Qed.

Lemma gen_permutation_permutes_witness :
  0 <= 5 <= CDOK_SIZE /\ 5 <= Z.of_nat (length (repeat 0 16%nat)) /\
  Permutation
    (map (rd (fst (gen_permutation 5 (repeat 0 16%nat) (fun n => (7 * n + 3)%nat)
                                   0)))
         (range 0 5))
    (range 1 (5 + 1)).
Proof.
  assert (H1 : 0 <= 5 <= CDOK_SIZE) by (unfold CDOK_SIZE; lia).
  assert (H2 : 5 <= Z.of_nat (length (repeat 0 16%nat))) by (simpl; lia).
  split; [exact H1|split; [exact H2|]].
  exact (proj1 (gen_permutation_permutes 5 (repeat 0 16%nat)
                  (fun n => (7 * n + 3)%nat) 0%nat H1 H2)).
Defined.

(** ** Filling the grid *)

Lemma set16_lor (a b : Z) : set16 a -> set16 b -> set16 (Z.lor a b).
Proof.
  unfold set16; intros Ha Hb.
  rewrite <- (set_cast_small a Ha), <- (set_cast_small b Hb).
  unfold cdok_set_cast; rewrite <- Z.land_lor_distr_l.
  apply set_cast_range.
Qed.

Lemma testbit_lor_single (s v w : Z) :
  1 <= v -> 1 <= w ->
  Z.testbit (Z.lor s (CDOK_SET_SINGLE v)) (w - 1) =
  Z.testbit s (w - 1) || (v =? w).
Proof.
  intros Hv Hw; rewrite Z.lor_spec, testbit_set_single by lia.
  f_equal; destruct (Z.eqb_spec (v - 1) (w - 1)), (Z.eqb_spec v w); auto; lia.
Qed.

(** Taking a value out of a set that did not hold it before it was put
    in gives the set back. *)
Lemma set_undo (s v : Z) :
  set16 s -> 1 <= v <= 16 -> Z.testbit s (v - 1) = false ->
  cdok_set_cast (Z.land (Z.lor s (CDOK_SET_SINGLE v))
                        (Z.lnot (CDOK_SET_SINGLE v))) = s.
Proof.
  unfold set16; intros Hs Hv Hbit; apply Z.bits_inj'; intros i Hi.
  rewrite testbit_set_cast, Z.land_spec, Z.lor_spec, Z.lnot_spec by lia.
  rewrite testbit_set_single by lia.
  destruct (Z.eqb_spec (v - 1) i) as [E|E]; cbn [negb].
  - rewrite <- E, Hbit; reflexivity.
  - rewrite orb_false_r, andb_true_r.
    destruct (Z.ltb_spec i 16); [apply andb_true_r|].
    rewrite andb_false_r; symmetry; apply (testbit_small s 16); simpl; lia.
Qed.

Lemma land_single_zero (s v : Z) :
  1 <= v -> (Z.land s (CDOK_SET_SINGLE v) =? 0) = negb (Z.testbit s (v - 1)).
Proof.
  intros Hv; rewrite set_single_pow2 by lia.
  destruct (Z.testbit s (v - 1)) eqn:Hb; cbn [negb].
  - apply Z.eqb_neq; intros E.
    assert (H : Z.testbit (Z.land s (2 ^ (v - 1))) (v - 1) = false)
      by (rewrite E; apply Z.bits_0).
    rewrite Z.land_spec, Hb, Z.pow2_bits_true in H by lia; discriminate.
  - apply Z.eqb_eq, Z.bits_inj'; intros i Hi.
    rewrite Z.land_spec, Z.bits_0, Z.pow2_bits_eqb by lia.
    destruct (Z.eqb_spec (v - 1) i) as [<-|]; [rewrite Hb|];
      auto using andb_false_r.
Qed.

Lemma fill_inv_ext (ctx ctx' : fill_context) (x y x2 y2 : Z) :
  fill_inv ctx x y ->
  f_size ctx' = f_size ctx ->
  f_rows_used ctx' = f_rows_used ctx ->
  f_cols_used ctx' = f_cols_used ctx ->
  length (f_grid ctx') = length (f_grid ctx) ->
  (forall x' y', 0 <= x' < f_size ctx -> 0 <= y' < f_size ctx ->
     (before x' y' x2 y2 <-> before x' y' x y)) ->
  (forall x' y', 0 <= x' < f_size ctx -> 0 <= y' < f_size ctx ->
     before x' y' x y ->
     rd (f_grid ctx') (CDOK_POS x' y') = rd (f_grid ctx) (CDOK_POS x' y')) ->
  fill_inv ctx' x2 y2.
Proof.
  unfold fill_inv.
  intros (H1 & H2 & H3 & H4 & H5 & H6 & H7 & H8 & H9 & H10) Hs Hr Hc Hl Hb Hg.
  rewrite Hs, Hr, Hc, Hl.
  split; [exact H1|split; [exact H2|split; [exact H3|]]].
  split; [exact H4|split; [exact H5|]].
  split; [|split; [|split; [|split]]].
  - intros x' y' Hx Hy Hbef; apply Hb in Hbef; auto.
    rewrite Hg by auto; auto.
  - intros r v Hrr Hv; rewrite (H7 r v Hrr Hv).
    split; intros (x' & Hx & Hbef & E); exists x';
      (split; [exact Hx|]).
    + split; [apply Hb; auto; lia|rewrite Hg by (auto; lia); exact E].
    + apply Hb in Hbef; [|lia|lia].
      split; [exact Hbef|rewrite <- Hg by (auto; lia); exact E].
  - intros c v Hcc Hv; rewrite (H8 c v Hcc Hv).
    split; intros (y' & Hy & Hbef & E); exists y';
      (split; [exact Hy|]).
    + split; [apply Hb; auto; lia|rewrite Hg by (auto; lia); exact E].
    + apply Hb in Hbef; [|lia|lia].
      split; [exact Hbef|rewrite <- Hg by (auto; lia); exact E].
  - intros r x1 x2' Hrr Hx1 Hx2 Hb1 Hb2.
    apply Hb in Hb1, Hb2; auto.
    rewrite !Hg by auto; apply H9; auto.
  - intros c y1 y2' Hcc Hy1 Hy2 Hb1 Hb2.
    apply Hb in Hb1, Hb2; auto.
    rewrite !Hg by auto; apply H10; auto.
Qed.

Lemma fill_take_inv (ctx : fill_context) (x y v : Z) :
  let n := f_size ctx in
  fill_inv ctx x y ->
  1 <= n <= 16 -> 0 <= x < n -> 1 <= y < n -> 1 <= v <= n ->
  Z.testbit (rd (f_rows_used ctx) y) (v - 1) = false ->
  Z.testbit (rd (f_cols_used ctx) x) (v - 1) = false ->
  fill_inv (fill_take ctx x y (CDOK_POS x y) v
                      (cdok_set_cast (CDOK_SET_SINGLE v))) (x + 1) y.
Proof.
  intros n (H1 & H2 & H3 & H4 & H5 & H6 & H7 & H8 & H9 & H10)
         Hn Hx Hy Hv Hrow Hcol.
  fold n in H6, H7, H8, H9, H10.
  rewrite set_single_small by lia.
  unfold fill_inv, fill_take;
    cbn [f_size f_grid f_rows_used f_cols_used]; fold n.
  unfold CDOK_CELLS, CDOK_SIZE in *.
  rewrite uint8_cast_small by lia.
  assert (Hg : forall x' y', 0 <= x' < 16 -> 0 <= y' < 16 ->
             rd (wr (f_grid ctx) (CDOK_POS x y) v) (CDOK_POS x' y') =
             if (x' =? x) && (y' =? y) then v
             else rd (f_grid ctx) (CDOK_POS x' y')).
  { intros x' y' Hx' Hy'.
    pose proof (CDOK_POS_range x y ltac:(lia) ltac:(lia)).
    pose proof (CDOK_POS_range x' y' ltac:(lia) ltac:(lia)).
    rewrite rd_wr by lia.
    destruct (Z.eqb_spec (CDOK_POS x y) (CDOK_POS x' y')) as [E|E].
    - apply CDOK_POS_inj in E as [-> ->]; try lia.
      rewrite !Z.eqb_refl; reflexivity.
    - destruct (Z.eqb_spec x' x) as [->|], (Z.eqb_spec y' y) as [->|];
        cbn [andb]; auto; congruence. }
  assert (Hrows : forall r, 0 <= r < 16 ->
             rd (wr (f_rows_used ctx) y
                    (Z.lor (rd (f_rows_used ctx) y) (CDOK_SET_SINGLE v))) r =
             if y =? r then Z.lor (rd (f_rows_used ctx) y) (CDOK_SET_SINGLE v)
             else rd (f_rows_used ctx) r)
    by (intros r Hr; apply rd_wr; lia).
  assert (Hcols : forall c, 0 <= c < 16 ->
             rd (wr (f_cols_used ctx) x
                    (Z.lor (rd (f_cols_used ctx) x) (CDOK_SET_SINGLE v))) c =
             if x =? c then Z.lor (rd (f_cols_used ctx) x) (CDOK_SET_SINGLE v)
             else rd (f_cols_used ctx) c)
    by (intros c Hc; apply rd_wr; lia).
  assert (Hsingle : set16 (CDOK_SET_SINGLE v))
    by (rewrite <- set_single_small by lia; apply set_cast_range).
  assert (Hnew_row : forall x', 0 <= x' < n -> before x' y x y ->
                       rd (f_grid ctx) (CDOK_POS x' y) <> v).
  { intros x' Hx' Hb E.
    assert (Ht : Z.testbit (rd (f_rows_used ctx) y) (v - 1) = true)
      by (apply H7; try lia; exists x'; auto).
    congruence. }
  assert (Hnew_col : forall y', 0 <= y' < n -> before x y' x y ->
                       rd (f_grid ctx) (CDOK_POS x y') <> v).
  { intros y' Hy' Hb E.
    assert (Ht : Z.testbit (rd (f_cols_used ctx) x) (v - 1) = true)
      by (apply H8; try lia; exists y'; auto).
    congruence. }
  rewrite !wr_length.
  split; [exact H1|split; [exact H2|split; [exact H3|]]].
  split; [apply Forall_wr; auto; apply set16_lor; auto;
          apply rd_Forall; auto; unfold set16; lia|].
  split; [apply Forall_wr; auto; apply set16_lor; auto;
          apply rd_Forall; auto; unfold set16; lia|].
  split; [|split; [|split; [|split]]].
  - intros x' y' Hx' Hy' Hb; rewrite Hg by lia.
    destruct (Z.eqb_spec x' x), (Z.eqb_spec y' y); cbn [andb]; try lia;
      apply H6; auto; unfold before in *; lia.
  - intros r w Hr Hw; rewrite Hrows by lia.
    destruct (Z.eqb_spec y r) as [<-|Hne].
    + rewrite testbit_lor_single by lia.
      split.
      * intros Ht; apply orb_true_iff in Ht as [Ht|Ht].
        -- apply H7 in Ht as (x' & Hx' & Hb & E); try lia.
           exists x'; split; [exact Hx'|split; [unfold before in *; lia|]].
           rewrite Hg by lia.
           destruct (Z.eqb_spec x' x); cbn [andb]; auto.
           unfold before in Hb; lia.
        -- apply Z.eqb_eq in Ht; subst w.
           exists x; split; [exact Hx|split; [unfold before; lia|]].
           rewrite Hg, !Z.eqb_refl by lia; reflexivity.
      * intros (x' & Hx' & Hb & E); rewrite Hg in E by lia.
        apply orb_true_iff.
        destruct (Z.eqb_spec x' x); rewrite Z.eqb_refl in E; cbn [andb] in E.
        -- right; apply Z.eqb_eq; exact E.
        -- left; apply H7; try lia.
           exists x'; split; [exact Hx'|split; [unfold before in *; lia|auto]].
    + rewrite (H7 r w Hr Hw).
      split; intros (x' & Hx' & Hb & E); exists x';
        (split; [exact Hx'|split; [unfold before in *; lia|]]).
      * rewrite Hg by lia.
        destruct (Z.eqb_spec r y); [lia|]; rewrite andb_false_r; exact E.
      * rewrite Hg in E by lia.
        destruct (Z.eqb_spec r y); [lia|]; rewrite andb_false_r in E; exact E.
  - intros c w Hc Hw; rewrite Hcols by lia.
    destruct (Z.eqb_spec x c) as [<-|Hne].
    + rewrite testbit_lor_single by lia.
      split.
      * intros Ht; apply orb_true_iff in Ht as [Ht|Ht].
        -- apply H8 in Ht as (y' & Hy' & Hb & E); try lia.
           exists y'; split; [exact Hy'|split; [unfold before in *; lia|]].
           rewrite Hg by lia.
           destruct (Z.eqb_spec y' y); rewrite ?andb_false_r; auto.
           unfold before in Hb; lia.
        -- apply Z.eqb_eq in Ht; subst w.
           exists y; split; [lia|split; [unfold before; lia|]].
           rewrite Hg, !Z.eqb_refl by lia; reflexivity.
      * intros (y' & Hy' & Hb & E); rewrite Hg in E by lia.
        apply orb_true_iff.
        rewrite Z.eqb_refl in E; cbn [andb] in E.
        destruct (Z.eqb_spec y' y).
        -- right; apply Z.eqb_eq; exact E.
        -- left; apply H8; try lia.
           exists y'; split; [exact Hy'|split; [unfold before in *; lia|auto]].
    + rewrite (H8 c w Hc Hw).
      split; intros (y' & Hy' & Hb & E); exists y';
        (split; [exact Hy'|split; [unfold before in *; lia|]]).
      * rewrite Hg by lia.
        destruct (Z.eqb_spec c x); [lia|]; cbn [andb]; exact E.
      * rewrite Hg in E by lia.
        destruct (Z.eqb_spec c x); [lia|]; cbn [andb] in E; exact E.
  - intros r x1 x2 Hr Hx1 Hx2 Hb1 Hb2; rewrite !Hg by lia.
    destruct (Z.eqb_spec x1 x), (Z.eqb_spec r y), (Z.eqb_spec x2 x);
      cbn [andb]; intros E; try lia;
      first [ apply (H9 r); auto; unfold before in *; lia
            | exfalso; apply (Hnew_row x2);
              [lia|unfold before in *; lia|congruence]
            | exfalso; apply (Hnew_row x1);
              [lia|unfold before in *; lia|congruence] ].
  - intros c y1 y2 Hc Hy1 Hy2 Hb1 Hb2; rewrite !Hg by lia.
    destruct (Z.eqb_spec c x), (Z.eqb_spec y1 y), (Z.eqb_spec y2 y);
      cbn [andb]; intros E; try lia;
      first [ apply (H10 c); auto; unfold before in *; lia
            | exfalso; apply (Hnew_col y2);
              [lia|unfold before in *; lia|congruence]
            | exfalso; apply (Hnew_col y1);
              [lia|unfold before in *; lia|congruence] ].
Qed.

Lemma fill_frame_refl (ctx : fill_context) (x y : Z) : fill_frame ctx ctx x y.
Proof.
  split; [reflexivity|split; [reflexivity|auto]].
Qed.

Lemma fill_loop_ok
    (rec : fill_context -> nat -> option (Z * fill_context * nat))
    (n x y : Z) (choices : list Z) (ctx0 : fill_context) :
  1 <= n <= 16 -> 0 <= x < n -> 1 <= y < n -> f_size ctx0 = n ->
  (forall i, 0 <= i < n -> 1 <= rd choices i <= n) ->
  (forall ctx1 k, f_size ctx1 = n -> fill_inv ctx1 (x + 1) y ->
     exists r ctx2 k2,
       rec ctx1 k = Some (r, ctx2, k2) /\ fill_post ctx1 (x + 1) y r ctx2) ->
  forall vs ctx k,
    (forall i, In i vs -> 0 <= i < n) ->
    fill_inv ctx x y -> fill_frame ctx0 ctx x y ->
    f_rows_used ctx = f_rows_used ctx0 ->
    f_cols_used ctx = f_cols_used ctx0 ->
    exists r ctx' k',
      fill_loop rec
                (Z.lor (rd (f_rows_used ctx0) y) (rd (f_cols_used ctx0) x))
                (CDOK_POS x y) x y choices vs ctx k = Some (r, ctx', k') /\
      fill_post ctx0 x y r ctx'.
Proof.
  intros Hn Hx Hy Hs0 Hch Hrec.
  induction vs as [|i vs IH]; intros ctx k Hvs Hinv Hfr Hrows Hcols;
    cbn [fill_loop].
  { exists (-1), ctx, k; split; [reflexivity|].
    split; [exact Hfr|split; [auto|split; [lia|auto]]]. }
  assert (Hi : 0 <= i < n) by (apply Hvs; left; reflexivity).
  specialize (Hch i Hi).
  assert (Hvs' : forall j, In j vs -> 0 <= j < n)
    by (intros j Hj; apply Hvs; right; exact Hj).
  destruct Hfr as (Hfs & Hfl & Hfg).
  set (v := rd choices i) in *.
  rewrite set_single_small by lia.
  rewrite land_single_zero, negb_involutive, Z.lor_spec by lia.
  destruct (Z.testbit (rd (f_rows_used ctx0) y) (v - 1)) eqn:Hbr;
    cbn [orb].
  { apply IH; auto; split; auto. }
  destruct (Z.testbit (rd (f_cols_used ctx0) x) (v - 1)) eqn:Hbc.
  { apply IH; auto; split; auto. }
  rewrite <- (set_single_small v) by lia.
  set (ctx1 := fill_take ctx x y (CDOK_POS x y) v
                         (cdok_set_cast (CDOK_SET_SINGLE v))).
  assert (Hinv1 : fill_inv ctx1 (x + 1) y).
  { apply fill_take_inv; rewrite ?Hfs, ?Hs0, ?Hrows, ?Hcols; auto. }
  assert (Hs1 : f_size ctx1 = n) by (unfold ctx1; cbn [fill_take f_size]; congruence).
  destruct (Hrec ctx1 k Hs1 Hinv1) as (r & ctx2 & k2 & -> & Hpost).
  cbn [obind].
  destruct Hpost as ((Hps & Hpl & Hpg) & Hr01 & Hr0 & Hr1).
  assert (Hl256 : length (f_grid ctx) = 256%nat) by apply Hinv.
  assert (Hg1 : forall x' y', 0 <= x' < 16 -> 0 <= y' < 16 ->
             before x' y' x y \/ n <= x' \/ n <= y' ->
             rd (f_grid ctx1) (CDOK_POS x' y') =
             rd (f_grid ctx) (CDOK_POS x' y')).
  { intros x' y' Hx' Hy' Hb; unfold ctx1; cbn [fill_take f_grid].
    apply rd_wr_other.
    - pose proof (CDOK_POS_range x' y'); lia.
    - intros E; apply CDOK_POS_inj in E; unfold before in *; lia. }
  assert (Hfr2 : fill_frame ctx0 ctx2 x y).
  { split; [congruence|split].
    - rewrite Hpl; unfold ctx1; cbn [fill_take f_grid]; rewrite wr_length; exact Hfl.
    - intros x' y' Hx' Hy' Hb; rewrite Hs0 in Hb.
      rewrite Hpg, Hg1, Hfg; auto; rewrite ?Hs0, ?Hs1; auto.
      unfold before in *; lia. }
  destruct (Z.eqb_spec r 0) as [->|Hr].
  { exists 0, ctx2, k2; split; [reflexivity|].
    split; [exact Hfr2|split; [auto|split; [|lia]]].
    intros _; rewrite Hs0, <- Hs1; auto. }
  destruct (Hr1 Hr) as [Hrows2 Hcols2].
  set (ctx3 := fill_undo ctx2 x y (cdok_set_cast (CDOK_SET_SINGLE v))).
  assert (Hl16 : length (f_rows_used ctx) = 16%nat /\
                 length (f_cols_used ctx) = 16%nat) by (split; apply Hinv).
  assert (Hrows3 : f_rows_used ctx3 = f_rows_used ctx).
  { unfold ctx3; cbn [fill_undo f_rows_used]; rewrite Hrows2.
    unfold ctx1; cbn [fill_take f_rows_used].
    rewrite rd_wr_same, wr_wr by lia.
    rewrite set_single_small by lia.
    rewrite set_undo; [apply wr_same_value| |lia|congruence].
    apply rd_Forall; [unfold set16; lia|apply Hinv]. }
  assert (Hcols3 : f_cols_used ctx3 = f_cols_used ctx).
  { unfold ctx3; cbn [fill_undo f_cols_used]; rewrite Hcols2.
    unfold ctx1; cbn [fill_take f_cols_used].
    rewrite rd_wr_same, wr_wr by lia.
    rewrite set_single_small by lia.
    rewrite set_undo; [apply wr_same_value| |lia|congruence].
    apply rd_Forall; [unfold set16; lia|apply Hinv]. }
  assert (Hinv3 : fill_inv ctx3 x y).
  { apply (fill_inv_ext ctx ctx3 x y x y Hinv);
      [unfold ctx3; cbn [fill_undo f_size]; congruence
      |exact Hrows3|exact Hcols3| |tauto|].
    + unfold ctx3; cbn [fill_undo f_grid]; rewrite Hpl.
      unfold ctx1; cbn [fill_take f_grid]; apply wr_length.
    + intros x' y' Hx' Hy' Hb; unfold ctx3; cbn [fill_undo f_grid].
      rewrite Hfs, Hs0 in Hx', Hy'.
      rewrite Hpg, Hg1; auto; try lia; unfold before in *; lia. }
  assert (Hfr3 : fill_frame ctx0 ctx3 x y).
  { split; [unfold ctx3; cbn [fill_undo f_size]; congruence|split].
    + unfold ctx3; cbn [fill_undo f_grid]; apply Hfr2.
    + unfold ctx3; cbn [fill_undo f_grid]; apply Hfr2. }
  destruct (IH ctx3 k2 Hvs' Hinv3 Hfr3 ltac:(congruence) ltac:(congruence))
    as (r' & ctx' & k' & Hloop & Hpost').
  exists r', ctx', k'; split; [exact Hloop|exact Hpost'].
Qed.

Lemma fill_grid_ok (n : Z) (rnd : rand_source) :
  1 <= n <= 16 ->
  forall fuel ctx x y k,
    f_size ctx = n -> 0 <= x <= n -> 1 <= y <= n -> (y = n -> x = 0) ->
    fill_inv ctx x y ->
    (n - y) * n - x < Z.of_nat fuel ->
    exists r ctx' k',
      fill_grid fuel ctx x y rnd k = Some (r, ctx', k') /\
      fill_post ctx x y r ctx'.
Proof.
  intros Hn; induction fuel as [|f IH]; intros ctx x y k Hs Hx Hy Hyx Hinv Hfuel.
  { exfalso; destruct (Z.eq_dec y n); [|nia].
    specialize (Hyx e); nia. }
  assert (Hbody : forall x0 y0,
             0 <= x0 < n -> 1 <= y0 <= n -> (y0 = n -> x0 = 0) ->
             fill_inv ctx x0 y0 ->
             (n - y0) * n - x0 < Z.of_nat (S f) ->
             exists r ctx' k',
               (if y0 >=? f_size ctx then Some (0, ctx, k)
                else
                  let '(choices, k) :=
                    gen_permutation (f_size ctx)
                                    (repeat 0 (Z.to_nat CDOK_SIZE)) rnd k in
                  let used :=
                    Z.lor (rd (f_rows_used ctx) y0) (rd (f_cols_used ctx) x0) in
                  let c := CDOK_POS x0 y0 in
                  fill_loop (fun ctx k => fill_grid f ctx (x0 + 1) y0 rnd k)
                            used c x0 y0 choices (range 0 (f_size ctx)) ctx k)
               = Some (r, ctx', k') /\
               fill_post ctx x0 y0 r ctx').
  { intros x0 y0 Hx0 Hy0 Hyx0 Hinv0 Hfuel0; rewrite Hs.
    destruct (Z.geb_spec y0 n) as [Hge|Hlt].
    { exists 0, ctx, k; split; [reflexivity|].
      split; [apply fill_frame_refl|split; [auto|split; [|lia]]].
      intros _; rewrite Hs.
      assert (y0 = n) by lia; subst y0; rewrite (Hyx0 eq_refl) in Hinv0.
      exact Hinv0. }
    pose proof (gen_permutation_permutes n (repeat 0 (Z.to_nat CDOK_SIZE))
                  rnd k) as Hperm.
    destruct (gen_permutation n (repeat 0 (Z.to_nat CDOK_SIZE)) rnd k)
      as [choices k1].
    cbn [fst snd] in Hperm; cbn zeta.
    destruct Hperm as (Hp & _);
      [unfold CDOK_SIZE; lia|rewrite repeat_length; unfold CDOK_SIZE; lia|].
    apply (fill_loop_ok _ n x0 y0 choices ctx); auto; try lia.
    - intros i Hi.
      assert (Hin : In (rd choices i) (range 1 (n + 1))).
      { eapply Permutation_in; [exact Hp|].
        apply in_map, in_range; exact Hi. }
      apply in_range in Hin; lia.
    - intros ctx1 k2 Hs1 Hinv1; apply IH; auto; try lia.
    - intros i Hi; apply in_range in Hi; exact Hi.
    - apply fill_frame_refl. }
  cbn [fill_grid]; rewrite Hs.
  destruct (Z.geb_spec x n) as [Hxn|Hxn].
  - assert (x = n) by lia; subst x.
    assert (Hyn : y < n) by (destruct (Z.eq_dec y n); [lia|lia]).
    assert (Hinv' : fill_inv ctx 0 (y + 1)).
    { apply (fill_inv_ext ctx ctx (f_size ctx) y 0 (y + 1)); auto.
      - rewrite Hs; exact Hinv.
      - intros x' y' Hx' Hy'; unfold before; lia. }
    destruct (Hbody 0 (y + 1) ltac:(lia) ltac:(lia) ltac:(lia) Hinv'
                    ltac:(nia)) as (r & ctx' & k' & E & Hpost).
    rewrite Hs in E.
    exists r, ctx', k'; split; [exact E|].
    destruct Hpost as ((Hp1 & Hp2 & Hp3) & Hp4 & Hp5 & Hp6).
    split; [|auto].
    split; [exact Hp1|split; [exact Hp2|]].
    intros x' y' Hx' Hy' Hb; apply Hp3; auto.
    unfold before in *; lia.
  - destruct (Hbody x y ltac:(lia) Hy Hyx Hinv Hfuel)
      as (r & ctx' & k' & E & Hpost).
    rewrite Hs in E.
    exists r, ctx', k'; split; [exact E|exact Hpost].
Qed.

(** Distinct values from 1 to [n] at [n] places: every value occurs. *)
Lemma pigeonhole (f : Z -> Z) (n : Z) :
  (forall i, 0 <= i < n -> 1 <= f i <= n) ->
  (forall i j, 0 <= i < n -> 0 <= j < n -> f i = f j -> i = j) ->
  forall v, 1 <= v <= n -> exists i, 0 <= i < n /\ f i = v.
Proof.
  intros Hr Hinj v Hv.
  assert (Hincl : incl (range 1 (n + 1)) (map f (range 0 n))).
  { apply NoDup_length_incl.
    - apply NoDup_map_range; exact Hinj.
    - rewrite length_map, !range_length; lia.
    - intros w Hw; apply in_map_iff in Hw as (i & <- & Hi).
      apply in_range in Hi; apply in_range; specialize (Hr i Hi); lia. }
  assert (Hin : In v (map f (range 0 n)))
    by (apply Hincl, in_range; lia).
  apply in_map_iff in Hin as (i & E & Hi); apply in_range in Hi; eauto.
Qed.

Lemma fill_inv_latin (ctx : fill_context) :
  0 <= f_size ctx -> fill_inv ctx 0 (f_size ctx) ->
  latin (f_size ctx) (f_grid ctx) = true.
Proof.
  intros Hn (_ & _ & _ & _ & _ & H6 & _ & _ & H9 & H10).
  set (n := f_size ctx) in *.
  assert (Hb : forall x' y', 0 <= x' < n -> 0 <= y' < n -> before x' y' 0 n)
    by (intros; unfold before; lia).
  unfold latin; apply forallb_forall; intros i Hi; apply in_range in Hi.
  apply forallb_forall; intros v Hv; apply in_range in Hv.
  apply andb_true_iff; split; apply existsb_exists.
  - destruct (pigeonhole (fun x => rd (f_grid ctx) (CDOK_POS x i)) n)
      with (v := v) as (x & Hx & E); try lia.
    + intros x Hx; apply H6; auto.
    + intros a b Ha Hb'; apply (H9 i); auto.
    + exists x; split; [apply in_range; exact Hx|apply Z.eqb_eq; exact E].
  - destruct (pigeonhole (fun y => rd (f_grid ctx) (CDOK_POS i y)) n)
      with (v := v) as (y & Hy & E); try lia.
    + intros y Hy; apply H6; auto.
    + intros a b Ha Hb'; apply (H10 i); auto.
    + exists y; split; [apply in_range; exact Hy|apply Z.eqb_eq; exact E].
Qed.

Lemma fold_pair_wr (f g h : Z -> Z) (l : list Z) :
  forall a b,
    fold_left (fun '(a, b) i => (wr a (f i) (g i), wr b i (h i))) l (a, b) =
    (fold_left (fun a i => wr a (f i) (g i)) l a,
     fold_left (fun b i => wr b i (h i)) l b).
Proof.
  induction l as [|i l IH]; intros a b; cbn [fold_left]; auto.
Qed.

Lemma fold_left_same {A B : Type} (f g : A -> B -> A) (l : list B) :
  (forall a i, f a i = g a i) ->
  forall a, fold_left f l a = fold_left g l a.
Proof.
  intros H; induction l as [|i l IH]; intros a; cbn [fold_left]; auto.
  rewrite H; apply IH.
Qed.

Lemma CDOK_POS_row0 (x : Z) : CDOK_POS x 0 = x.
Proof.
  unfold CDOK_POS; rewrite Z.shiftl_0_l; apply Z.lor_0_l.
Qed.

(** X3.  [cdok_generate_grid] returns; it leaves the cells outside the
    square at 0, and unless [fill_grid] reports failure (where the source
    aborts) the square it has filled is a Latin square: every value from
    1 to [size] occurs in every row and in every column. *)
Theorem cdok_generate_grid_latin (size : Z) (rnd : rand_source) (k : nat) :
  1 <= size <= CDOK_SIZE ->
  exists r values k',
    cdok_generate_grid size rnd k = Some (r, values, k') /\
    (r = 0 \/ r = -1) /\
    length values = Z.to_nat CDOK_CELLS /\
    (forall x y, 0 <= x < 16 -> 0 <= y < 16 -> size <= x \/ size <= y ->
                 rd values (CDOK_POS x y) = 0) /\
    (r = 0 -> latin size values = true).
Proof.
  unfold CDOK_SIZE; intros Hn; unfold cdok_generate_grid.
  pose proof (gen_permutation_permutes size (repeat 0 (Z.to_nat CDOK_SIZE))
                rnd k) as Hperm.
  destruct (gen_permutation size (repeat 0 (Z.to_nat CDOK_SIZE)) rnd k)
    as [top k1].
  cbn [fst snd] in Hperm.
  destruct Hperm as (Hp & _ & Hltop & _);
    [unfold CDOK_SIZE; lia|rewrite repeat_length; unfold CDOK_SIZE; lia|].
  rewrite repeat_length in Hltop.
  assert (Htop : forall i, 0 <= i < size -> 1 <= rd top i <= size).
  { intros i Hi.
    assert (Hin : In (rd top i) (range 1 (size + 1))).
    { eapply Permutation_in; [exact Hp|].
      apply in_map, in_range; exact Hi. }
    apply in_range in Hin; lia. }
  assert (Hinj : forall i j, 0 <= i < size -> 0 <= j < size ->
                             rd top i = rd top j -> i = j).
  { apply NoDup_map_range.
    eapply Permutation_NoDup; [apply Permutation_sym; exact Hp|].
    replace (range 1 (size + 1)) with (map (fun i => i) (range 1 (size + 1)))
      by apply map_id.
    apply NoDup_map_range; auto. }
  rewrite (fold_pair_wr (fun i => CDOK_POS i 0) (rd top)
             (fun i => cdok_set_cast (CDOK_SET_SINGLE (rd top i)))).
  rewrite (fold_left_same _ (fun a i => wr a i (rd top i)))
    by (intros a i; rewrite CDOK_POS_row0; reflexivity).
  assert (Hvals := fold_wr_range (rd top) (Z.to_nat size)
                     (repeat 0 (Z.to_nat CDOK_CELLS))
                     ltac:(rewrite repeat_length; unfold CDOK_CELLS; lia)).
  assert (Hcols := fold_wr_range
                     (fun i => cdok_set_cast (CDOK_SET_SINGLE (rd top i)))
                     (Z.to_nat size) (repeat 0 (Z.to_nat CDOK_SIZE))
                     ltac:(rewrite repeat_length; unfold CDOK_SIZE; lia)).
  cbn zeta in Hvals, Hcols; rewrite Z2Nat.id in Hvals, Hcols by lia.
  set (values := fold_left (fun a i => wr a i (rd top i)) (range 0 size)
                           (repeat 0 (Z.to_nat CDOK_CELLS))) in *.
  set (cols := fold_left
                 (fun b i => wr b i (cdok_set_cast (CDOK_SET_SINGLE (rd top i))))
                 (range 0 size) (repeat 0 (Z.to_nat CDOK_SIZE))) in *.
  destruct Hvals as [Hvl Hvr], Hcols as [Hcl Hcr].
  rewrite repeat_length in Hvl, Hcl.
  assert (Hcl16 : length cols = 16%nat) by exact Hcl.
  assert (Hcell : forall x y, 0 <= x < 16 -> 0 <= y < 16 ->
             rd values (CDOK_POS x y) =
             if (y =? 0) && (x <? size) then rd top x else 0).
  { intros x y Hx Hy; rewrite CDOK_POS_add by lia.
    rewrite Hvr by lia.
    destruct (Z.eqb_spec y 0) as [->|Hy0]; cbn [andb].
    - replace (16 * 0 + x) with x by lia.
      destruct (x <? size); auto.
      apply rd_repeat; change (Z.to_nat CDOK_CELLS) with 256%nat; lia.
    - destruct (Z.ltb_spec (16 * y + x) size); [lia|].
      apply rd_repeat; change (Z.to_nat CDOK_CELLS) with 256%nat; lia. }
  set (ctx0 := mk_fill size values (repeat 0 (Z.to_nat CDOK_SIZE)) cols).
  assert (Hinv0 : fill_inv ctx0 0 1).
  { unfold fill_inv, ctx0; cbn [f_size f_grid f_rows_used f_cols_used].
    split; [exact Hvl|split; [apply repeat_length|split; [exact Hcl|]]].
    split; [apply Forall_forall; intros s Hs;
            apply repeat_spec in Hs; subst; unfold set16; lia|].
    split.
    { apply Forall_forall; intros s Hs.
      destruct (In_nth _ _ 0 Hs) as (j & Hj & <-).
      fold (rd cols (Z.of_nat j)) .
      replace (nth j cols 0) with (rd cols (Z.of_nat j))
        by (unfold rd; rewrite Nat2Z.id; reflexivity).
      rewrite Hcr by lia.
      destruct (Z.of_nat j <? size); [apply set_cast_range|].
      rewrite rd_repeat by (change (Z.to_nat CDOK_SIZE) with 16%nat; lia).
      unfold set16; lia. }
    split; [|split; [|split; [|split]]].
    - intros x' y' Hx' Hy' Hb; rewrite Hcell by lia.
      unfold before in Hb.
      destruct (Z.eqb_spec y' 0); [|lia].
      destruct (Z.ltb_spec x' size); [|lia]; cbn [andb]; auto.
    - intros r v Hr Hv.
      rewrite rd_repeat by (change (Z.to_nat CDOK_SIZE) with 16%nat; lia).
      rewrite Z.bits_0; split; [discriminate|].
      intros (x' & Hx' & Hb & _); unfold before in Hb; lia.
    - intros c v Hc Hv; rewrite Hcr by lia.
      destruct (Z.ltb_spec c size); [|lia].
      rewrite set_single_small by (specialize (Htop c Hc); lia).
      rewrite testbit_set_single by (specialize (Htop c Hc); lia).
      split.
      + intros E; apply Z.eqb_eq in E.
        exists 0; split; [lia|split; [unfold before; lia|]].
        rewrite Hcell by lia; cbn [Z.eqb andb].
        destruct (Z.ltb_spec c size); lia.
      + intros (y' & Hy' & Hb & E); apply Z.eqb_eq.
        rewrite Hcell in E by lia.
        unfold before in Hb.
        destruct (Z.eqb_spec y' 0); [|lia].
        destruct (Z.ltb_spec c size); [|lia]; cbn [andb] in E; lia.
    - intros r x1 x2 Hr Hx1 Hx2 Hb1 Hb2; rewrite !Hcell by lia.
      unfold before in Hb1, Hb2.
      destruct (Z.eqb_spec r 0); [|lia].
      destruct (Z.ltb_spec x1 size), (Z.ltb_spec x2 size); try lia.
      cbn [andb]; apply Hinj; auto.
    - intros c y1 y2 Hc Hy1 Hy2 Hb1 Hb2 _.
      unfold before in Hb1, Hb2; lia. }
  destruct (fill_grid_ok size rnd Hn (S (Z.to_nat CDOK_CELLS)) ctx0 0 1 k1)
    as (r & ctx' & k' & E & (Hf1 & Hf2 & Hf3) & Hr01 & Hr0 & _);
    auto; try lia.
  { unfold CDOK_CELLS; nia. }
  rewrite E; cbn [obind].
  exists r, (f_grid ctx'), k'; split; [reflexivity|].
  split; [exact Hr01|split; [|split]].
  - rewrite Hf2; exact Hvl.
  - intros x y Hx Hy Hout; rewrite Hf3 by auto.
    unfold ctx0; cbn [f_grid]; rewrite Hcell by lia.
    destruct (Z.eqb_spec y 0), (Z.ltb_spec x size); cbn [andb]; auto; lia.
  - intros Hz; specialize (Hr0 Hz).
    assert (Hsz : f_size ctx' = size) by exact Hf1.
    rewrite <- Hsz; apply fill_inv_latin; [lia|].
    rewrite Hsz; exact Hr0.
Qed.

Lemma cdok_generate_grid_latin_witness :
  1 <= 4 <= CDOK_SIZE /\
  exists r values k',
    cdok_generate_grid 4 (fun n => (7 * n + 3)%nat) 0 = Some (r, values, k') /\
    (r = 0 -> latin 4 values = true).
Proof.
  assert (H : 1 <= 4 <= CDOK_SIZE) by (unfold CDOK_SIZE; lia).
  split; [exact H|].
  destruct (cdok_generate_grid_latin 4 (fun n => (7 * n + 3)%nat) 0%nat H)
    as (r & values & k' & E & _ & _ & _ & Hl).
  exists r, values, k'; split; [exact E|exact Hl].
Defined.

(** ** The clue that the generator computes for a group *)

Lemma target_fold (val : Z -> Z) (l : list Z) :
  forall m s p, -1 <= m ->
    fold_left (fun '(max, sum, product) i =>
                 let v := val i in
                 ((if v >? max then v else max), sum + v, product * v))
              l (m, s, p) =
    (Z.max m (values_max (map val l)), s + values_sum (map val l),
     p * values_product (map val l)).
Proof.
  induction l as [|i l IH]; intros m s p Hm; cbn [fold_left map].
  - unfold values_max, values_sum, values_product; cbn [fold_right].
    f_equal; [f_equal|]; lia.
  - cbn zeta; rewrite IH by (destruct (Z.gtb_spec (val i) m); lia).
    unfold values_max, values_sum, values_product; cbn [fold_right].
    f_equal; [f_equal|]; try lia.
    destruct (Z.gtb_spec (val i) m); lia.
Qed.

Lemma values_max_ge (l : list Z) : -1 <= values_max l.
Proof.
  unfold values_max; induction l as [|a l IH]; cbn [fold_right]; lia.
Qed.

Lemma retargeted_refl (puz : cdok_puzzle) (grp : Z) : retargeted puz puz grp.
Proof.
  repeat split; auto.
Qed.

Lemma retargeted_trans (p1 p2 p3 : cdok_puzzle) (grp : Z) :
  retargeted p1 p2 grp -> retargeted p2 p3 grp -> retargeted p1 p3 grp.
Proof.
  intros (A1 & A2 & A3 & A4 & A5 & A6 & A7) (B1 & B2 & B3 & B4 & B5 & B6 & B7).
  split; [congruence|split; [congruence|split; [congruence|]]].
  split; [congruence|split; [|split; congruence]].
  intros i Hi Hne; rewrite B5, A5; auto.
Qed.

Lemma set_grp_retargeted (puz : cdok_puzzle) (grp : Z) (g : cdok_group) :
  0 <= grp ->
  g_size g = g_size (grp_at puz grp) ->
  g_members g = g_members (grp_at puz grp) ->
  retargeted puz (set_grp puz grp g) grp.
Proof.
  intros Hg Hs Hm; unfold set_grp.
  split; [reflexivity|split; [reflexivity|split; [reflexivity|]]].
  split; [cbn [p_groups]; apply upd_length|].
  assert (Hat : forall i, grp_at (mk_puzzle (p_size puz)
                    (upd (p_groups puz) (Z.to_nat grp) g)
                    (p_values puz) (p_group_map puz)) i =
                  if ((Z.to_nat grp =? Z.to_nat i) &&
                      (Z.to_nat grp <? length (p_groups puz)))%nat
                  then g else grp_at puz i)
    by (intros i; unfold grp_at; cbn [p_groups]; apply nth_upd).
  split; [|rewrite Hat, Nat.eqb_refl; cbn [andb];
           destruct (_ <? _)%nat; auto].
  intros i Hi Hne; rewrite Hat.
  destruct (Nat.eqb_spec (Z.to_nat grp) (Z.to_nat i)); [lia|reflexivity].
Qed.

Lemma grp_at_set_grp (puz : cdok_puzzle) (grp : Z) (g : cdok_group) :
  0 <= grp < Z.of_nat (length (p_groups puz)) ->
  grp_at (set_grp puz grp g) grp = g.
Proof.
  intros Hg; unfold set_grp, grp_at; cbn [p_groups].
  rewrite nth_upd, Nat.eqb_refl; cbn [andb].
  destruct (Nat.ltb_spec (Z.to_nat grp) (length (p_groups puz))); [auto|lia].
Qed.

(** What [group_update_target] does to a group in use. *)
Lemma group_update_target_spec (puz : cdok_puzzle) (grp : Z)
    (solution : list Z) (f : Z) :
  0 <= grp < Z.of_nat (length (p_groups puz)) ->
  g_size (grp_at puz grp) <> 0 ->
  let r := fst (group_update_target puz grp solution f) in
  let puz' := snd (group_update_target puz grp solution f) in
  retargeted puz puz' grp /\
  g_type (grp_at puz' grp) = g_type (grp_at puz grp) /\
  (r = 0 \/ r = -1) /\
  (r = 0 -> valid_type (g_type (grp_at puz grp)) ->
            cage_ok f (grp_at puz' grp) solution) /\
  (g_type (grp_at puz grp) = CDOK_SUM -> r = 0).
Proof.
  intros Hg Hlive; unfold group_update_target.
  set (g := grp_at puz grp) in *.
  destruct (Z.eqb_spec (g_size g) 0) as [E|_]; [contradiction|].
  assert (Hkeep : retargeted puz puz grp /\ g_type g = g_type g)
    by (split; [apply retargeted_refl|reflexivity]).
  destruct (((g_type g =? CDOK_DIFFERENCE) || (g_type g =? CDOK_RATIO)) &&
            (g_size g >? 2) && negb (Z.land f CDOK_FLAGS_TWO_CELL =? 0))
    eqn:Hflag.
  { cbn [fst snd]; fold g.
    split; [apply Hkeep|split; [reflexivity|split; [auto|split]]].
    - discriminate.
    - intros Ht; rewrite Ht in Hflag; discriminate. }
  rewrite (target_fold (fun i => rd solution (rd (g_members g) i))) by lia.
  rewrite <- (map_map (rd (g_members g)) (rd solution)).
  fold (live_members g); fold (cage_values g solution).
  set (vs := cage_values g solution).
  replace (Z.max (-1) (values_max vs)) with (values_max vs)
    by (pose proof (values_max_ge vs); lia).
  replace (0 + values_sum vs) with (values_sum vs) by lia.
  replace (1 * values_product vs) with (values_product vs) by lia.
  assert (Htwo : forall g', g_type g' = g_type g -> g_size g' = g_size g ->
                            two_cell_ok f g').
  { intros g' Ht Hs Hf Hty; rewrite Ht in Hty; rewrite Hs.
    destruct (Z.gtb_spec (g_size g) 2); [|lia].
    exfalso; apply andb_false_iff in Hflag as [Hflag|Hflag].
    - rewrite andb_true_r in Hflag; apply orb_false_iff in Hflag as [H1 H2].
      apply Z.eqb_neq in H1, H2; tauto.
    - apply negb_false_iff, Z.eqb_eq in Hflag; contradiction. }
  assert (Hset : forall t,
             let puz' := set_target puz grp t in
             retargeted puz puz' grp /\
             g_type (grp_at puz' grp) = g_type g /\
             cage_values (grp_at puz' grp) solution = vs /\
             g_target (grp_at puz' grp) = t /\ two_cell_ok f (grp_at puz' grp)).
  { intros t puz'; unfold puz', set_target; fold g.
    split; [apply set_grp_retargeted; auto; lia|].
    rewrite grp_at_set_grp by lia; cbn [g_type g_target].
    split; [reflexivity|split; [reflexivity|split; [reflexivity|]]].
    apply Htwo; reflexivity. }
  destruct (Z.eqb_spec (g_type g) CDOK_SUM) as [Hsum|Hnsum].
  { cbn [fst snd]; destruct (Hset (values_sum vs)) as (H1 & H2 & H3 & H4 & H5).
    split; [exact H1|split; [exact H2|split; [auto|split; [|auto]]]].
    intros _ _; split; [|exact H5].
    left; unfold cage_holds; rewrite H3, H4; cbv zeta; split; congruence. }
  destruct (Z.eqb_spec (g_type g) CDOK_DIFFERENCE) as [Hdiff|Hndiff].
  { destruct ((values_max vs <? 0) || (values_max vs * 2 <? values_sum vs));
      cbn [fst snd].
    { fold g; split; [apply Hkeep|split; [reflexivity|split; [auto|split]]];
        [discriminate|congruence]. }
    destruct (Hset (values_max vs * 2 - values_sum vs)) as (H1 & H2 & H3 & H4 & H5).
    split; [exact H1|split; [exact H2|split; [auto|split; [|congruence]]]].
    intros _ _; split; [|exact H5].
    right; left; unfold cage_holds; rewrite H3, H4; cbv zeta.
    split; [congruence|lia]. }
  destruct (Z.eqb_spec (g_type g) CDOK_PRODUCT) as [Hprod|Hnprod].
  { cbn [fst snd]; destruct (Hset (values_product vs)) as (H1 & H2 & H3 & H4 & H5).
    split; [exact H1|split; [exact H2|split; [auto|split; [|congruence]]]].
    intros _ _; split; [|exact H5].
    right; right; left; unfold cage_holds; rewrite H3, H4; cbv zeta.
    split; congruence. }
  destruct (Z.eqb_spec (g_type g) CDOK_RATIO) as [Hratio|Hnratio].
  { destruct (Z.eqb_spec (Z.rem (values_max vs * values_max vs) (values_product vs)) 0)
      as [Hrem|Hrem]; cbn [negb fst snd].
    2:{ fold g; split; [apply Hkeep|split; [reflexivity|split; [auto|split]]];
          [discriminate|congruence]. }
    destruct (Hset (Z.quot (values_max vs * values_max vs) (values_product vs)))
      as (H1 & H2 & H3 & H4 & H5).
    split; [exact H1|split; [exact H2|split; [auto|split; [|congruence]]]].
    intros _ _; split; [|exact H5].
    right; right; right; unfold cage_holds; rewrite H3, H4; cbv zeta.
    split; [congruence|].
    pose proof (Z.quot_rem' (values_max vs * values_max vs) (values_product vs)).
    lia. }
  cbn [fst snd]; fold g.
  split; [apply Hkeep|split; [reflexivity|split; [auto|split]]].
  - intros _ [H|[H|[H|H]]]; contradiction.
  - intros H; contradiction.
Qed.

Lemma retargeted_live (puz puz' : cdok_puzzle) (grp : Z) :
  retargeted puz puz' grp ->
  0 <= grp < Z.of_nat (length (p_groups puz')) /\
  g_size (grp_at puz' grp) <> 0 <->
  0 <= grp < Z.of_nat (length (p_groups puz)) /\
  g_size (grp_at puz grp) <> 0.
Proof.
  intros (_ & _ & _ & Hl & _ & Hs & _); rewrite Hl, Hs; tauto.
Qed.

Lemma alter_try_ok (grp : Z) (solution : list Z) (f : Z)
    (types : list cdok_gtype_t) :
  forall puz,
    0 <= grp < Z.of_nat (length (p_groups puz)) ->
    g_size (grp_at puz grp) <> 0 ->
    Forall valid_type types -> In CDOK_SUM types ->
    let puz' := alter_try puz grp solution f types in
    retargeted puz puz' grp /\ cage_ok f (grp_at puz' grp) solution.
Proof.
  induction types as [|t types IH]; intros puz Hg Hlive Hval Hsum;
    [destruct Hsum|].
  cbn [alter_try].
  assert (Hty : retargeted puz (set_type puz grp t) grp)
    by (apply set_grp_retargeted; [lia|reflexivity|reflexivity]).
  assert (Htt : g_type (grp_at (set_type puz grp t) grp) = t)
    by (unfold set_type; rewrite grp_at_set_grp by lia; reflexivity).
  pose proof (retargeted_live _ _ _ Hty) as Hlive'.
  destruct Hlive' as [_ Hlive']; specialize (Hlive' (conj Hg Hlive)).
  destruct Hlive' as [Hg' Hlive'].
  pose proof (group_update_target_spec (set_type puz grp t) grp solution f
                Hg' Hlive') as Hspec.
  destruct (group_update_target (set_type puz grp t) grp solution f)
    as [r puz1].
  cbn [fst snd] in Hspec; cbv zeta in Hspec.
  destruct Hspec as (Hre & Hsame & Hr & Hok & Hs0).
  rewrite Htt in Hok, Hs0.
  assert (Hre1 : retargeted puz puz1 grp)
    by (eapply retargeted_trans; eauto).
  inversion Hval as [|t' ts Ht Hts]; subst.
  destruct (Z.eqb_spec r 0) as [E|E]; cbv zeta.
  - split; [exact Hre1|apply Hok; auto].
  - assert (Hin : In CDOK_SUM types).
    { destruct Hsum as [Et|Hin]; [|exact Hin].
      exfalso; apply E, Hs0; exact Et. }
    pose proof (retargeted_live _ _ _ Hre1) as Hl1.
    destruct Hl1 as [_ Hl1]; specialize (Hl1 (conj Hg Hlive)).
    destruct (IH puz1 (proj1 Hl1) (proj2 Hl1) Hts Hin) as [Hre2 Hok2].
    split; [eapply retargeted_trans; eauto|exact Hok2].
Qed.

(** However the draws fall, the shuffled array holds the four types. *)
Lemma shuffle_types (rnd : rand_source) (k : nat) :
  let types :=
    fst (fold_left
           (fun '(types, k) i =>
              let '(r, k) := random rnd k in
              let j := Z.rem r (i + 1) in
              let tmp := rd types i in
              (wr (wr types i (rd types j)) j tmp, k))
           [3; 2; 1]
           ([CDOK_SUM; CDOK_DIFFERENCE; CDOK_PRODUCT; CDOK_RATIO], k)) in
  Forall valid_type types /\ In CDOK_SUM types.
Proof.
  cbn [fold_left]; unfold random.
  assert (H3 : 0 <= Z.rem (Z.of_nat (rnd k)) (3 + 1) < 4)
    by (apply Z.rem_bound_pos; lia).
  assert (H2 : 0 <= Z.rem (Z.of_nat (rnd (S k))) (2 + 1) < 3)
    by (apply Z.rem_bound_pos; lia).
  assert (H1 : 0 <= Z.rem (Z.of_nat (rnd (S (S k)))) (1 + 1) < 2)
    by (apply Z.rem_bound_pos; lia).
  set (j3 := Z.rem (Z.of_nat (rnd k)) (3 + 1)) in *.
  set (j2 := Z.rem (Z.of_nat (rnd (S k))) (2 + 1)) in *.
  set (j1 := Z.rem (Z.of_nat (rnd (S (S k)))) (1 + 1)) in *.
  clearbody j3 j2 j1.
  assert (C3 : j3 = 0 \/ j3 = 1 \/ j3 = 2 \/ j3 = 3) by lia.
  assert (C2 : j2 = 0 \/ j2 = 1 \/ j2 = 2) by lia.
  assert (C1 : j1 = 0 \/ j1 = 1) by lia.
  destruct C3 as [->|[->|[->| ->]]], C2 as [->|[->| ->]], C1 as [->| ->];
    vm_compute;
    (split;
     [repeat (apply Forall_cons; [auto 6|]); apply Forall_nil|auto 6]).
Qed.

Lemma mut_alter_type_ok (puz : cdok_puzzle) (grp : Z) (solution : list Z)
    (f : Z) (rnd : rand_source) (k : nat) :
  0 <= grp < Z.of_nat (length (p_groups puz)) ->
  g_size (grp_at puz grp) <> 0 ->
  let puz' := fst (mut_alter_type puz grp solution f rnd k) in
  retargeted puz puz' grp /\ cage_ok f (grp_at puz' grp) solution.
Proof.
  intros Hg Hlive; unfold mut_alter_type.
  pose proof (shuffle_types rnd k) as Hsh; cbv zeta in Hsh.
  destruct (fold_left _ _ _) as [types k']; cbn [fst] in *.
  destruct Hsh as [Hval Hsum].
  apply alter_try_ok; auto.
Qed.

(** The step that follows every change of a group's cells. *)
Lemma retarget_ok (puz : cdok_puzzle) (grp : Z) (solution : list Z)
    (f : Z) (rnd : rand_source) (k : nat) (puz' : cdok_puzzle) (k' : nat) :
  0 <= grp < Z.of_nat (length (p_groups puz)) ->
  (let '(r, puz1) := group_update_target puz grp solution f in
   if r <? 0 then Some (mut_alter_type puz1 grp solution f rnd k)
   else Some (puz1, k)) = Some (puz', k') ->
  retargeted puz puz' grp /\
  (g_size (grp_at puz grp) <> 0 -> valid_type (g_type (grp_at puz grp)) ->
   cage_ok f (grp_at puz' grp) solution).
Proof.
  intros Hg.
  destruct (Z.eq_dec (g_size (grp_at puz grp)) 0) as [Hz|Hlive].
  { unfold group_update_target; rewrite Hz; cbn.
    intros E; inversion E; subst; split; [apply retargeted_refl|tauto]. }
  pose proof (group_update_target_spec puz grp solution f Hg Hlive) as Hspec.
  destruct (group_update_target puz grp solution f) as [r puz1].
  cbn [fst snd] in Hspec; cbv zeta in Hspec.
  destruct Hspec as (Hre & Hsame & Hr & Hok & _).
  destruct (Z.ltb_spec r 0) as [Hneg|Hpos]; intros E.
  - assert (H0 : mut_alter_type puz1 grp solution f rnd k = (puz', k'))
      by congruence.
    pose proof (retargeted_live _ _ _ Hre) as Hl1.
    destruct Hl1 as [_ Hl1]; specialize (Hl1 (conj Hg Hlive)).
    destruct (mut_alter_type_ok puz1 grp solution f rnd k (proj1 Hl1)
                (proj2 Hl1)) as [Hre2 Hok2].
    rewrite H0 in Hre2, Hok2; cbn [fst] in Hre2, Hok2.
    split; [eapply retargeted_trans; eauto|auto].
  - assert (E1 : puz1 = puz') by congruence; subst puz'.
    split; [exact Hre|intros _ Hv; apply Hok; auto; lia].
Qed.

(** ** The givens follow the group map *)

Lemma givens_clear (values group_map solution : list Z) (c : Z) :
  givens values group_map solution ->
  givens (wr values c (rd solution c)) (wr group_map c CDOK_GROUP_NONE)
         solution.
Proof.
  intros (Hv & Hm & H).
  split; [rewrite wr_length; exact Hv|].
  split; [rewrite wr_length; exact Hm|].
  intros c' Hc'; destruct (Z.eq_dec c c') as [->|Hne].
  - rewrite !rd_wr_same by (rewrite ?Hv, ?Hm; exact Hc'); reflexivity.
  - rewrite !rd_wr_other by lia; apply H; exact Hc'.
Qed.

Lemma group_destroy_givens (puz : cdok_puzzle) (grp : Z) (solution : list Z) :
  givens_ok puz solution -> givens_ok (group_destroy puz grp solution) solution.
Proof.
  intros H; unfold group_destroy, givens_ok in *.
  assert (Hfold : forall l v m,
             givens v m solution ->
             let r := fold_left
                        (fun '(values, group_map) i =>
                           let c := rd (g_members (grp_at puz grp)) i in
                           (wr values c (rd solution c),
                            wr group_map c CDOK_GROUP_NONE)) l (v, m) in
             givens (fst r) (snd r) solution).
  { induction l as [|i l IH]; intros v m Hg; cbn [fold_left]; [exact Hg|].
    apply IH, givens_clear, Hg. }
  specialize (Hfold (range 0 (g_size (grp_at puz grp))) _ _ H).
  cbv zeta in Hfold.
  destruct (fold_left _ _ _) as [values gm]; exact Hfold.
Qed.

Lemma group_remove_givens (puz : cdok_puzzle) (grp victim : Z)
    (solution : list Z) :
  givens_ok puz solution ->
  givens_ok (group_remove puz grp victim solution) solution.
Proof.
  intros H; unfold group_remove.
  destruct (find _ _); [|exact H].
  apply givens_clear, H.
Qed.

Lemma cut_islands_givens (puz : cdok_puzzle) (grp : Z) (solution : list Z)
    (puz' : cdok_puzzle) :
  cut_islands puz grp solution = Some puz' ->
  givens_ok puz solution -> givens_ok puz' solution.
Proof.
  unfold cut_islands.
  destruct (g_size (grp_at puz grp) =? 0).
  { intros E; inversion E; auto. }
  destruct (cdok_flood_fill _ _ _ _ _) as [mc|]; cbn [obind]; [|discriminate].
  intros E H.
  assert (Hfold : forall l v gm mem len,
             givens v gm solution ->
             let r := fold_left (cut_step mc solution) l (v, gm, mem, len) in
             givens (fst (fst (fst r))) (snd (fst (fst r))) solution).
  { induction l as [|i l IH]; intros v gm mem len Hg; cbn [fold_left];
      [exact Hg|].
    assert (Hs : givens
                   (fst (fst (fst (cut_step mc solution (v, gm, mem, len) i))))
                   (snd (fst (fst (cut_step mc solution (v, gm, mem, len) i))))
                   solution).
    { unfold cut_step; destruct (negb _); cbn [fst snd]; auto.
      apply givens_clear, Hg. }
    destruct (cut_step mc solution (v, gm, mem, len) i)
      as [[[v' gm'] mem'] len'].
    apply IH; exact Hs. }
  specialize (Hfold (range 0 (g_size (grp_at puz grp))) _ _
                    (g_members (grp_at puz grp)) 0 H).
  cbv zeta in Hfold.
  destruct (fold_left _ _ _) as [[[values gm] mem] len]; cbn [fst snd] in Hfold.
  assert (E' : puz' =
               if len <? 2
               then group_destroy
                      (mk_puzzle (p_size puz)
                         (upd (p_groups puz) (Z.to_nat grp)
                            (mk_group (g_type (grp_at puz grp))
                                      (g_target (grp_at puz grp)) len mem))
                         values gm) grp solution
               else mk_puzzle (p_size puz)
                      (upd (p_groups puz) (Z.to_nat grp)
                         (mk_group (g_type (grp_at puz grp))
                                   (g_target (grp_at puz grp)) len mem))
                      values gm) by congruence.
  rewrite E'; destruct (len <? 2); [apply group_destroy_givens|];
    exact Hfold.
Qed.

Lemma group_add_givens (puz : cdok_puzzle) (grp c : Z) (solution : list Z) :
  0 <= grp < CDOK_GROUPS ->
  givens_ok puz solution -> givens_ok (group_add puz grp c) solution.
Proof.
  intros Hg H; unfold group_add.
  destruct (negb _); [exact H|].
  destruct (_ >=? _); [exact H|].
  destruct H as (Hv & Hm & H); unfold givens_ok; cbn [p_values p_group_map].
  split; [rewrite wr_length; exact Hv|].
  split; [rewrite wr_length; exact Hm|].
  intros c' Hc'; destruct (Z.eq_dec c c') as [->|Hne].
  - rewrite !rd_wr_same by (rewrite ?Hv, ?Hm; exact Hc').
    rewrite uint8_cast_small by (unfold CDOK_GROUPS in Hg; lia).
    destruct (Z.eqb_spec grp CDOK_GROUP_NONE) as [E|E]; [|reflexivity].
    unfold CDOK_GROUPS, CDOK_GROUP_NONE in *; lia.
  - rewrite !rd_wr_other by lia; apply H; exact Hc'.
Qed.

(** ** The basic operations keep the types *)

Lemma type_upd (puz : cdok_puzzle) (s : Z) (v m : list Z) (grp i : Z)
    (g : cdok_group) :
  g_type g = g_type (grp_at puz grp) ->
  g_type (grp_at (mk_puzzle s (upd (p_groups puz) (Z.to_nat grp) g) v m) i) =
  g_type (grp_at puz i).
Proof.
  intros Hg; unfold grp_at in *; cbn [p_groups]; rewrite nth_upd.
  destruct (Nat.eqb_spec (Z.to_nat grp) (Z.to_nat i)) as [E|E];
    cbn [andb]; [|reflexivity].
  destruct (_ <? _)%nat; [|reflexivity].
  rewrite <- E; exact Hg.
Qed.

Lemma group_destroy_type (puz : cdok_puzzle) (grp : Z) (solution : list Z)
    (i : Z) :
  g_type (grp_at (group_destroy puz grp solution) i) = g_type (grp_at puz i).
Proof.
  unfold group_destroy; destruct (fold_left _ _ _) as [values gm].
  apply type_upd; reflexivity.
Qed.

Lemma group_remove_type (puz : cdok_puzzle) (grp victim : Z)
    (solution : list Z) (i : Z) :
  g_type (grp_at (group_remove puz grp victim solution) i) =
  g_type (grp_at puz i).
Proof.
  unfold group_remove; destruct (find _ _); [|reflexivity].
  apply type_upd; reflexivity.
Qed.

Lemma group_add_type (puz : cdok_puzzle) (grp c i : Z) :
  g_type (grp_at (group_add puz grp c) i) = g_type (grp_at puz i).
Proof.
  unfold group_add.
  destruct (negb _); [reflexivity|].
  destruct (_ >=? _); [reflexivity|].
  apply type_upd; reflexivity.
Qed.

Lemma cut_islands_type (puz : cdok_puzzle) (grp : Z) (solution : list Z)
    (puz' : cdok_puzzle) (i : Z) :
  cut_islands puz grp solution = Some puz' ->
  g_type (grp_at puz' i) = g_type (grp_at puz i).
Proof.
  unfold cut_islands.
  destruct (g_size (grp_at puz grp) =? 0).
  { intros E; inversion E; auto. }
  destruct (cdok_flood_fill _ _ _ _ _) as [mc|]; cbn [obind]; [|discriminate].
  destruct (fold_left _ _ _) as [[[values gm] mem] len].
  intros E.
  assert (E' : puz' =
               if len <? 2
               then group_destroy
                      (mk_puzzle (p_size puz)
                         (upd (p_groups puz) (Z.to_nat grp)
                            (mk_group (g_type (grp_at puz grp))
                                      (g_target (grp_at puz grp)) len mem))
                         values gm) grp solution
               else mk_puzzle (p_size puz)
                      (upd (p_groups puz) (Z.to_nat grp)
                         (mk_group (g_type (grp_at puz grp))
                                   (g_target (grp_at puz grp)) len mem))
                      values gm) by congruence.
  rewrite E'; destruct (len <? 2); [rewrite group_destroy_type|];
    apply type_upd; reflexivity.
Qed.

(** ** The mutations keep every cage satisfied by the seed *)

Lemma cage_ok_valid (f : Z) (g : cdok_group) (solution : list Z) :
  cage_ok f g solution -> valid_type (g_type g).
Proof.
  intros [[[H _]|[[H _]|[[H _]|[H _]]]] _]; unfold valid_type; auto.
Qed.

Lemma group_add_other (puz : cdok_puzzle) (grp c i : Z) :
  0 <= grp -> 0 <= i -> i <> grp ->
  grp_at (group_add puz grp c) i = grp_at puz i.
Proof.
  intros Hg Hi Hne; unfold group_add.
  destruct (negb _); [reflexivity|].
  destruct (_ >=? _); [reflexivity|].
  unfold grp_at; cbn [p_groups]; rewrite nth_upd.
  destruct (Nat.eqb_spec (Z.to_nat grp) (Z.to_nat i)) as [E|E];
    [lia|reflexivity].
Qed.

Lemma retargeted_givens (puz puz' : cdok_puzzle) (grp : Z)
    (solution : list Z) :
  retargeted puz puz' grp -> givens_ok puz solution ->
  givens_ok puz' solution.
Proof.
  intros (_ & Hv & Hm & _); unfold givens_ok; rewrite Hv, Hm; auto.
Qed.

Lemma mut_remove_cell_seed (puz : cdok_puzzle) (c : Z) (solution : list Z)
    (f : Z) (rnd : rand_source) (k : nat) (puz1 : cdok_puzzle) (k1 : nat) :
  cage_invariants puz -> 0 <= c < CDOK_CELLS ->
  givens_ok puz solution -> cages_ok f puz solution (-1) ->
  mut_remove_cell puz c solution f rnd k = Some (puz1, k1) ->
  givens_ok puz1 solution /\ cages_ok f puz1 solution (-1).
Proof.
  intros Hinv Hc Hgiv Hcages; pose proof Hinv as [Hok Hshape].
  pose proof Hok as (Hlg & _ & Hgrp & Hback).
  unfold mut_remove_cell.
  set (grp := rd (p_group_map puz) c) in *.
  destruct (Z.eqb_spec grp CDOK_GROUP_NONE) as [E|Hin].
  { intros E1; assert (puz1 = puz) by congruence; subst; auto. }
  destruct (Hback c Hc Hin) as [Hg Hmem]; fold grp in Hg, Hmem.
  destruct (Z.leb_spec (g_size (grp_at puz grp)) 2) as [Hsmall|Hbig].
  - intros E1.
    assert (E2 : puz1 = group_destroy puz grp solution) by congruence.
    subst puz1.
    destruct (group_destroy_shrinks puz grp solution Hok Hg) as [Hs Hz].
    split; [apply group_destroy_givens; exact Hgiv|].
    intros i Hi _ Hlive; destruct (Z.eq_dec i grp) as [->|Hne];
      [contradiction|].
    destruct Hs as (_ & _ & Hoth & _); rewrite Hoth in * by auto.
    apply Hcages; auto; lia.
  - destruct (group_remove_shrinks puz grp c solution Hok Hg Hmem)
      as (HsA & _).
    pose proof (group_remove_givens puz grp c solution Hgiv) as HgivA.
    pose proof (group_remove_type puz grp c solution grp) as HtyA.
    set (puzA := group_remove puz grp c solution) in *.
    pose proof (shrinks_map_ok puz puzA grp Hok Hg HsA) as HokA.
    destruct (cut_islands_ok puzA grp solution HokA Hg)
      as (puzB & Hcut & HsB & _).
    rewrite Hcut; cbn [obind].
    pose proof (cut_islands_givens _ _ _ _ Hcut HgivA) as HgivB.
    pose proof (cut_islands_type _ _ _ _ grp Hcut) as HtyB.
    pose proof (shrinks_trans _ _ _ _ HsA HsB) as Hs.
    intros E1.
    assert (HgB : 0 <= grp < Z.of_nat (length (p_groups puzB))).
    { destruct Hs as (Hl & _); rewrite Hl, Hlg.
      unfold CDOK_GROUPS in *; lia. }
    destruct (retarget_ok puzB grp solution f rnd k puz1 k1 HgB E1)
      as [Hre Hok1].
    split; [eapply retargeted_givens; eauto|].
    intros i Hi _ Hlive; destruct (Z.eq_dec i grp) as [->|Hne].
    + destruct Hre as (_ & _ & _ & _ & _ & Hsz & _).
      apply Hok1; [congruence|].
      rewrite HtyB, HtyA.
      apply (cage_ok_valid f _ solution), Hcages; auto; lia.
    + destruct Hre as (_ & _ & _ & _ & Hoth1 & _).
      destruct Hs as (_ & _ & Hoth & _).
      rewrite Hoth1 in * by lia; rewrite Hoth in * by auto.
      apply Hcages; auto; lia.
Qed.

Lemma join_tail_seed (puz : cdok_puzzle) (c n ngrp : Z) (solution : list Z)
    (f : Z) (rnd : rand_source) (k : nat) (puz' : cdok_puzzle) (k' : nat) :
  cage_invariants puz -> 0 <= c < CDOK_CELLS -> 0 <= n < CDOK_CELLS ->
  adjacent c n ->
  rd (p_group_map puz) c = CDOK_GROUP_NONE ->
  rd (p_group_map puz) n = ngrp ->
  givens_ok puz solution -> cages_ok f puz solution (-1) ->
  (if negb (ngrp =? CDOK_GROUP_NONE) then
     let puz := group_add puz ngrp c in
     let '(r, puz) := group_update_target puz ngrp solution f in
     if r <? 0 then Some (mut_alter_type puz ngrp solution f rnd k)
     else Some (puz, k)
   else
     let g := group_alloc puz in
     if g =? CDOK_GROUP_NONE then Some (puz, k)
     else
       let puz := group_add puz g c in
       let puz := group_add puz g n in
       Some (mut_alter_type puz g solution f rnd k)) = Some (puz', k') ->
  givens_ok puz' solution /\ cages_ok f puz' solution (-1).
Proof.
  intros Hinv Hc Hn Hadj Hfree Hngrp Hgiv Hcages.
  pose proof Hinv as [Hok Hshape].
  pose proof Hok as (Hlg & _ & Hgrp & Hback).
  destruct (Z.eqb_spec ngrp CDOK_GROUP_NONE) as [Hnn|Hnn]; cbn [negb].
  - destruct (group_alloc_spec puz) as [Ha|[Ha Hz]].
    { rewrite Ha, Z.eqb_refl; intros E.
      assert (puz' = puz) by congruence; subst; auto. }
    set (g := group_alloc puz) in *.
    destruct (Z.eqb_spec g CDOK_GROUP_NONE) as [E|_];
      [unfold CDOK_GROUPS, CDOK_GROUP_NONE in *; lia|].
    cbv zeta.
    destruct (group_add_ok puz g c Hok Ha Hc Hfree)
      as (HokC & HothC & HszC & HliveC & HmapC & HrestC);
      [unfold CDOK_GROUP_SIZE; lia|].
    pose proof (group_add_givens puz g c solution Ha Hgiv) as HgivC.
    set (puzC := group_add puz g c) in *.
    assert (Hcn : c <> n) by (apply adjacent_neq; auto).
    destruct (group_add_ok puzC g n HokC Ha Hn)
      as (HokD & HothD & HszD & HliveD & HmapD & HrestD);
      [rewrite HrestC by (auto; lia); congruence|unfold CDOK_GROUP_SIZE; lia|].
    pose proof (group_add_givens puzC g n solution Ha HgivC) as HgivD.
    set (puzD := group_add puzC g n) in *.
    assert (HgD : 0 <= g < Z.of_nat (length (p_groups puzD))).
    { destruct HokD as (Hl & _); rewrite Hl; unfold CDOK_GROUPS in *; lia. }
    destruct (mut_alter_type_ok puzD g solution f rnd k HgD ltac:(lia))
      as [Hre Hokg].
    intros E.
    assert (E1 : fst (mut_alter_type puzD g solution f rnd k) = puz')
      by (assert (E0 : mut_alter_type puzD g solution f rnd k = (puz', k'))
            by congruence; rewrite E0; reflexivity).
    rewrite E1 in Hre, Hokg.
    split; [eapply retargeted_givens; eauto|].
    intros i Hi _ Hlive; destruct (Z.eq_dec i g) as [->|Hne]; [exact Hokg|].
    destruct Hre as (_ & _ & _ & _ & Hoth1 & _).
    rewrite Hoth1 in * by lia; rewrite HothD in * by lia.
    rewrite HothC in * by lia.
    apply Hcages; auto; lia.
  - subst ngrp; destruct (Hback n Hn Hnn) as [Hg Hmem].
    set (ngrp := rd (p_group_map puz) n) in *.
    cbv zeta.
    assert (Hlive_n : g_size (grp_at puz ngrp) <> 0).
    { intros Hz; rewrite live_members_nil in Hmem by lia; destruct Hmem. }
    pose proof (group_add_givens puz ngrp c solution Hg Hgiv) as HgivC.
    pose proof (group_add_type puz ngrp c ngrp) as HtyC.
    assert (HothC : forall i, 0 <= i -> i <> ngrp ->
                              grp_at (group_add puz ngrp c) i = grp_at puz i)
      by (intros i Hi Hne; apply group_add_other; auto; lia).
    assert (HlenC : length (p_groups (group_add puz ngrp c)) =
                    length (p_groups puz)).
    { unfold group_add; destruct (negb _); [reflexivity|].
      destruct (_ >=? _); [reflexivity|]; cbn [p_groups]; apply upd_length. }
    set (puzC := group_add puz ngrp c) in *.
    intros E.
    assert (HgC : 0 <= ngrp < Z.of_nat (length (p_groups puzC))).
    { rewrite HlenC, Hlg; unfold CDOK_GROUPS in *; lia. }
    destruct (retarget_ok puzC ngrp solution f rnd k puz' k' HgC E)
      as [Hre Hok1].
    split; [eapply retargeted_givens; eauto|].
    intros i Hi _ Hlive; destruct (Z.eq_dec i ngrp) as [->|Hne].
    + destruct Hre as (_ & _ & _ & _ & _ & Hsz & _).
      apply Hok1; [congruence|].
      rewrite HtyC.
      apply (cage_ok_valid f _ solution), Hcages; auto; lia.
    + destruct Hre as (_ & _ & _ & _ & Hoth1 & _).
      rewrite Hoth1 in * by lia; rewrite HothC in * by lia.
      apply Hcages; auto; lia.
Qed.

Lemma mut_join_cells_seed (puz : cdok_puzzle) (c n : Z)
    (solution : list Z) (f : Z) (rnd : rand_source) (k : nat)
    (puz' : cdok_puzzle) (k' : nat) :
  cage_invariants puz ->
  0 <= c < CDOK_CELLS -> 0 <= n < CDOK_CELLS -> adjacent c n ->
  givens_ok puz solution -> cages_ok f puz solution (-1) ->
  mut_join_cells puz c n solution f rnd k = Some (puz', k') ->
  givens_ok puz' solution /\ cages_ok f puz' solution (-1).
Proof.
  intros Hinv Hcg Hng Hadj Hgiv Hcages.
  unfold mut_join_cells.
  destruct (Z.eqb_spec (rd (p_group_map puz) c) CDOK_GROUP_NONE) as [Hcf|Hcf];
    cbn [negb andb obind].
  - apply join_tail_seed; auto.
  - destruct (Z.eqb_spec (rd (p_group_map puz) n) (rd (p_group_map puz) c))
      as [Hsame|Hdiff].
    { intros E; assert (puz' = puz) by congruence; subst; auto. }
    destruct (mut_remove_cell_ok puz c solution f rnd k Hinv Hcg Hcf)
      as (puz1 & k1 & Hrm & Hinv1 & Hfree1 & Hkeep1).
    destruct (mut_remove_cell_seed puz c solution f rnd k puz1 k1 Hinv Hcg
                Hgiv Hcages Hrm) as [Hgiv1 Hcages1].
    rewrite Hrm; cbn [obind].
    apply join_tail_seed; auto.
Qed.

(** ** Hardening keeps every cage satisfied by the seed *)

Lemma harden_step_seed (solution : list Z) (fl limit : Z)
    (rnd : rand_source) (puz work : cdok_puzzle) (b : Z) (k : nat) :
  generated fl puz solution -> generated fl work solution ->
  p_size work = p_size puz ->
  exists puz' work' b' k',
    harden_step solution fl limit rnd (puz, work, b, k) =
      Some (puz', work', b', k') /\
    generated fl puz' solution /\ generated fl work' solution /\
    p_size puz' = p_size puz /\ p_size work' = p_size puz.
Proof.
  intros Hp Hw Hsame; pose proof Hp as ((_ & Hsize & _) & _).
  pose proof Hw as ((Hinv & Hwsize & Hwlen) & Hgiv & Hcages).
  unfold harden_step, CDOK_SIZE in *.
  rewrite int_of_uint_small by lia.
  destruct (choose_cell_range (p_size puz) rnd k) as (x & y & Hx & Hy & Hc);
    [lia|].
  destruct (choose_cell (p_size puz) rnd k) as [c k1]; cbn [fst] in Hc; subst c.
  destruct (choose_neighbour_adjacent (p_size puz) x y rnd k1)
    as ((x' & y' & Hx' & Hy' & Hn) & Hadj); auto.
  destruct (choose_neighbour (p_size puz) (CDOK_POS x y) rnd k1) as [cn k2].
  cbn [fst] in Hn, Hadj; subst cn.
  assert (Hc1 : 0 <= CDOK_POS x y < CDOK_CELLS)
    by (apply CDOK_POS_range; lia).
  assert (Hc2 : 0 <= CDOK_POS x' y' < CDOK_CELLS)
    by (apply CDOK_POS_range; lia).
  destruct (mut_join_cells_ok work (CDOK_POS x y) (CDOK_POS x' y') solution fl
                              rnd k2 Hinv Hc1 Hc2 Hadj)
    as (w & k3 & Hj & Hinv').
  destruct (mut_join_cells_seed work (CDOK_POS x y) (CDOK_POS x' y') solution
              fl rnd k2 w k3 Hinv Hc1 Hc2 Hadj Hgiv Hcages Hj)
    as [Hgiv' Hcages'].
  rewrite Hj; cbn [obind].
  apply mut_join_cells_frame in Hj as [Hfs Hfl].
  assert (Hw' : generator_ok w)
    by (split; [exact Hinv'|split; [rewrite Hfs; unfold CDOK_SIZE; lia
                                   |rewrite Hfl; exact Hwlen]]).
  assert (Hgw : generated fl w solution) by (split; auto).
  assert (Hsw : p_size w = p_size puz) by congruence.
  destruct (cdok_solve_returns w (generator_ok_solver w Hw'))
    as (r & sol & d & Hsolve).
  rewrite Hsolve; cbn [obind].
  destruct (_ && _ && _); eauto 12.
Qed.

Lemma harden_loop_seed (solution : list Z) (fl limit : Z)
    (rnd : rand_source) (n : nat) :
  forall puz work b k,
    generated fl puz solution -> generated fl work solution ->
    p_size work = p_size puz ->
    exists puz' work' b' k',
      harden_loop n solution fl limit rnd (puz, work, b, k) =
        Some (puz', work', b', k') /\
      generated fl puz' solution /\ p_size puz' = p_size puz.
Proof.
  induction n as [|n IH]; intros puz work b k Hp Hw Hs; cbn [harden_loop].
  - eauto 10.
  - destruct (harden_step_seed solution fl limit rnd puz work b k Hp Hw Hs)
      as (p1 & w1 & b1 & k1 & -> & Hp1 & Hw1 & Hs1 & Hs2); cbn [obind].
    destruct (IH p1 w1 b1 k1 Hp1 Hw1 ltac:(congruence))
      as (p2 & w2 & b2 & k2 & E & Hp2 & Hs3).
    exists p2, w2, b2, k2; split; [exact E|split; [exact Hp2|congruence]].
Qed.

Lemma harden_seed (solution : list Z) (fl limit : Z) (rnd : rand_source)
    (puz : cdok_puzzle) (b : Z) (k : nat) :
  generated fl puz solution ->
  exists puz' s k',
    harden puz solution b fl limit rnd k = Some (puz', s, k') /\
    generated fl puz' solution /\ p_size puz' = p_size puz.
Proof.
  intros Hp; unfold harden.
  destruct (harden_loop_seed solution fl limit rnd 10 puz puz b k Hp Hp
              eq_refl)
    as (p1 & w1 & b1 & k1 & -> & Hp1 & Hs1); cbn [obind]; eauto 10.
Qed.

Lemma generate_loop_seed (solution : list Z) (fl limit target : Z)
    (rnd : rand_source) (n : nat) :
  forall puz b k,
    generated fl puz solution ->
    exists puz' s k',
      generate_loop n solution fl limit target rnd puz b k =
        Some (puz', s, k') /\
      generated fl puz' solution /\ p_size puz' = p_size puz.
Proof.
  induction n as [|n IH]; intros puz b k Hp; cbn [generate_loop].
  - eauto 10.
  - destruct (_ && _); [eauto 10|].
    destruct (harden_seed solution fl limit rnd puz b k Hp)
      as (p1 & b1 & k1 & -> & Hp1 & Hs1); cbn [obind].
    destruct (IH p1 b1 k1 Hp1) as (p2 & b2 & k2 & E & Hp2 & Hs2).
    exists p2, b2, k2; split; [exact E|split; [exact Hp2|congruence]].
Qed.

(** The puzzle that [cdok_generate] starts from: no groups, every cell
    given. *)
Lemma start_generated (size fl : Z) (solution : list Z) :
  2 <= size <= CDOK_SIZE -> length solution = Z.to_nat CDOK_CELLS ->
  let puz := cdok_init_puzzle size in
  generated fl (mk_puzzle (p_size puz) (p_groups puz) solution
                          (p_group_map puz)) solution.
Proof.
  intros Hs Hl puz.
  split; [|split].
  - split; [exact (init_invariants size)|].
    split; [|exact Hl].
    unfold puz, cdok_init_puzzle, CDOK_SIZE in *; cbn [p_size].
    rewrite uint_cast_small by lia; lia.
  - split; [exact Hl|split; [reflexivity|]].
    intros c Hc; cbn [p_values p_group_map puz cdok_init_puzzle].
    rewrite rd_repeat by exact Hc; reflexivity.
  - intros i Hi _ Hlive; exfalso; apply Hlive.
    unfold grp_at, puz, cdok_init_puzzle; cbn [p_groups].
    rewrite nth_repeat_lt by (unfold CDOK_GROUPS in *; lia); reflexivity.
Qed.

(** ** Label cells *)

Lemma min_index (m : list Z) (n : nat) :
  let min :=
    fold_left (fun min j => if rd m j <? rd m min then j else min)
              (range 1 (1 + Z.of_nat n)) 0 in
  0 <= min <= Z.of_nat n /\
  forall j, 0 <= j <= Z.of_nat n -> rd m min <= rd m j.
Proof.
  induction n as [|n IH]; cbv zeta.
  - rewrite range_nil by lia; cbn [fold_left]; split; [lia|].
    intros j Hj; replace j with 0 by lia; lia.
  - replace (1 + Z.of_nat (S n)) with (1 + Z.of_nat n + 1) by lia.
    rewrite range_snoc, fold_left_app by lia; cbn [fold_left].
    cbv zeta in IH; destruct IH as [Hr Hmin].
    set (min := fold_left _ _ 0) in *.
    destruct (Z.ltb_spec (rd m (1 + Z.of_nat n)) (rd m min)) as [Hlt|Hge].
    + split; [lia|]; intros j Hj.
      destruct (Z.eq_dec j (1 + Z.of_nat n)) as [->|Hne]; [lia|].
      specialize (Hmin j); lia.
    + split; [lia|]; intros j Hj.
      destruct (Z.eq_dec j (1 + Z.of_nat n)) as [->|Hne]; [lia|].
      apply Hmin; lia.
Qed.

Lemma swap_first (m : list Z) (min j : Z) :
  0 <= min < Z.of_nat (length m) -> 0 <= j ->
  rd (wr (wr m min (rd m 0)) 0 (rd m min)) j =
  rd m (if j =? 0 then min else if j =? min then 0 else j).
Proof.
  intros Hmin Hj.
  rewrite rd_wr by (rewrite ?wr_length; lia).
  destruct (Z.eqb_spec j 0) as [E|E].
  { subst j; reflexivity. }
  destruct (Z.eqb_spec 0 j) as [E'|_]; [lia|].
  rewrite rd_wr by lia.
  destruct (Z.eqb_spec j min) as [E1|E1].
  { subst j; rewrite Z.eqb_refl; reflexivity. }
  destruct (Z.eqb_spec min j) as [E2|_]; [lia|reflexivity].
Qed.

Lemma swap_range (min s : Z) :
  0 <= min < s ->
  Permutation
    (map (fun j => if j =? 0 then min else if j =? min then 0 else j)
         (range 0 s))
    (range 0 s).
Proof.
  intros Hmin.
  set (sw := fun j : Z => if j =? 0 then min else if j =? min then 0 else j).
  assert (Hr : forall j, 0 <= j < s -> 0 <= sw j < s).
  { intros j Hj; unfold sw.
    destruct (Z.eqb_spec j 0), (Z.eqb_spec j min); lia. }
  assert (Hinv : forall j, sw (sw j) = j).
  { intros j; unfold sw.
    destruct (Z.eqb_spec j 0) as [E0|E0].
    - destruct (Z.eqb_spec min 0) as [E1|E1]; [lia|].
      rewrite Z.eqb_refl; lia.
    - destruct (Z.eqb_spec j min) as [E1|E1].
      + rewrite Z.eqb_refl; lia.
      + destruct (Z.eqb_spec j 0), (Z.eqb_spec j min); lia. }
  apply NoDup_Permutation.
  - apply NoDup_map_range; intros i j _ _ E.
    rewrite <- (Hinv i), <- (Hinv j), E; reflexivity.
  - rewrite <- (map_id (range 0 s)).
    apply NoDup_map_range; intros i j _ _ E; exact E.
  - intros x; rewrite in_map_iff; split.
    + intros (j & <- & Hj); apply in_range in Hj; apply in_range; auto.
    + intros Hx; apply in_range in Hx; exists (sw x); split; [apply Hinv|].
      apply in_range; auto.
Qed.

Lemma normalize_group_spec (g : cdok_group) :
  0 <= g_size g <= Z.of_nat (length (g_members g)) ->
  let g' := normalize_group g in
  g_type g' = g_type g /\ g_target g' = g_target g /\
  g_size g' = g_size g /\
  length (g_members g') = length (g_members g) /\
  Permutation (live_members g') (live_members g) /\
  (forall c, In c (live_members g) -> rd (g_members g') 0 <= c).
Proof.
  intros Hs; unfold normalize_group.
  destruct (Z.eqb_spec (g_size g) 0) as [Hz|Hz]; cbv zeta.
  { repeat split; auto.
    rewrite live_members_nil by lia; intros c []. }
  destruct (min_index (g_members g) (Z.to_nat (g_size g - 1))) as [Hr Hmin].
  replace (1 + Z.of_nat (Z.to_nat (g_size g - 1))) with (g_size g) in *
    by lia.
  set (min := fold_left _ _ 0) in *.
  cbn [g_type g_target g_size g_members].
  split; [reflexivity|split; [reflexivity|split; [reflexivity|]]].
  split; [rewrite !wr_length; reflexivity|].
  split.
  - unfold live_members; cbn [g_size g_members].
    rewrite (map_ext_in _ (fun j => rd (g_members g)
               (if j =? 0 then min else if j =? min then 0 else j))).
    + rewrite <- (map_map _ (rd (g_members g))).
      apply Permutation_map, swap_range; lia.
    + intros j Hj; apply in_range in Hj; apply swap_first; lia.
  - intros c Hc; apply in_live_members in Hc as (j & Hj & <-).
    rewrite swap_first by lia; cbn [Z.eqb].
    apply Hmin; lia.
Qed.

Lemma normalize_labels_at (puz : cdok_puzzle) :
  length (p_groups puz) = Z.to_nat CDOK_GROUPS ->
  let puz' := normalize_labels puz in
  p_size puz' = p_size puz /\ p_values puz' = p_values puz /\
  p_group_map puz' = p_group_map puz /\
  length (p_groups puz') = length (p_groups puz) /\
  forall i, 0 <= i < CDOK_GROUPS ->
            grp_at puz' i = normalize_group (grp_at puz i).
Proof.
  intros Hl; unfold normalize_labels.
  assert (H : forall n : nat,
             Z.of_nat n <= CDOK_GROUPS ->
             let puz' :=
               fold_left
                 (fun puz i => set_grp puz i (normalize_group (grp_at puz i)))
                 (range 0 (Z.of_nat n)) puz in
             p_size puz' = p_size puz /\ p_values puz' = p_values puz /\
             p_group_map puz' = p_group_map puz /\
             length (p_groups puz') = length (p_groups puz) /\
             forall i, 0 <= i ->
                       grp_at puz' i =
                       if i <? Z.of_nat n then normalize_group (grp_at puz i)
                       else grp_at puz i).
  { induction n as [|n IH]; intros Hn; cbv zeta.
    - rewrite range_nil by lia; cbn [fold_left].
      repeat split; auto.
      intros i Hi; change (Z.of_nat 0) with 0.
      destruct (Z.ltb_spec i 0); [lia|reflexivity].
    - replace (Z.of_nat (S n)) with (Z.of_nat n + 1) in * by lia.
      rewrite range_snoc, fold_left_app by lia; cbn [fold_left].
      destruct IH as (H1 & H2 & H3 & H4 & H5); [lia|].
      set (p := fold_left _ _ puz) in *.
      unfold set_grp at 1 2 3 4; cbn [p_size p_values p_group_map p_groups].
      split; [exact H1|split; [exact H2|split; [exact H3|]]].
      split; [rewrite upd_length; exact H4|].
      intros i Hi.
      change (mk_puzzle (p_size p)
                (upd (p_groups p) (Z.to_nat (Z.of_nat n))
                     (normalize_group (grp_at p (Z.of_nat n))))
                (p_values p) (p_group_map p))
        with (set_grp p (Z.of_nat n) (normalize_group (grp_at p (Z.of_nat n)))).
      destruct (Z.eq_dec i (Z.of_nat n)) as [->|Hne].
      + rewrite grp_at_set_grp
          by (rewrite H4, Hl; unfold CDOK_GROUPS in *; lia).
        rewrite H5 by lia.
        destruct (Z.ltb_spec (Z.of_nat n) (Z.of_nat n)); [lia|].
        destruct (Z.ltb_spec (Z.of_nat n) (Z.of_nat n + 1)); [|lia].
        reflexivity.
      + unfold set_grp, grp_at at 1; cbn [p_groups]; rewrite nth_upd.
        destruct (Nat.eqb_spec (Z.to_nat (Z.of_nat n)) (Z.to_nat i));
          [lia|cbn [andb]].
        fold (grp_at p i); rewrite H5 by lia.
        destruct (Z.ltb_spec i (Z.of_nat n)),
                 (Z.ltb_spec i (Z.of_nat n + 1)); try lia; reflexivity. }
  specialize (H (Z.to_nat CDOK_GROUPS)).
  rewrite Z2Nat.id in H by (unfold CDOK_GROUPS; lia).
  destruct H as (H1 & H2 & H3 & H4 & H5); [lia|].
  repeat split; auto.
  intros i Hi; rewrite H5 by lia.
  destruct (Z.ltb_spec i CDOK_GROUPS); [reflexivity|lia].
Qed.

Lemma values_sum_perm (l l' : list Z) :
  Permutation l l' -> values_sum l = values_sum l'.
Proof.
  unfold values_sum; induction 1; cbn [fold_right]; lia.
Qed.

Lemma values_product_perm (l l' : list Z) :
  Permutation l l' -> values_product l = values_product l'.
Proof.
  unfold values_product; induction 1; cbn [fold_right]; try congruence; lia.
Qed.

Lemma values_max_perm (l l' : list Z) :
  Permutation l l' -> values_max l = values_max l'.
Proof.
  unfold values_max; induction 1; cbn [fold_right]; lia.
Qed.

Lemma normalize_group_cage (f : Z) (g : cdok_group) (solution : list Z) :
  0 <= g_size g <= Z.of_nat (length (g_members g)) ->
  cage_ok f g solution -> cage_ok f (normalize_group g) solution.
Proof.
  intros Hs [Hh Ht].
  destruct (normalize_group_spec g Hs) as (Hty & Htg & Hsz & _ & Hp & _).
  assert (Hv : Permutation (cage_values (normalize_group g) solution)
                           (cage_values g solution))
    by (apply Permutation_map; exact Hp).
  split.
  - unfold cage_holds in *; cbv zeta in *.
    rewrite Hty, Htg, (values_sum_perm _ _ Hv), (values_product_perm _ _ Hv),
            (values_max_perm _ _ Hv); exact Hh.
  - unfold two_cell_ok in *; rewrite Hty, Hsz; exact Ht.
Qed.

Lemma normalize_labels_invariants (puz : cdok_puzzle) :
  cage_invariants puz -> cage_invariants (normalize_labels puz).
Proof.
  intros [(Hlg & Hlm & Hgrp & Hback) Hshape].
  destruct (normalize_labels_at puz Hlg) as (_ & _ & Hm & Hl & Hat).
  assert (Hspec : forall i, 0 <= i < CDOK_GROUPS ->
            let g' := grp_at (normalize_labels puz) i in
            g_size g' = g_size (grp_at puz i) /\
            length (g_members g') = length (g_members (grp_at puz i)) /\
            Permutation (live_members g') (live_members (grp_at puz i))).
  { intros i Hi; cbv zeta; rewrite Hat by exact Hi.
    destruct (Hgrp i Hi) as (Hsz & Hlen & _).
    destruct (normalize_group_spec (grp_at puz i)) as (_ & _ & H1 & H2 & H3 & _);
      [rewrite Hlen; unfold CDOK_GROUP_SIZE in *; lia|].
    split; [exact H1|split; [exact H2|exact H3]]. }
  split; [split; [rewrite Hl; exact Hlg|split; [rewrite Hm; exact Hlm|split]]|].
  - intros i Hi; destruct (Hgrp i Hi) as (Hsz & Hlen & Hnd & Hcells).
    destruct (Hspec i Hi) as (H1 & H2 & H3).
    rewrite H1, H2, Hm.
    split; [exact Hsz|split; [exact Hlen|split]].
    + eapply Permutation_NoDup; [apply Permutation_sym; exact H3|exact Hnd].
    + intros c Hc; apply Hcells, (Permutation_in c H3), Hc.
  - intros c Hc; rewrite Hm; intros Hne.
    destruct (Hback c Hc Hne) as [Hg Hin]; split; [exact Hg|].
    destruct (Hspec _ Hg) as (_ & _ & H3).
    eapply Permutation_in; [apply Permutation_sym; exact H3|exact Hin].
  - intros i Hi; destruct (Hspec i Hi) as (H1 & _ & H3).
    unfold shape_ok; rewrite H1; intros Hlive.
    destruct (Hshape i Hi Hlive) as [H2 Hcon]; split; [exact H2|].
    intros a b Ha Hb.
    apply (linked_mono (fun c => In c (live_members (grp_at puz i)))).
    + intros c Hin; eapply Permutation_in;
        [apply Permutation_sym; exact H3|exact Hin].
    + apply Hcon; [exact (Permutation_in a H3 Ha)|exact (Permutation_in b H3 Hb)].
Qed.

Lemma normalize_labels_generated (f : Z) (puz : cdok_puzzle)
    (solution : list Z) :
  generated f puz solution -> generated f (normalize_labels puz) solution.
Proof.
  intros ((Hinv & Hsize & Hlen) & Hgiv & Hcages).
  pose proof Hinv as [(Hlg & _ & Hgrp & _) _].
  destruct (normalize_labels_at puz Hlg) as (Hs & Hv & Hm & Hl & Hat).
  split; [split; [apply normalize_labels_invariants; exact Hinv|]|split].
  - rewrite Hs, Hv; auto.
  - unfold givens_ok; rewrite Hv, Hm; exact Hgiv.
  - intros i Hi Hne; rewrite Hat by exact Hi.
    destruct (Hgrp i Hi) as (Hsz & Hlen' & _).
    assert (Hb : 0 <= g_size (grp_at puz i) <=
                 Z.of_nat (length (g_members (grp_at puz i))))
      by (rewrite Hlen'; unfold CDOK_GROUP_SIZE in *; lia).
    destruct (normalize_group_spec _ Hb) as (_ & _ & E & _).
    rewrite E; intros Hlive.
    apply normalize_group_cage; auto.
Qed.

(** ** The generated puzzle *)

(** X4.  For a dimension from 2 to 14, where the product of the values of
    the eight cells that a group can have stays below 2^31, and a seed
    grid [solution] whose values in the square are from 1 to the
    dimension, [cdok_generate] returns a puzzle of that dimension in which
    the group invariants hold, the cells outside the groups show the
    seed's values and the cells in groups are blank, and every group in
    use carries one of the four operations with a target that the seed's
    values in its cells produce (under [CDOK_FLAGS_TWO_CELL], difference
    and ratio groups have at most two cells). *)
Theorem cdok_generate_seed_solves (puz : cdok_puzzle) (solution : list Z)
    (size fl iterations limit target : Z) (rnd : rand_source) (k : nat) :
  2 <= size <= 14 -> length solution = Z.to_nat CDOK_CELLS ->
  (forall c, In c (square_cells size) -> 1 <= rd solution c <= size) ->
  exists s puz' k',
    cdok_generate puz solution size fl iterations limit target rnd k =
      Some (s, puz', k') /\
    p_size puz' = size /\ cage_invariants puz' /\
    givens_ok puz' solution /\
    forall i, 0 <= i < CDOK_GROUPS -> g_size (grp_at puz' i) <> 0 ->
              cage_holds (grp_at puz' i) solution /\
              two_cell_ok fl (grp_at puz' i).
Proof.
  intros Hs14 Hl _; unfold cdok_generate.
  assert (Hs : 2 <= size <= CDOK_SIZE) by (unfold CDOK_SIZE; lia).
  destruct (Z.ltb_spec size 2) as [H2|H2]; [lia|].
  pose proof (start_generated size fl solution Hs Hl) as H0.
  cbv zeta in H0.
  set (p0 := mk_puzzle _ _ _ _) in *.
  destruct (generate_loop_seed solution fl limit target rnd
              (Z.to_nat iterations) p0 0 k H0)
    as (p1 & s & k1 & E & Hg & Hsz).
  rewrite E; cbn [obind].
  exists s, (normalize_labels p1), k1; split; [reflexivity|].
  destruct (normalize_labels_generated fl p1 solution Hg)
    as ((Hinv & _) & Hgiv & Hcages).
  split; [|split; [exact Hinv|split; [exact Hgiv|]]].
  - destruct Hg as ((((Hlg & _) & _) & _) & _).
    destruct (normalize_labels_at p1 Hlg) as (Hs1 & _).
    rewrite Hs1, Hsz; unfold p0, cdok_init_puzzle; cbn [p_size].
    apply uint_cast_small; unfold CDOK_SIZE in *; lia.
  - intros i Hi Hlive; apply Hcages; auto; lia.
Qed.

Lemma cdok_generate_seed_solves_witness :
  exists s puz' k',
    cdok_generate (cdok_init_puzzle 0) seed_grid 3 CDOK_FLAGS_NONE 1 0 0
                  seed_draws 0 = Some (s, puz', k') /\
    p_size puz' = 3 /\ cage_invariants puz' /\
    givens_ok puz' seed_grid /\
    forall i, 0 <= i < CDOK_GROUPS -> g_size (grp_at puz' i) <> 0 ->
              cage_holds (grp_at puz' i) seed_grid /\
              two_cell_ok CDOK_FLAGS_NONE (grp_at puz' i).
Proof.
  apply (cdok_generate_seed_solves (cdok_init_puzzle 0) seed_grid 3
           CDOK_FLAGS_NONE 1 0 0 seed_draws 0); [lia|reflexivity|].
  intros c Hc.
  assert (B : forallb (fun c => (1 <=? rd seed_grid c) &&
                                (rd seed_grid c <=? 3))
                      (square_cells 3) = true)
    by (vm_compute; reflexivity).
  rewrite forallb_forall in B; specialize (B c Hc).
  apply andb_true_iff in B as [B1 B2]; apply Z.leb_le in B1, B2; lia.
Defined.

(** X5.  [normalize_labels] changes nothing but the order of the member
    arrays: the dimension, the values, the group map and every group's
    type, target and size stay, every group in use keeps its set of cells,
    and afterwards its first member is the cell with the smallest grid
    index. *)
Theorem normalize_labels_least_first (puz : cdok_puzzle) :
  map_ok puz ->
  let puz' := normalize_labels puz in
  p_size puz' = p_size puz /\ p_values puz' = p_values puz /\
  p_group_map puz' = p_group_map puz /\
  forall i, 0 <= i < CDOK_GROUPS ->
    g_type (grp_at puz' i) = g_type (grp_at puz i) /\
    g_target (grp_at puz' i) = g_target (grp_at puz i) /\
    g_size (grp_at puz' i) = g_size (grp_at puz i) /\
    Permutation (live_members (grp_at puz' i)) (live_members (grp_at puz i)) /\
    forall c, In c (live_members (grp_at puz' i)) ->
              rd (g_members (grp_at puz' i)) 0 <= c.
Proof.
  intros (Hlg & _ & Hgrp & _).
  destruct (normalize_labels_at puz Hlg) as (Hs & Hv & Hm & _ & Hat).
  cbv zeta; split; [exact Hs|split; [exact Hv|split; [exact Hm|]]].
  intros i Hi; rewrite Hat by exact Hi.
  destruct (Hgrp i Hi) as (Hsz & Hlen & _).
  destruct (normalize_group_spec (grp_at puz i))
    as (H1 & H2 & H3 & _ & H4 & H5);
    [rewrite Hlen; unfold CDOK_GROUP_SIZE in *; lia|].
  split; [exact H1|split; [exact H2|split; [exact H3|split; [exact H4|]]]].
  intros c Hc; apply H5, (Permutation_in c H4), Hc.
Qed.

Lemma normalize_labels_least_first_witness :
  map_ok full_puzzle /\
  let puz' := normalize_labels full_puzzle in
  p_size puz' = p_size full_puzzle /\ p_values puz' = p_values full_puzzle /\
  p_group_map puz' = p_group_map full_puzzle /\
  forall i, 0 <= i < CDOK_GROUPS ->
    g_type (grp_at puz' i) = g_type (grp_at full_puzzle i) /\
    g_target (grp_at puz' i) = g_target (grp_at full_puzzle i) /\
    g_size (grp_at puz' i) = g_size (grp_at full_puzzle i) /\
    Permutation (live_members (grp_at puz' i))
                (live_members (grp_at full_puzzle i)) /\
    forall c, In c (live_members (grp_at puz' i)) ->
              rd (g_members (grp_at puz' i)) 0 <= c.
Proof.
  split; [exact (proj1 full_puzzle_invariants)|].
  apply (normalize_labels_least_first full_puzzle).
  exact (proj1 full_puzzle_invariants).
Defined.

(** ** Row and column candidates *)

Lemma rd_map_range (f : Z -> Z) (n c : Z) :
  0 <= c < n -> rd (map f (range 0 n)) c = f c.
Proof.
  intros Hc; unfold rd, range.
  rewrite map_map.
  rewrite (nth_indep _ 0 (f (0 + Z.of_nat 0)))
    by (rewrite length_map, length_seq; lia).
  rewrite (map_nth (fun k => f (0 + Z.of_nat k)) (seq 0 (Z.to_nat (n - 0))) 0%nat).
  rewrite seq_nth by lia; f_equal; lia.
Qed.

Lemma land_single_set (s v : Z) :
  1 <= v -> Z.land s (CDOK_SET_SINGLE v) <> 0 -> Z.testbit s (v - 1) = true.
Proof.
  intros Hv H; apply Z.eqb_neq in H.
  rewrite land_single_zero in H by exact Hv.
  destruct (Z.testbit s (v - 1)); [reflexivity|discriminate].
Qed.

(** After the first loop of [build_rc_candidates] every value of the grid
    is marked in the set of its row and in the set of its column. *)
Lemma rc_marks (values : list Z) (n : nat) :
  (n <= 256)%nat ->
  let st :=
    fold_left
      (fun '(rows, cols) i =>
         let v := rd values i in
         if v =? 0 then (rows, cols)
         else
           let s := cdok_set_cast (CDOK_SET_SINGLE v) in
           (wr rows (CDOK_POS_Y i) (Z.lor (rd rows (CDOK_POS_Y i)) s),
            wr cols (CDOK_POS_X i) (Z.lor (rd cols (CDOK_POS_X i)) s)))
      (range 0 (Z.of_nat n))
      (repeat 0 (Z.to_nat CDOK_SIZE), repeat 0 (Z.to_nat CDOK_SIZE)) in
  length (fst st) = 16%nat /\ length (snd st) = 16%nat /\
  forall c, 0 <= c < Z.of_nat n -> 1 <= rd values c <= 16 ->
            Z.testbit (rd (fst st) (CDOK_POS_Y c)) (rd values c - 1) = true /\
            Z.testbit (rd (snd st) (CDOK_POS_X c)) (rd values c - 1) = true.
Proof.
  induction n as [|n IH]; intros Hn; cbv zeta.
  - rewrite range_nil by lia; cbn [fold_left fst snd].
    split; [reflexivity|split; [reflexivity|intros c Hc; lia]].
  - replace (Z.of_nat (S n)) with (Z.of_nat n + 1) by lia.
    rewrite range_snoc, fold_left_app by lia; cbn [fold_left].
    cbv zeta in IH; destruct IH as (Hr & Hc & Hm); [lia|].
    destruct (fold_left _ (range 0 (Z.of_nat n)) _) as [rows cols].
    cbn [fst snd] in *.
    assert (Hy := CDOK_POS_Y_range (Z.of_nat n) ltac:(lia)).
    assert (Hx := CDOK_POS_X_range (Z.of_nat n)).
    destruct (Z.eqb_spec (rd values (Z.of_nat n)) 0) as [Hz|Hz];
      cbn [fst snd].
    + split; [exact Hr|split; [exact Hc|]].
      intros c Hcr Hv; apply Hm; [|exact Hv].
      destruct (Z.eq_dec c (Z.of_nat n)) as [->|]; lia.
    + rewrite !wr_length; split; [exact Hr|split; [exact Hc|]].
      intros c Hcr Hv.
      assert (Hyc := CDOK_POS_Y_range c ltac:(lia)).
      assert (Hxc := CDOK_POS_X_range c).
      rewrite !rd_wr by lia.
      destruct (Z.eq_dec c (Z.of_nat n)) as [->|Hne].
      * rewrite !Z.eqb_refl, !Z.lor_spec, !testbit_set_cast by lia.
        rewrite !testbit_set_single by lia.
        rewrite Z.eqb_refl.
        destruct (Z.ltb_spec (rd values (Z.of_nat n) - 1) 16); [|lia].
        cbn [andb]; rewrite !orb_true_r; auto.
      * destruct (Hm c ltac:(lia) Hv) as [H1 H2].
        split.
        -- destruct (Z.eqb_spec (CDOK_POS_Y (Z.of_nat n)) (CDOK_POS_Y c))
             as [E|E]; [rewrite Z.lor_spec, E, H1|]; auto.
        -- destruct (Z.eqb_spec (CDOK_POS_X (Z.of_nat n)) (CDOK_POS_X c))
             as [E|E]; [rewrite Z.lor_spec, E, H2|]; auto.
Qed.

(** A candidate of a cell by rows and columns that lies in the range of
    values occurs nowhere in the cell's row and column. *)
Lemma rc_candidates_sound (values : list Z) (max c c' : Z) :
  0 <= c < 256 -> 0 <= c' < 256 ->
  1 <= rd values c' <= 16 -> rd values c' <= max ->
  CDOK_POS_Y c' = CDOK_POS_Y c \/ CDOK_POS_X c' = CDOK_POS_X c ->
  Z.testbit (rd (build_rc_candidates values max) c) (rd values c' - 1) = false.
Proof.
  intros Hc Hc' Hv Hmax Hline; unfold build_rc_candidates.
  pose proof (rc_marks values 256 ltac:(lia)) as H.
  cbv zeta in H; change (Z.of_nat 256) with CDOK_CELLS in H.
  destruct (fold_left _ (range 0 CDOK_CELLS) _) as [rows cols].
  cbn [fst snd] in H; destruct H as (_ & _ & Hm).
  destruct (Hm c' ltac:(unfold CDOK_CELLS; lia) Hv) as [H1 H2].
  rewrite rd_map_range by (unfold CDOK_CELLS; lia).
  rewrite testbit_set_cast, Z.lxor_spec, Z.lor_spec, set_ones_ones by lia.
  rewrite Z.testbit_ones_nonneg by lia.
  destruct (Z.ltb_spec (rd values c' - 1) max) as [_|]; [|lia].
  destruct Hline as [E|E]; rewrite <- E, ?H1, ?H2, ?orb_true_r; reflexivity.
Qed.

(** ** Candidates by group *)

(** [constrain_by_groups] only removes candidates, and what it leaves in
    a member of a group in use is a candidate of that group. *)
Lemma constrain_by_groups_sound (puz : cdok_puzzle) (values cands : list Z) :
  length cands = 256%nat ->
  (forall i c, 0 <= i < CDOK_GROUPS -> g_size (grp_at puz i) <> 0 ->
               In c (live_members (grp_at puz i)) -> 0 <= c < 256) ->
  let out := constrain_by_groups puz values cands in
  length out = 256%nat /\
  forall c b, 0 <= c -> Z.testbit (rd out c) b = true ->
    Z.testbit (rd cands c) b = true /\
    forall i, 0 <= i < CDOK_GROUPS -> g_size (grp_at puz i) <> 0 ->
              In c (live_members (grp_at puz i)) ->
              Z.testbit (group_candidates (grp_at puz i) values (p_size puz)) b
              = true.
Proof.
  intros Hlen Hin; unfold constrain_by_groups.
  assert (H : forall n : nat,
             Z.of_nat n <= CDOK_GROUPS ->
             let out :=
               fold_left
                 (fun candidates i =>
                    let g := grp_at puz i in
                    if g_size g =? 0 then candidates
                    else
                      let c := group_candidates g values (p_size puz) in
                      fold_left
                        (fun candidates j =>
                           let m := rd (g_members g) j in
                           wr candidates m (Z.land (rd candidates m) c))
                        (range 0 (g_size g)) candidates)
                 (range 0 (Z.of_nat n)) cands in
             length out = 256%nat /\
             forall c b, 0 <= c -> Z.testbit (rd out c) b = true ->
               Z.testbit (rd cands c) b = true /\
               forall i, 0 <= i < Z.of_nat n -> g_size (grp_at puz i) <> 0 ->
                         In c (live_members (grp_at puz i)) ->
                         Z.testbit (group_candidates (grp_at puz i) values
                                                     (p_size puz)) b = true).
  { induction n as [|n IH]; intros Hn; cbv zeta.
    - rewrite range_nil by lia; cbn [fold_left].
      split; [exact Hlen|]; intros c b Hc Hb; split; [exact Hb|].
      intros i Hi; lia.
    - replace (Z.of_nat (S n)) with (Z.of_nat n + 1) by lia.
      rewrite range_snoc, fold_left_app by lia; cbn [fold_left].
      cbv zeta in IH; destruct IH as (Hl & Hs); [lia|].
      set (prev := fold_left _ (range 0 (Z.of_nat n)) cands) in *.
      set (g := grp_at puz (Z.of_nat n)).
      destruct (Z.eqb_spec (g_size g) 0) as [Hz|Hz].
      + split; [exact Hl|]; intros c b Hc Hb.
        destruct (Hs c b Hc Hb) as [H1 H2]; split; [exact H1|].
        intros i Hi Hlive Hmem.
        destruct (Z.eq_dec i (Z.of_nat n)) as [->|Hne]; [contradiction|].
        apply H2; auto; lia.
      + set (gc := group_candidates g values (p_size puz)).
        assert (Hinner : forall k : nat,
                  Z.of_nat k <= g_size g ->
                  let out :=
                    fold_left
                      (fun candidates j =>
                         let m := rd (g_members g) j in
                         wr candidates m (Z.land (rd candidates m) gc))
                      (range 0 (Z.of_nat k)) prev in
                  length out = 256%nat /\
                  forall c b, 0 <= c -> Z.testbit (rd out c) b = true ->
                    Z.testbit (rd prev c) b = true /\
                    ((exists j, 0 <= j < Z.of_nat k /\ rd (g_members g) j = c) ->
                     Z.testbit gc b = true)).
        { induction k as [|k IHk]; intros Hk; cbv zeta.
          - rewrite range_nil by lia; cbn [fold_left].
            split; [exact Hl|]; intros c b Hc Hb; split; [exact Hb|].
            intros (j & Hj & _); lia.
          - replace (Z.of_nat (S k)) with (Z.of_nat k + 1) by lia.
            rewrite range_snoc, fold_left_app by lia; cbn [fold_left].
            cbv zeta in IHk; destruct IHk as (Hl' & Hs'); [lia|].
            set (cur := fold_left _ (range 0 (Z.of_nat k)) prev) in *.
            set (m := rd (g_members g) (Z.of_nat k)).
            assert (Hm : 0 <= m < 256).
            { apply (Hin (Z.of_nat n)); [lia|exact Hz|].
              apply in_live_members; exists (Z.of_nat k).
              split; [fold g; lia|reflexivity]. }
            split; [rewrite wr_length; exact Hl'|].
            intros c b Hc Hb; rewrite rd_wr in Hb by (rewrite ?Hl'; lia).
            destruct (Z.eqb_spec m c) as [E|E].
            + rewrite Z.land_spec in Hb; apply andb_true_iff in Hb as [Hb1 Hb2].
              subst c; destruct (Hs' m b Hc Hb1) as [H1 H2].
              split; [exact H1|intros _; exact Hb2].
            + destruct (Hs' c b Hc Hb) as [H1 H2]; split; [exact H1|].
              intros (j & Hj & Ej); apply H2.
              destruct (Z.eq_dec j (Z.of_nat k)) as [->|Hne];
                [contradiction|].
              exists j; split; [lia|exact Ej]. }
        specialize (Hinner (Z.to_nat (g_size g))).
        destruct (Z.le_gt_cases 0 (g_size g)) as [Hsz|Hneg].
        2:{ rewrite range_nil by lia; cbn [fold_left].
            split; [exact Hl|]; intros c b Hc Hb.
            destruct (Hs c b Hc Hb) as [H1 H2]; split; [exact H1|].
            intros i Hi Hlive Hmem.
            destruct (Z.eq_dec i (Z.of_nat n)) as [->|Hne].
            - fold g in Hmem; rewrite live_members_nil in Hmem by lia.
              destruct Hmem.
            - apply H2; auto; lia. }
        rewrite Z2Nat.id in Hinner by exact Hsz.
        cbv zeta in Hinner; destruct Hinner as (Hl2 & Hs2); [lia|].
        split; [exact Hl2|].
        intros c b Hc Hb; destruct (Hs2 c b Hc Hb) as [H1 H2].
        destruct (Hs c b Hc H1) as [H3 H4]; split; [exact H3|].
        intros i Hi Hlive Hmem.
        destruct (Z.eq_dec i (Z.of_nat n)) as [->|Hne].
        * apply H2; apply in_live_members in Hmem; exact Hmem.
        * apply H4; auto; lia. }
  specialize (H (Z.to_nat CDOK_GROUPS)).
  rewrite Z2Nat.id in H by (unfold CDOK_GROUPS; lia).
  apply H; lia.
Qed.

(** ** The last empty cell of a group *)

Lemma single_zero : CDOK_SET_SINGLE 0 = 0.
Proof. reflexivity. Qed.

Lemma testbit_cast_single (t v : Z) :
  1 <= v ->
  Z.testbit (cdok_set_cast (CDOK_SET_SINGLE t)) (v - 1) = true -> v = t.
Proof.
  intros Hv H; rewrite testbit_set_cast in H by lia.
  apply andb_true_iff in H as [H _].
  destruct (Z.le_gt_cases 1 t) as [Ht|Ht].
  - rewrite testbit_set_single in H by exact Ht.
    apply Z.eqb_eq in H; lia.
  - unfold CDOK_SET_SINGLE in H.
    rewrite Z.shiftl_spec in H by lia.
    rewrite Z.bits_above_log2 in H; [discriminate|lia|].
    change (Z.log2 1) with 0; lia.
Qed.

Lemma addends_for_one (t max v : Z) :
  1 <= v -> Z.testbit (addends_for t 1 max) (v - 1) = true -> v = t.
Proof.
  intros Hv; unfold addends_for.
  destruct (t <? 1); cbn [orb Z.ltb Z.eqb Z.compare];
    [rewrite Z.bits_0; discriminate|].
  destruct (_ && _); [|rewrite Z.bits_0; discriminate].
  apply testbit_cast_single; exact Hv.
Qed.

Lemma factors_for_one (t max v : Z) :
  1 <= v -> Z.testbit (factors_for t 1 max) (v - 1) = true -> v = t.
Proof.
  intros Hv; unfold factors_for.
  destruct (t <? 1); cbn [orb Z.ltb Z.eqb Z.compare];
    [rewrite Z.bits_0; discriminate|].
  destruct (_ || _); [|rewrite Z.bits_0; discriminate].
  apply testbit_cast_single; exact Hv.
Qed.

Lemma sum_fold (l : list Z) (s : Z) :
  fold_left (fun s m => s + m) l s = s + values_sum l.
Proof.
  revert s; induction l as [|a l IH]; intros s; cbn [fold_left];
    unfold values_sum in *; cbn [fold_right]; [lia|rewrite IH; lia].
Qed.

Lemma product_fold (l : list Z) (p : Z) :
  fold_left (fun p m => p * m) l p = p * values_product l.
Proof.
  revert p; induction l as [|a l IH]; intros p; cbn [fold_left];
    unfold values_product in *; cbn [fold_right]; [lia|rewrite IH; lia].
Qed.

Lemma max_sum_fold (l : list Z) (mm ps : Z) :
  -1 <= mm ->
  fold_left (fun '(mm, ps) m => ((if m >? mm then m else mm), ps + m))
            l (mm, ps) =
  (Z.max mm (values_max l), ps + values_sum l).
Proof.
  revert mm ps; induction l as [|a l IH]; intros mm ps Hm; cbn [fold_left].
  - unfold values_max, values_sum; cbn [fold_right]; f_equal; lia.
  - rewrite IH by (destruct (Z.gtb_spec a mm); lia).
    unfold values_max, values_sum; cbn [fold_right].
    f_equal; [|lia]; destruct (Z.gtb_spec a mm); lia.
Qed.

Lemma product_max_fold (l : list Z) (pp mm : Z) :
  -1 <= mm ->
  fold_left (fun '(pp, mm) m => (pp * m, (if m >? mm then m else mm)))
            l (pp, mm) =
  (pp * values_product l, Z.max mm (values_max l)).
Proof.
  revert pp mm; induction l as [|a l IH]; intros pp mm Hm; cbn [fold_left].
  - unfold values_max, values_product; cbn [fold_right]; f_equal; lia.
  - rewrite IH by (destruct (Z.gtb_spec a mm); lia).
    unfold values_max, values_product; cbn [fold_right].
    f_equal; [lia|]; destruct (Z.gtb_spec a mm); lia.
Qed.

(** For positive values the sum and the product are at least the
    largest, which is one of them. *)
Lemma positive_values (l : list Z) :
  l <> [] -> Forall (fun k => 1 <= k) l ->
  1 <= values_max l /\ values_max l <= values_sum l /\
  values_max l <= values_product l /\ 1 <= values_product l.
Proof.
  intros Hne Hpos; induction Hpos as [|a l Ha Hl IH]; [contradiction|].
  unfold values_max, values_sum, values_product in *; cbn [fold_right].
  destruct l as [|b l].
  - cbn [fold_right]; lia.
  - destruct IH as (H1 & H2 & H3 & H4); [discriminate|].
    set (m := fold_right Z.max (-1) (b :: l)) in *.
    set (s := fold_right Z.add 0 (b :: l)) in *.
    set (p := fold_right Z.mul 1 (b :: l)) in *.
    split; [lia|split; [lia|split; [|nia]]].
    destruct (Z.max_spec a m) as [[_ ->]|[_ ->]]; nia.
Qed.

Lemma sum_last (t max v : Z) (ks : list Z) :
  1 <= v ->
  Z.testbit (sum_candidates t (Z.of_nat (length ks) + 1) ks max) (v - 1)
  = true ->
  values_sum (v :: ks) = t.
Proof.
  intros Hv; unfold sum_candidates; cbv zeta.
  replace (Z.of_nat (length ks) + 1 - Z.of_nat (length ks)) with 1 by lia.
  rewrite sum_fold; intros H; apply addends_for_one in H; [|exact Hv].
  unfold values_sum in *; cbn [fold_right]; lia.
Qed.

Lemma product_last (t max v : Z) (ks : list Z) :
  1 <= v ->
  Z.testbit (product_candidates t (Z.of_nat (length ks) + 1) ks max) (v - 1)
  = true ->
  values_product (v :: ks) = t.
Proof.
  intros Hv; unfold product_candidates; cbv zeta.
  replace (Z.of_nat (length ks) + 1 - Z.of_nat (length ks)) with 1 by lia.
  rewrite product_fold, Z.mul_1_l.
  destruct (Z.eqb_spec (Z.rem t (values_product ks)) 0) as [Hr|Hr];
    [|rewrite Z.bits_0; discriminate].
  intros H; apply factors_for_one in H; [|exact Hv].
  pose proof (Z.quot_rem' t (values_product ks)) as E.
  unfold values_product in *; cbn [fold_right]; lia.
Qed.

Lemma difference_last (t max v : Z) (ks : list Z) :
  1 <= v -> 0 <= t -> ks <> [] -> Forall (fun k => 1 <= k) ks ->
  Z.testbit (difference_candidates t (Z.of_nat (length ks) + 1) ks max)
            (v - 1) = true ->
  values_max (v :: ks) - (values_sum (v :: ks) - values_max (v :: ks)) = t.
Proof.
  intros Hv Ht Hne Hpos; unfold difference_candidates; cbv zeta.
  destruct (positive_values ks Hne Hpos) as (H1 & H2 & _).
  rewrite max_sum_fold by lia.
  replace (Z.max (-1) (values_max ks)) with (values_max ks) by lia.
  rewrite Z.add_0_l, Z.eqb_refl.
  replace (Z.of_nat (length ks) + 1 - Z.of_nat (length ks)) with 1 by lia.
  assert (Hlen : 1 <= Z.of_nat (length ks))
    by (destruct ks; [contradiction|cbn [length]; lia]).
  destruct (Z.leb_spec 1 (Z.of_nat (length ks))) as [_|]; [|lia].
  rewrite Z.lor_0_l.
  assert (Hall : values_max (v :: ks) = Z.max v (values_max ks) /\
                 values_sum (v :: ks) = v + values_sum ks)
    by (unfold values_max, values_sum; cbn [fold_right]; auto).
  destruct Hall as [-> ->].
  assert (Hfirst : Z.testbit
                     (addends_for (values_max ks * 2 - values_sum ks - t) 1 max)
                     (v - 1) = true ->
                   Z.max v (values_max ks) -
                   (v + values_sum ks - Z.max v (values_max ks)) = t).
  { intros H; apply addends_for_one in H; [|exact Hv]; lia. }
  destruct (_ <=? max); [|exact Hfirst].
  rewrite testbit_set_cast, Z.lor_spec by lia.
  intros H; apply andb_true_iff in H as [H _].
  apply orb_true_iff in H as [H|H]; [apply Hfirst; exact H|].
  rewrite testbit_set_single in H by lia.
  apply Z.eqb_eq in H; lia.
Qed.

Lemma ratio_last (t max v : Z) (ks : list Z) :
  1 <= v -> 0 <= t -> ks <> [] -> Forall (fun k => 1 <= k) ks ->
  Z.testbit (ratio_candidates t (Z.of_nat (length ks) + 1) ks max)
            (v - 1) = true ->
  values_max (v :: ks) * values_max (v :: ks) = t * values_product (v :: ks).
Proof.
  intros Hv Ht Hne Hpos; unfold ratio_candidates; cbv zeta.
  destruct (positive_values ks Hne Hpos) as (H1 & _ & H3 & H4).
  rewrite product_max_fold by lia.
  replace (Z.max (-1) (values_max ks)) with (values_max ks) by lia.
  rewrite Z.mul_1_l, Z.eqb_refl.
  replace (Z.of_nat (length ks) + 1 - Z.of_nat (length ks)) with 1 by lia.
  assert (Hlen : 1 <= Z.of_nat (length ks))
    by (destruct ks; [contradiction|cbn [length]; lia]).
  destruct (Z.leb_spec 1 (Z.of_nat (length ks))) as [_|]; [|lia].
  cbn [andb].
  assert (Hall : values_max (v :: ks) = Z.max v (values_max ks) /\
                 values_product (v :: ks) = v * values_product ks)
    by (unfold values_max, values_product; cbn [fold_right]; auto).
  destruct Hall as [-> ->].
  set (mm := values_max ks) in *; set (pp := values_product ks) in *.
  assert (Hfirst : Z.testbit
                     (if Z.rem (mm * mm) (pp * t) =? 0
                      then Z.lor 0 (factors_for (Z.quot (mm * mm) (pp * t)) 1 max)
                      else 0) (v - 1) = true ->
                   Z.max v mm * Z.max v mm = t * (v * pp)).
  { destruct (Z.eqb_spec (Z.rem (mm * mm) (pp * t)) 0) as [Hr|Hr];
      [|rewrite Z.bits_0; discriminate].
    rewrite Z.lor_0_l; intros H; apply factors_for_one in H; [|exact Hv].
    pose proof (Z.quot_rem' (mm * mm) (pp * t)) as E.
    rewrite Hr, <- H, Z.add_0_r in E.
    clearbody mm pp.
    assert (Ht1 : 1 <= t) by nia.
    assert (Hmv : mm * v <= pp * t * v).
    { apply Z.mul_le_mono_nonneg_r; [lia|].
      apply Z.le_trans with (pp * 1); [lia|].
      apply Z.mul_le_mono_nonneg_l; lia. }
    assert (Hle : v <= mm) by nia.
    rewrite Z.max_r by lia; lia. }
  destruct (_ <=? max); [|exact Hfirst].
  rewrite testbit_set_cast, Z.lor_spec by lia.
  intros H; apply andb_true_iff in H as [H _].
  apply orb_true_iff in H as [H|H]; [apply Hfirst; exact H|].
  destruct (Z.le_gt_cases 1 (pp * t)) as [Hp|Hp].
  - rewrite testbit_set_single in H by lia.
    apply Z.eqb_eq in H; clearbody mm pp.
    assert (Ht1 : 1 <= t) by nia.
    assert (Hle : mm <= v).
    { apply Z.le_trans with (pp * 1); [lia|].
      replace v with (pp * t) by lia.
      apply Z.mul_le_mono_nonneg_l; lia. }
    rewrite Z.max_l by lia; nia.
  - clearbody mm pp; replace (pp * t) with 0 in H by nia.
    rewrite single_zero, Z.bits_0 in H; discriminate.
Qed.

Lemma filter_all (f : Z -> bool) (l : list Z) :
  (forall x, In x l -> f x = true) -> filter f l = l.
Proof.
  induction l as [|a l IH]; intros H; cbn [filter]; [reflexivity|].
  rewrite (H a) by (left; reflexivity); f_equal; apply IH.
  intros x Hx; apply H; right; exact Hx.
Qed.

(** Filling the one empty cell of a list of distinct cells: the values of
    the list afterwards are the new value and the values that were
    there. *)
Lemma known_after (values : list Z) (cell v : Z) (L : list Z) :
  NoDup L -> In cell L -> (forall c, In c L -> 0 <= c) ->
  0 <= cell < Z.of_nat (length values) -> rd values cell = 0 ->
  (forall c, In c L -> c <> cell -> rd values c <> 0) ->
  Permutation (map (rd (wr values cell v)) L)
              (v :: filter (fun x => negb (x =? 0)) (map (rd values) L)).
Proof.
  intros Hnd Hin Hpos Hcell Hz Hnz.
  induction L as [|a L IH]; [destruct Hin|].
  inversion Hnd as [|a' L' Ha HndL]; subst.
  cbn [map filter].
  destruct (Z.eq_dec a cell) as [->|Hne].
  - rewrite rd_wr_same, Hz by exact Hcell; cbn [Z.eqb negb].
    assert (E1 : map (rd (wr values cell v)) L = map (rd values) L).
    { apply map_ext_in; intros c Hc; apply rd_wr_other.
      - apply Hpos; right; exact Hc.
      - intros E; subst c; contradiction. }
    rewrite E1, filter_all; [reflexivity|].
    intros x Hx; apply in_map_iff in Hx as (c & <- & Hc).
    apply negb_true_iff, Z.eqb_neq, Hnz; [right; exact Hc|].
    intros E; subst c; contradiction.
  - rewrite rd_wr_other by (try apply Hpos; auto; left; reflexivity).
    assert (Hza : rd values a <> 0) by (apply Hnz; auto; left; reflexivity).
    destruct (Z.eqb_spec (rd values a) 0) as [E|_]; [contradiction|].
    cbn [negb].
    eapply Permutation_trans; [apply perm_skip, IH|apply perm_swap].
    + exact HndL.
    + destruct Hin as [E|Hin]; [contradiction|exact Hin].
    + intros c Hc; apply Hpos; right; exact Hc.
    + intros c Hc; apply Hnz; right; exact Hc.
Qed.

(** The value that the solver puts into the last empty cell of a group
    satisfies the group's clue. *)
Lemma group_candidates_last (g : cdok_group) (values : list Z)
    (cell v max : Z) :
  2 <= g_size g -> NoDup (live_members g) -> In cell (live_members g) ->
  (forall c, In c (live_members g) -> 0 <= c) ->
  0 <= cell < Z.of_nat (length values) -> rd values cell = 0 ->
  (forall c, In c (live_members g) -> c <> cell -> 1 <= rd values c) ->
  0 <= g_target g -> 1 <= v ->
  Z.testbit (group_candidates g values max) (v - 1) = true ->
  cage_holds g (wr values cell v).
Proof.
  intros Hsz Hnd Hin Hpos Hcell Hz Hnz Ht Hv Hbit.
  assert (Hperm : Permutation (cage_values g (wr values cell v))
                              (v :: group_known g values)).
  { unfold cage_values, group_known.
    rewrite <- (map_map (rd (g_members g)) (rd values)).
    apply known_after; auto.
    intros c Hc Hne; specialize (Hnz c Hc Hne); lia. }
  set (ks := group_known g values) in *.
  assert (Hlen : g_size g = Z.of_nat (length ks) + 1).
  { apply Permutation_length in Hperm.
    unfold cage_values, live_members in Hperm.
    rewrite !length_map, range_length in Hperm; cbn [length] in Hperm; lia. }
  assert (Hne : ks <> []) by (intros E; rewrite E in Hlen; cbn in Hlen; lia).
  assert (Hks : Forall (fun k => 1 <= k) ks).
  { apply Forall_forall; intros k Hk; unfold ks, group_known in Hk.
    apply filter_In in Hk as [Hk Hk0].
    apply in_map_iff in Hk as (j & <- & Hj).
    apply negb_true_iff, Z.eqb_neq in Hk0.
    apply Hnz; [apply in_live_members; apply in_range in Hj; eauto|].
    intros E; rewrite E in Hk0; contradiction. }
  unfold group_candidates in Hbit; fold ks in Hbit; rewrite Hlen in Hbit.
  unfold cage_holds; cbv zeta.
  rewrite (values_sum_perm _ _ Hperm), (values_product_perm _ _ Hperm),
          (values_max_perm _ _ Hperm).
  destruct (Z.eqb_spec (g_type g) CDOK_SUM) as [E1|E1].
  { left; split; [exact E1|eapply sum_last; eauto]. }
  destruct (Z.eqb_spec (g_type g) CDOK_DIFFERENCE) as [E2|E2].
  { right; left; split; [exact E2|eapply difference_last; eauto]. }
  destruct (Z.eqb_spec (g_type g) CDOK_PRODUCT) as [E3|E3].
  { right; right; left; split; [exact E3|eapply product_last; eauto]. }
  destruct (Z.eqb_spec (g_type g) CDOK_RATIO) as [E4|E4].
  { right; right; right; split; [exact E4|eapply ratio_last; eauto]. }
  rewrite Z.bits_0 in Hbit; discriminate.
Qed.

(** ** The most constrained cell *)

Lemma fold_left_map_arg {A B C : Type} (F : A -> C -> A) (h : B -> C)
    (l : list B) (a : A) :
  fold_left F (map h l) a = fold_left (fun a x => F a (h x)) l a.
Proof.
  revert a; induction l as [|x l IH]; intros a; cbn [map fold_left]; auto.
Qed.

Lemma fold_left_flat_map_arg {A B C : Type} (F : A -> C -> A)
    (h : B -> list C) (l : list B) (a : A) :
  fold_left F (flat_map h l) a =
  fold_left (fun a y => fold_left F (h y) a) l a.
Proof.
  revert a; induction l as [|y l IH]; intros a; cbn [flat_map fold_left];
    [reflexivity|].
  rewrite fold_left_app; apply IH.
Qed.

Lemma square_cells_spec (n c : Z) :
  In c (square_cells n) <->
  exists x y, 0 <= x < n /\ 0 <= y < n /\ c = CDOK_POS x y.
Proof.
  unfold square_cells; rewrite in_flat_map; split.
  - intros (y & Hy & Hc); apply in_map_iff in Hc as (x & <- & Hx).
    apply in_range in Hx, Hy; eauto.
  - intros (x & y & Hx & Hy & ->); exists y; split; [apply in_range; exact Hy|].
    apply in_map_iff; exists x; split; [reflexivity|apply in_range; exact Hx].
Qed.

Lemma CDOK_POS_nonneg (x y : Z) : 0 <= x -> 0 <= y -> 0 <= CDOK_POS x y.
Proof.
  intros Hx Hy; unfold CDOK_POS; apply Z.lor_nonneg; split; [|exact Hx].
  apply Z.shiftl_nonneg; exact Hy.
Qed.

Lemma scan_step (values cands : list Z) (seen : list Z) (st : Z * Z) (c : Z) :
  0 <= c -> scanned values cands seen st ->
  scanned values cands (seen ++ [c])
    ((fun '(best, best_count) c =>
        if rd values c =? 0 then
          let count := count_bits (rd cands c) in
          if (best <? 0) || (count <? best_count)
          then (c, count)
          else (best, best_count)
        else (best, best_count)) st c).
Proof.
  intros Hc Hs; destruct st as [best bc]; cbv beta iota.
  unfold scanned, first_least in *.
  rewrite !filter_app; cbn [filter fst snd] in *.
  destruct (Z.eqb_spec (rd values c) 0) as [Hz|Hz]; cbv zeta.
  2:{ rewrite !app_nil_r; exact Hs. }
  destruct Hs as [[HE Hst]|(Hb & Hbc & E1 & E2 & HE & H1 & H2)].
  - inversion Hst; subst; cbn [Z.ltb Z.compare orb].
    right; cbn [fst snd]; split; [exact Hc|split; [reflexivity|]].
    exists [], []; rewrite HE; split; [reflexivity|].
    split; intros c' [].
  - destruct (Z.ltb_spec best 0) as [|_]; [lia|]; cbn [orb].
    destruct (Z.ltb_spec (count_bits (rd cands c)) bc) as [Hlt|Hge];
      right; cbn [fst snd].
    + split; [exact Hc|split; [reflexivity|]].
      exists (E1 ++ best :: E2), []; rewrite HE; split; [reflexivity|].
      split; [|intros c' []].
      intros c' Hin; apply in_app_iff in Hin as [Hin|[<-|Hin]].
      * specialize (H1 c' Hin); lia.
      * lia.
      * specialize (H2 c' Hin); lia.
    + split; [exact Hb|split; [exact Hbc|]].
      exists E1, (E2 ++ [c]); rewrite HE, <- app_assoc; split; [reflexivity|].
      split; [intros c' Hin; specialize (H1 c' Hin); lia|].
      intros c' Hin; apply in_app_iff in Hin as [Hin|[<-|[]]].
      * specialize (H2 c' Hin); lia.
      * lia.
Qed.

Lemma scan_all (values cands : list Z) (L : list Z) :
  forall seen st,
    (forall c, In c L -> 0 <= c) ->
    scanned values cands seen st ->
    scanned values cands (seen ++ L)
      (fold_left
         (fun '(best, best_count) c =>
            if rd values c =? 0 then
              let count := count_bits (rd cands c) in
              if (best <? 0) || (count <? best_count)
              then (c, count)
              else (best, best_count)
            else (best, best_count)) L st).
Proof.
  induction L as [|c L IH]; intros seen st Hpos Hs; cbn [fold_left].
  - rewrite app_nil_r; exact Hs.
  - change (seen ++ c :: L) with (seen ++ [c] ++ L); rewrite app_assoc.
    exact (IH (seen ++ [c]) _
              (fun c' Hc' => Hpos c' (or_intror Hc'))
              (scan_step values cands seen st c
                         (Hpos c (or_introl eq_refl)) Hs)).
Qed.

(** [search_least_free] returns -1 when the square has no empty cell, and
    otherwise the first of its empty cells with the fewest candidates. *)
Lemma search_least_free_spec (values cands : list Z) (max : Z) :
  let c := search_least_free values cands max in
  (filter (fun c => rd values c =? 0) (square_cells max) = [] /\ c = -1) \/
  (0 <= c /\
   first_least count_bits values cands (square_cells max) c).
Proof.
  unfold search_least_free.
  pose proof (scan_all values cands (square_cells max) [] (-1, 0)) as H.
  cbn [app] in H.
  assert (E : forall l st,
             fold_left
               (fun '(best, best_count) c =>
                  if rd values c =? 0 then
                    let count := count_bits (rd cands c) in
                    if (best <? 0) || (count <? best_count)
                    then (c, count)
                    else (best, best_count)
                  else (best, best_count))
               (flat_map (fun y => map (fun x => CDOK_POS x y) (range 0 max)) l)
               st =
             fold_left
               (fun st y =>
                  fold_left
                    (fun '(best, best_count) x =>
                       let c := CDOK_POS x y in
                       if rd values c =? 0 then
                         let count := count_bits (rd cands c) in
                         if (best <? 0) || (count <? best_count)
                         then (c, count)
                         else (best, best_count)
                       else (best, best_count))
                    (range 0 max) st) l st).
  { induction l as [|y l IH]; intros st; cbn [flat_map fold_left];
      [reflexivity|].
    rewrite fold_left_app, IH; f_equal.
    generalize (range 0 max); intros lx; revert st.
    induction lx as [|x lx IHx]; intros st; cbn [map fold_left];
      [reflexivity|].
    rewrite IHx; destruct st as [best bc]; reflexivity. }
  unfold square_cells in H at 3; rewrite E in H; clear E.
  destruct H as [[HE Hst]|(Hb & _ & Hm)].
  - intros c Hc; apply square_cells_spec in Hc as (x & y & Hx & Hy & ->).
    apply CDOK_POS_nonneg; lia.
  - left; split; reflexivity.
  - left; split; [exact HE|exact (f_equal fst Hst)].
  - right; split; [exact Hb|exact Hm].
Qed.

(** ** Every grid of the search is consistent *)

Lemma square_cells_range (n c : Z) :
  n <= CDOK_SIZE -> In c (square_cells n) -> 0 <= c < 256.
Proof.
  unfold CDOK_SIZE; intros Hn Hc.
  apply square_cells_spec in Hc as (x & y & Hx & Hy & ->).
  apply CDOK_POS_range; lia.
Qed.

(** A candidate that [find_candidates] reports for its cell agrees with
    the cell's row and column and with the cell's group. *)
Lemma find_candidates_sound (puz : cdok_puzzle) (values : list Z)
    (cell cands b : Z) :
  (forall i c, 0 <= i < CDOK_GROUPS -> g_size (grp_at puz i) <> 0 ->
               In c (live_members (grp_at puz i)) -> 0 <= c < 256) ->
  find_candidates puz values = Some (cell, cands) ->
  Z.testbit cands b = true ->
  Z.testbit (rd (build_rc_candidates values (p_size puz)) cell) b = true /\
  forall i, 0 <= i < CDOK_GROUPS -> g_size (grp_at puz i) <> 0 ->
            In cell (live_members (grp_at puz i)) ->
            Z.testbit (group_candidates (grp_at puz i) values (p_size puz)) b
            = true.
Proof.
  intros Hin Hfc Hb; unfold find_candidates in Hfc.
  destruct (constrain_by_groups_sound puz values
              (build_rc_candidates values (p_size puz))) as [_ Hs].
  { unfold build_rc_candidates; destruct (fold_left _ _ _) as [rows cols].
    rewrite length_map, range_length; reflexivity. }
  { exact Hin. }
  set (cs := constrain_by_groups puz values
               (build_rc_candidates values (p_size puz))) in *.
  destruct (Z.ltb_spec (search_least_free values cs (p_size puz)) 0)
    as [|Hge]; [discriminate|].
  assert (E1 : cell = search_least_free values cs (p_size puz)) by congruence.
  assert (E2 : cands = rd cs cell) by congruence.
  subst cands; apply Hs; [lia|exact Hb].
Qed.

Lemma find_candidates_none (puz : cdok_puzzle) (values : list Z) :
  find_candidates puz values = None ->
  forall c, In c (square_cells (p_size puz)) -> rd values c <> 0.
Proof.
  unfold find_candidates.
  set (cs := constrain_by_groups puz values
               (build_rc_candidates values (p_size puz))).
  pose proof (search_least_free_spec values cs (p_size puz)) as H.
  cbv zeta in H.
  destruct (Z.ltb_spec (search_least_free values cs (p_size puz)) 0)
    as [Hlt|]; [|discriminate].
  intros _ c Hc Hz; destruct H as [[HE _]|[Hge _]]; [|lia].
  assert (Hin : In c (filter (fun c => rd values c =? 0)
                             (square_cells (p_size puz))))
    by (apply filter_In; split; [exact Hc|apply Z.eqb_eq; exact Hz]).
  rewrite HE in Hin; destruct Hin.
Qed.

Lemma cage_holds_ext (g : cdok_group) (v v' : list Z) :
  (forall c, In c (live_members g) -> rd v' c = rd v c) ->
  cage_holds g v -> cage_holds g v'.
Proof.
  intros H; unfold cage_holds, cage_values.
  rewrite (map_ext_in (rd v') (rd v) (live_members g) H); auto.
Qed.

Lemma consistent_start (puz : cdok_puzzle) :
  well_posed puz -> consistent puz (p_values puz).
Proof.
  intros (Hn & Hl & Hr & Hc & Hg).
  split; [exact Hl|split; [exact Hr|split; [exact Hc|split; [auto|]]]].
  intros i Hi Hlive Hfull; exfalso.
  destruct (Hg i Hi Hlive) as (Hsz & _ & _ & Hm).
  assert (Hin : In (rd (g_members (grp_at puz i)) 0)
                   (live_members (grp_at puz i)))
    by (apply in_live_members; exists 0; split; [lia|reflexivity]).
  apply (Hfull _ Hin), Hm, Hin.
Qed.

Lemma consistent_step (puz : cdok_puzzle) (values : list Z)
    (cell cands i : Z) :
  well_posed puz -> consistent puz values ->
  find_candidates puz values = Some (cell, cands) ->
  1 <= i <= p_size puz ->
  Z.land cands (CDOK_SET_SINGLE i) <> 0 ->
  consistent puz (wr values cell i).
Proof.
  intros (Hn & _ & _ & _ & Hg) (Hl & Hr & Hc & Hgiv & Hcage) Hfc Hi Hb.
  set (n := p_size puz) in *.
  assert (Hmem : forall j c, 0 <= j < CDOK_GROUPS ->
                   g_size (grp_at puz j) <> 0 ->
                   In c (live_members (grp_at puz j)) -> 0 <= c < 256).
  { intros j c Hj Hlive Hin; destruct (Hg j Hj Hlive) as (_ & _ & _ & Hm).
    apply (square_cells_range n); [lia|apply Hm; exact Hin]. }
  apply land_single_set in Hb; [|lia].
  destruct (find_candidates_sound puz values cell cands (i - 1) Hmem Hfc Hb)
    as [Hrc Hgc].
  destruct (find_candidates_cell puz values cell cands Hfc)
    as (Hz & x & y & Hx & Hy & Hcell).
  fold n in Hx, Hy, Hrc, Hgc.
  assert (Hcr : 0 <= cell < 256)
    by (subst cell; apply CDOK_POS_range; unfold CDOK_SIZE in *; lia).
  assert (Hl' : Z.of_nat (length values) = 256)
    by (rewrite Hl; reflexivity).
  assert (Hrd : forall c, 0 <= c ->
            rd (wr values cell i) c = if cell =? c then i else rd values c)
    by (intros c Hc0; apply rd_wr; lia).
  (* no other cell of the row or the column holds [i] *)
  assert (Hfree : forall x' y', 0 <= x' < n -> 0 <= y' < n ->
            x' = x \/ y' = y -> rd values (CDOK_POS x' y') <> i).
  { intros x' y' Hx' Hy' Hline E.
    assert (Hc' : 0 <= CDOK_POS x' y' < 256)
      by (apply CDOK_POS_range; unfold CDOK_SIZE in *; lia).
    pose proof (rc_candidates_sound values n cell (CDOK_POS x' y') Hcr Hc')
      as H.
    rewrite E in H; rewrite H in Hrc; [discriminate| | |].
    - unfold CDOK_SIZE in *; lia.
    - lia.
    - subst cell.
      rewrite !CDOK_POS_X_POS, !CDOK_POS_Y_POS
        by (unfold CDOK_SIZE in *; lia).
      destruct Hline; [right|left]; assumption. }
  split; [rewrite wr_length; exact Hl|].
  split; [|split; [|split]].
  - intros c Hcs; pose proof (square_cells_range n c ltac:(lia) Hcs) as Hc0.
    rewrite Hrd by lia; destruct (cell =? c); [lia|apply Hr; exact Hcs].
  - intros x1 y1 x2 y2 Hx1 Hy1 Hx2 Hy2.
    assert (H1 : 0 <= CDOK_POS x1 y1)
      by (apply CDOK_POS_nonneg; lia).
    assert (H2 : 0 <= CDOK_POS x2 y2)
      by (apply CDOK_POS_nonneg; lia).
    rewrite !Hrd by assumption.
    destruct (Z.eqb_spec cell (CDOK_POS x1 y1)) as [E1|E1],
             (Z.eqb_spec cell (CDOK_POS x2 y2)) as [E2|E2].
    + intros _ _ _; rewrite E1 in E2.
      apply CDOK_POS_inj in E2; unfold CDOK_SIZE in *; lia.
    + intros _ E Hline; exfalso.
      rewrite Hcell in E1; apply CDOK_POS_inj in E1;
        [|unfold CDOK_SIZE in *; lia..].
      apply (Hfree x2 y2 Hx2 Hy2); [lia|auto].
    + intros _ E Hline; exfalso.
      rewrite Hcell in E2; apply CDOK_POS_inj in E2;
        [|unfold CDOK_SIZE in *; lia..].
      apply (Hfree x1 y1 Hx1 Hy1); [lia|auto].
    + apply Hc; assumption.
  - intros c Hcs Hgv; pose proof (square_cells_range n c ltac:(lia) Hcs) as Hc0.
    rewrite Hrd by lia.
    destruct (Z.eqb_spec cell c) as [E|E]; [|apply Hgiv; assumption].
    exfalso; subst c; rewrite (Hgiv cell Hcs Hgv) in Hz; contradiction.
  - intros j Hj Hlive Hfull.
    destruct (Hg j Hj Hlive) as (Hsz & Hnd & Ht & Hm).
    destruct (in_dec Z.eq_dec cell (live_members (grp_at puz j)))
      as [Hin|Hout].
    + apply (group_candidates_last _ _ _ _ n); auto; try lia.
      * intros c Hcm; apply (Hmem j c Hj Hlive Hcm).
      * intros c Hcm Hne.
        pose proof (Hfull c Hcm) as Hnz.
        pose proof (Hmem j c Hj Hlive Hcm) as Hc0.
        rewrite Hrd in Hnz by lia.
        destruct (Z.eqb_spec cell c) as [E|_]; [congruence|].
        destruct (Hm c Hcm) as [Hsq _].
        specialize (Hr c Hsq); lia.
    + assert (Hsame : forall c, In c (live_members (grp_at puz j)) ->
                rd (wr values cell i) c = rd values c).
      { intros c Hcm; pose proof (Hmem j c Hj Hlive Hcm) as Hc0.
        rewrite Hrd by lia.
        destruct (Z.eqb_spec cell c) as [E|_]; [|reflexivity].
        subst c; contradiction. }
      apply (cage_holds_ext _ values); [exact Hsame|].
      apply Hcage; auto.
      intros c Hcm; rewrite <- Hsame by exact Hcm; apply Hfull; exact Hcm.
Qed.

Lemma search_path_consistent (puz : cdok_puzzle) (values bs leaf : list Z) :
  well_posed puz -> search_path puz values bs leaf ->
  consistent puz values ->
  consistent puz leaf /\
  forall c, In c (square_cells (p_size puz)) -> rd leaf c <> 0.
Proof.
  intros Hwp; induction 1 as [v Hfc|v cell cands i bs final Hfc Hc Hi Hb Hp IH];
    intros Hcons.
  - split; [exact Hcons|apply find_candidates_none; exact Hfc].
  - apply IH; eapply consistent_step; eauto.
Qed.

(** A consistent grid without empty cells solves the puzzle. *)
Lemma consistent_full (puz : cdok_puzzle) (grid : list Z) :
  well_posed puz -> consistent puz grid ->
  (forall c, In c (square_cells (p_size puz)) -> rd grid c <> 0) ->
  solution_of puz grid.
Proof.
  intros (Hn & _ & _ & _ & Hg) (Hl & Hr & Hc & Hgiv & Hcage) Hfull.
  set (n := p_size puz) in *.
  assert (Hval : forall x y, 0 <= x < n -> 0 <= y < n ->
                             1 <= rd grid (CDOK_POS x y) <= n).
  { intros x y Hx Hy.
    assert (Hin : In (CDOK_POS x y) (square_cells n))
      by (apply square_cells_spec; eauto).
    specialize (Hr _ Hin); specialize (Hfull _ Hin); lia. }
  split; [|split; [exact Hgiv|]].
  - unfold latin; apply forallb_forall; intros i Hi; apply in_range in Hi.
    apply forallb_forall; intros v Hv; apply in_range in Hv.
    apply andb_true_iff; split; apply existsb_exists.
    + destruct (pigeonhole (fun x => rd grid (CDOK_POS x i)) n)
        with (v := v) as (x & Hx & E); try lia.
      * intros x Hx; apply Hval; lia.
      * intros a b Ha Hb' E.
        destruct (Hc a i b i Ha Hi Hb' Hi) as [H _]; auto.
        specialize (Hval a i Ha Hi); lia.
      * exists x; split; [apply in_range; exact Hx|apply Z.eqb_eq; exact E].
    + destruct (pigeonhole (fun y => rd grid (CDOK_POS i y)) n)
        with (v := v) as (y & Hy & E); try lia.
      * intros y Hy; apply Hval; lia.
      * intros a b Ha Hb' E.
        destruct (Hc i a i b Hi Ha Hi Hb') as [_ H]; auto.
        specialize (Hval i a Hi Ha); lia.
      * exists y; split; [apply in_range; exact Hy|apply Z.eqb_eq; exact E].
  - intros j Hj Hlive; apply Hcage; auto.
    intros c Hcm; destruct (Hg j Hj Hlive) as (_ & _ & _ & Hm).
    apply Hfull, Hm, Hcm.
Qed.

(** Every leaf of the search from a well-posed puzzle solves it. *)
Lemma search_leaves_sound (puz : cdok_puzzle) (fuel : nat)
    (L : list (list Z * Z)) (leaf : list Z) (d : Z) :
  well_posed puz ->
  search_leaves fuel puz (p_values puz) 0 = Some L -> In (leaf, d) L ->
  solution_of puz leaf.
Proof.
  intros Hwp HL Hin.
  destruct (search_leaves_paths puz fuel _ 0 L HL leaf d Hin) as (bs & Hp & _).
  destruct (search_path_consistent puz _ bs leaf Hwp Hp
              (consistent_start puz Hwp)) as [Hcons Hfull].
  apply consistent_full; assumption.
Qed.

(** ** The leaves of the search are different grids *)

Lemma collect_leaves_distinct (candidates : Z)
    (sub : Z -> option (list (list Z * Z))) (key : list Z -> Z)
    (vs : list Z) :
  NoDup vs ->
  (forall i Li, In i vs -> sub i = Some Li -> NoDup (map fst Li)) ->
  (forall i Li x, In i vs -> sub i = Some Li -> In x Li -> key (fst x) = i) ->
  forall L, collect_leaves candidates sub vs = Some L -> NoDup (map fst L).
Proof.
  induction vs as [|i vs IH]; intros Hnd Hsub Hkey L HL; simpl in HL.
  - inversion HL; constructor.
  - fold (collect_leaves candidates sub vs) in HL.
    inversion Hnd as [|? ? Hni Hnd']; subst.
    assert (Hsub' : forall j Lj, In j vs -> sub j = Some Lj ->
                                 NoDup (map fst Lj))
      by (intros j Lj Hj; apply Hsub; right; exact Hj).
    assert (Hkey' : forall j Lj x, In j vs -> sub j = Some Lj -> In x Lj ->
                                   key (fst x) = j)
      by (intros j Lj x Hj; apply Hkey; right; exact Hj).
    destruct (Z.land candidates (CDOK_SET_SINGLE i) =? 0);
      [apply IH; auto|].
    destruct (sub i) as [here|] eqn:Hi; [|discriminate].
    destruct (collect_leaves candidates sub vs) as [rest|] eqn:Hr;
      [|discriminate].
    cbn [obind] in HL; inversion HL; subst L.
    rewrite map_app; apply NoDup_app.
    + apply (Hsub i); [left; reflexivity|exact Hi].
    + apply IH; auto.
    + intros g Hg1 Hg2.
      apply in_map_iff in Hg1 as (x1 & E1 & Hx1).
      apply in_map_iff in Hg2 as (x2 & E2 & Hx2).
      destruct (collect_leaves_in _ _ _ _ _ Hr Hx2)
        as (j & Lj & Hj & _ & Hsj & Hxj).
      assert (K1 : key g = i)
        by (rewrite <- E1; apply (Hkey i here); auto; left; reflexivity).
      assert (K2 : key g = j)
        by (rewrite <- E2; apply (Hkey' j Lj); auto).
      apply Hni; congruence.
Qed.

Lemma search_leaves_distinct (puz : cdok_puzzle) :
  p_size puz <= CDOK_SIZE ->
  forall fuel values bd L,
    length values = Z.to_nat CDOK_CELLS ->
    search_leaves fuel puz values bd = Some L -> NoDup (map fst L).
Proof.
  intros Hs; induction fuel as [|f IH]; intros values bd L Hlen HL;
    [discriminate|].
  cbn [search_leaves] in HL.
  destruct (find_candidates puz values) as [[cell cands]|] eqn:Hfc.
  2:{ inversion HL; cbn [map fst]; constructor; [intros []|constructor]. }
  destruct (cands =? 0); [inversion HL; constructor|].
  pose proof (find_candidates_range _ _ _ _ Hs Hfc) as Hr.
  apply (collect_leaves_distinct _ _ (fun leaf => rd leaf cell) _)
    with (L := L) in HL; [exact HL| | |].
  - rewrite <- (map_id (range 1 (p_size puz + 1))).
    apply NoDup_map_range; intros i j _ _ E; exact E.
  - intros i Li Hi Hsub; apply (IH _ _ _ ltac:(rewrite wr_length; exact Hlen)
                                      Hsub).
  - intros i Li [leaf d] Hi Hsub Hx; apply in_range in Hi; cbn [fst].
    destruct (search_leaves_paths puz _ _ _ _ Hsub leaf d Hx) as (bs & Hp & _).
    unfold CDOK_CELLS in *.
    rewrite (search_path_extends _ _ _ _ Hp) by
      (try lia; rewrite rd_wr_same by lia; lia).
    apply rd_wr_same; lia.
Qed.

(** ** The checks of [well_posedb] *)

Lemma distinctb_sound (l : list Z) : distinctb l = true -> NoDup l.
Proof.
  induction l as [|h t IH]; cbn [distinctb]; intros H; constructor.
  - apply andb_true_iff in H as [H _]; apply negb_true_iff in H.
    intros Hin; assert (E : existsb (Z.eqb h) t = true)
      by (apply existsb_exists; exists h; split; [exact Hin|apply Z.eqb_refl]).
    congruence.
  - apply IH; apply andb_true_iff in H as [_ H]; exact H.
Qed.

Lemma no_clashb_sound (n : Z) (grid : list Z) :
  no_clashb n grid = true -> no_clash n grid.
Proof.
  unfold no_clashb; intros H x y x' y' Hx Hy Hx' Hy' Hnz E Hline.
  rewrite forallb_forall in H.
  specialize (H y (proj2 (in_range 0 n y) Hy)).
  rewrite forallb_forall in H.
  specialize (H x (proj2 (in_range 0 n x) Hx)); cbv zeta in H.
  destruct (Z.eqb_spec (rd grid (CDOK_POS x y)) 0) as [|_]; [contradiction|].
  cbn [orb] in H; apply andb_true_iff in H as [Hrow Hcol].
  rewrite forallb_forall in Hrow, Hcol.
  destruct Hline as [Ex|Ey].
  - subst x'; split; [reflexivity|].
    specialize (Hcol y' (proj2 (in_range 0 n y') Hy')).
    apply orb_true_iff in Hcol as [H|H]; [apply Z.eqb_eq in H; auto|].
    apply negb_true_iff, Z.eqb_neq in H; congruence.
  - subst y'; split; [|reflexivity].
    specialize (Hrow x' (proj2 (in_range 0 n x') Hx')).
    apply orb_true_iff in Hrow as [H|H]; [apply Z.eqb_eq in H; auto|].
    apply negb_true_iff, Z.eqb_neq in H; congruence.
Qed.

Lemma well_posedb_sound (puz : cdok_puzzle) :
  well_posedb puz = true -> well_posed puz.
Proof.
  unfold well_posedb; cbv zeta; intros H.
  apply andb_true_iff in H as [H Hg].
  apply andb_true_iff in H as [H Hc].
  apply andb_true_iff in H as [H Hr].
  apply andb_true_iff in H as [H Hl].
  apply andb_true_iff in H as [H1 H2].
  apply Z.leb_le in H1, H2; apply Z.eqb_eq in Hl.
  rewrite forallb_forall in Hr, Hg.
  split; [lia|split; [unfold CDOK_CELLS in *; lia|split; [|split]]].
  - intros c Hin; specialize (Hr c Hin).
    apply andb_true_iff in Hr as [Ha Hb]; apply Z.leb_le in Ha, Hb; lia.
  - apply no_clashb_sound; exact Hc.
  - intros i Hi Hlive.
    specialize (Hg i (proj2 (in_range 0 CDOK_GROUPS i) Hi)); cbv zeta in Hg.
    destruct (Z.eqb_spec (g_size (grp_at puz i)) 0) as [|_]; [contradiction|].
    cbn [orb] in Hg.
    apply andb_true_iff in Hg as [Hg Hm].
    apply andb_true_iff in Hg as [Hg Ht].
    apply andb_true_iff in Hg as [Hg Hd].
    apply andb_true_iff in Hg as [Hs1 Hs2].
    apply Z.leb_le in Hs1, Hs2, Ht.
    split; [lia|split; [apply distinctb_sound; exact Hd|split; [exact Ht|]]].
    rewrite forallb_forall in Hm; intros c Hin; specialize (Hm c Hin).
    apply andb_true_iff in Hm as [Ha Hb]; apply Z.eqb_eq in Hb.
    split; [|exact Hb].
    apply existsb_exists in Ha as (c' & Hc' & E); apply Z.eqb_eq in E.
    subst c'; exact Hc'.
Qed.

(** ** What the solver reports is true *)

Lemma targets_fitb_sound (puz : cdok_puzzle) :
  targets_fitb puz = true -> targets_fit puz.
Proof.
  unfold targets_fitb; intros H i Hi Hnz.
  rewrite forallb_forall in H.
  specialize (H i (proj2 (in_range 0 CDOK_GROUPS i) Hi)); cbv zeta in H.
  destruct (Z.eqb_spec (g_size (grp_at puz i)) 0) as [|_]; [contradiction|].
  cbn [orb] in H.
  destruct (Z.eqb_spec (g_type (grp_at puz i)) CDOK_PRODUCT) as [Ep|Ep].
  { apply andb_true_iff in H as [H1 H2]; apply Z.leb_le in H1, H2.
    rewrite Ep; split; [intros _; lia|split; intros E; exfalso; revert E].
    - discriminate.
    - intros [E|E]; discriminate. }
  destruct (Z.eqb_spec (g_type (grp_at puz i)) CDOK_RATIO) as [Er|Er].
  { apply andb_true_iff in H as [H1 H2].
    apply Z.leb_le in H1; apply Z.ltb_lt in H2.
    split; [intros E; contradiction|split; [intros _; lia|]].
    rewrite Er; intros [E|E]; discriminate. }
  split; [intros E; contradiction|split; [intros E; contradiction|]].
  intros Hsd.
  destruct (Z.eqb_spec (g_type (grp_at puz i)) CDOK_SUM) as [Es|Es];
    [apply Z.ltb_lt; exact H|].
  destruct (Z.eqb_spec (g_type (grp_at puz i)) CDOK_DIFFERENCE) as [Ed|Ed];
    [apply Z.ltb_lt; exact H|].
  destruct Hsd; contradiction.
Qed.

(** X6.  On a well-posed puzzle (dimension 1 to 16, givens in range and
    without a clash in a row or column, every group in use with 2 to 8
    distinct blank cells inside the square and a target of at least 0)
    whose value array holds values from 0 to 32 only and whose targets the
    solver's arithmetic can take (a product target from 1 to 32; a ratio
    target of at least 1 that, times 16 for every cell of the group, stays
    below 2^31; a sum or difference target below 2^30), [cdok_solve]
    returns -1, 0 or 1; whenever it returns 0 or 1 the
    grid it stores is a solution (a Latin square that keeps the givens and
    satisfies every group's clue), and when it returns 1 there is a second
    solution different from the stored one.  On -1 the buffer is
    untouched. *)
Theorem cdok_solve_sound (puz : cdok_puzzle) (buf : list Z)
    (diff : option Z) :
  well_posed puz -> Forall (fun w => 0 <= w <= 32) (p_values puz) ->
  targets_fit puz ->
  exists r sol d,
    cdok_solve puz (Some buf) diff = Some (r, sol, d) /\
    ((r = -1 /\ sol = Some buf) \/
     exists first,
       sol = Some first /\ solution_of puz first /\
       (r = 0 \/
        (r = 1 /\ exists second, solution_of puz second /\ second <> first))).
Proof.
  intros Hwp _ _; pose proof Hwp as (Hn & Hl & _).
  assert (Hok : solver_ok puz) by (split; [lia|exact Hl]).
  destruct (cdok_solve_leaves puz (Some buf) diff Hok) as (L & HL & Hres).
  pose proof (search_leaves_distinct puz ltac:(lia) _ _ _ _ Hl HL) as Hnd.
  destruct L as [|[first b] rest].
  - exists (-1), (Some buf), diff; split; [exact Hres|left; auto].
  - eexists _, _, _; split; [exact Hres|right].
    exists first; split; [reflexivity|].
    split; [apply (search_leaves_sound puz _ _ first b Hwp HL); left;
            reflexivity|].
    destruct rest as [|[second b'] rest']; [left; reflexivity|right].
    split; [reflexivity|exists second; split].
    + apply (search_leaves_sound puz _ _ second b' Hwp HL).
      right; left; reflexivity.
    + cbn [map fst] in Hnd; inversion Hnd as [|? ? Hni _]; subst.
      intros E; apply Hni; left; exact E.
Qed.

Lemma cdok_solve_sound_witness :
  well_posed seed_puzzle /\
  Forall (fun w => 0 <= w <= 32) (p_values seed_puzzle) /\
  targets_fit seed_puzzle /\
  exists r sol d,
    cdok_solve seed_puzzle (Some (repeat 0 256)) (Some 0) = Some (r, sol, d) /\
    ((r = -1 /\ sol = Some (repeat 0 256)) \/
     exists first,
       sol = Some first /\ solution_of seed_puzzle first /\
       (r = 0 \/
        (r = 1 /\
         exists second, solution_of seed_puzzle second /\ second <> first))).
Proof.
  assert (H : well_posed seed_puzzle)
    by (apply well_posedb_sound; vm_compute; reflexivity).
  assert (V : Forall (fun w => 0 <= w <= 32) (p_values seed_puzzle)).
  { apply Forall_forall; intros w Hw.
    assert (B : forallb (fun w => (0 <=? w) && (w <=? 32))
                        (p_values seed_puzzle) = true)
      by (vm_compute; reflexivity).
    rewrite forallb_forall in B; specialize (B w Hw).
    apply andb_true_iff in B as [B1 B2]; apply Z.leb_le in B1, B2; lia. }
  assert (T : targets_fit seed_puzzle)
    by (apply targets_fitb_sound; vm_compute; reflexivity).
  split; [exact H|split; [exact V|split; [exact T|]]].
  apply (cdok_solve_sound seed_puzzle (repeat 0 256) (Some 0) H V T).
Defined.

(** ** Counting the members of a set *)

Lemma lowest_bit (s : Z) :
  0 < s < 65536 ->
  exists j, 0 <= j < 16 /\ Z.testbit s j = true /\ low_clear j s.
Proof.
  intros Hs.
  assert (H : forall k : nat,
             low_clear (Z.of_nat k) s \/
             exists j, 0 <= j < Z.of_nat k /\ Z.testbit s j = true /\
                       low_clear j s).
  { induction k as [|k IH]; [left; intros i Hi; lia|].
    destruct IH as [Hlow|(j & Hj & Hb & Hl)].
    - destruct (Z.testbit s (Z.of_nat k)) eqn:Hb.
      + right; exists (Z.of_nat k); split; [lia|auto].
      + left; intros i Hi.
        destruct (Z.eq_dec i (Z.of_nat k)) as [->|]; [exact Hb|].
        apply Hlow; lia.
    - right; exists j; split; [lia|auto]. }
  destruct (H 16%nat) as [Hlow|(j & Hj & Hb & Hl)].
  - exfalso; assert (E : s = 0); [|lia].
    apply Z.bits_inj'; intros n Hn; rewrite Z.bits_0.
    destruct (Z.ltb_spec n 16); [apply Hlow; lia|].
    apply (testbit_small s 16); simpl; lia.
  - exists j; split; [lia|auto].
Qed.

(** [s & (s - 1)] is [s] without its lowest member. *)
Lemma clear_lowest (s j i : Z) :
  0 <= j -> 0 <= i -> Z.testbit s j = true -> low_clear j s ->
  Z.testbit (Z.land s (s - 1)) i = Z.testbit s i && negb (i =? j).
Proof.
  intros Hj Hi Hb Hlow; rewrite Z.land_spec.
  destruct (Z.ltb_spec i j) as [Hlt|Hge].
  { rewrite (Hlow i) by lia; reflexivity. }
  set (m := 2 ^ j).
  assert (Hm : 0 < m) by (apply Z.pow_pos_nonneg; lia).
  assert (Hmod : s mod m = 0).
  { apply Z.bits_inj'; intros n Hn; rewrite Z.bits_0.
    destruct (Z.ltb_spec n j).
    - unfold m; rewrite Z.mod_pow2_bits_low by lia; apply Hlow; lia.
    - unfold m; apply Z.mod_pow2_bits_high; lia. }
  assert (Hodd : Z.odd (s / m) = true).
  { unfold m; rewrite <- Z.shiftr_div_pow2 by lia.
    rewrite <- Z.bit0_odd, Z.shiftr_spec by lia; exact Hb. }
  pose proof (Z.div_mod s m ltac:(lia)) as Hs.
  rewrite Hmod, Z.add_0_r in Hs.
  destruct (Zodd_ex (s / m)) as (q & Hq);
    [apply Zodd_bool_iff; exact Hodd|].
  assert (Es : s = 2 * m * q + m) by nia.
  destruct (Z.eqb_spec i j) as [->|Hne]; cbn [negb].
  - rewrite andb_false_r, Hb; cbn [andb].
    rewrite Z.testbit_odd, Z.shiftr_div_pow2 by lia; fold m.
    replace ((s - 1) / m) with (2 * q);
      [rewrite Z.odd_mul; reflexivity|].
    apply (Z.div_unique_pos _ _ _ (m - 1)); lia.
  - rewrite andb_true_r.
    assert (Ediv : (s - 1) / (2 * m) = s / (2 * m)).
    { rewrite <- (Z.div_unique_pos (s - 1) (2 * m) q (m - 1)) by lia.
      apply (Z.div_unique_pos s (2 * m) q m); lia. }
    assert (Hbit : forall a, Z.testbit a i =
                             Z.testbit (a / (2 * m)) (i - (j + 1))).
    { intros a; replace (2 * m) with (2 ^ (j + 1))
        by (unfold m; rewrite Z.pow_add_r by lia; change (2 ^ 1) with 2; lia).
      rewrite Z.div_pow2_bits by lia; f_equal; lia. }
    rewrite (Hbit (s - 1)), Ediv, <- Hbit.
    destruct (Z.testbit s i); reflexivity.
Qed.

Lemma filter_drop_one (f g : Z -> bool) (j : Z) (l : list Z) :
  NoDup l -> In j l -> f j = true ->
  (forall i, In i l -> g i = f i && negb (i =? j)) ->
  length (filter f l) = S (length (filter g l)).
Proof.
  intros Hnd Hin Hfj Hg; induction l as [|a l IH]; [destruct Hin|].
  inversion Hnd as [|? ? Ha Hnd']; subst.
  cbn [filter]; rewrite (Hg a) by (left; reflexivity).
  destruct (Z.eq_dec a j) as [->|Hne].
  - rewrite Hfj, Z.eqb_refl; cbn [andb negb length]; f_equal.
    f_equal; apply filter_ext_in; intros i Hi.
    rewrite (Hg i) by (right; exact Hi).
    destruct (Z.eqb_spec i j) as [->|_]; [contradiction|].
    rewrite andb_true_r; reflexivity.
  - destruct (Z.eqb_spec a j) as [|_]; [contradiction|].
    rewrite andb_true_r.
    assert (IH' : length (filter f l) = S (length (filter g l))).
    { apply IH; auto.
      - destruct Hin as [E|Hin]; [contradiction|exact Hin].
      - intros i Hi; apply Hg; right; exact Hi. }
    destruct (f a); cbn [length]; rewrite IH'; reflexivity.
Qed.

Lemma set_size_step (s : Z) :
  0 < s < 65536 ->
  set_size s = set_size (cdok_set_cast (Z.land s (s - 1))) + 1.
Proof.
  intros Hs; destruct (lowest_bit s Hs) as (j & Hj & Hb & Hlow).
  unfold set_size.
  rewrite (filter_drop_one (fun v => cdok_set_mem v s)
             (fun v => cdok_set_mem v (cdok_set_cast (Z.land s (s - 1))))
             (j + 1)).
  - lia.
  - rewrite <- (map_id (range 1 (CDOK_SIZE + 1))).
    apply NoDup_map_range; intros a b _ _ E; exact E.
  - apply in_range; unfold CDOK_SIZE; lia.
  - unfold cdok_set_mem; replace (j + 1 - 1) with j by lia; exact Hb.
  - intros i Hi; apply in_range in Hi; unfold CDOK_SIZE in Hi.
    unfold cdok_set_mem.
    rewrite testbit_set_cast, (clear_lowest s j) by (auto; lia).
    destruct (Z.ltb_spec (i - 1) 16); [|lia]; rewrite andb_true_r.
    f_equal; f_equal.
    destruct (Z.eqb_spec (i - 1) j), (Z.eqb_spec i (j + 1)); lia.
Qed.

Lemma count_bits_loop_size (fuel : nat) :
  forall s c,
    0 <= s < 65536 -> set_size s <= Z.of_nat fuel ->
    count_bits_loop fuel s c = (0, c + set_size s).
Proof.
  induction fuel as [|f IH]; intros s c Hs Hf; cbn [count_bits_loop].
  - destruct (Z.eq_dec s 0) as [->|Hne];
      [f_equal; change (set_size 0) with 0; lia|].
    rewrite set_size_step in Hf by lia.
    assert (0 <= set_size (cdok_set_cast (Z.land s (s - 1))))
      by (unfold set_size; lia).
    lia.
  - destruct (Z.eqb_spec s 0) as [->|Hne];
      [f_equal; change (set_size 0) with 0; lia|].
    rewrite IH.
    + rewrite (set_size_step s) by lia; f_equal; lia.
    + apply set_cast_range.
    + rewrite (set_size_step s) in Hf by lia; lia.
Qed.

Lemma count_bits_size (s : Z) :
  0 <= s < 65536 -> count_bits s = set_size s.
Proof.
  intros Hs; unfold count_bits.
  rewrite count_bits_loop_size; [reflexivity|exact Hs|].
  unfold set_size.
  pose proof (filter_length_le (fun v => cdok_set_mem v s)
                               (range 1 (CDOK_SIZE + 1))) as H.
  rewrite range_length in H; unfold CDOK_SIZE in H.
  change (Z.to_nat (16 + 1 - 1)) with 16%nat in H.
  unfold CDOK_SIZE; lia.
Qed.

(** The count that the search takes of a candidate set is the number of
    values that the set holds. *)
Lemma candidate_count (puz : cdok_puzzle) (values : list Z) (c : Z) :
  count_bits (rd (constrain_by_groups puz values
                    (build_rc_candidates values (p_size puz))) c) =
  set_size (rd (constrain_by_groups puz values
                  (build_rc_candidates values (p_size puz))) c).
Proof.
  apply count_bits_size.
  apply (rd_Forall (fun s => 0 <= s < 65536)); [lia|].
  apply find_candidates_sets.
Qed.

Lemma find_candidates_count (puz : cdok_puzzle) (values : list Z)
    (cell candidates : Z) :
  find_candidates puz values = Some (cell, candidates) ->
  count_bits candidates = set_size candidates.
Proof.
  unfold find_candidates; intros H.
  destruct (search_least_free _ _ _ <? 0); [discriminate|].
  assert (E : candidates =
              rd (constrain_by_groups puz values
                    (build_rc_candidates values (p_size puz)))
                 cell) by congruence.
  rewrite E; apply candidate_count.
Qed.

(** ** The difficulty that the solver reports *)

(** C3.  Every path of the search from the input grid to a full grid
    ends in a leaf whose branch difficulty is the sum of [(B - 1)^2] over
    the candidate counts [B] of its steps; the count that a step records
    is [count_bits] of the candidate set of the cell chosen there, and
    that is the number of values from 1 to 16 that the set holds.  The
    difficulty reported is [b * M + E] for the first leaf's branch
    difficulty [b], the smallest power of ten [M] with [M >= N^2] and the
    number [E] of empty cells of the input; on a 6 by 6 grid [M] is 100,
    and a first path with a single candidate at every step gives
    difficulty [E]. *)
Theorem cdok_solve_difficulty (puz : cdok_puzzle)
    (solution : option (list Z)) (d0 : Z) :
  solver_ok puz ->
  exists leaves r sol d,
    search_leaves solver_fuel puz (p_values puz) 0 = Some leaves /\
    cdok_solve puz solution (Some d0) = Some (r, sol, d) /\
    (forall values cell candidates,
       find_candidates puz values = Some (cell, candidates) ->
       count_bits candidates = set_size candidates) /\
    (forall bs leaf,
       search_path puz (p_values puz) bs leaf ->
       In (leaf, path_difficulty bs) leaves) /\
    (forall first b rest,
       leaves = (first, b) :: rest ->
       exists bs M,
         search_path puz (p_values puz) bs first /\
         b = path_difficulty bs /\
         smallest_pow10_ge M (p_size puz * p_size puz) /\
         d = Some (b * M + empty_cells (p_values puz) (p_size puz)) /\
         (p_size puz = 6 -> M = 100) /\
         (Forall (fun B => B = 1) bs ->
          d = Some (empty_cells (p_values puz) (p_size puz)))).
Proof.
  intros Hok.
  destruct (cdok_solve_leaves puz solution (Some d0) Hok) as (L & HL & Hsolve).
  exists L; rewrite Hsolve.
  destruct L as [|[first b] rest].
  - exists (-1), solution, (Some d0).
    split; [exact HL|split; [reflexivity|split; [|split]]].
    + intros values cell candidates; apply find_candidates_count.
    + intros bs leaf Hp; apply (search_path_leaves _ _ _ _ Hp _ 0 _ HL).
    + intros ? ? ? E; discriminate.
  - eexists _, _, _; split; [exact HL|split; [reflexivity|split; [|split]]].
    + intros values cell candidates; apply find_candidates_count.
    + intros bs leaf Hp; apply (search_path_leaves _ _ _ _ Hp _ 0 _ HL).
    + intros first' b' rest' E; inversion E; subst; clear E.
      destruct (search_leaves_paths puz _ _ _ _ HL first' b')
        as (bs & Hp & Hb); [left; reflexivity|].
      destruct Hok as [Hs Hlen].
      pose proof (pow10_scale (p_size puz) Hs) as (HM & _ & H6).
      exists bs, (pow10_loop 10 1 (uint_cast (p_size puz * p_size puz))).
      repeat split; auto; try (apply HM); try lia.
      intros Hf; rewrite Hb, path_difficulty_forced by auto.
      f_equal; lia.
Qed.

Lemma cdok_solve_difficulty_witness :
  solver_ok puzzle_two_solutions /\
  exists leaves r sol d,
    search_leaves solver_fuel puzzle_two_solutions
                  (p_values puzzle_two_solutions) 0 = Some leaves /\
    cdok_solve puzzle_two_solutions None (Some 0) = Some (r, sol, d) /\
    (forall values cell candidates,
       find_candidates puzzle_two_solutions values =
         Some (cell, candidates) ->
       count_bits candidates = set_size candidates) /\
    (forall bs leaf,
       search_path puzzle_two_solutions (p_values puzzle_two_solutions)
                   bs leaf ->
       In (leaf, path_difficulty bs) leaves) /\
    (forall first b rest,
       leaves = (first, b) :: rest ->
       exists bs M,
         search_path puzzle_two_solutions (p_values puzzle_two_solutions)
                     bs first /\
         b = path_difficulty bs /\
         smallest_pow10_ge
           M (p_size puzzle_two_solutions * p_size puzzle_two_solutions) /\
         d = Some (b * M + empty_cells (p_values puzzle_two_solutions)
                                       (p_size puzzle_two_solutions)) /\
         (p_size puzzle_two_solutions = 6 -> M = 100) /\
         (Forall (fun B => B = 1) bs ->
          d = Some (empty_cells (p_values puzzle_two_solutions)
                                (p_size puzzle_two_solutions)))).
Proof.
  assert (Hok : solver_ok puzzle_two_solutions)
    by (split; [unfold CDOK_SIZE; simpl; lia|reflexivity]).
  split; [exact Hok|].
  exact (cdok_solve_difficulty puzzle_two_solutions None 0 Hok).
Defined.

(** ** The choice of the next cell *)

(** X7.  [find_candidates] reports -1 (here [None]) exactly when the
    square has no empty cell.  Otherwise it reports, among the empty cells
    of the square, the first in row-major order of those whose candidate
    set, by row, column and group, has the fewest members, together with
    that set; the members of a set are the values from 1 to 16 that it
    holds. *)
Theorem find_candidates_most_constrained (puz : cdok_puzzle)
    (values : list Z) :
  let cs := constrain_by_groups puz values
              (build_rc_candidates values (p_size puz)) in
  let empty := filter (fun c => rd values c =? 0)
                      (square_cells (p_size puz)) in
  match find_candidates puz values with
  | None => empty = []
  | Some (cell, cands) =>
    cands = rd cs cell /\ In cell empty /\
    most_constrained values cs (square_cells (p_size puz)) cell
  end.
Proof.
  cbv zeta; unfold find_candidates.
  set (cs := constrain_by_groups puz values
               (build_rc_candidates values (p_size puz))).
  pose proof (search_least_free_spec values cs (p_size puz)) as H.
  cbv zeta in H.
  destruct (Z.ltb_spec (search_least_free values cs (p_size puz)) 0)
    as [Hlt|Hge].
  - destruct H as [[HE _]|[Hge _]]; [exact HE|lia].
  - destruct H as [[_ E]|[_ Hm]]; [lia|].
    destruct Hm as (before & after & E & Hb & Ha).
    split; [reflexivity|split; [rewrite E; apply in_elt|]].
    exists before, after; split; [exact E|].
    unfold cs; split; intros c' Hc'; rewrite <- !candidate_count;
      [apply Hb|apply Ha]; exact Hc'.
Qed.

(** ** Row and column candidates, exactly *)

Lemma testbit_cast_single_iff (v b : Z) :
  0 <= b ->
  Z.testbit (cdok_set_cast (CDOK_SET_SINGLE v)) b = true <->
  b = v - 1 /\ b < 16.
Proof.
  intros Hb; rewrite testbit_set_cast by exact Hb.
  rewrite andb_true_iff, Z.ltb_lt.
  assert (H : Z.testbit (CDOK_SET_SINGLE v) b = true <-> b = v - 1);
    [|tauto].
  unfold CDOK_SET_SINGLE; rewrite Z.shiftl_spec by exact Hb.
  destruct (Z.lt_trichotomy (b - (v - 1)) 0) as [Hlt|[E|Hgt]].
  - rewrite Z.testbit_neg_r by exact Hlt; split; [discriminate|lia].
  - rewrite E; cbn; split; [lia|reflexivity].
  - rewrite Z.bits_above_log2 by (change (Z.log2 1) with 0; lia).
    split; [discriminate|lia].
Qed.

(** After the first loop of [build_rc_candidates] the set of a row holds
    exactly the values from 1 to 16 found in the row, and likewise for
    the columns. *)
Lemma rc_marks_exact (values : list Z) (n : nat) :
  (n <= 256)%nat ->
  let st :=
    fold_left
      (fun '(rows, cols) i =>
         let v := rd values i in
         if v =? 0 then (rows, cols)
         else
           let s := cdok_set_cast (CDOK_SET_SINGLE v) in
           (wr rows (CDOK_POS_Y i) (Z.lor (rd rows (CDOK_POS_Y i)) s),
            wr cols (CDOK_POS_X i) (Z.lor (rd cols (CDOK_POS_X i)) s)))
      (range 0 (Z.of_nat n))
      (repeat 0 (Z.to_nat CDOK_SIZE), repeat 0 (Z.to_nat CDOK_SIZE)) in
  length (fst st) = 16%nat /\ length (snd st) = 16%nat /\
  forall y b, 0 <= y < 16 -> 0 <= b ->
    (Z.testbit (rd (fst st) y) b = true <->
     b < 16 /\ exists c, 0 <= c < Z.of_nat n /\ CDOK_POS_Y c = y /\
                         rd values c = b + 1) /\
    (Z.testbit (rd (snd st) y) b = true <->
     b < 16 /\ exists c, 0 <= c < Z.of_nat n /\ CDOK_POS_X c = y /\
                         rd values c = b + 1).
Proof.
  induction n as [|n IH]; intros Hn; cbv zeta.
  - rewrite range_nil by lia; cbn [fold_left fst snd].
    split; [reflexivity|split; [reflexivity|]].
    intros y b Hy Hb; change (Z.to_nat CDOK_SIZE) with 16%nat.
    rewrite rd_repeat, Z.bits_0 by lia.
    split; (split; [discriminate|intros (_ & c & Hc & _); lia]).
  - replace (Z.of_nat (S n)) with (Z.of_nat n + 1) by lia.
    rewrite range_snoc, fold_left_app by lia; cbn [fold_left].
    cbv zeta in IH; destruct IH as (Hr & Hc & Hm); [lia|].
    destruct (fold_left _ (range 0 (Z.of_nat n)) _) as [rows cols].
    cbn [fst snd] in *.
    set (k := Z.of_nat n) in *.
    assert (Hyk := CDOK_POS_Y_range k ltac:(lia)).
    assert (Hxk := CDOK_POS_X_range k).
    assert (Hext : forall (P : Z -> Prop) b,
              (b < 16 /\ exists c, 0 <= c < k + 1 /\ P c /\
                                   rd values c = b + 1) <->
              (b < 16 /\ exists c, 0 <= c < k /\ P c /\ rd values c = b + 1) \/
              (b < 16 /\ P k /\ rd values k = b + 1)).
    { intros P b; split.
      - intros (Hb & c & Hcr & Hp & E).
        destruct (Z.eq_dec c k) as [->|Hne]; [right; auto|left].
        split; [exact Hb|exists c; split; [lia|auto]].
      - intros [(Hb & c & Hcr & Hp & E)|(Hb & Hp & E)].
        + split; [exact Hb|exists c; split; [lia|auto]].
        + split; [exact Hb|exists k; split; [lia|auto]]. }
    destruct (Z.eqb_spec (rd values k) 0) as [Hz|Hz]; cbn [fst snd].
    + split; [exact Hr|split; [exact Hc|]].
      intros y b Hy Hb; destruct (Hm y b Hy Hb) as [H1 H2].
      rewrite (Hext (fun c => CDOK_POS_Y c = y)),
              (Hext (fun c => CDOK_POS_X c = y)).
      split; [rewrite H1|rewrite H2]; split; auto;
        intros [H|(_ & _ & E)]; auto; lia.
    + rewrite !wr_length; split; [exact Hr|split; [exact Hc|]].
      intros y b Hy Hb; destruct (Hm y b Hy Hb) as [H1 H2].
      rewrite !rd_wr by lia.
      rewrite (Hext (fun c => CDOK_POS_Y c = y)),
              (Hext (fun c => CDOK_POS_X c = y)).
      pose proof (testbit_cast_single_iff (rd values k) b Hb) as Hs.
      split.
      * destruct (Z.eqb_spec (CDOK_POS_Y k) y) as [E|E].
        -- rewrite Z.lor_spec, orb_true_iff, E, H1, Hs.
           split; intros [H|H]; auto; [right|right]; lia.
        -- rewrite H1; split; auto.
           intros [H|(_ & E' & _)]; [exact H|contradiction].
      * destruct (Z.eqb_spec (CDOK_POS_X k) y) as [E|E].
        -- rewrite Z.lor_spec, orb_true_iff, E, H2, Hs.
           split; intros [H|H]; auto; [right|right]; lia.
        -- rewrite H2; split; auto.
           intros [H|(_ & E' & _)]; [exact H|contradiction].
Qed.

(** X8.  For a grid whose values are from 0 to 32 and a [max] from 0 to
    16: in the candidate map of [build_rc_candidates], a value [v] from
    1 to [max] is a candidate of a cell exactly when no cell in the same
    row or the same column holds [v]; the sets are combined by exclusive
    or, so a value above [max] (up to 16) is a candidate exactly when
    the row or the column does hold it. *)
Theorem build_rc_candidates_exact (values : list Z) (max c v : Z) :
  Forall (fun w => 0 <= w <= 32) values ->
  0 <= c < CDOK_CELLS -> 0 <= max <= CDOK_SIZE -> 1 <= v <= CDOK_SIZE ->
  let used :=
    exists c', 0 <= c' < CDOK_CELLS /\ rd values c' = v /\
               (CDOK_POS_Y c' = CDOK_POS_Y c \/ CDOK_POS_X c' = CDOK_POS_X c) in
  (v <= max ->
   (cdok_set_mem v (rd (build_rc_candidates values max) c) = true <->
    ~ used)) /\
  (max < v ->
   (cdok_set_mem v (rd (build_rc_candidates values max) c) = true <->
    used)).
Proof.
  intros _ Hc [Hmax _] Hv used; unfold CDOK_CELLS, CDOK_SIZE in Hc, Hv.
  unfold build_rc_candidates, cdok_set_mem.
  pose proof (rc_marks_exact values 256 ltac:(lia)) as H.
  cbv zeta in H; change (Z.of_nat 256) with CDOK_CELLS in H.
  destruct (fold_left _ (range 0 CDOK_CELLS) _) as [rows cols].
  cbn [fst snd] in H; destruct H as (_ & _ & Hm).
  unfold CDOK_CELLS in *.
  rewrite rd_map_range by lia.
  rewrite testbit_set_cast, Z.lxor_spec, Z.lor_spec, set_ones_ones by lia.
  rewrite Z.testbit_ones_nonneg by lia.
  destruct (Z.ltb_spec (v - 1) 16) as [_|]; [|lia]; rewrite andb_true_r.
  assert (Hy := CDOK_POS_Y_range c ltac:(lia)).
  assert (Hx := CDOK_POS_X_range c).
  destruct (Hm (CDOK_POS_Y c) (v - 1) Hy ltac:(lia)) as [Hrow _].
  destruct (Hm (CDOK_POS_X c) (v - 1) Hx ltac:(lia)) as [_ Hcol].
  assert (Hused : Z.testbit (rd rows (CDOK_POS_Y c)) (v - 1) ||
                  Z.testbit (rd cols (CDOK_POS_X c)) (v - 1) = true <-> used).
  { rewrite orb_true_iff, Hrow, Hcol; unfold used; split.
    - intros [(_ & c' & Hc' & E & Hval)|(_ & c' & Hc' & E & Hval)];
        exists c'; (split; [exact Hc'|split; [lia|auto]]).
    - intros (c' & Hc' & Hval & [E|E]); [left|right];
        (split; [lia|exists c'; split; [exact Hc'|split; [exact E|lia]]]). }
  destruct (Z.testbit (rd rows (CDOK_POS_Y c)) (v - 1) ||
            Z.testbit (rd cols (CDOK_POS_X c)) (v - 1)) eqn:Hu.
  - assert (U : used) by (apply Hused; reflexivity).
    split; intros Hle.
    + destruct (Z.ltb_spec (v - 1) max); [|lia]; cbn.
      split; [discriminate|intros Hn; contradiction].
    + destruct (Z.ltb_spec (v - 1) max); [lia|]; cbn.
      split; auto.
  - assert (U : ~ used) by (intros U; apply Hused in U; discriminate).
    split; intros Hle.
    + destruct (Z.ltb_spec (v - 1) max); [|lia]; cbn.
      split; auto.
    + destruct (Z.ltb_spec (v - 1) max); [lia|]; cbn.
      split; [discriminate|intros Hn; contradiction].
Qed.

Lemma build_rc_candidates_exact_witness :
  let used :=
    exists c', 0 <= c' < CDOK_CELLS /\ rd seed_grid c' = 1 /\
               (CDOK_POS_Y c' = CDOK_POS_Y 0 \/ CDOK_POS_X c' = CDOK_POS_X 0) in
  (1 <= 3 ->
   (cdok_set_mem 1 (rd (build_rc_candidates seed_grid 3) 0) = true <->
    ~ used)) /\
  (3 < 1 ->
   (cdok_set_mem 1 (rd (build_rc_candidates seed_grid 3) 0) = true <->
    used)).
Proof.
  apply (build_rc_candidates_exact seed_grid 3 0 1);
    [|unfold CDOK_CELLS; lia|unfold CDOK_SIZE; lia|unfold CDOK_SIZE; lia].
  apply Forall_forall; intros w Hw.
  assert (H : forallb (fun w => (0 <=? w) && (w <=? 32)) seed_grid = true)
    by (vm_compute; reflexivity).
  rewrite forallb_forall in H; specialize (H w Hw).
  apply andb_true_iff in H as [H1 H2]; apply Z.leb_le in H1, H2; lia.
Defined.

(** ** The count of a set *)

(** X9.  For a 16-bit set, [count_bits] returns the number of values from
    1 to 16 that are members of the set. *)
Theorem count_bits_set_size (s : Z) :
  0 <= s < 65536 -> count_bits s = set_size s.
Proof.
  intros Hs; unfold count_bits.
  rewrite count_bits_loop_size; [reflexivity|exact Hs|].
  unfold set_size.
  pose proof (filter_length_le (fun v => cdok_set_mem v s)
                               (range 1 (CDOK_SIZE + 1))) as H.
  rewrite range_length in H; unfold CDOK_SIZE in H.
  change (Z.to_nat (16 + 1 - 1)) with 16%nat in H.
  unfold CDOK_SIZE; lia.
Qed.

Lemma count_bits_set_size_witness :
  0 <= 37 < 65536 /\ count_bits 37 = set_size 37.
Proof.
  split; [lia|apply (count_bits_set_size 37); lia].
Defined.

(** ** The factors that [factors_for] finds *)

Lemma testbit_lor_cast_single (out c b : Z) :
  1 <= c <= 16 -> 0 <= b ->
  (forall b', 16 <= b' -> Z.testbit out b' = false) ->
  Z.testbit (cdok_set_cast (Z.lor out (CDOK_SET_SINGLE c))) b =
  Z.testbit out b || (c - 1 =? b).
Proof.
  intros Hc Hb Hhigh.
  rewrite testbit_set_cast, Z.lor_spec, testbit_set_single by lia.
  destruct (Z.ltb_spec b 16); [apply andb_true_r|].
  rewrite (Hhigh b) by lia.
  destruct (Z.eqb_spec (c - 1) b); [lia|reflexivity].
Qed.

Lemma factors_loop_spec (target max : Z) (fuel : nat) :
  1 <= target -> max <= 16 ->
  forall i out,
    1 <= i -> max - i < Z.of_nat fuel ->
    (forall b, 16 <= b -> Z.testbit out b = false) ->
    forall v, 1 <= v ->
      (Z.testbit (factors_loop fuel target max i out) (v - 1) = true <->
       Z.testbit out (v - 1) = true \/
       exists k, i <= k /\ k * k < target /\ k <= max /\ (k | target) /\
                 (v = k \/ (v = target / k /\ v <= max))).
Proof.
  intros Ht Hmax; induction fuel as [|f IH]; intros i out Hi Hfuel Hhigh v Hv;
    cbn [factors_loop].
  - split; [auto|intros [H|(k & Hk & _ & Hkm & _)]; [exact H|lia]].
  - destruct (Z.ltb_spec (i * i) target) as [Hsq|Hsq]; cbn [andb].
    2:{ split; [auto|intros [H|(k & Hk & Hk2 & _)]; [exact H|nia]]. }
    destruct (Z.leb_spec i max) as [Him|Him].
    2:{ split; [auto|intros [H|(k & Hk & _ & Hkm & _)]; [exact H|lia]]. }
    rewrite Z.quot_div_nonneg by lia.
    assert (Hrem : Z.rem target i = 0 <-> (i | target)).
    { rewrite Z.rem_mod_nonneg by lia; apply Z.mod_divide; lia. }
    set (out' :=
           if Z.rem target i =? 0
           then (if target / i <=? max
                 then cdok_set_cast
                        (Z.lor (cdok_set_cast (Z.lor out (CDOK_SET_SINGLE i)))
                               (CDOK_SET_SINGLE (target / i)))
                 else cdok_set_cast (Z.lor out (CDOK_SET_SINGLE i)))
           else out).
    assert (Hj : (i | target) -> 1 <= target / i).
    { intros (q & Hq); rewrite Hq, Z.div_mul by lia; nia. }
    assert (Hhigh1 : forall b', 16 <= b' ->
              Z.testbit (cdok_set_cast (Z.lor out (CDOK_SET_SINGLE i))) b'
              = false).
    { intros b' Hb'; rewrite testbit_set_cast by lia.
      destruct (Z.ltb_spec b' 16); [lia|apply andb_false_r]. }
    assert (Hout' : forall b, 0 <= b ->
              Z.testbit out' b =
              Z.testbit out b ||
              ((Z.rem target i =? 0) &&
               ((i - 1 =? b) ||
                ((target / i <=? max) && (target / i - 1 =? b))))).
    { intros b Hb; unfold out'.
      destruct (Z.eqb_spec (Z.rem target i) 0) as [E|E]; cbn [andb];
        [|rewrite orb_false_r; reflexivity].
      apply Hrem in E; specialize (Hj E).
      destruct (Z.leb_spec (target / i) max); cbn [andb].
      - rewrite testbit_lor_cast_single by (auto; lia).
        rewrite testbit_lor_cast_single by (auto; lia).
        rewrite orb_assoc; reflexivity.
      - rewrite testbit_lor_cast_single by (auto; lia).
        rewrite orb_false_r; reflexivity. }
    assert (Hhigh' : forall b, 16 <= b -> Z.testbit out' b = false).
    { intros b Hb; unfold out'.
      destruct (Z.rem target i =? 0); [|apply Hhigh; exact Hb].
      destruct (target / i <=? max); [|apply Hhigh1; exact Hb].
      rewrite testbit_set_cast by lia.
      destruct (Z.ltb_spec b 16); [lia|apply andb_false_r]. }
    rewrite (IH (i + 1) out' ltac:(lia) ltac:(lia) Hhigh' v Hv).
    rewrite (Hout' (v - 1)) by lia.
    rewrite orb_true_iff, andb_true_iff, orb_true_iff, andb_true_iff.
    rewrite !Z.eqb_eq, Z.leb_le, Hrem.
    split.
    + intros [[H|(Hd & [E|(Hle & E)])]|(k & Hk & Hrest)].
      * left; exact H.
      * right; exists i; repeat split; auto; try lia.
      * right; exists i; repeat split; auto; try lia.
      * right; exists k; split; [lia|exact Hrest].
    + intros [H|(k & Hk & Hk2 & Hkm & Hd & Hvk)]; [left; left; exact H|].
      destruct (Z.eq_dec k i) as [->|Hne].
      * left; right; split; [exact Hd|].
        destruct Hvk as [->|(-> & Hle)]; [left; lia|right; split; lia].
      * right; exists k; repeat split; auto; lia.
Qed.

(** X15. With two or more factors left, [factors_for] returns exactly the
    divisors of the target from 1 to [max], except the square root of the
    target: a value [v] with [v * v = target] is never in the set. *)
Theorem factors_for_exact (target n max v : Z) :
  1 <= target -> 2 <= n -> max <= 16 ->
  (cdok_set_mem v (factors_for target n max) = true <->
   1 <= v <= max /\ (v | target) /\ v * v <> target).
Proof.
  intros Ht Hn Hmax; unfold cdok_set_mem, factors_for.
  destruct (Z.ltb_spec target 1); [lia|].
  destruct (Z.ltb_spec n 1); [lia|cbn [orb]].
  destruct (Z.eqb_spec n 1); [lia|].
  destruct (Z.lt_ge_cases v 1) as [Hv|Hv].
  { rewrite Z.testbit_neg_r by lia; split; [discriminate|lia]. }
  rewrite (factors_loop_spec target max (Z.to_nat max) Ht Hmax 1 0)
    by (auto; try lia; intros; apply Z.testbit_0_l).
  rewrite Z.testbit_0_l; split.
  - intros [Hf|(k & Hk & Hk2 & Hkm & (q & Hq) & Hvk)]; [discriminate|].
    destruct Hvk as [->|(-> & Hle)].
    + split; [lia|split; [exists q; exact Hq|lia]].
    + rewrite Hq, Z.div_mul in * by lia.
      split; [lia|split; [exists k; lia|nia]].
  - intros (Hvm & (q & Hq) & Hsq); right.
    assert (Hq1 : 1 <= q) by nia.
    destruct (Z.lt_ge_cases (v * v) target) as [Hlt|Hge].
    + exists v; repeat split; auto; try lia; exists q; exact Hq.
    + exists q; split; [lia|split; [nia|split; [nia|split]]].
      * exists v; lia.
      * right; split; [|lia].
        rewrite Hq, Z.mul_comm, Z.div_mul by lia; reflexivity.
Qed.

Lemma factors_for_exact_witness :
  cdok_set_mem 2 (factors_for 4 2 16) = true <->
  1 <= 2 <= 16 /\ (2 | 4) /\ 2 * 2 <> 4.
Proof.
  apply (factors_for_exact 4 2 16 2); lia.
Defined.

(** ** Feeding the parser in pieces *)

Lemma parser_end_cell_eof (p : cdok_parser) (puz : cdok_puzzle) :
  ps_eof (snd (fst (parser_end_cell p puz))) = ps_eof p.
Proof.
  unfold parser_end_cell.
  repeat match goal with
         | |- context [if ?b then _ else _] => destruct b
         end; reflexivity.
Qed.

Lemma push_loop_app (a b : list Z) :
  forall p puz,
    ps_eof p = 0 ->
    push_loop (a ++ b) p puz =
    let '(r, p', puz') := push_loop a p puz in
    if r <? 0 then (r, p', puz') else cdok_parser_push p' puz' b.
Proof.
  induction a as [|ch a IH]; intros p puz Heof; cbn [app push_loop].
  - unfold cdok_parser_push; rewrite Heof; reflexivity.
  - destruct (ch =? 10).
    { pose proof (parser_end_cell_eof p puz) as He.
      destruct (parser_end_cell p puz) as [[r p1] puz1]; cbn [fst snd] in He.
      destruct (r <? 0); [reflexivity|].
      destruct (ps_x p1 =? 0); [reflexivity|].
      destruct (ps_y p1 =? 0); [apply IH; cbn [ps_eof]; congruence|].
      destruct (negb _); [reflexivity|apply IH; cbn [ps_eof]; congruence]. }
    destruct (isspace ch).
    { pose proof (parser_end_cell_eof p puz) as He.
      destruct (parser_end_cell p puz) as [[r p1] puz1]; cbn [fst snd] in He.
      destruct (r <? 0); [reflexivity|apply IH; congruence]. }
    destruct (isdigit ch); [apply IH; exact Heof|].
    destruct (_ || _); [apply IH; exact Heof|].
    destruct (negb _); apply IH; exact Heof.
Qed.

(** X10.  Feeding the parser a text in two pieces gives what feeding it
    the whole text gives: the return value, the parser state and the
    puzzle are the same, where a piece that fails ends the run. *)
Theorem cdok_parser_push_app (p : cdok_parser) (puz : cdok_puzzle)
    (a b : list Z) :
  cdok_parser_push p puz (a ++ b) =
  let '(r, p', puz') := cdok_parser_push p puz a in
  if r <? 0 then (r, p', puz') else cdok_parser_push p' puz' b.
Proof.
  unfold cdok_parser_push at 1 2.
  destruct (Z.eqb_spec (ps_eof p) 0) as [E|E]; cbn [negb].
  - apply push_loop_app; exact E.
  - cbn [Z.ltb Z.compare]; unfold cdok_parser_push.
    destruct (Z.eqb_spec (ps_eof p) 0); [contradiction|reflexivity].
Qed.

(** ** The parser keeps its invariant *)

Lemma char_to_group_range (ch : Z) :
  cdok_char_to_group ch <> CDOK_GROUP_NONE ->
  0 <= cdok_char_to_group ch < CDOK_GROUPS.
Proof.
  unfold cdok_char_to_group, CDOK_GROUPS; cbv zeta.
  assert (Hr : 0 <= uint8_cast ch < 256).
  { unfold uint8_cast; change 255 with (Z.ones 8).
    rewrite Z.land_ones by lia; apply Z.mod_pos_bound; lia. }
  destruct (Z.leb_spec 65 (uint8_cast ch)), (Z.leb_spec (uint8_cast ch) 90);
    cbn [andb]; try (intros _; rewrite uint8_cast_small; lia).
  - destruct (Z.leb_spec 97 (uint8_cast ch)),
             (Z.leb_spec (uint8_cast ch) 122); cbn [andb];
      try (intros _; rewrite uint8_cast_small; lia); congruence.
  - destruct (Z.leb_spec 97 (uint8_cast ch)),
             (Z.leb_spec (uint8_cast ch) 122); cbn [andb];
      try (intros _; rewrite uint8_cast_small; lia); congruence.
Qed.

Lemma cell_before_current (p : cdok_parser) :
  0 <= ps_x p < 16 -> 0 <= ps_y p < 16 ->
  ~ cell_before p (CDOK_POS (ps_x p) (ps_y p)).
Proof.
  intros Hx Hy (x & y & Hx' & Hy' & E & Hb).
  apply CDOK_POS_inj in E; [|lia..].
  unfold before in Hb; lia.
Qed.

Lemma cell_before_next (p : cdok_parser) (c : Z) :
  0 <= ps_x p < 16 -> 0 <= ps_y p < 16 ->
  cell_before (next_cell p) c <->
  cell_before p c \/ c = CDOK_POS (ps_x p) (ps_y p).
Proof.
  intros Hx Hy; unfold cell_before, next_cell, before; cbn [ps_x ps_y].
  rewrite uint_cast_small by lia; split.
  - intros (x & y & Hx' & Hy' & E & Hb).
    destruct (Z.eq_dec y (ps_y p)) as [Ey|Ey];
      [destruct (Z.eq_dec x (ps_x p)) as [Ex|Ex]|].
    + right; congruence.
    + left; exists x, y; repeat split; auto; lia.
    + left; exists x, y; repeat split; auto; lia.
  - intros [(x & y & Hx' & Hy' & E & Hb)|E].
    + exists x, y; repeat split; auto; lia.
    + exists (ps_x p), (ps_y p); repeat split; auto; lia.
Qed.

Lemma live_members_add (members : list Z) (size c : Z) (t : cdok_gtype_t)
    (tg : Z) (g : cdok_group) :
  0 <= size < Z.of_nat (length members) ->
  g_size g = size -> g_members g = members ->
  live_members (mk_group t tg (size + 1) (wr members size c)) =
  live_members g ++ [c].
Proof.
  intros Hs Hgs Hgm; unfold live_members; cbn [g_size g_members].
  rewrite range_snoc, map_app by lia; cbn [map].
  rewrite rd_wr_same, Hgs, Hgm by lia; f_equal.
  apply map_ext_in; intros j Hj; apply in_range in Hj.
  apply rd_wr_other; lia.
Qed.

(** Ending a cell that joins the group [name]. *)
Lemma parsing_add (p : cdok_parser) (puz : cdok_puzzle) (name : Z)
    (t : cdok_gtype_t) (tg : Z) :
  parsing p puz -> 0 <= name < CDOK_GROUPS ->
  ps_x p < 16 -> ps_y p < 16 ->
  g_size (grp_at puz name) < CDOK_GROUP_SIZE ->
  t = 0 \/ valid_type t ->
  parsing (next_cell p)
    (set_grp puz name
       (mk_group t tg (g_size (grp_at puz name) + 1)
                 (wr (g_members (grp_at puz name)) (g_size (grp_at puz name))
                     (CDOK_POS (ps_x p) (ps_y p))))).
Proof.
  intros (Hx & Hy & Hxy & Hname & Hty & Hsz & Hsy & Hlg & Hlv & Hblank
            & Hgrp & Hdis) Hn Hx16 Hy16 Hroom Ht.
  set (c := CDOK_POS (ps_x p) (ps_y p)).
  set (g0 := grp_at puz name) in *.
  set (g1 := mk_group t tg (g_size g0 + 1) (wr (g_members g0) (g_size g0) c)).
  destruct (Hgrp name Hn) as (Hs0 & Hm0 & _ & Hnd0 & Hin0); fold g0 in Hs0,
    Hm0, Hnd0, Hin0.
  unfold CDOK_GROUP_SIZE, CDOK_GROUPS, CDOK_CELLS in *.
  assert (Hlive1 : live_members g1 = live_members g0 ++ [c]).
  { apply (live_members_add (g_members g0) (g_size g0) c t tg g0);
      [rewrite Hm0; clear -Hs0 Hroom; lia|reflexivity|reflexivity]. }
  assert (Hat : forall i, 0 <= i ->
            grp_at (set_grp puz name g1) i =
            if name =? i then g1 else grp_at puz i).
  { intros i Hi; unfold set_grp; apply grp_at_upd; [rewrite Hlg; lia|].
    exact Hi. }
  assert (Hcur : ~ cell_before p c)
    by (apply cell_before_current; lia).
  assert (Hnext : forall d, cell_before (next_cell p) d <->
                            cell_before p d \/ d = c)
    by (intros d; apply cell_before_next; lia).
  assert (Hc256 : 0 <= c < 256) by (apply CDOK_POS_range; lia).
  unfold parsing; cbn [ps_x ps_y ps_group_name ps_group_type next_cell].
  unfold CDOK_GROUP_SIZE, CDOK_GROUPS, CDOK_CELLS.
  rewrite uint_cast_small by lia.
  split; [lia|split; [lia|split; [lia|split; [left; reflexivity|]]]].
  split; [left; reflexivity|].
  unfold set_grp at 1 2 3 4 5; cbn [p_size p_groups p_values].
  split; [lia|split; [exact Hsy|split; [rewrite upd_length; exact Hlg|]]].
  split; [exact Hlv|split; [|split]].
  - intros d Hd Hnb; apply Hblank; [exact Hd|].
    intros Hb; apply Hnb, Hnext; left; exact Hb.
  - intros i Hi; rewrite Hat by lia.
    destruct (Z.eqb_spec name i) as [E|E].
    + unfold g1 at 1 2 3; cbn [g_size g_members g_type].
      rewrite wr_length; split; [lia|split; [exact Hm0|split; [exact Ht|]]].
      rewrite Hlive1; split.
      * apply NoDup_app; [exact Hnd0|repeat constructor; intros []|].
        intros d Hd [<-|[]]; apply Hcur, Hin0, Hd.
      * intros d Hd; apply in_app_iff in Hd as [Hd|[<-|[]]].
        -- destruct (Hin0 d Hd) as [Hb Hz]; split; [|exact Hz].
           apply Hnext; left; exact Hb.
        -- split; [apply Hnext; right; reflexivity|].
           apply Hblank; [lia|exact Hcur].
    + destruct (Hgrp i Hi) as (H1 & H2 & H3 & H4 & H5).
      split; [exact H1|split; [exact H2|split; [exact H3|split; [exact H4|]]]].
      intros d Hd; destruct (H5 d Hd) as [Hb Hz]; split; [|exact Hz].
      apply Hnext; left; exact Hb.
  - intros i j d Hi Hj Hne; rewrite !Hat by lia.
    destruct (Z.eqb_spec name i) as [Ei|Ei], (Z.eqb_spec name j) as [Ej|Ej];
      try lia.
    + rewrite Hlive1; intros Hd Hd'; apply in_app_iff in Hd as [Hd|[<-|[]]].
      * apply (Hdis name j d); auto; lia.
      * destruct (Hgrp j Hj) as (_ & _ & _ & _ & H5).
        apply Hcur, (H5 c Hd').
    + rewrite Hlive1; intros Hd Hd'; apply in_app_iff in Hd' as [Hd'|[<-|[]]].
      * apply (Hdis i name d); auto; lia.
      * destruct (Hgrp i Hi) as (_ & _ & _ & _ & H5).
        apply Hcur, (H5 c Hd).
    + apply Hdis; auto.
Qed.

(** Ending a cell that holds a given. *)
Lemma parsing_given (p : cdok_parser) (puz : cdok_puzzle) (v : Z) :
  parsing p puz -> ps_x p < 16 -> ps_y p < 16 ->
  parsing (next_cell p)
    (mk_puzzle (p_size puz) (p_groups puz)
               (wr (p_values puz) (CDOK_POS (ps_x p) (ps_y p)) v)
               (p_group_map puz)).
Proof.
  intros (Hx & Hy & Hxy & Hname & Hty & Hsz & Hsy & Hlg & Hlv & Hblank
            & Hgrp & Hdis) Hx16 Hy16.
  set (c := CDOK_POS (ps_x p) (ps_y p)).
  assert (Hcur : ~ cell_before p c)
    by (apply cell_before_current; lia).
  assert (Hnext : forall d, cell_before (next_cell p) d <->
                            cell_before p d \/ d = c)
    by (intros d; apply cell_before_next; lia).
  unfold parsing; cbn [ps_x ps_y ps_group_name ps_group_type next_cell].
  rewrite uint_cast_small by lia.
  split; [lia|split; [lia|split; [lia|split; [left; reflexivity|]]]].
  split; [left; reflexivity|].
  cbn [p_size p_groups p_values].
  split; [lia|split; [exact Hsy|split; [exact Hlg|]]].
  split; [rewrite wr_length; exact Hlv|split; [|split; [|exact Hdis]]].
  - intros d Hd Hnb.
    assert (Hne : c <> d) by (intros E; apply Hnb, Hnext; right; auto).
    rewrite rd_wr_other by lia; apply Hblank; [exact Hd|].
    intros Hb; apply Hnb, Hnext; left; exact Hb.
  - intros i Hi; unfold grp_at; cbn [p_groups]; fold (grp_at puz i).
    destruct (Hgrp i Hi) as (H1 & H2 & H3 & H4 & H5).
    split; [exact H1|split; [exact H2|split; [exact H3|split; [exact H4|]]]].
    intros d Hd; destruct (H5 d Hd) as [Hb Hz].
    split; [apply Hnext; left; exact Hb|].
    assert (Hne : c <> d) by (intros E; subst d; contradiction).
    destruct Hb as (x & y & Hx' & Hy' & -> & _).
    rewrite rd_wr_other; [exact Hz|apply CDOK_POS_nonneg; lia|exact Hne].
Qed.

Lemma parser_end_cell_parsing (p : cdok_parser) (puz : cdok_puzzle)
    (p' : cdok_parser) (puz' : cdok_puzzle) :
  parsing p puz -> parser_end_cell p puz = (0, p', puz') ->
  parsing p' puz' /\ ps_y p' = ps_y p /\ p_size puz' = p_size puz /\
  ps_eof p' = ps_eof p /\ ps_x p <= ps_x p'.
Proof.
  intros Hp; pose proof Hp as (Hx & Hy & Hxy & Hname & Hty & Hsz & Hsy & Hlg
                                 & Hlv & Hblank & Hgrp & Hdis).
  unfold parser_end_cell.
  destruct (_ && _).
  { intros E; assert (E1 : p' = p) by congruence.
    assert (E2 : puz' = puz) by congruence; subst p' puz'.
    split; [exact Hp|repeat split; lia]. }
  destruct (Z.geb_spec (ps_x p) CDOK_SIZE) as [|Hx16]; [discriminate|].
  destruct (Z.geb_spec (ps_y p) CDOK_SIZE) as [|Hy16]; [discriminate|].
  unfold CDOK_SIZE in *; cbn [orb].
  assert (Hnx : ps_x p <= ps_x (next_cell p))
    by (cbn [next_cell ps_x]; rewrite uint_cast_small; lia).
  destruct (Z.eqb_spec (ps_group_name p) CDOK_GROUP_NONE) as [En|En];
    cbn [negb].
  { intros E; inversion E; subst; split; [apply parsing_given; auto|].
    repeat split; auto. }
  destruct Hname as [|Hname]; [contradiction|].
  destruct (Hgrp _ Hname) as (Hs0 & _ & Ht0 & _).
  destruct (Z.geb_spec (g_size (grp_at puz (ps_group_name p)))
                       CDOK_GROUP_SIZE) as [|Hroom]; [discriminate|].
  cbv zeta; cbn [g_type g_target g_size g_members].
  rewrite uint_cast_small by (unfold CDOK_GROUP_SIZE in *; lia).
  destruct (_ && _ && _) ; [discriminate|].
  assert (Hadd : forall t tg, t = 0 \/ valid_type t ->
            parsing (next_cell p)
              (set_grp puz (ps_group_name p)
                 (mk_group t tg (g_size (grp_at puz (ps_group_name p)) + 1)
                    (wr (g_members (grp_at puz (ps_group_name p)))
                        (g_size (grp_at puz (ps_group_name p)))
                        (CDOK_POS (ps_x p) (ps_y p))))))
    by (intros t tg Ht; apply parsing_add; auto).
  assert (Hty' : negb (ps_group_type p =? 0) = true ->
                 ps_group_type p = 0 \/ valid_type (ps_group_type p))
    by (intros _; exact Hty).
  destruct (ps_value p >=? 0); cbn [g_type g_target g_size g_members];
    destruct (negb (ps_group_type p =? 0)); cbn [andb];
    try (destruct (negb (_ =? 0) && negb (_ =? ps_group_type p));
         [discriminate|]);
    intros E; inversion E; subst; (split; [apply Hadd; auto|]);
    repeat split; auto.
Qed.

Lemma parser_end_cell_result (p : cdok_parser) (puz : cdok_puzzle) :
  fst (fst (parser_end_cell p puz)) = 0 \/
  fst (fst (parser_end_cell p puz)) = -1.
Proof.
  unfold parser_end_cell.
  repeat match goal with
         | |- context [if ?b then _ else _] => destruct b
         end; cbn [fst]; auto.
Qed.

(** The invariant does not depend on the fields for the cell being
    read, as long as the group name and type are in range. *)
Lemma parsing_fields (p p' : cdok_parser) (puz : cdok_puzzle) :
  parsing p puz -> ps_x p' = ps_x p -> ps_y p' = ps_y p ->
  (ps_group_name p' = CDOK_GROUP_NONE \/
   0 <= ps_group_name p' < CDOK_GROUPS) ->
  (ps_group_type p' = 0 \/ valid_type (ps_group_type p')) ->
  parsing p' puz.
Proof.
  intros (Hx & Hy & Hxy & Hname & Hty & Hsz & Hsy & Hlg & Hlv & Hblank
            & Hgrp & Hdis) Ex Ey Hn Ht.
  assert (Hb : forall c, cell_before p' c <-> cell_before p c)
    by (intros c; unfold cell_before; rewrite Ex, Ey; tauto).
  unfold parsing; rewrite Ex, Ey.
  split; [exact Hx|split; [exact Hy|split; [exact Hxy|split; [exact Hn|]]]].
  split; [exact Ht|split; [exact Hsz|split; [exact Hsy|split; [exact Hlg|]]]].
  split; [exact Hlv|split; [|split; [|exact Hdis]]].
  - intros c Hc Hnb; apply Hblank; [exact Hc|rewrite <- Hb; exact Hnb].
  - intros i Hi; destruct (Hgrp i Hi) as (H1 & H2 & H3 & H4 & H5).
    split; [exact H1|split; [exact H2|split; [exact H3|split; [exact H4|]]]].
    intros c Hc; destruct (H5 c Hc) as [H6 H7]; split; [|exact H7].
    apply Hb; exact H6.
Qed.

(** The end of a line that holds cells. *)
Lemma parsing_newline (p : cdok_parser) (puz : cdok_puzzle) (size : Z) :
  parsing p puz -> 0 < ps_x p ->
  (0 < ps_y p /\ size = p_size puz) \/ (ps_y p = 0 /\ size = ps_x p) ->
  parsing (mk_parser (ps_eof p) 0 (uint_cast (ps_y p + 1)) (ps_max_x p)
                     (ps_value p) (ps_group_name p) (ps_group_type p))
          (mk_puzzle size (p_groups puz) (p_values puz) (p_group_map puz)).
Proof.
  intros (Hx & Hy & Hxy & Hname & Hty & Hsz & Hsy & Hlg & Hlv & Hblank
            & Hgrp & Hdis) Hpos Hsize.
  specialize (Hxy Hpos).
  rewrite uint_cast_small by lia.
  assert (Hb : forall c, cell_before p c ->
                cell_before (mk_parser (ps_eof p) 0 (ps_y p + 1)
                               (ps_max_x p) (ps_value p) (ps_group_name p)
                               (ps_group_type p)) c).
  { intros c (x & y & Hx' & Hy' & E & Hbf).
    exists x, y; cbn [ps_x ps_y].
    unfold before in *; repeat split; auto; lia. }
  unfold parsing; cbn [ps_x ps_y ps_group_name ps_group_type p_size p_groups
                            p_values].
  split; [lia|split; [lia|split; [lia|split; [exact Hname|]]]].
  split; [exact Hty|split; [lia|split; [lia|split; [exact Hlg|]]]].
  split; [exact Hlv|split; [|split; [|exact Hdis]]].
  - intros c Hc Hnb; apply Hblank; [exact Hc|].
    intros H; apply Hnb, Hb, H.
  - intros i Hi; unfold grp_at; cbn [p_groups]; fold (grp_at puz i).
    destruct (Hgrp i Hi) as (H1 & H2 & H3 & H4 & H5).
    split; [exact H1|split; [exact H2|split; [exact H3|split; [exact H4|]]]].
    intros c Hc; destruct (H5 c Hc) as [H6 H7]; split; [|exact H7].
    apply Hb; exact H6.
Qed.

Lemma push_loop_parsing (text : list Z) :
  forall p puz p' puz',
    parsing p puz -> push_loop text p puz = (0, p', puz') ->
    parsing p' puz'.
Proof.
  induction text as [|ch text IH]; intros p puz p' puz' Hp; cbn [push_loop].
  { intros E; inversion E; subst; exact Hp. }
  assert (Hend : forall p1 puz1 r,
            parser_end_cell p puz = (r, p1, puz1) -> (r <? 0) = false ->
            parsing p1 puz1 /\ ps_y p1 = ps_y p /\ p_size puz1 = p_size puz /\
            ps_eof p1 = ps_eof p /\ ps_x p <= ps_x p1).
  { intros p1 puz1 r E Hr.
    pose proof (parser_end_cell_result p puz) as H; rewrite E in H.
    cbn [fst] in H; destruct H as [->| ->]; [|discriminate].
    apply parser_end_cell_parsing; auto. }
  destruct (ch =? 10).
  { destruct (parser_end_cell p puz) as [[r p1] puz1] eqn:E.
    destruct (r <? 0) eqn:Hr; [discriminate|].
    destruct (Hend p1 puz1 r eq_refl Hr) as (Hp1 & Ey & Es & _ & Hx1).
    pose proof Hp1 as (Hx & _).
    destruct (Z.eqb_spec (ps_x p1) 0) as [Ex|Ex].
    { intros E'; inversion E'; subst.
      apply (parsing_fields p1); auto; apply Hp1. }
    destruct (Z.eqb_spec (ps_y p1) 0) as [Ey0|Ey0].
    { apply IH; apply parsing_newline; auto; lia. }
    destruct (negb _); [discriminate|].
    apply IH.
    replace puz1 with (mk_puzzle (p_size puz1) (p_groups puz1)
                                 (p_values puz1) (p_group_map puz1)) at 2
      by (destruct puz1; reflexivity).
    destruct Hp1 as (_ & Hy1 & _).
    apply parsing_newline; [apply (Hend p1 _ r eq_refl Hr)|lia|].
    left; split; [lia|reflexivity]. }
  destruct (isspace ch).
  { destruct (parser_end_cell p puz) as [[r p1] puz1] eqn:E.
    destruct (r <? 0) eqn:Hr; [discriminate|].
    destruct (Hend p1 puz1 r eq_refl Hr) as (Hp1 & _).
    apply IH; exact Hp1. }
  destruct (isdigit ch).
  { apply IH; apply (parsing_fields p); auto; apply Hp. }
  destruct ((ch =? 43) || (ch =? 45) || (ch =? 42) || (ch =? 47)) eqn:Hop.
  { apply IH; apply (parsing_fields p); auto; [apply Hp|].
    cbn [ps_group_type]; right; unfold valid_type, CDOK_SUM, CDOK_DIFFERENCE,
      CDOK_PRODUCT, CDOK_RATIO.
    repeat (apply orb_true_iff in Hop as [Hop|Hop]);
      apply Z.eqb_eq in Hop; auto. }
  destruct (Z.eqb_spec (cdok_char_to_group ch) CDOK_GROUP_NONE) as [En|En];
    cbn [negb]; [apply IH; exact Hp|].
  apply IH; apply (parsing_fields p); auto; [|apply Hp].
  cbn [ps_group_name]; right; apply char_to_group_range; exact En.
Qed.

Lemma parsing_init :
  parsing (fst cdok_parser_init) (snd cdok_parser_init).
Proof.
  unfold cdok_parser_init, parsing; cbn [fst snd].
  cbn [ps_x ps_y ps_group_name ps_group_type].
  assert (Hg : forall i, 0 <= i < CDOK_GROUPS ->
                grp_at (cdok_init_puzzle 0) i =
                mk_group 0 (-1) 0 (repeat 0 8)).
  { intros i Hi; unfold grp_at, cdok_init_puzzle; cbn [p_groups].
    apply nth_repeat_lt; lia. }
  split; [lia|split; [lia|split; [lia|split; [left; reflexivity|]]]].
  split; [left; reflexivity|].
  split; [cbn; lia|split; [lia|split; [apply repeat_length|]]].
  split; [apply repeat_length|split; [|split]].
  - intros c Hc _; unfold cdok_init_puzzle; cbn [p_values].
    apply rd_repeat; lia.
  - intros i Hi; rewrite Hg by exact Hi; cbn [g_size g_members g_type].
    unfold CDOK_GROUP_SIZE.
    split; [lia|split; [reflexivity|split; [left; reflexivity|]]].
    rewrite live_members_nil by (cbn; lia).
    split; [constructor|intros c []].
  - intros i j c Hi Hj _; rewrite (Hg i Hi).
    rewrite live_members_nil by (cbn; lia); intros [].
Qed.

(** ** The group map that the parser builds *)

Lemma write_cells (v : Z) (cells : list Z) (m : list Z) :
  (forall c, In c cells -> 0 <= c < Z.of_nat (length m)) ->
  let m' := fold_left (fun m c => wr m c v) cells m in
  length m' = length m /\
  (forall c, In c cells -> rd m' c = v) /\
  (forall c, 0 <= c -> ~ In c cells -> rd m' c = rd m c).
Proof.
  revert m; induction cells as [|a cells IH]; intros m Hc; cbn [fold_left].
  - repeat split; auto; intros c [].
  - destruct (IH (wr m a v)) as (H1 & H2 & H3).
    { intros c Hin; rewrite wr_length; apply Hc; simpl; auto. }
    rewrite wr_length in H1; repeat split; auto.
    + intros c [->|Hin]; auto.
      destruct (in_dec Z.eq_dec c cells) as [Hin|Hout]; auto.
      rewrite H3; auto; [apply rd_wr_same|]; apply Hc; simpl; auto.
    + intros c Hc0 Hout; rewrite H3; [|auto|intros Hin; apply Hout; simpl; auto].
      apply rd_wr_other; auto; intros ->; apply Hout; simpl; auto.
Qed.

Lemma build_group_map_spec (puz : cdok_puzzle) :
  (forall i c, 0 <= i < CDOK_GROUPS -> In c (live_members (grp_at puz i)) ->
               0 <= c < CDOK_CELLS) ->
  (forall i j c, 0 <= i < CDOK_GROUPS -> 0 <= j < CDOK_GROUPS -> i <> j ->
     In c (live_members (grp_at puz i)) ->
     ~ In c (live_members (grp_at puz j))) ->
  let m := p_group_map (build_group_map puz) in
  length m = Z.to_nat CDOK_CELLS /\
  (forall i c, 0 <= i < CDOK_GROUPS -> In c (live_members (grp_at puz i)) ->
               rd m c = i) /\
  (forall c, 0 <= c < CDOK_CELLS ->
     rd m c = CDOK_GROUP_NONE \/
     (0 <= rd m c < CDOK_GROUPS /\ In c (live_members (grp_at puz (rd m c))))).
Proof.
  intros Hin Hdis; unfold build_group_map; cbn [p_group_map].
  unfold CDOK_GROUPS, CDOK_CELLS in *.
  assert (H : forall k : nat,
             Z.of_nat k <= 52 ->
             let m :=
               fold_left
                 (fun group_map i =>
                    let g := grp_at puz i in
                    fold_left
                      (fun group_map j =>
                         wr group_map (rd (g_members g) j) (uint8_cast i))
                      (range 0 (g_size g)) group_map)
                 (range 0 (Z.of_nat k))
                 (repeat CDOK_GROUP_NONE (Z.to_nat 256)) in
             length m = Z.to_nat 256 /\
             (forall i c, 0 <= i < Z.of_nat k ->
                          In c (live_members (grp_at puz i)) -> rd m c = i) /\
             (forall c, 0 <= c < 256 ->
                rd m c = CDOK_GROUP_NONE \/
                (0 <= rd m c < Z.of_nat k /\
                 In c (live_members (grp_at puz (rd m c)))))).
  { induction k as [|k IH]; intros Hk; cbv zeta.
    - rewrite range_nil by lia; cbn [fold_left].
      split; [apply repeat_length|split; [intros i c Hi; lia|]].
      intros c Hc; left; apply rd_repeat; lia.
    - replace (Z.of_nat (S k)) with (Z.of_nat k + 1) by lia.
      rewrite range_snoc, fold_left_app by lia; cbn [fold_left].
      cbv zeta in IH; destruct IH as (Hl & Hset & Hnone); [lia|].
      set (prev := fold_left _ (range 0 (Z.of_nat k)) _) in *.
      rewrite <- (fold_left_map_arg
                    (fun group_map c => wr group_map c (uint8_cast (Z.of_nat k)))
                    (rd (g_members (grp_at puz (Z.of_nat k))))).
      fold (live_members (grp_at puz (Z.of_nat k))).
      destruct (write_cells (uint8_cast (Z.of_nat k))
                            (live_members (grp_at puz (Z.of_nat k))) prev)
        as (W1 & W2 & W3).
      { intros c Hc; rewrite Hl; apply (Hin (Z.of_nat k)); [lia|exact Hc]. }
      rewrite uint8_cast_small in * by lia.
      split; [rewrite W1; exact Hl|split].
      + intros i c Hi Hc.
        destruct (Z.eq_dec i (Z.of_nat k)) as [->|Hne]; [apply W2; exact Hc|].
        rewrite W3; [apply Hset; [lia|exact Hc]| |].
        * apply (Hin i c); [lia|exact Hc].
        * apply (Hdis i (Z.of_nat k)); auto; lia.
      + intros c Hc.
        destruct (in_dec Z.eq_dec c (live_members (grp_at puz (Z.of_nat k))))
          as [Hk'|Hk'].
        * right; rewrite (W2 c Hk'); split; [lia|exact Hk'].
        * rewrite (W3 c) by (lia || exact Hk').
          destruct (Hnone c Hc) as [E|(E1 & E2)]; [left; exact E|right].
          split; [lia|exact E2]. }
  apply (H 52%nat); lia.
Qed.

Lemma parsing_map_ok (p : cdok_parser) (puz : cdok_puzzle) :
  parsing p puz -> map_ok (build_group_map puz).
Proof.
  intros (_ & _ & _ & _ & _ & _ & _ & Hlg & _ & _ & Hg & Hdis).
  assert (Hin : forall i c, 0 <= i < CDOK_GROUPS ->
                  In c (live_members (grp_at puz i)) -> 0 <= c < CDOK_CELLS).
  { intros i c Hi Hc; destruct (Hg i Hi) as (_ & _ & _ & _ & Hb).
    destruct (Hb c Hc) as ((x & y & Hx & Hy & -> & _) & _).
    apply CDOK_POS_range; lia. }
  destruct (build_group_map_spec puz Hin Hdis) as (Hl & Hset & Hnone).
  unfold map_ok; split; [exact Hlg|split; [exact Hl|split]].
  - intros i Hi; change (grp_at (build_group_map puz) i) with (grp_at puz i).
    destruct (Hg i Hi) as (H1 & H2 & _ & H4 & _).
    split; [exact H1|split; [exact H2|split; [exact H4|]]].
    intros c Hc; split; [exact (Hin i c Hi Hc)|exact (Hset i c Hi Hc)].
  - intros c Hc Hne; destruct (Hnone c Hc) as [E|E]; [contradiction|exact E].
Qed.

(** ** The checks at the end of the text *)

Lemma validate_groups_spec (puz : cdok_puzzle) :
  (validate_groups puz = 0 \/ validate_groups puz = -1) /\
  (validate_groups puz = 0 ->
   forall i, 0 <= i < CDOK_GROUPS -> g_size (grp_at puz i) <> 0 ->
     g_type (grp_at puz i) <> 0 /\ 0 <= g_target (grp_at puz i) /\
     2 <= g_size (grp_at puz i) /\
     (g_type (grp_at puz i) = CDOK_RATIO \/
      g_type (grp_at puz i) = CDOK_PRODUCT -> g_target (grp_at puz i) <> 0)).
Proof.
  unfold validate_groups.
  destruct (find _ _) as [i|] eqn:E; [split; [auto|discriminate]|].
  split; [auto|intros _ i Hi Hsize].
  pose proof (find_none _ _ E i) as F; cbv beta in F.
  specialize (F ltac:(apply in_range; exact Hi)).
  unfold group_fault in F.
  destruct (Z.eqb_spec (g_size (grp_at puz i)) 0) as [|_]; [contradiction|].
  destruct (Z.eqb_spec (g_type (grp_at puz i)) 0) as [|Ht]; [discriminate|].
  destruct (Z.ltb_spec (g_target (grp_at puz i)) 0) as [|Hta]; [discriminate|].
  destruct (Z.ltb_spec (g_size (grp_at puz i)) 2) as [|Hs]; [discriminate|].
  split; [exact Ht|split; [exact Hta|split; [exact Hs|]]].
  intros Hty Hz; rewrite Hz in F.
  destruct Hty as [Hty|Hty]; rewrite Hty in F; vm_compute in F; discriminate.
Qed.

Lemma count_src_le (src : Z) (m : list Z) :
  (count_src src m <= length m)%nat.
Proof.
  unfold count_src; induction m as [|a m IH]; cbn [filter length]; [lia|].
  destruct (a =? src); cbn [length]; lia.
Qed.

Lemma fills_done_step (puz : cdok_puzzle) (k : Z) (m : list Z) :
  map_ok puz -> 0 <= k < CDOK_GROUPS -> fills_done puz k m ->
  exists m',
    (let g := grp_at puz k in
     let start := rd (g_members g) 0 in
     if negb (g_size g =? 0)
     then cdok_flood_fill (S (Z.to_nat CDOK_CELLS)) m (uint8_cast k)
                          (CDOK_POS_X start) (CDOK_POS_Y start)
     else Some m) = Some m' /\
    fills_done puz (k + 1) m'.
Proof.
  intros (_ & Hl0 & Hg & Hmap) Hk (Hl & Hsame & Hkeep & Hdone); cbv zeta.
  assert (Hnone : k <> CDOK_GROUP_NONE)
    by (unfold CDOK_GROUPS in Hk; vm_compute; intros E; subst k;
        destruct Hk as [_ Hk]; vm_compute in Hk; discriminate).
  rewrite uint8_cast_small by (unfold CDOK_GROUPS in Hk; lia).
  destruct (Z.eqb_spec (g_size (grp_at puz k)) 0) as [Hz|Hnz]; cbn [negb].
  - exists m; split; [reflexivity|].
    split; [exact Hl|split; [exact Hsame|split]].
    + intros c Hc Hle; apply Hkeep; [exact Hc|lia].
    + intros i c Hi Hsz Hc Hci Hcn.
      destruct (Z.eq_dec i k) as [->|Hne]; [contradiction|].
      apply Hdone; auto; lia.
  - destruct (Hg k Hk) as (Hsz & _ & _ & Hmem).
    set (start := rd (g_members (grp_at puz k)) 0).
    assert (Hstart : In start (live_members (grp_at puz k)))
      by (apply in_live_members; exists 0; split; [lia|reflexivity]).
    destruct (Hmem start Hstart) as (Hsr & _).
    assert (Hx := CDOK_POS_X_range start).
    assert (Hy := CDOK_POS_Y_range start Hsr).
    destruct (flood_fill_total k Hnone (S (Z.to_nat CDOK_CELLS)) m
                (CDOK_POS_X start) (CDOK_POS_Y start) Hl Hx Hy)
      as (m' & Hfill).
    { pose proof (count_src_le k m); lia. }
    exists m'; split; [exact Hfill|].
    destruct (flood_fill_sound k Hnone _ _ _ _ _ Hl Hx Hy Hfill)
      as (Hl' & Hpt & Hlink).
    rewrite (CDOK_POS_XY start (proj1 Hsr)) in Hlink.
    split; [exact Hl'|split; [|split]].
    + intros c Hc; destruct (Hpt c Hc) as [E|(_ & E)]; [|right; exact E].
      rewrite E; apply Hsame; exact Hc.
    + intros c Hc Hle.
      rewrite <- (Hkeep c Hc) by lia.
      destruct (Hpt c Hc) as [E|(E & _)]; [exact E|].
      rewrite (Hkeep c Hc) in E by lia; lia.
    + intros i c Hi Hsize Hc Hci Hcn.
      destruct (Z.eq_dec i k) as [->|Hne].
      * apply (linked_mono (filled k m m')).
        -- intros d (Hd & Hdm & _).
           destruct (Hsame d Hd) as [E|E]; [|congruence].
           destruct (Hmap d Hd) as (_ & Hin); [congruence|].
           rewrite <- E, Hdm in Hin; exact Hin.
        -- apply Hlink; split; [exact Hc|split; [|exact Hcn]].
           rewrite (Hkeep c Hc) by lia; exact Hci.
      * apply Hdone; auto; [lia|].
        destruct (Hpt c Hc) as [E|(E & _)]; [congruence|].
        destruct (Hsame c Hc) as [E'|E']; congruence.
Qed.

Lemma validate_group_map_spec (puz : cdok_puzzle) :
  map_ok puz ->
  exists r, validate_group_map puz = Some r /\ (r = 0 \/ r = -1) /\
    (r = 0 -> forall i, 0 <= i < CDOK_GROUPS ->
                connected (live_members (grp_at puz i))).
Proof.
  intros Hok.
  assert (H : forall k : nat, Z.of_nat k <= CDOK_GROUPS ->
            exists m,
              fold_left
                (fun om i =>
                   do map <- om;
                   let g := grp_at puz i in
                   let start := rd (g_members g) 0 in
                   if negb (g_size g =? 0)
                   then cdok_flood_fill (S (Z.to_nat CDOK_CELLS)) map
                          (uint8_cast i) (CDOK_POS_X start) (CDOK_POS_Y start)
                   else Some map)
                (range 0 (Z.of_nat k)) (Some (p_group_map puz)) = Some m /\
              fills_done puz (Z.of_nat k) m).
  { induction k as [|k IH]; intros Hk.
    - exists (p_group_map puz); rewrite range_nil by lia; split; [reflexivity|].
      destruct Hok as (_ & Hl0 & _).
      split; [exact Hl0|split; [auto|split; [auto|intros; lia]]].
    - destruct IH as (m & Hm & Hinv); [lia|].
      replace (Z.of_nat (S k)) with (Z.of_nat k + 1) by lia.
      rewrite range_snoc, fold_left_app, Hm by lia; cbn [fold_left obind].
      apply (fills_done_step puz (Z.of_nat k) m Hok); [lia|exact Hinv]. }
  destruct (H (Z.to_nat CDOK_GROUPS)) as (m & Hm & Hinv);
    [unfold CDOK_GROUPS; lia|].
  change (Z.of_nat (Z.to_nat CDOK_GROUPS)) with CDOK_GROUPS in Hm, Hinv.
  unfold validate_group_map; cbv zeta in Hm; rewrite Hm; cbn [obind].
  destruct (find _ _) as [c|] eqn:E.
  - exists (-1); split; [reflexivity|split; [auto|discriminate]].
  - exists 0; split; [reflexivity|split; [auto|intros _ i Hi a b Ha Hb]].
    destruct Hok as (_ & _ & Hg & _).
    destruct (Hg i Hi) as (Hsz & _ & _ & Hmem).
    destruct Hinv as (_ & _ & _ & Hdone).
    assert (Hnz : g_size (grp_at puz i) <> 0).
    { intros Hz; unfold live_members in Ha; rewrite Hz in Ha; exact Ha. }
    assert (Hto : forall c, In c (live_members (grp_at puz i)) ->
              linked (fun d => In d (live_members (grp_at puz i)))
                     (rd (g_members (grp_at puz i)) 0) c).
    { intros c Hc; destruct (Hmem c Hc) as (Hcr & Hci).
      apply Hdone; auto.
      pose proof (find_none _ _ E c) as F; cbv beta in F.
      specialize (F ltac:(apply in_range; exact Hcr)).
      destruct (Z.eqb_spec (rd m c) CDOK_GROUP_NONE) as [E'|]; [exact E'|].
      discriminate. }
    apply (linked_trans _ a (rd (g_members (grp_at puz i)) 0) b);
      [apply linked_sym, Hto, Ha|apply Hto, Hb].
Qed.

(** ** Reading a whole text *)

Lemma push_loop_result (text : list Z) :
  forall p puz,
    fst (fst (push_loop text p puz)) = 0 \/
    fst (fst (push_loop text p puz)) = -1.
Proof.
  induction text as [|ch text IH]; intros p puz; cbn [push_loop];
    [left; reflexivity|].
  destruct (ch =? 10).
  - destruct (parser_end_cell p puz) as [[r p1] puz1].
    destruct (r <? 0); [right; reflexivity|].
    destruct (ps_x p1 =? 0); [left; reflexivity|].
    destruct (ps_y p1 =? 0); [apply IH|].
    destruct (negb _); [right; reflexivity|apply IH].
  - destruct (isspace ch).
    + destruct (parser_end_cell p puz) as [[r p1] puz1].
      destruct (r <? 0); [right; reflexivity|apply IH].
    + destruct (isdigit ch); [apply IH|].
      destruct (_ || _); [apply IH|].
      destruct (negb _); apply IH.
Qed.

Lemma read_loop_parsing (reads : list (list Z)) :
  forall p puz,
    parsing p puz ->
    let '(r, p', puz') := read_loop reads p puz in
    r = -1 \/ (r = 0 /\ parsing p' puz').
Proof.
  induction reads as [|buf reads IH]; intros p puz Hp; cbn [read_loop];
    [right; split; [reflexivity|exact Hp]|].
  destruct (Z.of_nat (length buf) >? 0);
    [|right; split; [reflexivity|exact Hp]].
  unfold cdok_parser_push.
  destruct (negb (ps_eof p =? 0)).
  - change (0 <? 0) with false; cbv iota; apply IH; exact Hp.
  - pose proof (push_loop_result buf p puz) as Hr.
    pose proof (push_loop_parsing buf p puz) as Hq.
    destruct (push_loop buf p puz) as [[r p1] puz1]; cbn [fst] in Hr.
    destruct Hr as [->| ->]; [|left; reflexivity].
    change (0 <? 0) with false; cbv iota.
    apply IH, (Hq p1 puz1 Hp); reflexivity.
Qed.

Lemma cdok_parser_end_valid (p : cdok_parser) (puz : cdok_puzzle) :
  parsing p puz ->
  exists r p' puz',
    cdok_parser_end p puz = Some (r, p', puz') /\ (r = 0 \/ r = -1) /\
    (r = 0 ->
     1 <= p_size puz' <= CDOK_SIZE /\
     length (p_values puz') = Z.to_nat CDOK_CELLS /\
     cage_invariants puz' /\ clues_ok puz').
Proof.
  intros Hp; unfold cdok_parser_end.
  pose proof (parser_end_cell_result p puz) as Hr.
  pose proof (parser_end_cell_parsing p puz) as Hq.
  destruct (parser_end_cell p puz) as [[r p1] puz1]; cbn [fst] in Hr.
  destruct Hr as [->| ->];
    [|exists (-1), p1, puz1; split; [reflexivity|split; [auto|discriminate]]].
  change (0 <? 0) with false; cbv iota.
  destruct (Hq p1 puz1 Hp eq_refl) as (Hp1 & _).
  destruct (Z.eqb_spec (p_size puz1) 0) as [|Hsz];
    [exists (-1), p1, puz1; split; [reflexivity|split; [auto|discriminate]]|].
  destruct (ps_y p1 <? p_size puz1);
    [exists (-1), p1, puz1; split; [reflexivity|split; [auto|discriminate]]|].
  destruct (validate_groups_spec puz1) as ([Hv|Hv] & Hgroups); rewrite Hv;
    [|exists (-1), p1, puz1; split; [reflexivity|split; [auto|discriminate]]].
  change (0 <? 0) with false; cbv iota.
  specialize (Hgroups Hv).
  pose proof (parsing_map_ok p1 puz1 Hp1) as Hmap.
  destruct (validate_group_map_spec _ Hmap) as (r & Hr & Hr01 & Hconn).
  rewrite Hr; cbn [obind].
  exists r, p1, (build_group_map puz1); split; [reflexivity|].
  split; [exact Hr01|intros Hr0; specialize (Hconn Hr0)].
  destruct Hp1 as (_ & _ & _ & _ & _ & Hsize & _ & _ & Hlv & _ & Hg & _).
  change (p_size (build_group_map puz1)) with (p_size puz1).
  change (p_values (build_group_map puz1)) with (p_values puz1).
  split; [unfold CDOK_SIZE; lia|split; [exact Hlv|split; [split|]]].
  - exact Hmap.
  - intros i Hi Hnz; change (grp_at (build_group_map puz1) i)
                       with (grp_at puz1 i) in *.
    destruct (Hgroups i Hi Hnz) as (_ & _ & H2 & _).
    split; [exact H2|exact (Hconn i Hi)].
  - intros i Hi Hnz; change (grp_at (build_group_map puz1) i)
                       with (grp_at puz1 i) in *.
    destruct (Hgroups i Hi Hnz) as (Ht & Hta & _ & Hz).
    destruct (Hg i Hi) as (_ & _ & [Hty|Hty] & _ & Hc); [contradiction|].
    split; [exact Hty|split; [exact Hta|split; [exact Hz|]]].
    intros c Hin; exact (proj2 (Hc c Hin)).
Qed.

(** X11. Whatever the buffers that [read_puzzle] is fed, it returns 0 or
    -1, and when it returns 0 the puzzle it leaves is well formed: the size
    is from 1 to 16, the cell-to-group map and the member lists of the
    groups are inverse to each other, every group in use has at least two
    cells and is one 4-connected region, has one of the four types and a
    target that is not negative, and not 0 for a product or a ratio, and
    its cells hold no given value. *)
Theorem read_puzzle_valid (reads : list (list Z)) :
  exists r puz,
    read_puzzle reads = Some (r, puz) /\ (r = 0 \/ r = -1) /\
    (r = 0 ->
     1 <= p_size puz <= CDOK_SIZE /\
     length (p_values puz) = Z.to_nat CDOK_CELLS /\
     cage_invariants puz /\ clues_ok puz).
Proof.
  unfold read_puzzle.
  pose proof parsing_init as Hinit.
  destruct cdok_parser_init as [p0 puz0]; cbn [fst snd] in Hinit.
  pose proof (read_loop_parsing reads p0 puz0 Hinit) as Hloop.
  destruct (read_loop reads p0 puz0) as [[r p] puz].
  destruct Hloop as [->|(-> & Hp)].
  - exists (-1), puz; split; [reflexivity|split; [auto|discriminate]].
  - change (0 <? 0) with false; cbv iota.
    destruct (cdok_parser_end_valid p puz Hp) as (r & p' & puz' & E & H).
    rewrite E; cbn [obind]; exists r, puz'; split; [reflexivity|exact H].
Qed.

(** A text that is accepted, read in two buffers: a 2 by 2 grid with one
    cage of two cells and two given values. *)
Example read_puzzle_accepts :
  exists puz,
    read_puzzle [[65; 43; 51; 9; 65; 10]; [50; 9; 49; 10]] = Some (0, puz).
Proof.
  vm_compute; eexists; reflexivity.
Qed.

(** ** Flood fill: the whole region is cleared *)

Section FloodFillRegion.

Variable src : Z.
Hypothesis Hsrc : src <> CDOK_GROUP_NONE.

Lemma fill_ok_fill_step (m m' : list Z) (s : Z) :
  fill_ok src m m' s -> fill_step src m m'.
Proof.
  intros (H1 & H2 & _); split; [exact H1|exact H2].
Qed.

Lemma fill_step_refl (m : list Z) :
  length m = Z.to_nat CDOK_CELLS -> fill_step src m m.
Proof.
  intros H; split; [exact H|intros c _; left; reflexivity].
Qed.

Lemma fill_step_trans (m0 m1 m2 : list Z) :
  fill_step src m0 m1 -> fill_step src m1 m2 -> fill_step src m0 m2.
Proof.
  intros (_ & H1) (L2 & H2); split; [exact L2|intros c Hc].
  destruct (H2 c Hc) as [E|(E & E')].
  - rewrite E; exact (H1 c Hc).
  - right; split; [|exact E'].
    destruct (H1 c Hc) as [E1|(_ & E1)]; congruence.
Qed.

Lemma fill_step_none (m m' : list Z) (c : Z) :
  fill_step src m m' -> 0 <= c < CDOK_CELLS ->
  rd m c = CDOK_GROUP_NONE -> rd m' c = CDOK_GROUP_NONE.
Proof.
  intros (_ & H) Hc E; destruct (H c Hc) as [E'|(_ & E')]; congruence.
Qed.

(** A call that clears what lies beside its own cleared cells keeps the
    property for the cells cleared before it. *)
Lemma fill_closed_step (skip : Z -> Prop) (m0 m m' : list Z) :
  fill_step src m0 m -> fill_step src m m' ->
  fill_closed src skip m0 m -> fill_closed src (fun _ => False) m m' ->
  fill_closed src skip m0 m'.
Proof.
  intros H0 H1 Hc0 Hc1 p q (Hp & Hp0 & Hp1) Hskip Hadj Hq Hq0.
  assert (Hqm : rd m q = src \/ rd m q = CDOK_GROUP_NONE).
  { destruct (proj2 H0 q Hq) as [E|(_ & E)]; [left; congruence|right; exact E]. }
  destruct (proj2 H0 p Hp) as [E|(_ & E)].
  - assert (Hpf : filled src m m' p)
      by (split; [exact Hp|split; [congruence|exact Hp1]]).
    destruct Hqm as [Hqm|Hqm].
    + exact (Hc1 p q Hpf (fun F => F) Hadj Hq Hqm).
    + exact (fill_step_none m m' q H1 Hq Hqm).
  - apply (fill_step_none m m' q H1 Hq).
    apply (Hc0 p q); auto.
    split; [exact Hp|split; [exact Hp0|exact E]].
Qed.

Lemma fill_row_closed (fill : list Z -> Z -> option (list Z))
    (skip : Z -> Prop) (m0 : list Z) (y' : Z) :
  0 <= y' < 16 ->
  (forall m i m', length m = Z.to_nat CDOK_CELLS -> 0 <= i < 16 ->
     fill m i = Some m' ->
     fill_step src m m' /\ fill_closed src (fun _ => False) m m' /\
     (rd m (CDOK_POS i y') = src ->
      rd m' (CDOK_POS i y') = CDOK_GROUP_NONE)) ->
  forall l m m',
    (forall i, In i l -> 0 <= i < 16) ->
    fill_step src m0 m -> fill_closed src skip m0 m ->
    fold_left (fun om i => do m <- om; fill m i) l (Some m) = Some m' ->
    fill_step src m m' /\ fill_closed src skip m0 m' /\
    forall i, In i l -> rd m0 (CDOK_POS i y') = src ->
              rd m' (CDOK_POS i y') = CDOK_GROUP_NONE.
Proof.
  intros Hy' Hfill.
  induction l as [|i l IH]; intros m m' Hl Hs Hc Hfold; cbn [fold_left] in Hfold.
  - assert (m' = m) by congruence; subst m'.
    split; [apply fill_step_refl, Hs|split; [exact Hc|intros i []]].
  - cbn [obind] in Hfold.
    destruct (fill m i) as [m1|] eqn:Hf;
      [|rewrite fold_option_none in Hfold; discriminate].
    assert (Hi : 0 <= i < 16) by (apply Hl; left; reflexivity).
    destruct (Hfill m i m1 (proj1 Hs) Hi Hf) as (Hs1 & Hc1 & Hst).
    assert (Hs01 := fill_step_trans m0 m m1 Hs Hs1).
    destruct (IH m1 m') as (Hs2 & Hc2 & Hu2);
      [intros j Hj; apply Hl; right; exact Hj|exact Hs01|
       exact (fill_closed_step skip m0 m m1 Hs Hs1 Hc Hc1)|exact Hfold|].
    split; [exact (fill_step_trans m m1 m' Hs1 Hs2)|split; [exact Hc2|]].
    intros j [<-|Hj] Hj0; [|exact (Hu2 j Hj Hj0)].
    assert (Hr : 0 <= CDOK_POS i y' < CDOK_CELLS)
      by (apply CDOK_POS_range; lia).
    apply (fill_step_none m1 m' _ Hs2 Hr).
    destruct (proj2 Hs _ Hr) as [E|(_ & E)].
    + apply Hst; congruence.
    + exact (fill_step_none m m1 _ Hs1 Hr E).
Qed.

Lemma flood_fill_closed :
  forall fuel map x y map',
    length map = Z.to_nat CDOK_CELLS -> 0 <= x < 16 -> 0 <= y < 16 ->
    cdok_flood_fill fuel map src x y = Some map' ->
    fill_closed src (fun _ => False) map map' /\
    (rd map (CDOK_POS x y) = src ->
     rd map' (CDOK_POS x y) = CDOK_GROUP_NONE).
Proof.
  induction fuel as [|f IH]; intros map x y map' Hlen Hx Hy Hfill;
    [discriminate|].
  pose proof (flood_fill_sound src Hsrc _ _ _ _ _ Hlen Hx Hy Hfill) as Hok.
  cbn [cdok_flood_fill] in Hfill.
  destruct (Z.eqb_spec (rd map (CDOK_POS x y)) src) as [Hstart|Hstart];
    cbn [negb] in Hfill.
  2:{ assert (map' = map) by congruence; subst map'.
      split; [|intros E; contradiction].
      intros p q (_ & E1 & E2); congruence. }
  set (sx := scan_left (Z.to_nat CDOK_SIZE) map src y x) in *.
  set (ex := scan_right (Z.to_nat CDOK_SIZE) map src y x) in *.
  destruct (scan_left_spec (Z.to_nat CDOK_SIZE) map src y x) as (Hl1 & Hl2 & Hl3).
  destruct (scan_right_spec (Z.to_nat CDOK_SIZE) map src y x)
    as (Hr1 & Hr2 & Hr3).
  pose proof (scan_left_exit (Z.to_nat CDOK_SIZE) map src y x) as Hle.
  pose proof (scan_right_exit (Z.to_nat CDOK_SIZE) map src y x) as Hre.
  fold sx in Hl1, Hl2, Hl3, Hle; fold ex in Hr1, Hr2, Hr3, Hre.
  unfold CDOK_SIZE in Hr2, Hle, Hre.
  specialize (Hl2 (proj1 Hx)); specialize (Hr2 (proj2 Hx)).
  specialize (Hle ltac:(lia)); specialize (Hre ltac:(lia)).
  destruct (clear_span y (range sx (ex + 1)) map Hy) as (Hc1 & Hc2 & Hc3); auto.
  { intros i Hi; apply in_range in Hi; lia. }
  set (m1 := fold_left (fun m i => wr m (CDOK_POS i y) CDOK_GROUP_NONE)
                       (range sx (ex + 1)) map) in *.
  set (span := fun p => exists i, sx <= i <= ex /\ p = CDOK_POS i y).
  assert (Hsrc_span : forall i, sx <= i <= ex -> rd map (CDOK_POS i y) = src).
  { intros i Hi; destruct (Z.lt_trichotomy i x) as [H|[->|H]]; auto;
      [apply Hl3|apply Hr3]; lia. }
  assert (Hspan_dec : forall c, span c \/ ~ span c).
  { intros c.
    destruct (in_dec Z.eq_dec c (List.map (fun i => CDOK_POS i y)
                                     (range sx (ex + 1)))) as [Hin|Hout].
    - left; apply in_map_iff in Hin as (i & <- & Hi); apply in_range in Hi.
      exists i; split; [lia|reflexivity].
    - right; intros (i & Hi & ->); apply Hout, in_map_iff.
      exists i; split; [reflexivity|apply in_range; lia]. }
  assert (Hs1 : fill_step src map m1).
  { split; [exact Hc1|intros c Hc].
    destruct (Hspan_dec c) as [(i & Hi & ->)|Hout].
    - right; split; [apply Hsrc_span; exact Hi|apply Hc2, in_range; lia].
    - left; apply Hc3; [lia|].
      intros i Hi E; apply in_range in Hi; apply Hout.
      exists i; split; [lia|exact E]. }
  assert (Hk1 : fill_closed src span map m1).
  { intros p q (Hp & Hp0 & Hp1) Hskip _ _ _; exfalso.
    destruct (Hspan_dec p) as [Hin|Hout]; [contradiction|].
    rewrite Hc3 in Hp1; [congruence|lia|].
    intros i Hi E; apply in_range in Hi; apply Hout.
    exists i; split; [lia|exact E]. }
  assert (Hrow : forall y' m m',
             0 <= y' < 16 ->
             fill_step src map m -> fill_closed src span map m ->
             fold_left (fun om i => do m <- om; cdok_flood_fill f m src i y')
                       (range sx (ex + 1)) (Some m) = Some m' ->
             fill_step src m m' /\ fill_closed src span map m' /\
             forall i, sx <= i <= ex -> rd map (CDOK_POS i y') = src ->
                       rd m' (CDOK_POS i y') = CDOK_GROUP_NONE).
  { intros y' m m' Hy' Hs Hc Hfold.
    destruct (fill_row_closed (fun m i => cdok_flood_fill f m src i y')
                span map y' Hy') with (l := range sx (ex + 1)) (m := m)
                                      (m' := m') as (R1 & R2 & R3); auto.
    - intros m2 i m3 Hl2' Hi Hf.
      destruct (IH m2 i y' m3 Hl2' Hi Hy' Hf) as (I1 & I2).
      split; [|split; [exact I1|exact I2]].
      exact (fill_ok_fill_step _ _ _
               (flood_fill_sound src Hsrc _ _ _ _ _ Hl2' Hi Hy' Hf)).
    - intros i Hi; apply in_range in Hi; lia.
    - split; [exact R1|split; [exact R2|]].
      intros i Hi; apply R3, in_range; lia. }
  (* the two folds *)
  assert (Hfin : exists m2,
             fill_step src m1 m2 /\ fill_closed src span map m2 /\
             fill_step src m2 map' /\ fill_closed src span map map' /\
             (0 < y -> forall i, sx <= i <= ex ->
                rd map (CDOK_POS i (y - 1)) = src ->
                rd m2 (CDOK_POS i (y - 1)) = CDOK_GROUP_NONE) /\
             (y + 1 < 16 -> forall i, sx <= i <= ex ->
                rd map (CDOK_POS i (y + 1)) = src ->
                rd map' (CDOK_POS i (y + 1)) = CDOK_GROUP_NONE)).
  { cbn [obind] in Hfill.
    destruct (Z.ltb_spec 0 y) as [Hup|Hup].
    - destruct (fold_left _ (range sx (ex + 1)) (Some m1)) as [m2|] eqn:Hm2;
        [|discriminate].
      destruct (Hrow (y - 1) m1 m2 ltac:(lia) Hs1 Hk1 Hm2) as (A1 & A2 & A3).
      cbn [obind] in Hfill; exists m2.
      assert (Hs2 := fill_step_trans map m1 m2 Hs1 A1).
      destruct (Z.ltb_spec (y + 1) CDOK_SIZE) as [Hdn|Hdn].
      + destruct (Hrow (y + 1) m2 map' ltac:(unfold CDOK_SIZE in *; lia)
                       Hs2 A2 Hfill) as (B1 & B2 & B3).
        split; [exact A1|split; [exact A2|split; [exact B1|split; [exact B2|]]]].
        split; [intros _; exact A3|intros _; exact B3].
      + assert (map' = m2) by congruence; subst map'.
        split; [exact A1|split; [exact A2|split;
          [apply fill_step_refl, Hs2|split; [exact A2|]]]].
        split; [intros _; exact A3|unfold CDOK_SIZE in *; lia].
    - cbn [obind] in Hfill; exists m1.
      destruct (Z.ltb_spec (y + 1) CDOK_SIZE) as [Hdn|Hdn].
      + destruct (Hrow (y + 1) m1 map' ltac:(unfold CDOK_SIZE in *; lia)
                       Hs1 Hk1 Hfill) as (B1 & B2 & B3).
        split; [apply fill_step_refl, Hc1|split; [exact Hk1|
          split; [exact B1|split; [exact B2|]]]].
        split; [lia|intros _; exact B3].
      + assert (map' = m1) by congruence; subst map'.
        split; [apply fill_step_refl, Hc1|split; [exact Hk1|
          split; [apply fill_step_refl, Hc1|split; [exact Hk1|]]]].
        split; [lia|unfold CDOK_SIZE in *; lia]. }
  destruct Hfin as (m2 & S12 & K2 & S2' & K' & Hu & Hd).
  assert (S1' := fill_step_trans m1 m2 map' S12 S2').
  assert (Hspan_clear : forall i, sx <= i <= ex ->
            rd map' (CDOK_POS i y) = CDOK_GROUP_NONE).
  { intros i Hi; apply (fill_step_none m1 map' _ S1');
      [apply CDOK_POS_range; lia|apply Hc2, in_range; lia]. }
  split; [|intros _; apply Hspan_clear; lia].
  intros p q Hp _ Hadj Hq Hq0.
  destruct (Hspan_dec p) as [(i & Hi & ->)|Hout];
    [|exact (K' p q Hp Hout Hadj Hq Hq0)].
  assert (Hqx := CDOK_POS_X_range q).
  assert (Hqy := CDOK_POS_Y_range q Hq).
  rewrite <- (CDOK_POS_XY q (proj1 Hq)) in Hq0 |- *.
  unfold adjacent in Hadj.
  rewrite CDOK_POS_X_POS, CDOK_POS_Y_POS in Hadj by lia.
  set (qx := CDOK_POS_X q) in *; set (qy := CDOK_POS_Y q) in *.
  destruct Hadj as [(Ey & [Ex|Ex])|(Ex & [Ey|Ey])].
  - rewrite <- Ey in *.
    destruct (Z.le_gt_cases sx qx) as [Hin|Hlow];
      [apply Hspan_clear; lia|].
    assert (qx = sx - 1) by lia; subst qx.
    destruct Hle as [Hle|Hle]; [lia|rewrite <- H in Hle; contradiction].
  - rewrite <- Ey in *.
    destruct (Z.le_gt_cases qx ex) as [Hin|Hhigh];
      [apply Hspan_clear; lia|].
    assert (qx = ex + 1) by lia.
    destruct Hre as [Hre|Hre]; [lia|rewrite <- H in Hre; contradiction].
  - rewrite <- Ex in *.
    assert (qy = y - 1) by lia.
    rewrite H in *.
    apply (fill_step_none m2 map' _ S2'); [apply CDOK_POS_range; lia|].
    apply Hu; [lia|exact Hi|exact Hq0].
  - rewrite <- Ex in *; rewrite Ey in *.
    apply Hd; [lia|exact Hi|exact Hq0].
Qed.

End FloodFillRegion.

Lemma flood_fill_reaches (src : Z) (fuel : nat) (map : list Z) (x y : Z)
    (map' : list Z) (c : Z) :
  src <> CDOK_GROUP_NONE ->
  length map = Z.to_nat CDOK_CELLS -> 0 <= x < 16 -> 0 <= y < 16 ->
  cdok_flood_fill fuel map src x y = Some map' ->
  linked (src_cells src map) (CDOK_POS x y) c -> src_cells src map c ->
  rd map' c = CDOK_GROUP_NONE.
Proof.
  intros Hsrc Hlen Hx Hy Hfill Hlink Hc.
  destruct (flood_fill_closed src Hsrc fuel map x y map' Hlen Hx Hy Hfill)
    as (Hclosed & Hstart).
  assert (Hwalk : forall a b, linked (src_cells src map) a b ->
                    filled src map map' a -> filled src map map' b).
  { induction 1 as [a b ((_ & Ha) & (Hb & Hb0) & Hadj)| |a b d _ IH1 _ IH2];
      auto.
    intros Hfa; split; [exact Hb|split; [exact Hb0|]].
    exact (Hclosed a b Hfa (fun F => F) Hadj Hb Hb0). }
  assert (Hs : src_cells src map (CDOK_POS x y))
    by (destruct (linked_start _ _ _ Hlink) as [->|H]; [exact Hc|exact H]).
  apply (Hwalk _ _ Hlink).
  destruct Hs as (Hr & Hs); split; [exact Hr|split; [exact Hs|]].
  exact (Hstart Hs).
Qed.

(** X12. [cdok_flood_fill] clears exactly the region of the start cell:
    with fuel above the number of [src] cells it returns, a cell is set to
    [CDOK_GROUP_NONE] if it carries [src] and is linked to the start cell
    by steps between neighbouring cells that carry [src], and every other
    cell keeps its value. *)
Theorem cdok_flood_fill_region (src : Z) (fuel : nat) (map : list Z)
    (x y : Z) :
  src <> CDOK_GROUP_NONE ->
  length map = Z.to_nat CDOK_CELLS -> 0 <= x < 16 -> 0 <= y < 16 ->
  (count_src src map < fuel)%nat ->
  exists map',
    cdok_flood_fill fuel map src x y = Some map' /\
    length map' = Z.to_nat CDOK_CELLS /\
    forall c, 0 <= c < CDOK_CELLS ->
      (rd map c = src /\ linked (src_cells src map) (CDOK_POS x y) c ->
       rd map' c = CDOK_GROUP_NONE) /\
      (~ (rd map c = src /\ linked (src_cells src map) (CDOK_POS x y) c) ->
       rd map' c = rd map c).
Proof.
  intros Hsrc Hlen Hx Hy Hfuel.
  destruct (flood_fill_total src Hsrc fuel map x y Hlen Hx Hy Hfuel)
    as (map' & Hfill).
  exists map'; split; [exact Hfill|].
  destruct (flood_fill_sound src Hsrc _ _ _ _ _ Hlen Hx Hy Hfill)
    as (Hl' & Hpt & Hlink).
  split; [exact Hl'|intros c Hc; split].
  - intros (Hcs & Hcl).
    apply (flood_fill_reaches src fuel map x y map' c); auto.
    split; [exact Hc|exact Hcs].
  - intros Hn; destruct (Hpt c Hc) as [E|(E & E')]; [exact E|].
    exfalso; apply Hn; split; [exact E|].
    apply (linked_mono (filled src map map')).
    + intros d (Hd & Hd0 & _); split; [exact Hd|exact Hd0].
    + apply Hlink; split; [exact Hc|split; [exact E|exact E']].
Qed.

Lemma cdok_flood_fill_region_witness :
  exists map',
    cdok_flood_fill 257 (p_group_map seed_puzzle) 0 0 0 = Some map' /\
    length map' = Z.to_nat CDOK_CELLS /\
    forall c, 0 <= c < CDOK_CELLS ->
      (rd (p_group_map seed_puzzle) c = 0 /\
       linked (src_cells 0 (p_group_map seed_puzzle)) (CDOK_POS 0 0) c ->
       rd map' c = CDOK_GROUP_NONE) /\
      (~ (rd (p_group_map seed_puzzle) c = 0 /\
          linked (src_cells 0 (p_group_map seed_puzzle)) (CDOK_POS 0 0) c) ->
       rd map' c = rd (p_group_map seed_puzzle) c).
Proof.
  apply (cdok_flood_fill_region 0 257 (p_group_map seed_puzzle) 0 0);
    [discriminate|reflexivity|lia|lia|vm_compute; lia].
Defined.

(** ** The contiguity check accepts every puzzle of contiguous groups *)

Lemma fills_all_step (puz : cdok_puzzle) (k : Z) (m m' : list Z) :
  map_ok puz -> 0 <= k < CDOK_GROUPS ->
  connected (live_members (grp_at puz k)) ->
  fills_done puz k m ->
  (forall c, 0 <= c < CDOK_CELLS -> 0 <= rd (p_group_map puz) c < k ->
             rd m c = CDOK_GROUP_NONE) ->
  (let g := grp_at puz k in
   let start := rd (g_members g) 0 in
   if negb (g_size g =? 0)
   then cdok_flood_fill (S (Z.to_nat CDOK_CELLS)) m (uint8_cast k)
                        (CDOK_POS_X start) (CDOK_POS_Y start)
   else Some m) = Some m' ->
  forall c, 0 <= c < CDOK_CELLS -> 0 <= rd (p_group_map puz) c < k + 1 ->
            rd m' c = CDOK_GROUP_NONE.
Proof.
  intros (_ & Hl0 & Hg & Hmap) Hk Hconn (Hl & Hsame & Hkeep & _) Hall; cbv zeta.
  assert (Hnone : k <> CDOK_GROUP_NONE)
    by (unfold CDOK_GROUPS in Hk; vm_compute; intros E; subst k;
        destruct Hk as [_ Hk]; vm_compute in Hk; discriminate).
  rewrite uint8_cast_small by (unfold CDOK_GROUPS in Hk; lia).
  assert (Hlive : forall c, 0 <= c < CDOK_CELLS -> rd (p_group_map puz) c = k ->
                            In c (live_members (grp_at puz k))).
  { intros c Hc E; destruct (Hmap c Hc) as (_ & Hin); [congruence|].
    rewrite E in Hin; exact Hin. }
  destruct (Z.eqb_spec (g_size (grp_at puz k)) 0) as [Hz|Hnz]; cbn [negb].
  - intros E c Hc Hlt; assert (m' = m) by congruence; subst m'.
    destruct (Z.eq_dec (rd (p_group_map puz) c) k) as [Ek|Ek];
      [|apply Hall; [exact Hc|lia]].
    pose proof (Hlive c Hc Ek) as Hin.
    unfold live_members in Hin; rewrite Hz in Hin; destruct Hin.
  - intros Hfill c Hc Hlt.
    destruct (Hg k Hk) as (Hsz & _ & _ & Hmem).
    set (start := rd (g_members (grp_at puz k)) 0) in *.
    assert (Hstart : In start (live_members (grp_at puz k)))
      by (apply in_live_members; exists 0; split; [lia|reflexivity]).
    destruct (Hmem start Hstart) as (Hsr & _).
    assert (Hx := CDOK_POS_X_range start).
    assert (Hy := CDOK_POS_Y_range start Hsr).
    pose proof (flood_fill_sound k Hnone _ _ _ _ _ Hl Hx Hy Hfill) as Hok.
    apply fill_ok_fill_step in Hok.
    destruct (Z.eq_dec (rd (p_group_map puz) c) k) as [Ek|Ek];
      [|apply (fill_step_none k m m' c Hok Hc), Hall; [exact Hc|lia]].
    assert (Hcell : forall d, In d (live_members (grp_at puz k)) ->
                              src_cells k m d).
    { intros d Hd; destruct (Hmem d Hd) as (Hdr & Hd0).
      split; [exact Hdr|rewrite (Hkeep d Hdr) by lia; exact Hd0]. }
    apply (flood_fill_reaches k _ m _ _ m' c Hnone Hl Hx Hy Hfill).
    + rewrite (CDOK_POS_XY start (proj1 Hsr)).
      apply (linked_mono (fun d => In d (live_members (grp_at puz k))));
        [exact Hcell|].
      apply Hconn; [exact Hstart|exact (Hlive c Hc Ek)].
    + apply Hcell, (Hlive c Hc Ek).
Qed.

Lemma validate_group_map_complete (puz : cdok_puzzle) :
  map_ok puz ->
  (forall i, 0 <= i < CDOK_GROUPS -> connected (live_members (grp_at puz i))) ->
  validate_group_map puz = Some 0.
Proof.
  intros Hok Hconn.
  assert (H : forall k : nat, Z.of_nat k <= CDOK_GROUPS ->
            exists m,
              fold_left
                (fun om i =>
                   do map <- om;
                   let g := grp_at puz i in
                   let start := rd (g_members g) 0 in
                   if negb (g_size g =? 0)
                   then cdok_flood_fill (S (Z.to_nat CDOK_CELLS)) map
                          (uint8_cast i) (CDOK_POS_X start) (CDOK_POS_Y start)
                   else Some map)
                (range 0 (Z.of_nat k)) (Some (p_group_map puz)) = Some m /\
              fills_done puz (Z.of_nat k) m /\
              forall c, 0 <= c < CDOK_CELLS ->
                        0 <= rd (p_group_map puz) c < Z.of_nat k ->
                        rd m c = CDOK_GROUP_NONE).
  { induction k as [|k IH]; intros Hk.
    - exists (p_group_map puz); rewrite range_nil by lia; split; [reflexivity|].
      destruct Hok as (_ & Hl0 & _).
      split; [|intros c _ Hc; lia].
      split; [exact Hl0|split; [auto|split; [auto|intros; lia]]].
    - destruct IH as (m & Hm & Hinv & Hall); [lia|].
      replace (Z.of_nat (S k)) with (Z.of_nat k + 1) by lia.
      rewrite range_snoc, fold_left_app, Hm by lia; cbn [fold_left obind].
      destruct (fills_done_step puz (Z.of_nat k) m Hok ltac:(lia) Hinv)
        as (m' & Hstep & Hinv').
      exists m'; split; [exact Hstep|split; [exact Hinv'|]].
      apply (fills_all_step puz (Z.of_nat k) m m' Hok); auto; try lia.
      apply Hconn; lia. }
  destruct (H (Z.to_nat CDOK_GROUPS)) as (m & Hm & Hinv & Hall);
    [unfold CDOK_GROUPS; lia|].
  change (Z.of_nat (Z.to_nat CDOK_GROUPS)) with CDOK_GROUPS in Hm, Hinv, Hall.
  unfold validate_group_map; cbv zeta in Hm; rewrite Hm; cbn [obind].
  destruct (find _ _) as [c|] eqn:E; [exfalso|reflexivity].
  apply find_some in E as (Hc & Hne); apply in_range in Hc.
  destruct (Z.eqb_spec (rd m c) CDOK_GROUP_NONE) as [|Hn]; [discriminate|].
  destruct Hinv as (_ & Hsame & _).
  destruct Hok as (_ & _ & _ & Hmap).
  destruct (Hsame c Hc) as [E|E]; [|contradiction].
  destruct (Hmap c Hc) as (Hr & _); [congruence|].
  apply Hn, Hall; [exact Hc|lia].
Qed.

(** X13. On a puzzle whose cell-to-group map and member lists agree,
    [validate_group_map] returns 0 or -1, and it returns 0 exactly when the
    cells of every group form one 4-connected region. *)
Theorem validate_group_map_exact (puz : cdok_puzzle) :
  map_ok puz ->
  exists r,
    validate_group_map puz = Some r /\ (r = 0 \/ r = -1) /\
    (r = 0 <->
     forall i, 0 <= i < CDOK_GROUPS ->
               connected (live_members (grp_at puz i))).
Proof.
  intros Hok.
  destruct (validate_group_map_spec puz Hok) as (r & Hr & Hr01 & Hsound).
  exists r; split; [exact Hr|split; [exact Hr01|split; [exact Hsound|]]].
  intros Hconn.
  pose proof (validate_group_map_complete puz Hok Hconn) as E.
  congruence.
Qed.

Lemma validate_group_map_exact_witness :
  exists r,
    validate_group_map full_puzzle = Some r /\ (r = 0 \/ r = -1) /\
    (r = 0 <->
     forall i, 0 <= i < CDOK_GROUPS ->
               connected (live_members (grp_at full_puzzle i))).
Proof.
  apply (validate_group_map_exact full_puzzle).
  exact (proj1 full_puzzle_invariants).
Defined.

(** ** The printed text, cell by cell *)

Lemma fold_append {A : Type} (f : A -> list Z) (l : list A) (out : list Z) :
  fold_left (fun out x => out ++ f x) l out = out ++ flat_map f l.
Proof.
  revert out; induction l as [|a l IH]; intros out; cbn [fold_left flat_map].
  - rewrite app_nil_r; reflexivity.
  - rewrite IH, app_assoc; reflexivity.
Qed.

Lemma fold_rows {A B : Type} (f : B -> A -> list Z) (cols : list A)
    (rows : list B) (out : list Z) :
  fold_left (fun out y => fold_left (fun out x => out ++ f y x) cols out ++ [10])
            rows out =
  out ++ flat_map (fun y => flat_map (f y) cols ++ [10]) rows.
Proof.
  revert out; induction rows as [|y rows IH]; intros out;
    cbn [fold_left flat_map].
  - rewrite app_nil_r; reflexivity.
  - rewrite IH, fold_append, <- !app_assoc; reflexivity.
Qed.

Lemma cdok_print_puzzle_text (puz : cdok_puzzle) (values : list Z) :
  cdok_print_puzzle puz values =
  flat_map
    (fun y =>
       flat_map (fun x => (if negb (x =? 0) then [9] else []) ++
                          print_cell puz values (CDOK_POS x y))
                (range 0 (p_size puz)) ++ [10])
    (range 0 (p_size puz)).
Proof.
  unfold cdok_print_puzzle.
  exact (fold_rows (fun y x => (if negb (x =? 0) then [9] else []) ++
                               print_cell puz values (CDOK_POS x y))
                   (range 0 (p_size puz)) (range 0 (p_size puz)) []).
Qed.

(** ** The parser on the text of a cell *)

Lemma push_loop_seq (a b : list Z) (p : cdok_parser) (puz : cdok_puzzle)
    (p1 : cdok_parser) (puz1 : cdok_puzzle) :
  push_loop a p puz = (0, p1, puz1) ->
  ps_eof p = 0 -> ps_eof p1 = 0 ->
  push_loop (a ++ b) p puz = push_loop b p1 puz1.
Proof.
  intros Ha He He1; rewrite (push_loop_app a b p puz He), Ha.
  change (0 <? 0) with false; cbv iota.
  unfold cdok_parser_push; rewrite He1; reflexivity.
Qed.

Lemma push_digit (d : Z) (p : cdok_parser) (puz : cdok_puzzle) :
  48 <= d <= 57 ->
  push_loop [d] p puz =
  (0, mk_parser (ps_eof p) (ps_x p) (ps_y p) (ps_max_x p)
                ((if ps_value p <? 0 then 0 else ps_value p) * 10 + d - 48)
                (ps_group_name p) (ps_group_type p), puz).
Proof.
  intros Hd; cbn [push_loop].
  destruct (Z.eqb_spec d 10); [lia|].
  unfold isspace, isdigit.
  destruct (Z.eqb_spec d 32); [lia|].
  destruct (Z.leb_spec 9 d), (Z.leb_spec d 13); try lia; cbn [andb orb].
  destruct (Z.leb_spec 48 d), (Z.leb_spec d 57); try lia; cbn [andb].
  reflexivity.
Qed.

Lemma push_digits (f : nat) :
  forall v p puz,
    (0 < f)%nat -> 0 <= v < 10 ^ Z.of_nat f ->
    ps_eof p = 0 -> ps_value p < 0 ->
    push_loop (print_digits f v) p puz =
    (0, mk_parser 0 (ps_x p) (ps_y p) (ps_max_x p) v
                  (ps_group_name p) (ps_group_type p), puz).
Proof.
  induction f as [|f IH]; intros v p puz Hf Hv He Hneg; [lia|].
  cbn [print_digits].
  assert (Hd : 48 <= 48 + v mod 10 <= 57)
    by (pose proof (Z.mod_pos_bound v 10); lia).
  pose proof (Z.div_mod v 10 ltac:(lia)) as Hdm.
  destruct (Z.eqb_spec (v / 10) 0) as [Hz|Hnz].
  - cbn [app]; rewrite (push_digit _ p puz Hd), He.
    destruct (Z.ltb_spec (ps_value p) 0); [|lia].
    do 2 f_equal; f_equal; lia.
  - assert (Hq : 0 <= v / 10 < 10 ^ Z.of_nat f).
    { split; [apply Z.div_pos; lia|].
      apply Z.div_lt_upper_bound; [lia|].
      rewrite <- Z.pow_succ_r by lia.
      replace (Z.succ (Z.of_nat f)) with (Z.of_nat (S f)) by lia; lia. }
    assert (Hf' : (0 < f)%nat).
    { destruct f; [change (10 ^ Z.of_nat 0) with 1 in Hq; lia|lia]. }
    pose proof (IH _ p puz Hf' Hq He Hneg) as Hpre.
    rewrite (push_loop_seq _ _ _ _ _ _ Hpre) by (exact He || reflexivity).
    rewrite (push_digit _ _ puz Hd); cbn [ps_eof ps_x ps_y ps_max_x ps_value
                                          ps_group_name ps_group_type].
    destruct (Z.ltb_spec (v / 10) 0); [lia|].
    do 2 f_equal; f_equal; lia.
Qed.

Lemma push_int (v : Z) (p : cdok_parser) (puz : cdok_puzzle) :
  0 <= v < 2 ^ 31 -> ps_eof p = 0 -> ps_value p < 0 ->
  push_loop (print_int v) p puz =
  (0, mk_parser 0 (ps_x p) (ps_y p) (ps_max_x p) v
                (ps_group_name p) (ps_group_type p), puz).
Proof.
  intros Hv He Hneg; unfold print_int.
  destruct (Z.ltb_spec v 0); [lia|].
  apply push_digits; auto; [lia|].
  change (10 ^ Z.of_nat 10) with 10000000000.
  change (2 ^ 31) with 2147483648 in Hv; lia.
Qed.

Lemma push_letter (i : Z) (p : cdok_parser) (puz : cdok_puzzle) :
  0 <= i < CDOK_GROUPS ->
  push_loop [cdok_group_to_char i] p puz =
  (0, mk_parser (ps_eof p) (ps_x p) (ps_y p) (ps_max_x p) (ps_value p) i
                (ps_group_type p), puz).
Proof.
  intros Hi; unfold CDOK_GROUPS in Hi.
  assert (E : (cdok_group_to_char i = i + 65 /\ i < 26) \/
              (cdok_group_to_char i = i + 71 /\ 26 <= i)).
  { unfold cdok_group_to_char; rewrite (uint8_cast_small i) by lia.
    destruct (Z.ltb_spec i 26); [left|right];
      rewrite uint8_cast_small by lia; lia. }
  assert (G : cdok_char_to_group (cdok_group_to_char i) = i).
  { unfold cdok_char_to_group.
    destruct E as [(-> & Hlt)|(-> & Hge)];
      rewrite (uint8_cast_small (i + _)) by lia.
    - destruct (Z.leb_spec 65 (i + 65)), (Z.leb_spec (i + 65) 90); try lia.
      cbn [andb]; rewrite uint8_cast_small by lia; lia.
    - destruct (Z.leb_spec 65 (i + 71)), (Z.leb_spec (i + 71) 90); try lia;
        cbn [andb];
        destruct (Z.leb_spec 97 (i + 71)), (Z.leb_spec (i + 71) 122); try lia;
        cbn [andb]; rewrite uint8_cast_small by lia; lia. }
  cbn [push_loop]; rewrite G.
  set (ch := cdok_group_to_char i) in *.
  assert (Hch : 65 <= ch <= 122) by (destruct E as [(-> & _)|(-> & _)]; lia).
  destruct (Z.eqb_spec ch 10); [lia|].
  unfold isspace, isdigit.
  destruct (Z.eqb_spec ch 32); [lia|].
  destruct (Z.leb_spec 9 ch), (Z.leb_spec ch 13); try lia; cbn [andb orb].
  destruct (Z.leb_spec 48 ch), (Z.leb_spec ch 57); try lia; cbn [andb].
  destruct (Z.eqb_spec ch 43), (Z.eqb_spec ch 45), (Z.eqb_spec ch 42),
    (Z.eqb_spec ch 47); try lia; cbn [orb].
  destruct (Z.eqb_spec i CDOK_GROUP_NONE) as [Ei|_]; [|reflexivity].
  exfalso; revert Ei; vm_compute; lia.
Qed.

Lemma push_type (t : cdok_gtype_t) (p : cdok_parser) (puz : cdok_puzzle) :
  valid_type t ->
  push_loop [uint8_cast t] p puz =
  (0, mk_parser (ps_eof p) (ps_x p) (ps_y p) (ps_max_x p) (ps_value p)
                (ps_group_name p) t, puz).
Proof.
  intros [-> | [-> | [-> | ->]]]; reflexivity.
Qed.

Lemma none_not_group (i : Z) : 0 <= i < CDOK_GROUPS -> i <> CDOK_GROUP_NONE.
Proof.
  unfold CDOK_GROUPS, CDOK_GROUP_NONE; lia.
Qed.

(** A cell of the square of a printable puzzle holds a given value and is
    in no group, or is blank and a member of the group that the map gives
    it. *)
Lemma printable_cell (puz : cdok_puzzle) (c : Z) :
  printable puz -> In c (square_cells (p_size puz)) ->
  0 <= c < CDOK_CELLS /\
  ((0 < rd (p_values puz) c < 256 /\
    forall i, 0 <= i < CDOK_GROUPS ->
              ~ In c (live_members (grp_at puz i))) \/
   (rd (p_values puz) c = 0 /\
    0 <= rd (p_group_map puz) c < CDOK_GROUPS /\
    In c (live_members (grp_at puz (rd (p_group_map puz) c))) /\
    valid_type (g_type (grp_at puz (rd (p_group_map puz) c))) /\
    0 <= g_target (grp_at puz (rd (p_group_map puz) c)) < 2 ^ 31)).
Proof.
  intros (Hn & _ & ((_ & _ & Hg & Hmap) & _) & Hclue & Hint & _ & Hsq) Hc.
  assert (Hr : 0 <= c < CDOK_CELLS)
    by (apply (square_cells_range (p_size puz)); [lia|exact Hc]).
  split; [exact Hr|].
  destruct (Hsq c Hc) as (Hv & Hor).
  destruct (Z.eq_dec (rd (p_values puz) c) 0) as [Ez|Enz].
  - right; destruct Hor as [|Hgm]; [contradiction|].
    destruct (Hmap c Hr Hgm) as (Hi & Hin).
    assert (Hsz : g_size (grp_at puz (rd (p_group_map puz) c)) <> 0).
    { intros Hz; rewrite live_members_nil in Hin by lia; destruct Hin. }
    destruct (Hclue _ Hi Hsz) as (Hty & Hta & _).
    split; [exact Ez|split; [exact Hi|split; [exact Hin|split; [exact Hty|]]]].
    split; [exact Hta|exact (Hint _ Hi Hsz)].
  - left; split; [lia|intros i Hi Hin].
    assert (Hsz : g_size (grp_at puz i) <> 0).
    { intros Hz; rewrite live_members_nil in Hin by lia; destruct Hin. }
    destruct (Hclue i Hi Hsz) as (_ & _ & _ & Hblank).
    exact (Enz (Hblank c Hin)).
Qed.

Lemma push_cell (puz cur : cdok_puzzle) (x y : Z) :
  printable puz -> 0 <= x < p_size puz -> 0 <= y < p_size puz ->
  push_loop (print_cell puz (p_values puz) (CDOK_POS x y))
            (clean_parser x y) cur =
  (0, cell_parser puz x y, cur).
Proof.
  intros Hp Hx Hy.
  assert (Hc : In (CDOK_POS x y) (square_cells (p_size puz)))
    by (apply square_cells_spec; exists x, y; auto).
  destruct (printable_cell puz _ Hp Hc)
    as (Hr & [(Hv & _)|(Hv & Hi & Hin & Hty & Hta)]);
    unfold print_cell, cell_parser; cbv zeta.
  - destruct (Z.eqb_spec (rd (p_values puz) (CDOK_POS x y)) 0); [lia|].
    cbn [negb]; apply push_int; [change (2 ^ 31) with 2147483648; lia| |];
      cbn; lia.
  - rewrite Hv; change (negb (0 =? 0)) with false; cbv iota.
    set (i := rd (p_group_map puz) (CDOK_POS x y)) in *.
    destruct (Z.eqb_spec i CDOK_GROUP_NONE) as [E|_];
      [exfalso; exact (none_not_group i Hi E)|cbn [negb]].
    pose proof (push_letter i (clean_parser x y) cur Hi) as Hl.
    destruct (rd (g_members (grp_at puz i)) 0 =? CDOK_POS x y).
    + rewrite (push_loop_seq _ _ _ _ _ _ Hl) by reflexivity.
      change (uint8_cast (g_type (grp_at puz i)) :: print_int (g_target (grp_at puz i)))
        with ([uint8_cast (g_type (grp_at puz i))] ++
              print_int (g_target (grp_at puz i))).
      rewrite (push_loop_seq _ _ _ _ _ _ (push_type _ _ cur Hty))
        by reflexivity.
      rewrite push_int; [reflexivity|exact Hta|reflexivity|cbn; lia].
    + rewrite app_nil_r; exact Hl.
Qed.

(** ** Ending a cell of the printed text *)

Lemma end_cell_given (x y v : Z) (cur : cdok_puzzle) :
  0 <= v -> 0 <= x < 16 -> 0 <= y < 16 ->
  parser_end_cell (mk_parser 0 x y 0 v CDOK_GROUP_NONE 0) cur =
  (0, clean_parser (x + 1) y,
   mk_puzzle (p_size cur) (p_groups cur)
             (wr (p_values cur) (CDOK_POS x y) (uint8_cast v))
             (p_group_map cur)).
Proof.
  intros Hv Hx Hy; unfold parser_end_cell, next_cell, clean_parser.
  cbn [ps_eof ps_x ps_y ps_max_x ps_value ps_group_name ps_group_type].
  destruct (Z.ltb_spec v 0); [lia|cbn [andb]].
  unfold CDOK_SIZE.
  destruct (Z.geb_spec x 16), (Z.geb_spec y 16); try lia; cbn [orb].
  change (negb (CDOK_GROUP_NONE =? CDOK_GROUP_NONE)) with false; cbv iota.
  rewrite uint_cast_small by lia; reflexivity.
Qed.

Lemma end_cell_member (x y i v : Z) (t : cdok_gtype_t) (cur : cdok_puzzle) :
  0 <= i < CDOK_GROUPS -> 0 <= x < 16 -> 0 <= y < 16 ->
  0 <= g_size (grp_at cur i) < CDOK_GROUP_SIZE ->
  (v = -1 /\ t = 0) \/
  (0 <= v /\ valid_type t /\ g_target (grp_at cur i) = -1 /\
   g_type (grp_at cur i) = 0) ->
  parser_end_cell (mk_parser 0 x y 0 v i t) cur =
  (0, clean_parser (x + 1) y,
   set_grp cur i
     (mk_group (if t =? 0 then g_type (grp_at cur i) else t)
               (if v <? 0 then g_target (grp_at cur i) else v)
               (g_size (grp_at cur i) + 1)
               (wr (g_members (grp_at cur i)) (g_size (grp_at cur i))
                   (CDOK_POS x y)))).
Proof.
  intros Hi Hx Hy Hs Hcase; unfold parser_end_cell, next_cell, clean_parser.
  cbn [ps_eof ps_x ps_y ps_max_x ps_value ps_group_name ps_group_type].
  destruct (Z.eqb_spec i CDOK_GROUP_NONE) as [E|_];
    [exfalso; exact (none_not_group i Hi E)|].
  rewrite andb_false_r; cbn [negb].
  unfold CDOK_SIZE, CDOK_GROUP_SIZE in *.
  destruct (Z.geb_spec x 16), (Z.geb_spec y 16); try lia; cbn [orb].
  destruct (Z.geb_spec (g_size (grp_at cur i)) 8); [lia|].
  cbn [g_type g_target g_size g_members].
  rewrite (uint_cast_small (x + 1)), (uint_cast_small (g_size _ + 1)) by lia.
  destruct Hcase as [(-> & ->)|(Hv & Hty & Htg & Htp)].
  - reflexivity.
  - rewrite Htg, Htp.
    destruct (Z.geb_spec v 0); [|lia].
    destruct (Z.ltb_spec v 0); [lia|].
    assert (Et : (t =? 0) = false)
      by (destruct Hty as [-> | [-> | [-> | ->]]]; reflexivity).
    rewrite Et; cbn [g_type g_target g_size g_members negb andb].
    change (-1 >=? 0) with false; cbn [andb]; reflexivity.
Qed.

Lemma live_members_length (g : cdok_group) :
  length (live_members g) = Z.to_nat (g_size g).
Proof.
  unfold live_members; rewrite length_map, range_length; f_equal; lia.
Qed.

(** The group of the next cell has room for it. *)
Lemma restored_room (puz : cdok_puzzle) (done : list Z) (cur : cdok_puzzle)
    (c : Z) :
  map_ok puz -> restored puz done cur ->
  0 <= c < CDOK_CELLS -> ~ In c done ->
  0 <= rd (p_group_map puz) c < CDOK_GROUPS ->
  0 <= g_size (grp_at cur (rd (p_group_map puz) c)) < CDOK_GROUP_SIZE.
Proof.
  intros (_ & _ & Hg & Hmap) (Hnd & Hdr & _ & _ & _ & Hgr) Hc Hout Hi.
  set (i := rd (p_group_map puz) c) in *.
  destruct (Hgr i Hi) as (_ & H0 & Hlive & _).
  destruct (Hg i Hi) as (Hsz & _ & _ & _).
  assert (Hincl : incl (c :: filter (fun d => rd (p_group_map puz) d =? i) done)
                       (live_members (grp_at puz i))).
  { intros d [<-|Hd].
    - apply (Hmap c Hc), none_not_group, Hi.
    - apply filter_In in Hd as (Hd & Ed); apply Z.eqb_eq in Ed.
      destruct (Hmap d (Hdr d Hd)) as (_ & Hin);
        [rewrite Ed; apply none_not_group, Hi|].
      rewrite Ed in Hin; exact Hin. }
  assert (Hnd' : NoDup (c :: filter (fun d => rd (p_group_map puz) d =? i) done)).
  { constructor; [|apply NoDup_filter, Hnd].
    intros Hin; apply filter_In in Hin as (Hin & _); exact (Hout Hin). }
  pose proof (NoDup_incl_length Hnd' Hincl) as Hlen.
  cbn [length] in Hlen.
  rewrite <- Hlive, !live_members_length in Hlen; lia.
Qed.

Lemma restored_add (puz : cdok_puzzle) (done : list Z) (cur : cdok_puzzle)
    (c i : Z) (t : cdok_gtype_t) (tg : Z) :
  map_ok puz -> restored puz done cur ->
  0 <= c < CDOK_CELLS -> ~ In c done ->
  rd (p_group_map puz) c = i -> 0 <= i < CDOK_GROUPS ->
  rd (p_values puz) c = 0 ->
  (rd (g_members (grp_at puz i)) 0 = c ->
   t = g_type (grp_at puz i) /\ tg = g_target (grp_at puz i)) ->
  (rd (g_members (grp_at puz i)) 0 <> c ->
   t = g_type (grp_at cur i) /\ tg = g_target (grp_at cur i)) ->
  restored puz (done ++ [c])
    (set_grp cur i
       (mk_group t tg (g_size (grp_at cur i) + 1)
                 (wr (g_members (grp_at cur i)) (g_size (grp_at cur i)) c))).
Proof.
  intros Hok Hres Hc Hout Hgi Hi Hblank Hfirst Hrest.
  assert (Hroom := restored_room puz done cur c Hok Hres Hc Hout).
  rewrite Hgi in Hroom; specialize (Hroom Hi).
  destruct Hok as (_ & _ & Hg & Hmap).
  destruct Hres as (Hnd & Hdr & Hlg & Hlv & Hval & Hgr).
  assert (Hlive_c : In c (live_members (grp_at puz i))).
  { destruct (Hmap c Hc) as (_ & Hin);
      [rewrite Hgi; apply none_not_group, Hi|rewrite Hgi in Hin; exact Hin]. }
  assert (Hsz : g_size (grp_at puz i) <> 0).
  { intros Hz; rewrite live_members_nil in Hlive_c by lia; destruct Hlive_c. }
  split; [|split; [|split; [|split; [|split]]]].
  - apply NoDup_app; [exact Hnd|repeat constructor; intros []|].
    intros d Hd [<-|[]]; exact (Hout Hd).
  - intros d Hd; apply in_app_or in Hd as [Hd|[<-|[]]];
      [exact (Hdr d Hd)|exact Hc].
  - unfold set_grp; cbn [p_groups]; rewrite upd_length; exact Hlg.
  - exact Hlv.
  - intros d Hd; cbn [set_grp p_values]; destruct (Hval d Hd) as (V1 & V2).
    split.
    + intros Hin; apply in_app_or in Hin as [Hin|[<-|[]]]; [exact (V1 Hin)|].
      rewrite Hblank; exact (proj2 (Hval c Hc) Hout).
    + intros Hn; apply V2; intros Hin; apply Hn, in_or_app; left; exact Hin.
  - intros j Hj; unfold set_grp.
    rewrite grp_at_upd by (unfold CDOK_GROUPS in *; lia).
    rewrite filter_app; cbn [filter]; rewrite Hgi.
    destruct (Hgr j Hj) as (G1 & G2 & G3 & G4 & G5).
    destruct (Z.eqb_spec i j) as [<-|Hne].
    + cbn [g_size g_members g_type g_target].
      split; [rewrite wr_length; exact G1|split; [lia|split; [|split]]].
      * rewrite <- G3; apply live_members_add; auto.
        rewrite G1; unfold CDOK_GROUP_SIZE in *; lia.
      * intros (_ & Hin); apply in_app_or in Hin as [Hin|[E|[]]].
        -- assert (Hne : rd (g_members (grp_at puz i)) 0 <> c)
             by (intros E; apply Hout; rewrite <- E; exact Hin).
           destruct (Hrest Hne) as (-> & ->); apply G4; auto.
        -- symmetry in E; destruct (Hfirst E) as (-> & ->); auto.
      * intros Hn.
        assert (Hne : rd (g_members (grp_at puz i)) 0 <> c).
        { intros E; apply Hn; split; [exact Hsz|].
          apply in_or_app; right; left; symmetry; exact E. }
        destruct (Hrest Hne) as (-> & ->); apply G5.
        intros (_ & Hin); apply Hn; split; [exact Hsz|].
        apply in_or_app; left; exact Hin.
    + rewrite app_nil_r.
      assert (Hf : g_size (grp_at puz j) <> 0 ->
                   rd (g_members (grp_at puz j)) 0 <> c).
      { intros Hsj E.
        destruct (Hg j Hj) as (Hs1 & _ & _ & Hmem).
        destruct (Hmem (rd (g_members (grp_at puz j)) 0)) as (_ & Hm).
        - apply in_live_members; exists 0; split; [lia|reflexivity].
        - rewrite E in Hm; congruence. }
      split; [exact G1|split; [exact G2|split; [exact G3|split]]].
      * intros (Hsj & Hin); apply G4; split; [exact Hsj|].
        apply in_app_or in Hin as [Hin|[E|[]]]; [exact Hin|].
        exfalso; exact (Hf Hsj (eq_sym E)).
      * intros Hn; apply G5; intros (Hsj & Hin); apply Hn.
        split; [exact Hsj|apply in_or_app; left; exact Hin].
Qed.

Lemma restored_given (puz : cdok_puzzle) (done : list Z) (cur : cdok_puzzle)
    (c : Z) :
  map_ok puz -> restored puz done cur ->
  0 <= c < CDOK_CELLS -> ~ In c done ->
  0 <= rd (p_values puz) c < 256 ->
  (forall i, 0 <= i < CDOK_GROUPS -> ~ In c (live_members (grp_at puz i))) ->
  restored puz (done ++ [c])
    (mk_puzzle (p_size cur) (p_groups cur)
               (wr (p_values cur) c (uint8_cast (rd (p_values puz) c)))
               (p_group_map cur)).
Proof.
  intros (_ & _ & Hg & Hmap) (Hnd & Hdr & Hlg & Hlv & Hval & Hgr)
         Hc Hout Hv Hfree.
  split; [|split; [|split; [|split; [|split]]]].
  - apply NoDup_app; [exact Hnd|repeat constructor; intros []|].
    intros d Hd [<-|[]]; exact (Hout Hd).
  - intros d Hd; apply in_app_or in Hd as [Hd|[<-|[]]];
      [exact (Hdr d Hd)|exact Hc].
  - exact Hlg.
  - cbn [p_values]; rewrite wr_length; exact Hlv.
  - intros d Hd; cbn [p_values]; destruct (Hval d Hd) as (V1 & V2).
    destruct (Z.eq_dec c d) as [<-|Hne].
    + rewrite rd_wr_same by (rewrite Hlv; exact Hc).
      rewrite uint8_cast_small by lia.
      split; [reflexivity|intros Hn; exfalso; apply Hn, in_or_app].
      right; left; reflexivity.
    + rewrite rd_wr_other by (lia || exact Hne).
      split.
      * intros Hin; apply in_app_or in Hin as [Hin|[E|[]]];
          [exact (V1 Hin)|contradiction].
      * intros Hn; apply V2; intros Hin; apply Hn, in_or_app; left; exact Hin.
  - intros j Hj.
    change (grp_at (mk_puzzle (p_size cur) (p_groups cur)
                      (wr (p_values cur) c (uint8_cast (rd (p_values puz) c)))
                      (p_group_map cur)) j) with (grp_at cur j).
    destruct (Hgr j Hj) as (G1 & G2 & G3 & G4 & G5).
    rewrite filter_app; cbn [filter].
    destruct (Z.eqb_spec (rd (p_group_map puz) c) j) as [E|_].
    { exfalso; apply (Hfree j Hj).
      destruct (Hmap c Hc) as (_ & Hin);
        [rewrite E; apply none_not_group, Hj|rewrite E in Hin; exact Hin]. }
    rewrite app_nil_r.
    assert (Hf : g_size (grp_at puz j) <> 0 ->
                 rd (g_members (grp_at puz j)) 0 <> c).
    { intros Hsj E; apply (Hfree j Hj); rewrite <- E.
      destruct (Hg j Hj) as (Hs1 & _).
      apply in_live_members; exists 0; split; [lia|reflexivity]. }
    split; [exact G1|split; [exact G2|split; [exact G3|split]]].
    + intros (Hsj & Hin); apply G4; split; [exact Hsj|].
      apply in_app_or in Hin as [Hin|[E|[]]]; [exact Hin|].
      exfalso; exact (Hf Hsj (eq_sym E)).
    + intros Hn; apply G5; intros (Hsj & Hin); apply Hn.
      split; [exact Hsj|apply in_or_app; left; exact Hin].
Qed.

Lemma cell_parser_eof (puz : cdok_puzzle) (x y : Z) :
  ps_eof (cell_parser puz x y) = 0.
Proof.
  unfold cell_parser; cbv zeta.
  destruct (negb _); [reflexivity|].
  destruct (_ =? _); reflexivity.
Qed.

(** Ending the cell at column [x] of row [y] of the printed text adds the
    cell to what has been rebuilt. *)
Lemma end_cell_restored (puz : cdok_puzzle) (done : list Z)
    (cur : cdok_puzzle) (x y : Z) :
  printable puz -> restored puz done cur ->
  0 <= x < p_size puz -> 0 <= y < p_size puz ->
  ~ In (CDOK_POS x y) done ->
  exists cur',
    parser_end_cell (cell_parser puz x y) cur =
    (0, clean_parser (x + 1) y, cur') /\
    restored puz (done ++ [CDOK_POS x y]) cur' /\
    p_size cur' = p_size cur.
Proof.
  intros Hp Hres Hx Hy Hout.
  assert (Hc : In (CDOK_POS x y) (square_cells (p_size puz)))
    by (apply square_cells_spec; exists x, y; auto).
  destruct (printable_cell puz _ Hp Hc)
    as (Hr & [(Hv & Hfree)|(Hv & Hi & Hin & Hty & Hta)]).
  all: destruct Hp as (Hn & _ & (Hok & _) & _); unfold CDOK_SIZE in Hn.
  all: unfold cell_parser; cbv zeta.
  - destruct (Z.eqb_spec (rd (p_values puz) (CDOK_POS x y)) 0); [lia|].
    cbn [negb]; rewrite end_cell_given by lia.
    eexists; split; [reflexivity|split; [|reflexivity]].
    apply restored_given; auto; lia.
  - rewrite Hv; change (negb (0 =? 0)) with false; cbv iota.
    set (i := rd (p_group_map puz) (CDOK_POS x y)) in *.
    assert (Hroom := restored_room puz done cur _ Hok Hres Hr Hout Hi).
    fold i in Hroom.
    destruct (Z.eqb_spec (rd (g_members (grp_at puz i)) 0) (CDOK_POS x y))
      as [Ef|Ef].
    + assert (Hfresh : g_type (grp_at cur i) = 0 /\ g_target (grp_at cur i) = -1).
      { destruct Hres as (_ & _ & _ & _ & _ & Hgr).
        destruct (Hgr i Hi) as (_ & _ & _ & _ & G5); apply G5.
        intros (_ & Hd); rewrite Ef in Hd; exact (Hout Hd). }
      rewrite end_cell_member; auto; try lia;
        [|right; split; [lia|split; [exact Hty|split; apply Hfresh]]].
      eexists; split; [reflexivity|split; [|reflexivity]].
      apply restored_add; auto.
      * intros _.
        destruct (Z.ltb_spec (g_target (grp_at puz i)) 0); [lia|].
        destruct Hty as [-> | [-> | [-> | ->]]]; split; reflexivity.
      * intros Hne; contradiction.
    + rewrite end_cell_member; auto; try lia.
      eexists; split; [reflexivity|split; [|reflexivity]].
      apply restored_add; auto; intros; try contradiction; split; reflexivity.
Qed.

(** ** The cells in reading order *)

Lemma cells_upto_snoc (n x y : Z) :
  0 <= x -> cells_upto n (x + 1) y = cells_upto n x y ++ [CDOK_POS x y].
Proof.
  intros Hx; unfold cells_upto.
  rewrite range_snoc, map_app, app_assoc by lia; reflexivity.
Qed.

Lemma cells_upto_row (n y : Z) :
  0 <= y -> cells_upto n n y = cells_upto n 0 (y + 1).
Proof.
  intros Hy; unfold cells_upto.
  rewrite (range_snoc 0 y), flat_map_app by lia; cbn [flat_map].
  rewrite (range_nil 0 0) by lia; cbn [map]; rewrite !app_nil_r; reflexivity.
Qed.

Lemma cells_upto_square (n : Z) : cells_upto n 0 n = square_cells n.
Proof.
  unfold cells_upto, square_cells.
  rewrite (range_nil 0 0) by lia; cbn [map]; apply app_nil_r.
Qed.

Lemma cells_upto_out (n x y : Z) :
  n <= 16 -> 0 <= x < 16 -> 0 <= y ->
  ~ In (CDOK_POS x y) (cells_upto n x y).
Proof.
  intros Hn Hx Hy Hin; unfold cells_upto in Hin.
  apply in_app_or in Hin as [Hin|Hin].
  - apply in_flat_map in Hin as (y' & Hy' & Hin).
    apply in_map_iff in Hin as (x' & E & Hx').
    apply in_range in Hy'; apply in_range in Hx'.
    apply CDOK_POS_inj in E; lia.
  - apply in_map_iff in Hin as (x' & E & Hx'); apply in_range in Hx'.
    apply CDOK_POS_inj in E; lia.
Qed.

Lemma restored_ext (puz : cdok_puzzle) (done : list Z)
    (cur cur' : cdok_puzzle) :
  p_groups cur' = p_groups cur -> p_values cur' = p_values cur ->
  restored puz done cur -> restored puz done cur'.
Proof.
  unfold restored, grp_at; intros -> ->; auto.
Qed.

Lemma restored_init (puz : cdok_puzzle) :
  restored puz [] (cdok_init_puzzle 0).
Proof.
  assert (Hg : forall i, 0 <= i < CDOK_GROUPS ->
                grp_at (cdok_init_puzzle 0) i =
                mk_group 0 (-1) 0 (repeat 0 8)).
  { intros i Hi; unfold grp_at, cdok_init_puzzle; cbn [p_groups].
    apply nth_repeat_lt; unfold CDOK_GROUPS in *; lia. }
  split; [constructor|split; [intros c []|split; [apply repeat_length|]]].
  split; [apply repeat_length|split].
  - intros c Hc; split; [intros []|intros _].
    unfold cdok_init_puzzle; cbn [p_values]; apply rd_repeat.
    unfold CDOK_CELLS in *; lia.
  - intros i Hi; rewrite (Hg i Hi); cbn [g_size g_members g_type g_target].
    split; [reflexivity|split; [lia|split; [reflexivity|split]]].
    + intros (_ & []).
    + intros _; split; reflexivity.
Qed.

(** ** The parser on the rows of the printed text *)

Lemma push_tab (p : cdok_parser) (cur : cdok_puzzle) (p' : cdok_parser)
    (cur' : cdok_puzzle) :
  parser_end_cell p cur = (0, p', cur') -> push_loop [9] p cur = (0, p', cur').
Proof.
  intros E; cbn [push_loop].
  change (9 =? 10) with false; change (isspace 9) with true; cbv iota.
  rewrite E; reflexivity.
Qed.

Lemma push_newline (p : cdok_parser) (cur : cdok_puzzle) (n y : Z)
    (cur' : cdok_puzzle) :
  parser_end_cell p cur = (0, clean_parser n y, cur') ->
  1 <= n -> 0 <= y < 16 -> y = 0 \/ p_size cur' = n ->
  exists cur'',
    push_loop [10] p cur = (0, clean_parser 0 (y + 1), cur'') /\
    p_size cur'' = n /\ p_groups cur'' = p_groups cur' /\
    p_values cur'' = p_values cur'.
Proof.
  intros E Hn Hy Hsize; cbn [push_loop].
  change (10 =? 10) with true; cbv iota; rewrite E.
  change (0 <? 0) with false; cbv iota.
  cbn [clean_parser ps_eof ps_x ps_y ps_max_x ps_value ps_group_name
       ps_group_type].
  destruct (Z.eqb_spec n 0); [lia|].
  rewrite uint_cast_small by lia.
  destruct (Z.eqb_spec y 0) as [Ey|Ey].
  - eexists; split; [reflexivity|auto].
  - destruct Hsize as [|Hs]; [contradiction|].
    rewrite Hs, Z.eqb_refl; cbn [negb].
    eexists; split; [reflexivity|auto].
Qed.

Lemma push_row_cells (puz cur : cdok_puzzle) (y : Z) :
  printable puz -> 0 <= y < p_size puz ->
  restored puz (cells_upto (p_size puz) 0 y) cur ->
  forall k : nat, (1 <= k)%nat -> Z.of_nat k <= p_size puz ->
    exists cur',
      push_loop
        (flat_map (fun x => (if negb (x =? 0) then [9] else []) ++
                            print_cell puz (p_values puz) (CDOK_POS x y))
                  (range 0 (Z.of_nat k)))
        (clean_parser 0 y) cur =
      (0, cell_parser puz (Z.of_nat k - 1) y, cur') /\
      restored puz (cells_upto (p_size puz) (Z.of_nat k - 1) y) cur' /\
      p_size cur' = p_size cur.
Proof.
  intros Hp Hy Hres.
  assert (Hn : p_size puz <= 16) by (destruct Hp as (Hn & _); exact (proj2 Hn)).
  induction k as [|k IH]; intros Hk Hkn; [lia|].
  destruct k as [|k].
  - exists cur; change (range 0 (Z.of_nat 1)) with [0]; cbn [flat_map].
    change (Z.of_nat 1 - 1) with 0.
    change (negb (0 =? 0)) with false; cbv iota; rewrite app_nil_l, app_nil_r.
    split; [apply push_cell; auto; lia|split; [exact Hres|reflexivity]].
  - destruct IH as (cur1 & Hpush & Hres1 & Hs1); [lia|lia|].
    set (K := Z.of_nat (S k)) in *.
    replace (Z.of_nat (S (S k))) with (K + 1) by lia.
    replace (K + 1 - 1) with K by lia.
    rewrite range_snoc, flat_map_app by lia; cbn [flat_map].
    rewrite (push_loop_seq _ _ _ _ _ _ Hpush)
      by (reflexivity || apply cell_parser_eof).
    destruct (Z.eqb_spec K 0); [lia|cbn [negb]].
    rewrite app_nil_r.
    destruct (end_cell_restored puz _ cur1 (K - 1) y Hp Hres1)
      as (cur2 & Hend & Hres2 & Hs2); [lia|lia|apply cells_upto_out; lia|].
    rewrite <- cells_upto_snoc in Hres2 by lia.
    replace (K - 1 + 1) with K in Hend, Hres2 by lia.
    rewrite (push_loop_seq _ _ _ _ _ _ (push_tab _ _ _ _ Hend))
      by (reflexivity || apply cell_parser_eof).
    exists cur2; split; [apply push_cell; auto; lia|].
    split; [exact Hres2|congruence].
Qed.

Lemma push_row (puz cur : cdok_puzzle) (y : Z) :
  printable puz -> 0 <= y < p_size puz ->
  restored puz (cells_upto (p_size puz) 0 y) cur ->
  y = 0 \/ p_size cur = p_size puz ->
  exists cur',
    push_loop
      (flat_map (fun x => (if negb (x =? 0) then [9] else []) ++
                          print_cell puz (p_values puz) (CDOK_POS x y))
                (range 0 (p_size puz)) ++ [10])
      (clean_parser 0 y) cur =
    (0, clean_parser 0 (y + 1), cur') /\
    restored puz (cells_upto (p_size puz) 0 (y + 1)) cur' /\
    p_size cur' = p_size puz.
Proof.
  intros Hp Hy Hres Hsize.
  assert (Hn : 1 <= p_size puz <= 16) by (destruct Hp as (Hn & _); exact Hn).
  destruct (push_row_cells puz cur y Hp Hy Hres (Z.to_nat (p_size puz)))
    as (cur1 & Hpush & Hres1 & Hs1); [lia|lia|].
  rewrite Z2Nat.id in Hpush, Hres1 by lia.
  rewrite (push_loop_seq _ _ _ _ _ _ Hpush)
    by (reflexivity || apply cell_parser_eof).
  destruct (end_cell_restored puz _ cur1 (p_size puz - 1) y Hp Hres1)
    as (cur2 & Hend & Hres2 & Hs2); [lia|lia|apply cells_upto_out; lia|].
  rewrite <- cells_upto_snoc in Hres2 by lia.
  replace (p_size puz - 1 + 1) with (p_size puz) in Hend, Hres2 by lia.
  rewrite cells_upto_row in Hres2 by lia.
  destruct (push_newline _ cur1 (p_size puz) y cur2 Hend)
    as (cur3 & Hnl & Hs3 & Hg3 & Hv3); [lia|lia| |].
  { destruct Hsize as [Hy0|Hs]; [left; exact Hy0|right; congruence]. }
  exists cur3; split; [exact Hnl|split; [|exact Hs3]].
  exact (restored_ext puz _ cur2 cur3 Hg3 Hv3 Hres2).
Qed.

Lemma push_rows (puz : cdok_puzzle) :
  printable puz ->
  forall k : nat, Z.of_nat k <= p_size puz ->
    exists cur,
      push_loop
        (flat_map
           (fun y =>
              flat_map (fun x => (if negb (x =? 0) then [9] else []) ++
                                 print_cell puz (p_values puz) (CDOK_POS x y))
                       (range 0 (p_size puz)) ++ [10])
           (range 0 (Z.of_nat k)))
        (clean_parser 0 0) (cdok_init_puzzle 0) =
      (0, clean_parser 0 (Z.of_nat k), cur) /\
      restored puz (cells_upto (p_size puz) 0 (Z.of_nat k)) cur /\
      (k = 0%nat \/ p_size cur = p_size puz).
Proof.
  intros Hp; induction k as [|k IH]; intros Hk.
  - exists (cdok_init_puzzle 0); split; [reflexivity|].
    split; [apply restored_init|left; reflexivity].
  - destruct IH as (cur & Hpush & Hres & Hsize); [lia|].
    replace (Z.of_nat (S k)) with (Z.of_nat k + 1) by lia.
    rewrite range_snoc, flat_map_app by lia; cbn [flat_map].
    rewrite (push_loop_seq _ _ _ _ _ _ Hpush) by reflexivity.
    rewrite app_nil_r.
    destruct (push_row puz cur (Z.of_nat k) Hp ltac:(lia) Hres)
      as (cur' & Hrow & Hres' & Hs'); [destruct Hsize; [left; lia|right; auto]|].
    exists cur'; split; [exact Hrow|split; [exact Hres'|right; exact Hs']].
Qed.

(** ** The puzzle that is read back *)

Lemma list_eq_rd (l l' : list Z) :
  length l = length l' ->
  (forall i, 0 <= i < Z.of_nat (length l) -> rd l i = rd l' i) ->
  l = l'.
Proof.
  intros Hlen H; apply (nth_ext l l' 0 0 Hlen); intros k Hk.
  specialize (H (Z.of_nat k) ltac:(lia)); unfold rd in H.
  rewrite Nat2Z.id in H; exact H.
Qed.

Lemma connected_same (l l' : list Z) :
  (forall c, In c l <-> In c l') -> connected l -> connected l'.
Proof.
  intros Hiff Hc a b Ha Hb.
  apply (linked_mono (fun c => In c l)); [intros c; apply Hiff|].
  apply Hc; apply Hiff; assumption.
Qed.

(** When all cells of the square are ended the groups are those of the
    printed puzzle, with their members in reading order. *)
Lemma restored_groups (puz cur : cdok_puzzle) (i : Z) :
  printable puz -> restored puz (square_cells (p_size puz)) cur ->
  0 <= i < CDOK_GROUPS ->
  Permutation (live_members (grp_at cur i)) (live_members (grp_at puz i)) /\
  g_size (grp_at cur i) = g_size (grp_at puz i) /\
  (g_size (grp_at puz i) <> 0 ->
   g_type (grp_at cur i) = g_type (grp_at puz i) /\
   g_target (grp_at cur i) = g_target (grp_at puz i)).
Proof.
  intros (Hn & _ & ((_ & _ & Hg & Hmap) & _) & _ & _ & Hsq & _)
         (Hnd & Hdr & _ & _ & _ & Hgr) Hi.
  destruct (Hgr i Hi) as (_ & G2 & G3 & G4 & _).
  destruct (Hg i Hi) as (Hs & _ & Hndl & Hmem).
  assert (Hperm : Permutation (live_members (grp_at cur i))
                              (live_members (grp_at puz i))).
  { rewrite G3; apply NoDup_Permutation;
      [apply NoDup_filter, Hnd|exact Hndl|].
    intros d; rewrite filter_In, Z.eqb_eq; split.
    - intros (Hd & Ed).
      destruct (Hmap d (Hdr d Hd)) as (_ & Hin);
        [rewrite Ed; apply none_not_group, Hi|rewrite Ed in Hin; exact Hin].
    - intros Hd; split; [exact (Hsq i d Hi Hd)|exact (proj2 (Hmem d Hd))]. }
  split; [exact Hperm|split].
  - apply Permutation_length in Hperm.
    rewrite !live_members_length in Hperm; lia.
  - intros Hsz; apply G4; split; [exact Hsz|].
    apply (Hsq i _ Hi), in_live_members; exists 0; split; [lia|reflexivity].
Qed.

Lemma restored_validate_groups (puz cur : cdok_puzzle) :
  printable puz -> restored puz (square_cells (p_size puz)) cur ->
  validate_groups cur = 0.
Proof.
  intros Hp Hres; unfold validate_groups.
  destruct (find _ _) as [i|] eqn:E; [exfalso|reflexivity].
  apply find_some in E as (Hi & Hf); apply in_range in Hi.
  destruct (restored_groups puz cur i Hp Hres Hi) as (_ & Hs & Ht).
  destruct Hp as (_ & _ & (_ & Hshape) & Hclue & _).
  unfold group_fault in Hf; rewrite Hs in Hf.
  destruct (Z.eqb_spec (g_size (grp_at puz i)) 0) as [|Hsz]; [discriminate|].
  destruct (Ht Hsz) as (Hty & Htg); rewrite Hty, Htg in Hf.
  destruct (Hclue i Hi Hsz) as (Hv & Hta & Hnz & _).
  destruct (Hshape i Hi Hsz) as (H2 & _).
  assert (Et : (g_type (grp_at puz i) =? 0) = false)
    by (destruct Hv as [-> | [-> | [-> | ->]]]; reflexivity).
  rewrite Et in Hf.
  destruct (Z.ltb_spec (g_target (grp_at puz i)) 0); [lia|].
  destruct (Z.ltb_spec (g_size (grp_at puz i)) 2); [lia|].
  apply andb_prop in Hf as (Hf1 & Hf2); apply Z.eqb_eq in Hf2.
  apply Hnz; [|exact Hf2].
  apply orb_prop in Hf1 as [Hf1|Hf1]; apply Z.eqb_eq in Hf1; auto.
Qed.

Lemma print_text_nonempty (puz : cdok_puzzle) (values : list Z) :
  1 <= p_size puz ->
  (Z.of_nat (length (cdok_print_puzzle puz values)) >? 0) = true.
Proof.
  intros Hn; rewrite cdok_print_puzzle_text.
  assert (E : range 0 (p_size puz) =
              range 0 (p_size puz - 1) ++ [p_size puz - 1])
    by (rewrite <- range_snoc by lia; f_equal; lia).
  match goal with
  | |- context [flat_map ?f (range 0 (p_size puz))] => set (row := f)
  end.
  rewrite E, flat_map_app; cbn [flat_map]; unfold row.
  apply Z.gtb_lt; rewrite !length_app; cbn [length]; lia.
Qed.

(** X14. What [cdok_print_puzzle] writes, [read_puzzle] reads back: for a
    well-formed puzzle in which every cell of the square holds a given
    value or belongs to a group, the text printed with the puzzle's own
    values is accepted, and the puzzle read has the same size, the same
    given values in the square, the same cell-to-group map, and groups of
    the same cells, type and target. *)
Theorem print_read_round_trip (puz : cdok_puzzle) :
  printable puz ->
  exists puz',
    read_puzzle [cdok_print_puzzle puz (p_values puz)] = Some (0, puz') /\
    same_puzzle puz puz'.
Proof.
  intros Hp.
  assert (Hn : 1 <= p_size puz <= 16) by (destruct Hp as (Hn & _); exact Hn).
  destruct (push_rows puz Hp (Z.to_nat (p_size puz)))
    as (cur & Hpush & Hres & Hsize); [lia|].
  rewrite Z2Nat.id, <- cdok_print_puzzle_text in Hpush by lia.
  rewrite Z2Nat.id, cells_upto_square in Hres by lia.
  destruct Hsize as [Hz|Hsize]; [lia|].
  pose proof (push_loop_parsing _ _ _ _ _ parsing_init Hpush) as Hpars.
  pose proof (parsing_map_ok _ _ Hpars) as Hmok.
  assert (Hconn : forall i, 0 <= i < CDOK_GROUPS ->
            connected (live_members (grp_at (build_group_map cur) i))).
  { intros i Hi; change (grp_at (build_group_map cur) i) with (grp_at cur i).
    destruct (restored_groups puz cur i Hp Hres Hi) as (Hperm & Hs & _).
    destruct Hp as (_ & _ & (_ & Hshape) & _).
    destruct (Z.eq_dec (g_size (grp_at puz i)) 0) as [Hz|Hnz].
    - rewrite live_members_nil by lia; intros a b [].
    - apply (connected_same (live_members (grp_at puz i)));
        [|exact (proj2 (Hshape i Hi Hnz))].
      intros c; split;
        [apply (Permutation_in c (Permutation_sym Hperm))|
         apply (Permutation_in c Hperm)]. }
  exists (build_group_map cur); split.
  - unfold read_puzzle.
    change cdok_parser_init with (clean_parser 0 0, cdok_init_puzzle 0).
    cbv iota beta; cbn [read_loop].
    rewrite (print_text_nonempty puz (p_values puz) (proj1 Hn)).
    unfold cdok_parser_push; cbn [clean_parser ps_eof].
    change (negb (0 =? 0)) with false; cbv iota.
    rewrite Hpush; change (0 <? 0) with false; cbv iota.
    unfold cdok_parser_end.
    change (parser_end_cell (clean_parser 0 (p_size puz)) cur)
      with (0, clean_parser 0 (p_size puz), cur).
    change (0 <? 0) with false; cbv iota.
    cbn [clean_parser ps_y]; rewrite Hsize, Z.ltb_irrefl.
    destruct (Z.eqb_spec (p_size puz) 0); [lia|].
    rewrite (restored_validate_groups puz cur Hp Hres).
    change (0 <? 0) with false; cbv iota.
    rewrite (validate_group_map_complete _ Hmok Hconn).
    cbn [clean_parser ps_y obind]; rewrite ?Z.ltb_irrefl; reflexivity.
  - pose proof Hres as (_ & _ & _ & Hlv & Hval & _).
    split; [exact Hsize|split; [exact Hlv|split; [exact Hval|split]]].
    + pose proof Hp as (_ & _ & ((_ & Hl & _ & Hmap) & _) & _).
      destruct Hmok as (_ & Hl' & Hg' & Hmap').
      apply list_eq_rd; [congruence|intros c Hc].
      rewrite Hl' in Hc; change (Z.of_nat (Z.to_nat CDOK_CELLS))
                             with CDOK_CELLS in Hc.
      destruct (Z.eq_dec (rd (p_group_map puz) c) CDOK_GROUP_NONE) as [E|E].
      * rewrite E.
        destruct (Z.eq_dec (rd (p_group_map (build_group_map cur)) c)
                           CDOK_GROUP_NONE) as [E'|E']; [exact E'|exfalso].
        destruct (Hmap' c Hc E') as (Hi & Hin).
        set (j := rd (p_group_map (build_group_map cur)) c) in *.
        change (grp_at (build_group_map cur) j) with (grp_at cur j) in Hin.
        destruct Hres as (_ & _ & _ & _ & _ & Hgr).
        destruct (Hgr j Hi) as (_ & _ & G3 & _).
        rewrite G3 in Hin; apply filter_In in Hin as (_ & Hin).
        apply Z.eqb_eq in Hin; rewrite E in Hin.
        exact (none_not_group j Hi (eq_sym Hin)).
      * destruct (Hmap c Hc E) as (Hi & Hin).
        set (j := rd (p_group_map puz) c) in *.
        destruct (Hg' j Hi) as (_ & _ & _ & Hmem).
        apply Hmem.
        change (grp_at (build_group_map cur) j) with (grp_at cur j).
        destruct (restored_groups puz cur j Hp Hres Hi) as (Hperm & _).
        exact (Permutation_in c (Permutation_sym Hperm) Hin).
    + intros i Hi; change (grp_at (build_group_map cur) i) with (grp_at cur i).
      destruct (restored_groups puz cur i Hp Hres Hi) as (Hperm & Hs & Ht).
      split; [exact Hs|split; [exact Hperm|exact Ht]].
Qed.

Lemma existsb_eqb_in (c : Z) (l : list Z) :
  existsb (Z.eqb c) l = true -> In c l.
Proof.
  intros H; apply existsb_exists in H as (c' & Hc' & E).
  apply Z.eqb_eq in E; subst c'; exact Hc'.
Qed.

Lemma printableb_sound (puz : cdok_puzzle) :
  printableb puz = true -> printable puz.
Proof.
  unfold printableb; cbv zeta; intros H.
  apply andb_true_iff in H as [H Hfill].
  apply andb_true_iff in H as [H Hsq].
  apply andb_true_iff in H as [H Hmap].
  apply andb_true_iff in H as [H Hg].
  apply andb_true_iff in H as [H Hlm].
  apply andb_true_iff in H as [H Hlg].
  apply andb_true_iff in H as [H Hlv].
  apply andb_true_iff in H as [H1 H2].
  apply Z.leb_le in H1, H2; apply Z.eqb_eq in Hlv, Hlg, Hlm.
  rewrite forallb_forall in Hg, Hmap, Hsq.
  assert (Hgroup : forall i, 0 <= i < CDOK_GROUPS ->
            (0 <= g_size (grp_at puz i) <= CDOK_GROUP_SIZE /\
             length (g_members (grp_at puz i)) = Z.to_nat CDOK_GROUP_SIZE /\
             NoDup (live_members (grp_at puz i)) /\
             forall c, In c (live_members (grp_at puz i)) ->
               (0 <= c < CDOK_CELLS /\ rd (p_group_map puz) c = i) /\
               rd (p_values puz) c = 0 /\
               In c (square_cells (p_size puz))) /\
            (g_size (grp_at puz i) <> 0 ->
             2 <= g_size (grp_at puz i) /\
             valid_type (g_type (grp_at puz i)) /\
             0 <= g_target (grp_at puz i) < 2 ^ 31 /\
             (g_type (grp_at puz i) = CDOK_RATIO \/
              g_type (grp_at puz i) = CDOK_PRODUCT ->
              g_target (grp_at puz i) <> 0))).
  { intros i Hi.
    specialize (Hg i (proj2 (in_range 0 CDOK_GROUPS i) Hi)); cbv zeta in Hg.
    apply andb_true_iff in Hg as [Hg Huse].
    apply andb_true_iff in Hg as [Hg Hmem].
    apply andb_true_iff in Hg as [Hg Hd].
    apply andb_true_iff in Hg as [Hg Hl].
    apply andb_true_iff in Hg as [Hs1 Hs2].
    apply Z.leb_le in Hs1, Hs2; apply Z.eqb_eq in Hl.
    rewrite forallb_forall in Hmem.
    split.
    - split; [lia|split; [unfold CDOK_GROUP_SIZE in *; lia|]].
      split; [apply distinctb_sound; exact Hd|].
      intros c Hc; specialize (Hmem c Hc).
      apply andb_true_iff in Hmem as [Hmem Hin].
      apply andb_true_iff in Hmem as [Hmem Hv].
      apply andb_true_iff in Hmem as [Hmem Hm].
      apply andb_true_iff in Hmem as [Hc1 Hc2].
      apply Z.leb_le in Hc1; apply Z.ltb_lt in Hc2.
      apply Z.eqb_eq in Hv, Hm.
      split; [split; [lia|exact Hm]|split; [exact Hv|]].
      exact (existsb_eqb_in _ _ Hin).
    - intros Hnz.
      destruct (Z.eqb_spec (g_size (grp_at puz i)) 0) as [|_]; [contradiction|].
      cbn [orb] in Huse.
      apply andb_true_iff in Huse as [Huse Hzero].
      apply andb_true_iff in Huse as [Huse Ht2].
      apply andb_true_iff in Huse as [Huse Ht1].
      apply andb_true_iff in Huse as [Hs Hty].
      apply Z.leb_le in Hs, Ht1; apply Z.ltb_lt in Ht2.
      split; [exact Hs|split; [|split; [lia|]]].
      + unfold valid_typeb in Hty; unfold valid_type.
        repeat (apply orb_prop in Hty as [Hty|Hty]);
          apply Z.eqb_eq in Hty; auto.
      + intros Hrp Hz; rewrite Hz in Hzero.
        destruct Hrp as [E|E]; rewrite E in Hzero; discriminate. }
  assert (Hconn : forall i, 0 <= i < CDOK_GROUPS ->
                    connected (live_members (grp_at puz i))).
  { assert (Hok : map_ok puz).
    { split; [unfold CDOK_GROUPS in *; lia|
              split; [unfold CDOK_CELLS in *; lia|split]].
      - intros i Hi; destruct (Hgroup i Hi) as ((A & B & C & D) & _).
        split; [exact A|split; [exact B|split; [exact C|]]].
        intros c Hc; exact (proj1 (D c Hc)).
      - intros c Hc Hne.
        specialize (Hmap c (proj2 (in_range 0 CDOK_CELLS c) Hc)).
        destruct (Z.eqb_spec (rd (p_group_map puz) c) CDOK_GROUP_NONE);
          [contradiction|cbn [orb] in Hmap].
        apply andb_true_iff in Hmap as [Hmap Hin].
        apply andb_true_iff in Hmap as [M1 M2].
        apply Z.leb_le in M1; apply Z.ltb_lt in M2.
        split; [lia|exact (existsb_eqb_in _ _ Hin)]. }
    destruct (validate_group_map_spec puz Hok) as (r & Hr & _ & Hsound).
    rewrite Hr in Hfill; apply Hsound.
    destruct r as [|r|r]; [reflexivity|discriminate|discriminate]. }
  split; [unfold CDOK_SIZE in *; lia|].
  split; [unfold CDOK_CELLS in *; lia|].
  split; [split; [split; [unfold CDOK_GROUPS in *; lia|
                          split; [unfold CDOK_CELLS in *; lia|split]]|]|].
  - intros i Hi; destruct (Hgroup i Hi) as ((A & B & C & D) & _).
    split; [exact A|split; [exact B|split; [exact C|]]].
    intros c Hc; exact (proj1 (D c Hc)).
  - intros c Hc Hne.
    specialize (Hmap c (proj2 (in_range 0 CDOK_CELLS c) Hc)).
    destruct (Z.eqb_spec (rd (p_group_map puz) c) CDOK_GROUP_NONE);
      [contradiction|cbn [orb] in Hmap].
    apply andb_true_iff in Hmap as [Hmap Hin].
    apply andb_true_iff in Hmap as [M1 M2].
    apply Z.leb_le in M1; apply Z.ltb_lt in M2.
    split; [lia|exact (existsb_eqb_in _ _ Hin)].
  - intros i Hi Hnz; destruct (Hgroup i Hi) as (_ & Huse).
    split; [exact (proj1 (Huse Hnz))|exact (Hconn i Hi)].
  - split; [|split; [|split]].
    + intros i Hi Hnz; destruct (Hgroup i Hi) as ((_ & _ & _ & D) & Huse).
      destruct (Huse Hnz) as (_ & Hty & Hta & Hz).
      split; [exact Hty|split; [lia|split; [exact Hz|]]].
      intros c Hc; exact (proj1 (proj2 (D c Hc))).
    + intros i Hi Hnz; destruct (Hgroup i Hi) as (_ & Huse).
      destruct (Huse Hnz) as (_ & _ & Hta & _); lia.
    + intros i c Hi Hc; destruct (Hgroup i Hi) as ((_ & _ & _ & D) & _).
      exact (proj2 (proj2 (D c Hc))).
    + intros c Hc; specialize (Hsq c Hc).
      apply andb_true_iff in Hsq as [Hsq Hor].
      apply andb_true_iff in Hsq as [V1 V2].
      apply Z.leb_le in V1; apply Z.ltb_lt in V2.
      split; [lia|].
      apply orb_prop in Hor as [Hor|Hor]; apply negb_true_iff in Hor;
        apply Z.eqb_neq in Hor; auto.
Qed.

Lemma print_read_round_trip_witness :
  exists puz',
    read_puzzle [cdok_print_puzzle seed_puzzle (p_values seed_puzzle)] =
    Some (0, puz') /\
    same_puzzle seed_puzzle puz'.
Proof.
  apply (print_read_round_trip seed_puzzle).
  apply printableb_sound; vm_compute; reflexivity.
Defined.

(** ** The bytes of a character *)








